(** * alembic/revision.py: the revision map, embedded and verified

    A shallow embedding of [alembic.revision]: the [Revision] node, the
    lazily built [RevisionMap] index (its dictionary, [heads], [bases] and
    branch labels), identifier resolution and the range traversal
    [iterate_revisions].

    Python objects are mutable and shared: the dictionary, the deques and
    the sets of the source all hold references to the same [Revision]
    objects.  The embedding keeps an explicit object store ([objs], a list
    indexed by reference) and every container holds references into it.
    Exceptions are values of [exn] carried by the [result] monad.  The
    [while] loops of the source may run forever on a cyclic graph, so every
    loop and every recursive call takes a step budget [fuel]; running out
    of it is the error [RecursionError]. *)

From Stdlib Require Import String Ascii List ZArith NArith Lia Bool Arith PeanoNat.
From Stdlib Require Import Finite Permutation.
Import ListNotations.
Open Scope string_scope.
Open Scope list_scope.

Set Implicit Arguments.
Set Warnings "-register-all".

(* ================================================================== *)
(** ** Python values *)

(** An argument that is [None], a [str] or a tuple of [str]: what the
    constructor of [Revision] receives for [down_revision] and
    [branch_labels]. *)
Inductive pyval : Type :=
| PNone : pyval
| PStr (s : string) : pyval
| PTuple (l : list string) : pyval.

(** A revision identifier as the public methods receive it: [None], a
    string, or a list/tuple/set of identifiers. *)
Inductive ident : Type :=
| INone : ident
| IStr (s : string) : ident
| ISeq (l : list ident) : ident.

(** Keys of the dictionary [_revision_map]: revision ids and branch labels
    (strings), [None], and tuples ([KTuple []] is the sentinel [()]). *)
Inductive key : Type :=
| KNone : key
| KStr (s : string) : key
| KTuple (l : list string) : key.

Fixpoint strs_eqb (a b : list string) : bool :=
  match a, b with
  | [], [] => true
  | x :: a', y :: b' => String.eqb x y && strs_eqb a' b'
  | _, _ => false
  end.

Definition key_eqb (a b : key) : bool :=
  match a, b with
  | KNone, KNone => true
  | KStr x, KStr y => String.eqb x y
  | KTuple x, KTuple y => strs_eqb x y
  | _, _ => false
  end.

Definition key_of_pyval (v : pyval) : key :=
  match v with
  | PNone => KNone
  | PStr s => KStr s
  | PTuple l => KTuple l
  end.

(** References to [Revision] objects: positions in the object store. *)
Abbreviation ref := nat (only parsing).

(** A dictionary value or a tuple element: a [Revision] object or [None]. *)
Abbreviation node := (option nat) (only parsing).

Definition node_eqb (a b : node) : bool :=
  match a, b with
  | None, None => true
  | Some x, Some y => Nat.eqb x y
  | _, _ => false
  end.

(* ------------------------------------------------------------------ *)
(** *** Strings *)

Definition at_sign : ascii := "@"%char.
Definition newline : ascii := "010"%char.

(** ["@" in s] *)
Fixpoint contains_at (s : string) : bool :=
  match s with
  | EmptyString => false
  | String c r => Ascii.eqb c at_sign || contains_at r
  end.

(** [s.split('@', 1)] for a string that contains ['@']: the text before
    the first ['@'] and the text after it. *)
Fixpoint split_at (s : string) : string * string :=
  match s with
  | EmptyString => (EmptyString, EmptyString)
  | String c r =>
      if Ascii.eqb c at_sign then (EmptyString, r)
      else let (a, b) := split_at r in (String c a, b)
  end.

(** [x.startswith(p)] *)
Definition startswith (x p : string) : bool := String.prefix p x.

(** [x.endswith(p)] *)
Definition endswith (x p : string) : bool :=
  let n := String.length x in
  let m := String.length p in
  (m <=? n)%nat && String.eqb (String.substring (n - m) m x) p.

(** [sep.join(l)] *)
Fixpoint join (sep : string) (l : list string) : string :=
  match l with
  | [] => EmptyString
  | [x] => x
  | x :: r => (x ++ sep ++ join sep r)%string
  end.

(** Truth value of a string: the empty string is false. *)
Definition str_truthy (s : string) : bool :=
  match s with EmptyString => false | _ => true end.

(** Truth value of a string or [None]. *)
Definition opt_truthy (o : option string) : bool :=
  match o with Some s => str_truthy s | None => false end.

(* ------------------------------------------------------------------ *)
(** *** Sets and tuples

    A Python [set], [frozenset] or [OrderedSet] is a list without
    duplicates.  The iteration order of an [OrderedSet] is the insertion
    order; for [set] and [frozenset] the source relies on no particular
    order, and the embedding fixes the insertion order. *)

Section Sets.
Variable A : Type.
Variable eqb : A -> A -> bool.

Definition mem (x : A) (l : list A) : bool := existsb (eqb x) l.

(** [s.add(x)] *)
Definition set_add (x : A) (l : list A) : list A :=
  if mem x l then l else l ++ [x].

(** [s.update(xs)], [s.union(xs)] *)
Definition set_update (l xs : list A) : list A :=
  fold_left (fun acc x => set_add x acc) xs l.

(** [set(xs)] *)
Definition set_of (xs : list A) : list A := set_update [] xs.

(** [s.discard(x)] *)
Definition set_discard (x : A) (l : list A) : list A :=
  filter (fun y => negb (eqb x y)) l.

(** [s.intersection(xs)] *)
Definition set_inter (l xs : list A) : list A :=
  filter (fun y => mem y xs) l.

(** [s.difference(xs)] *)
Definition set_diff (l xs : list A) : list A :=
  filter (fun y => negb (mem y xs)) l.
End Sets.

Definition str_mem := mem String.eqb.
Definition str_set_add := set_add String.eqb.
Definition str_set_update := set_update String.eqb.
Definition str_set_of := set_of String.eqb.
Definition ref_mem := mem Nat.eqb.
Definition ref_set_of := set_of Nat.eqb.
Definition node_mem := mem node_eqb.

(** Modelled from the spec: [util.to_tuple(x, default)] is not part of the
    file; it normalises a value to a tuple ([None] gives the default, a
    string a one-element tuple, a sequence its elements). *)
Definition to_tuple (x : pyval) (default : list string) : list string :=
  match x with
  | PNone => default
  | PStr s => [s]
  | PTuple l => l
  end.

(** Python slices [l[start:]] and [l[0:stop]] with negative indices. *)
Definition slice_index (len : nat) (i : Z) : nat :=
  if (i <? 0)%Z then Z.to_nat (Z.max (Z.of_nat len + i) 0)
  else Nat.min (Z.to_nat i) len.

Definition slice_from (T : Type) (l : list T) (start : Z) : list T :=
  skipn (slice_index (length l) start) l.

Definition slice_to (T : Type) (l : list T) (stop : Z) : list T :=
  firstn (slice_index (length l) stop) l.

(* ================================================================== *)
(** ** Exceptions and the result monad *)

(** The three messages of a plain [RevisionError] in this file. *)
Inductive revision_error : Type :=
| BranchNameUsed (branch_label revision other : string)
    (* "Branch name '%s' in revision %s already used by revision %s" *)
| Overlaps (target : string)
    (* "Requested revision %s overlaps with other requested revisions" *)
| RelativeNotProduced (arg : string) (n : Z).
    (* "Relative revision %s didn't produce %d migrations" *)

Inductive exn : Type :=
| KeyError (k : key)
| AttributeError
| TypeError
| RevisionError (m : revision_error)
| RangeNotAncestorError (lower upper : ident)
| MultipleHeads (heads : list string) (argument : string)
| ResolutionError (msg : string)
| RecursionError
| StoreError.

Inductive result (T : Type) : Type :=
| Ok (x : T)
| Err (e : exn).
Arguments Ok {T} x.
Arguments Err {T} e.

Definition bind (T U : Type) (m : result T) (f : T -> result U) : result U :=
  match m with
  | Ok x => f x
  | Err e => Err e
  end.

Notation "x <- m ;; k" := (bind m (fun x => k))
  (at level 61, m at next level, right associativity).
Notation "' p <- m ;; k" := (bind m (fun p => k))
  (at level 61, p pattern, m at next level, right associativity).

(** [[f(x) for x in l]] where [f] may raise. *)
Fixpoint mapM (T U : Type) (f : T -> result U) (l : list T) : result (list U) :=
  match l with
  | [] => Ok []
  | x :: r => y <- f x ;; ys <- mapM f r ;; Ok (y :: ys)
  end.

(** [[x for x in l if p(x)]] where [p] may raise. *)
Fixpoint filterM (T : Type) (p : T -> result bool) (l : list T) : result (list T) :=
  match l with
  | [] => Ok []
  | x :: r =>
      b <- p x ;; ys <- filterM p r ;; Ok (if b then x :: ys else ys)
  end.

(** The message of [MultipleHeads(heads, argument)]. *)
Definition MultipleHeads_message (heads : list string) (argument : string) : string :=
  ("Multiple heads are present for given argument '" ++ argument ++ "'; "
    ++ join ", " heads)%string.

(** The message of [RangeNotAncestorError(lower, upper)] for bounds that
    are strings or [None]: [(lower or "base", upper or "base")]. *)
Definition or_base (i : option string) : string :=
  match i with
  | Some s => if str_truthy s then s else "base"
  | None => "base"
  end.

Definition RangeNotAncestorError_message (lower upper : option string) : string :=
  ("Revision " ++ or_base lower ++ " is not an ancestor of revision "
    ++ or_base upper)%string.

(* ================================================================== *)
(** ** class Revision *)

Record Revision : Type := mkRevision {
  revision : string;
  down_revision : pyval;
  _orig_branch_labels : list string;
  branch_labels : list string;      (* a mutable [set] *)
  nextrev : list string             (* a [frozenset] *)
}.

(** [tuple_rev_as_scalar]: nothing for an empty value, the element of a
    one-element value, the value itself otherwise.  A one-character string
    has length one and [rev[0]] is the string itself. *)
Definition tuple_rev_as_scalar (rev : pyval) : pyval :=
  match rev with
  | PNone => PNone
  | PStr EmptyString => PNone
  | PStr s => PStr s
  | PTuple [] => PNone
  | PTuple [x] => PStr x
  | PTuple l => PTuple l
  end.

(** [Revision.__init__]; [nextrev] starts as the class attribute
    [frozenset()]. *)
Definition Revision_init (revision : string) (down_revision branch_labels : pyval)
  : Revision :=
  let orig := to_tuple branch_labels [] in
  {| revision := revision;
     down_revision := tuple_rev_as_scalar down_revision;
     _orig_branch_labels := orig;
     branch_labels := str_set_of orig;
     nextrev := [] |}.

(** [add_nextrev]: [self.nextrev = self.nextrev.union([rev])] *)
Definition add_nextrev (r : Revision) (rev : string) : Revision :=
  {| revision := revision r;
     down_revision := down_revision r;
     _orig_branch_labels := _orig_branch_labels r;
     branch_labels := branch_labels r;
     nextrev := str_set_add rev (nextrev r) |}.

(** [branch_labels.update(labels)] on the object [r] *)
Definition update_branch_labels (r : Revision) (labels : list string) : Revision :=
  {| revision := revision r;
     down_revision := down_revision r;
     _orig_branch_labels := _orig_branch_labels r;
     branch_labels := str_set_update (branch_labels r) labels;
     nextrev := nextrev r |}.

Definition _down_revision_tuple (r : Revision) : list string :=
  to_tuple (down_revision r) [].

Definition is_head (r : Revision) : bool :=
  match nextrev r with [] => true | _ => false end.

(** [self.down_revision is None] *)
Definition is_base (r : Revision) : bool :=
  match down_revision r with PNone => true | _ => false end.

Definition is_branch_point (r : Revision) : bool :=
  (1 <? length (nextrev r))%nat.

Definition is_merge_point (r : Revision) : bool :=
  (1 <? length (_down_revision_tuple r))%nat.

(** Truth value of [down_revision]. *)
Definition pyval_truthy (v : pyval) : bool :=
  match v with
  | PNone => false
  | PStr s => str_truthy s
  | PTuple l => match l with [] => false | _ => true end
  end.

(* ================================================================== *)
(** ** The object store and the dictionary *)

(** The [Revision] objects of a map, by reference.  [StoreError] is the
    answer for a reference outside the store; no reference built by the
    functions below is. *)
Abbreviation store := (list Revision) (only parsing).

Definition deref (objs : store) (r : ref) : result Revision :=
  match nth_error objs r with
  | Some o => Ok o
  | None => Err StoreError
  end.

Fixpoint set_obj (objs : store) (r : ref) (o : Revision) : store :=
  match objs, r with
  | [], _ => []
  | _ :: rest, O => o :: rest
  | x :: rest, S r' => x :: set_obj rest r' o
  end.

(** Attribute access on a value that may be [None]. *)
Definition attr (T : Type) (objs : store) (n : node) (f : Revision -> T) : result T :=
  match n with
  | None => Err AttributeError
  | Some r => o <- deref objs r ;; Ok (f o)
  end.

(** A [dict] in insertion order: assigning to a key that is present keeps
    its position. *)
Abbreviation dict := (list (key * option nat)) (only parsing).

Fixpoint dict_get (d : dict) (k : key) : option node :=
  match d with
  | [] => None
  | (k', v) :: r => if key_eqb k k' then Some v else dict_get r k
  end.

(** [k in d] *)
Definition dict_mem (d : dict) (k : key) : bool :=
  match dict_get d k with Some _ => true | None => false end.

(** [d[k]] *)
Definition dict_lookup (d : dict) (k : key) : result node :=
  match dict_get d k with
  | Some v => Ok v
  | None => Err (KeyError k)
  end.

(** [d[k] = v] *)
Fixpoint dict_set (d : dict) (k : key) (v : node) : dict :=
  match d with
  | [] => [(k, v)]
  | (k', v') :: r =>
      if key_eqb k k' then (k', v) :: r else (k', v') :: dict_set r k v
  end.

Definition dict_keys (d : dict) : list key := map fst d.
Definition dict_values (d : dict) : list node := map snd d.

(* ================================================================== *)
(** ** Closure walks: [_iterate_related_revisions] *)

Section Related.
Variable fn : Revision -> list string.
Variable objs : store.
Variable map_ : dict.

(** The loop [while todo: rev = todo.pop(); todo.extend(...); yield rev].
    The deque is used as a stack; the list keeps its right end first, so
    [pop()] takes the head and [extend] pushes its items one by one. *)
Fixpoint related_loop (fuel : nat) (todo : list node) : result (list ref) :=
  match todo with
  | [] => Ok []
  | rev :: todo' =>
      match fuel with
      | O => Err RecursionError
      | S fuel' =>
          match rev with
          | None => Err AttributeError
          | Some r =>
              o <- deref objs r ;;
              next <- mapM (fun rev_id => dict_lookup map_ (KStr rev_id)) (fn o) ;;
              rest <- related_loop fuel' (List.rev next ++ todo') ;;
              Ok (r :: rest)
          end
      end
  end.

(** [per_target.intersection(targets).difference([target])] *)
Definition overlap (visited : list ref) (targets : list node) (target : node)
  : list node :=
  set_diff node_eqb
    (set_inter node_eqb (set_of node_eqb (map Some visited)) targets)
    [target].

(** The loop [for target in targets], the generator consumed to its end. *)
Fixpoint related_targets (fuel : nat) (check : bool) (targets rest : list node)
  : result (list ref) :=
  match rest with
  | [] => Ok []
  | target :: rest' =>
      visited <- related_loop fuel [target] ;;
      match (if check then overlap visited targets target else []) with
      | _ :: _ =>
          name <- attr objs target revision ;;
          Err (RevisionError (Overlaps name))
      | [] =>
          more <- related_targets fuel check targets rest' ;;
          Ok (visited ++ more)
      end
  end.

Definition _iterate_related_revisions (fuel : nat) (targets : list node)
    (check : bool) : result (list ref) :=
  related_targets fuel check targets targets.
End Related.

Definition _get_descendant_nodes (objs : store) (map_ : dict) (fuel : nat)
    (targets : list node) (check : bool) : result (list ref) :=
  _iterate_related_revisions nextrev objs map_ fuel targets check.

Definition _get_ancestor_nodes (objs : store) (map_ : dict) (fuel : nat)
    (targets : list node) (check : bool) : result (list ref) :=
  _iterate_related_revisions _down_revision_tuple objs map_ fuel targets check.

(* ================================================================== *)
(** ** class RevisionMap: the build *)

(** The state of a map once built: the object store, the memoized
    dictionary, and the tuples [heads] and [bases]. *)
Record RevisionMap : Type := mkRevisionMap {
  objs : store;
  _revision_map : dict;
  heads : list string;
  bases : list string
}.

(** Modelled from the spec: [util.warn] is not part of the file; a warning
    is logged and the run goes on.  The two warnings of the build:
    ["Revision %s is present more than once"] and
    ["Revision %s referenced from %s is not present"], the latter with the
    [down_revision] of the referencing object and that object. *)
Inductive warning : Type :=
| WarnPresentTwice (revision : string)
| WarnNotPresent (down_revision : pyval) (rev : ref).

(** Results that come with the warnings logged so far; a raised exception
    keeps the warnings logged before it. *)
Definition wresult (T : Type) : Type := (list warning * result T)%type.

Definition wret (T : Type) (x : T) : wresult T := ([], Ok x).

Definition wbind (T U : Type) (m : wresult T) (f : T -> wresult U) : wresult U :=
  match m with
  | (w, Ok x) => let (w', r) := f x in (w ++ w', r)
  | (w, Err e) => (w, Err e)
  end.

Definition warn (w : warning) : wresult unit := ([w], Ok tt).

Definition lift (T : Type) (r : result T) : wresult T := ([], r).

Notation "x <-- m ;; k" := (wbind m (fun x => k))
  (at level 61, m at next level, right associativity).
Notation "' p <-- m ;; k" := (wbind m (fun p => k))
  (at level 61, p pattern, m at next level, right associativity).

(** What the first loop of the build accumulates. *)
Record indexed : Type := mkIndexed {
  i_map : dict;
  i_heads : list string;            (* the [OrderedSet] heads *)
  i_bases : list string;            (* [self.bases] *)
  i_labeled : list ref;             (* the set [has_branch_labels] *)
  i_warnings : list warning
}.

(** One turn of [for revision in self._generator()]; [r] is the reference
    of the object the generator has just produced. *)
Definition index_step (r : ref) (rv : Revision) (acc : indexed) : indexed :=
  {| i_warnings :=
       if dict_mem (i_map acc) (KStr (revision rv))
       then i_warnings acc ++ [WarnPresentTwice (revision rv)]
       else i_warnings acc;
     i_map := dict_set (i_map acc) (KStr (revision rv)) (Some r);
     i_labeled :=
       match branch_labels rv with
       | [] => i_labeled acc
       | _ => set_add Nat.eqb r (i_labeled acc)
       end;
     i_heads := str_set_add (revision rv) (i_heads acc);
     i_bases :=
       if is_base rv then i_bases acc ++ [revision rv] else i_bases acc |}.

Fixpoint index_loop (r : ref) (generator : list Revision) (acc : indexed) : indexed :=
  match generator with
  | [] => acc
  | rv :: rest => index_loop (S r) rest (index_step r rv acc)
  end.

Definition index_revisions (generator : list Revision) : indexed :=
  index_loop 0 generator
    {| i_map := []; i_heads := []; i_bases := []; i_labeled := [];
       i_warnings := [] |}.

(** [for downrev in rev._down_revision_tuple]: warn when the parent is
    missing, then index the dictionary all the same, link the parent to
    the child and take the parent out of the heads. *)
Fixpoint link_downrevs (map_ : dict) (rev : ref) (name : string) (down : pyval)
    (downrevs : list string) (objs : store) (heads : list string)
  : wresult (store * list string) :=
  match downrevs with
  | [] => wret (objs, heads)
  | downrev :: rest =>
      _ <-- (if dict_mem map_ (KStr downrev) then wret tt
             else warn (WarnNotPresent down rev)) ;;
      down_revision <-- lift (dict_lookup map_ (KStr downrev)) ;;
      objs' <-- lift (match down_revision with
                      | None => Err AttributeError
                      | Some d =>
                          o <- deref objs d ;;
                          Ok (set_obj objs d (add_nextrev o name))
                      end) ;;
      link_downrevs map_ rev name down rest objs'
        (set_discard String.eqb downrev heads)
  end.

(** [for rev in map_.values()] *)
Fixpoint link_values (map_ : dict) (values : list node) (objs : store)
    (heads : list string) : wresult (store * list string) :=
  match values with
  | [] => wret (objs, heads)
  | rev :: rest =>
      match rev with
      | None => lift (Err AttributeError)
      | Some r =>
          o <-- lift (deref objs r) ;;
          ' (objs', heads') <--
            link_downrevs map_ r (revision o) (down_revision o)
              (_down_revision_tuple o) objs heads ;;
          link_values map_ rest objs' heads'
      end
  end.

(** The loop [while parent and not parent.is_branch_point and not
    parent.is_merge_point] of [_add_branches]. *)
Fixpoint label_ancestors (fuel : nat) (map_ : dict) (revision : ref)
    (objs : store) (parent : node) : result store :=
  match parent with
  | None => Ok objs
  | Some p =>
      po <- deref objs p ;;
      if is_branch_point po || is_merge_point po then Ok objs
      else
        match fuel with
        | O => Err RecursionError
        | S fuel' =>
            rv <- deref objs revision ;;
            let objs' :=
              set_obj objs p (update_branch_labels po (branch_labels rv)) in
            if pyval_truthy (down_revision po) then
              parent' <- dict_lookup map_ (key_of_pyval (down_revision po)) ;;
              label_ancestors fuel' map_ revision objs' parent'
            else Ok objs'
        end
  end.

(** [for branch_label in revision._orig_branch_labels]: the label becomes
    a key of the dictionary unless it is one already. *)
Fixpoint register_labels (objs : store) (rev : ref) (name : string)
    (labels : list string) (map_ : dict) : result dict :=
  match labels with
  | [] => Ok map_
  | branch_label :: rest =>
      match dict_get map_ (KStr branch_label) with
      | Some other =>
          other_name <- attr objs other revision ;;
          Err (RevisionError (BranchNameUsed branch_label name other_name))
      | None =>
          register_labels objs rev name rest
            (dict_set map_ (KStr branch_label) (Some rev))
      end
  end.

(** [node.branch_labels.update(revision.branch_labels)] *)
Definition label_node (revision : ref) (objs : store) (n : ref) : result store :=
  rv <- deref objs revision ;;
  o <- deref objs n ;;
  Ok (set_obj objs n (update_branch_labels o (branch_labels rv))).

Fixpoint label_nodes (revision : ref) (objs : store) (nodes : list ref)
  : result store :=
  match nodes with
  | [] => Ok objs
  | n :: rest => objs' <- label_node revision objs n ;; label_nodes revision objs' rest
  end.

Definition _add_branches (fuel : nat) (objs : store) (map_ : dict) (rev : ref)
  : result (store * dict) :=
  rv <- deref objs rev ;;
  match branch_labels rv with
  | [] => Ok (objs, map_)
  | _ :: _ =>
      map_ <- register_labels objs rev (revision rv)
                (_orig_branch_labels rv) map_ ;;
      nodes <- _get_descendant_nodes objs map_ fuel [Some rev] false ;;
      objs <- label_nodes rev objs nodes ;;
      (* [parent = node]: the last object the loop above has seen *)
      objs <- label_ancestors fuel map_ rev objs (Some (last nodes rev)) ;;
      Ok (objs, map_)
  end.

(** [for revision in has_branch_labels: self._add_branches(revision, map_)] *)
Fixpoint add_all_branches (fuel : nat) (labeled : list ref) (objs : store)
    (map_ : dict) : result (store * dict) :=
  match labeled with
  | [] => Ok (objs, map_)
  | revision :: rest =>
      ' (objs', map') <- _add_branches fuel objs map_ revision ;;
      add_all_branches fuel rest objs' map'
  end.

(** The memoized property [_revision_map]: the build of the map from what
    the generator produces.  Each produced [Revision] becomes an object of
    the store, in the order of production. *)
Definition RevisionMap_build (fuel : nat) (generator : list Revision)
  : wresult RevisionMap :=
  let ix := index_revisions generator in
  ' (objs, heads) <--
    wbind (i_warnings ix, Ok tt)
      (fun _ => link_values (i_map ix) (dict_values (i_map ix)) generator
                  (i_heads ix)) ;;
  let map_ := dict_set (dict_set (i_map ix) KNone None) (KTuple []) None in
  ' (objs, map_) <-- lift (add_all_branches fuel (i_labeled ix) objs map_) ;;
  wret {| objs := objs; _revision_map := map_; heads := heads;
          bases := i_bases ix |}.

(* ================================================================== *)
(** ** Identifier resolution *)

(** The [test_against_revs] argument of [_shares_lineage]: a revision id
    (from [_revision_for_ident]) or the list [shares] (from
    [filter_for_lineage]). *)
Inductive lineage_arg : Type :=
| LStr (s : string)
| LList (l : list (option string)).

Definition lineage_truthy (a : lineage_arg) : bool :=
  match a with
  | LStr s => str_truthy s
  | LList l => match l with [] => false | _ => true end
  end.

(** [util.to_tuple(test_against_revs, default=())] *)
Definition lineage_tuple (a : lineage_arg) : list (option string) :=
  match a with
  | LStr s => [Some s]
  | LList l => l
  end.

(** A branch label that counts as given: [if branch_label:]. *)
Definition given (o : option string) : option string :=
  match o with
  | Some s => if str_truthy s then Some s else None
  | None => None
  end.

(** The partial lookup [[x for x in self._revision_map if x and
    x.startswith(resolved_id)]] over the keys of the dictionary.  [None],
    [()] and the empty string are false; [startswith] wants a string. *)
Fixpoint partial_lookup (keys : list key) (resolved_id : option string)
  : result (list string) :=
  match keys with
  | [] => Ok []
  | k :: rest =>
      match k with
      | KNone | KTuple [] | KStr EmptyString => partial_lookup rest resolved_id
      | KTuple (_ :: _) => Err AttributeError
      | KStr x =>
          match resolved_id with
          | None => Err TypeError
          | Some p =>
              revs <- partial_lookup rest resolved_id ;;
              Ok (if startswith x p then x :: revs else revs)
          end
      end
  end.

(** ["%s" % x] for a string or [None]. *)
Definition pystr (x : option string) : string :=
  match x with Some s => s | None => "None" end.

Definition quoted (r : string) : string := ("'" ++ r ++ "'")%string.

Definition no_such_revision (resolved_id : string) : string :=
  ("No such revision or branch '" ++ resolved_id ++ "'")%string.

Definition multiple_revisions (resolved_id : string) (revs : list string) : string :=
  ("Multiple revisions start with '" ++ resolved_id ++ "': "
     ++ join ", " (map quoted (firstn 3 revs)) ++ "...")%string.

Definition not_member (revision check_branch : string) : string :=
  ("Revision " ++ revision ++ " is not a member of branch '"
     ++ check_branch ++ "'")%string.

Definition no_such_branch (branch_label : string) : string :=
  ("No such branch: '" ++ branch_label ++ "'")%string.

(** The methods of the map that call one another.  Each call spends one
    unit of [fuel]. *)
Fixpoint _resolve_revision_number (fuel : nat) (st : RevisionMap)
    (id_ : option string) {struct fuel}
  : result (list (option string) * option string) :=
  match fuel with
  | O => Err RecursionError
  | S fuel =>
      let '(branch_label, id_) :=
        match id_ with
        | Some s =>
            if contains_at s
            then let (b, r) := split_at s in (Some b, Some r)
            else (None, Some s)
        | None => (None, None)
        end in
      match id_ with
      | None => Ok ([], branch_label)
      | Some s =>
          if String.eqb s "heads" then
            match given branch_label with
            | Some b =>
                hs <- filter_for_lineage fuel st (heads st) b ;;
                Ok (map Some hs, branch_label)
            | None => Ok (map Some (heads st), branch_label)
            end
          else if String.eqb s "head" then
            h <- get_current_head fuel st branch_label ;;
            Ok ([h], branch_label)
          else if String.eqb s "base" then Ok ([], branch_label)
          else Ok ([Some s], branch_label)
      end
  end

with get_current_head (fuel : nat) (st : RevisionMap)
    (branch_label : option string) {struct fuel} : result (option string) :=
  match fuel with
  | O => Err RecursionError
  | S fuel =>
      current_heads <-
        match given branch_label with
        | Some b => filter_for_lineage fuel st (heads st) b
        | None => Ok (heads st)
        end ;;
      match current_heads with
      | _ :: _ :: _ =>
          Err (MultipleHeads current_heads
                 match given branch_label with
                 | Some b => (b ++ "@head")%string
                 | None => "head"
                 end)
      | [h] => Ok (Some h)
      | [] => Ok None
      end
  end

with filter_for_lineage (fuel : nat) (st : RevisionMap) (targets : list string)
    (check_against : string) {struct fuel} : result (list string) :=
  match fuel with
  | O => Err RecursionError
  | S fuel =>
      ' (id_, branch_label) <-
        _resolve_revision_number fuel st (Some check_against) ;;
      let shares :=
        match given branch_label with Some b => [Some b] | None => [] end
        ++ match id_ with x :: _ => [x] | [] => [] end in
      filterM (fun tg => _shares_lineage fuel st tg (LList shares)) targets
  end

with _shares_lineage (fuel : nat) (st : RevisionMap) (target : string)
    (test_against_revs : lineage_arg) {struct fuel} : result bool :=
  match fuel with
  | O => Err RecursionError
  | S fuel =>
      if negb (lineage_truthy test_against_revs) then Ok true
      else
        target <- _revision_for_ident fuel st (Some target) None ;;
        tests <- mapM (fun t => _revision_for_ident fuel st t None)
                   (lineage_tuple test_against_revs) ;;
        desc <- _get_descendant_nodes (objs st) (_revision_map st) fuel
                  [target] false ;;
        anc <- _get_ancestor_nodes (objs st) (_revision_map st) fuel
                 [target] false ;;
        let lineage :=
          set_update node_eqb (set_of node_eqb (map Some desc)) (map Some anc) in
        Ok (match set_inter node_eqb lineage tests with
            | [] => false
            | _ => true
            end)
  end

with _revision_for_ident (fuel : nat) (st : RevisionMap)
    (resolved_id check_branch : option string) {struct fuel} : result node :=
  match fuel with
  | O => Err RecursionError
  | S fuel =>
      branch_rev <-
        match given check_branch with
        | Some b => _resolve_branch fuel st b
        | None => Ok None
        end ;;
      rev <-
        match dict_get (_revision_map st) (match resolved_id with
                                           | Some s => KStr s
                                           | None => KNone
                                           end) with
        | Some v => Ok v
        | None =>
            (* do a partial lookup *)
            revs <- partial_lookup (dict_keys (_revision_map st)) resolved_id ;;
            revs <-
              match branch_rev, given check_branch with
              | Some _, Some b => filter_for_lineage fuel st revs b
              | _, _ => Ok revs
              end ;;
            match revs with
            | [] =>
                Err (ResolutionError (no_such_revision (pystr resolved_id)))
            | _ :: _ :: _ =>
                Err (ResolutionError
                       (multiple_revisions (pystr resolved_id) revs))
            | [x] => dict_lookup (_revision_map st) (KStr x)
            end
        end ;;
      match given check_branch, rev with
      | Some b, Some _ =>
          name <- attr (objs st) rev revision ;;
          branch_name <- attr (objs st) branch_rev revision ;;
          shares <- _shares_lineage fuel st name (LStr branch_name) ;;
          if shares then Ok rev
          else Err (ResolutionError (not_member name b))
      | _, _ => Ok rev
      end
  end

with _resolve_branch (fuel : nat) (st : RevisionMap) (branch_label : string)
    {struct fuel} : result node :=
  match fuel with
  | O => Err RecursionError
  | S fuel =>
      match dict_get (_revision_map st) (KStr branch_label) with
      | Some branch_rev => Ok branch_rev
      | None =>
          match _revision_for_ident fuel st (Some branch_label) None with
          | Ok nonbranch_rev => Ok nonbranch_rev
          | Err (ResolutionError _) =>
              Err (ResolutionError (no_such_branch branch_label))
          | Err e => Err e
          end
      end
  end.

(** [_get_base_revisions] *)
Definition _get_base_revisions (fuel : nat) (st : RevisionMap)
    (identifier : string) : result (list string) :=
  filter_for_lineage fuel st (bases st) identifier.

(** [get_revisions]: a list, tuple or set resolves member by member and
    the results are concatenated. *)
Fixpoint get_revisions (fuel : nat) (st : RevisionMap) (id_ : ident) {struct id_}
  : result (list node) :=
  match id_ with
  | ISeq l =>
      (fix each (l : list ident) : result (list node) :=
         match l with
         | [] => Ok []
         | id_elem :: rest =>
             a <- get_revisions fuel st id_elem ;;
             b <- each rest ;;
             Ok (a ++ b)
         end) l
  | INone | IStr _ =>
      ' (resolved_id, branch_label) <-
        _resolve_revision_number fuel st
          (match id_ with IStr s => Some s | _ => None end) ;;
      mapM (fun rev_id => _revision_for_ident fuel st rev_id branch_label)
        resolved_id
  end.

(* ================================================================== *)
(** ** Relative identifiers: [_relative_destination] *)

(** A [str] is held as the bytes of its UTF-8 encoding.  [\d] and [int]
    take the decimal digits of every script (the characters of category
    [Nd]), not only ['0'] to ['9'].  Each script has its ten digits in a
    row: [decimal_zeros] lists the code points of the zeros, as of
    Unicode 14.0. *)
Definition decimal_zeros : list N :=
  [
    0x30; 0x660; 0x6f0; 0x7c0; 0x966; 0x9e6; 0xa66; 0xae6;
    0xb66; 0xbe6; 0xc66; 0xce6; 0xd66; 0xde6; 0xe50; 0xed0;
    0xf20; 0x1040; 0x1090; 0x17e0; 0x1810; 0x1946; 0x19d0; 0x1a80;
    0x1a90; 0x1b50; 0x1bb0; 0x1c40; 0x1c50; 0xa620; 0xa8d0; 0xa900;
    0xa9d0; 0xa9f0; 0xaa50; 0xabf0; 0xff10; 0x104a0; 0x10d30; 0x11066;
    0x110f0; 0x11136; 0x111d0; 0x112f0; 0x11450; 0x114d0; 0x11650; 0x116c0;
    0x11730; 0x118e0; 0x11950; 0x11c50; 0x11d50; 0x11da0; 0x16a60; 0x16ac0;
    0x16b50; 0x1d7ce; 0x1d7d8; 0x1d7e2; 0x1d7ec; 0x1d7f6; 0x1e140; 0x1e2f0;
    0x1e950; 0x1fbf0
  ]%N.

(** The value of a code point as a decimal digit, if it is one. *)
Definition decimal_of (cp : N) : option Z :=
  match find (fun z => (z <=? cp)%N && (cp <? z + 10)%N) decimal_zeros with
  | Some z => Some (Z.of_N (cp - z))
  | None => None
  end.

(** The first byte of a character of several bytes: the bits it gives,
    the number of bytes to follow, and the least code point that is
    written with that many bytes. *)
Definition utf8_lead (b : N) : option (N * nat * N) :=
  if (b <? 0xC0)%N then None
  else if (b <? 0xE0)%N then Some ((b - 0xC0)%N, 1%nat, 0x80%N)
  else if (b <? 0xF0)%N then Some ((b - 0xE0)%N, 2%nat, 0x800%N)
  else if (b <? 0xF8)%N then Some ((b - 0xF0)%N, 3%nat, 0x10000%N)
  else None.

(** [\d+], greedy, read by [int]: the value of the longest run of decimal
    digits at the start of [s], if there is one.  [pending] is what has
    been read of a character of several bytes; bytes that are not UTF-8
    end the run. *)
Fixpoint digits_in (pending : option (N * nat * N)) (s : string)
    (acc : option Z) : option Z :=
  match s with
  | EmptyString => acc
  | String c r =>
      let b := N_of_ascii c in
      match pending with
      | None =>
          if (b <? 0x80)%N then
            match decimal_of b with
            | Some d =>
                digits_in None r
                  (Some (10 * match acc with Some a => a | None => 0 end + d)%Z)
            | None => acc
            end
          else
            match utf8_lead b with
            | Some p => digits_in (Some p) r acc
            | None => acc
            end
      | Some (bits, k, least) =>
          if (0x80 <=? b)%N && (b <? 0xC0)%N then
            let cp := (bits * 64 + (b - 0x80))%N in
            match k with
            | S (S k') => digits_in (Some (cp, S k', least)) r acc
            | _ =>
                if (least <=? cp)%N then
                  match decimal_of cp with
                  | Some d =>
                      digits_in None r
                        (Some (10 * match acc with Some a => a | None => 0 end
                               + d)%Z)
                  | None => acc
                  end
                else acc
            end
          else acc
      end
  end.

Definition digits (s : string) (acc : option Z) : option Z :=
  digits_in None s acc.

(** [((?:\+|-)\d+)] at the start of [s], read by [int]. *)
Definition signed_number (s : string) : option Z :=
  match s with
  | String c r =>
      if Ascii.eqb c "+"%char then digits r None
      else if Ascii.eqb c "-"%char then option_map Z.opp (digits r None)
      else None
  | EmptyString => None
  end.

(** [(.+?)@] followed by the number: the shortest prefix of one or more
    characters other than a newline that is followed by ['@'] and a signed
    number.  [seen] is the prefix read so far. *)
Fixpoint labelled_number (seen s : string) : option (string * Z) :=
  match s with
  | EmptyString => None
  | String c r =>
      match (if Ascii.eqb c at_sign && str_truthy seen
             then signed_number r else None) with
      | Some n => Some (seen, n)
      | None =>
          if Ascii.eqb c newline then None
          else labelled_number (seen ++ String c EmptyString)%string r
      end
  end.

(** [_relative_destination.match(s)]: the groups [(branch_label,
    relative)], the second one as an integer. *)
Definition _relative_destination (s : string) : option (option string * Z) :=
  match labelled_number EmptyString s with
  | Some (b, n) => Some (Some b, n)
  | None =>
      match signed_number s with
      | Some n => Some (None, n)
      | None => None
      end
  end.

Definition relative_of (i : ident) : option (option string * Z) :=
  match i with
  | IStr s => _relative_destination s
  | _ => None
  end.

(* ================================================================== *)
(** ** Range traversal *)

(** The set [stop] holds [Revision] objects (from [lowers]) and revision
    ids (from the loop); an id is never equal to an object. *)
Inductive stop_item : Type :=
| SNode (n : node)
| SId (s : string).

Definition stop_eqb (a b : stop_item) : bool :=
  match a, b with
  | SNode x, SNode y => node_eqb x y
  | SId x, SId y => String.eqb x y
  | _, _ => false
  end.

Section Traversal.
Variable st : RevisionMap.
Variable total_space branch_endpoints : list string.
Variable inclusive : bool.
Variable requested_lowers : list node.

Definition lookup_all (ids : list string) : result (list node) :=
  mapM (fun downrev => dict_lookup (_revision_map st) (KStr downrev)) ids.

(** The loop [while todo] of [_iterate_revisions]; the list is the deque
    from left to right and the result is what the generator yields. *)
Fixpoint traverse (fuel : nat) (todo : list node) (stop : list stop_item)
  : result (list ref) :=
  match todo with
  | [] => Ok []
  | rev :: todo' =>
      match fuel with
      | O => Err RecursionError
      | S fuel' =>
          ids <- mapM (fun r => attr (objs st) r revision) todo ;;
          let stop :=
            set_update stop_eqb stop
              (map SId (filter (fun i => str_mem i branch_endpoints) ids)) in
          (* rev = todo.popleft() *)
          down <- attr (objs st) rev _down_revision_tuple ;;
          front <- lookup_all
                     (filter (fun downrev =>
                                negb (str_mem downrev branch_endpoints)
                                && negb (mem stop_eqb (SId downrev) stop)
                                && str_mem downrev total_space)
                             (List.rev down)) ;;
          (* extendleft puts the items one by one at the left end *)
          let todo1 := List.rev front ++ todo' in
          back <- lookup_all
                    (filter (fun downrev =>
                               str_mem downrev branch_endpoints
                               && negb (mem stop_eqb (SId downrev) stop)
                               && str_mem downrev total_space)
                            down) ;;
          let todo2 := todo1 ++ back in
          rest <- traverse fuel' todo2 stop ;;
          if negb inclusive && node_mem rev requested_lowers then Ok rest
          else
            match rev with
            | Some r => Ok (r :: rest)
            | None => Err AttributeError
            end
      end
  end.
End Traversal.

(** The inner loop of the implicit-base case: [rev] is kept when none of
    its parents is a candidate. *)
Fixpoint no_candidate_parent (map_ : dict) (candidate_lowers : list ref)
    (downrevs : list string) : result bool :=
  match downrevs with
  | [] => Ok true
  | downrev :: rest =>
      n <- dict_lookup map_ (KStr downrev) ;;
      if node_mem n (map Some candidate_lowers) then Ok false
      else no_candidate_parent map_ candidate_lowers rest
  end.

(** [self.get_revisions(self.bases)] and the like: a tuple of ids. *)
Definition ids (l : list string) : ident := ISeq (map IStr l).

(** The boundary [lowers] of [_iterate_revisions]. *)
Definition range_lowers (fuel : nat) (st : RevisionMap) (lower : ident)
    (implicit_base : bool) (requested_lowers : list node)
    (upper_ancestors : list ref) : result (list node) :=
  let limit_to_lower_branch :=
    match lower with IStr s => endswith s "@base" | _ => false end in
  if limit_to_lower_branch then
    match lower with
    | IStr s =>
        bs <- _get_base_revisions fuel st s ;;
        get_revisions fuel st (ids bs)
    | _ => Ok []
    end
  else if implicit_base
          && match requested_lowers with [] => false | _ => true end then
    la <- _get_ancestor_nodes (objs st) (_revision_map st) fuel
            requested_lowers false ;;
    ld <- _get_descendant_nodes (objs st) (_revision_map st) fuel
            requested_lowers false ;;
    let candidate_lowers :=
      set_diff Nat.eqb (set_diff Nat.eqb upper_ancestors (ref_set_of la))
        (ref_set_of ld) in
    base_lowers <-
      filterM (fun rev =>
                 down <- attr (objs st) (Some rev) _down_revision_tuple ;;
                 no_candidate_parent (_revision_map st) candidate_lowers down)
        candidate_lowers ;;
    Ok (set_update node_eqb (map Some base_lowers) requested_lowers)
  else if implicit_base then
    base_lowers <- get_revisions fuel st (ids (bases st)) ;;
    Ok (set_update node_eqb (set_of node_eqb base_lowers) requested_lowers)
  else
    match requested_lowers with
    | [] =>
        base_lowers <- get_revisions fuel st (ids (bases st)) ;;
        Ok (set_of node_eqb base_lowers)
    | _ => Ok requested_lowers
    end.

(** The ids of a list of objects: [rev.revision for rev in ...]. *)
Definition revisions_of (st : RevisionMap) (l : list ref) : result (list string) :=
  mapM (fun r => attr (objs st) (Some r) revision) l.

(** The set [branch_endpoints]: the branch points of [total_space] with
    more than one child in it. *)
Definition range_branch_endpoints (st : RevisionMap) (total_space : list string)
  : result (list string) :=
  revs <- mapM (fun rev => dict_lookup (_revision_map st) (KStr rev)) total_space ;;
  picked <-
    filterM (fun rev =>
               bp <- attr (objs st) rev is_branch_point ;;
               if bp then
                 next <- attr (objs st) rev nextrev ;;
                 Ok (1 <? length (set_inter String.eqb total_space next))%nat
               else Ok false)
      revs ;;
  names <- mapM (fun rev => attr (objs st) rev revision) picked ;;
  Ok (str_set_of names).

(** [_iterate_revisions], the generator consumed to its end. *)
Definition _iterate_revisions (fuel : nat) (st : RevisionMap) (upper lower : ident)
    (inclusive implicit_base : bool) : result (list ref) :=
  requested_lowers <- get_revisions fuel st lower ;;
  uppers <- get_revisions fuel st upper ;;
  ua <- _get_ancestor_nodes (objs st) (_revision_map st) fuel uppers true ;;
  let upper_ancestors := ref_set_of ua in
  lowers <- range_lowers fuel st lower implicit_base requested_lowers
              upper_ancestors ;;
  upper_ids <- revisions_of st upper_ancestors ;;
  ld <- _get_descendant_nodes (objs st) (_revision_map st) fuel lowers true ;;
  lower_ids <- revisions_of st ld ;;
  let total_space := set_inter String.eqb (str_set_of upper_ids) lower_ids in
  match total_space with
  | [] => Err (RangeNotAncestorError lower upper)
  | _ :: _ =>
      branch_endpoints <- range_branch_endpoints st total_space ;;
      todo <- filterM (fun r =>
                         name <- attr (objs st) r revision ;;
                         Ok (str_mem name total_space))
                uppers ;;
      let stop := set_of stop_eqb (map SNode lowers) in
      stop <-
        (if implicit_base then
           la <- _get_ancestor_nodes (objs st) (_revision_map st) fuel
                   requested_lowers false ;;
           Ok (set_update stop_eqb stop (map (fun r => SNode (Some r)) la))
         else Ok stop) ;;
      traverse st total_space branch_endpoints inclusive requested_lowers
        fuel todo stop
  end.

(** [iterate_revisions]: a relative [upper] counts from the head, a
    relative [lower] from the base. *)
Definition iterate_revisions (fuel : nat) (st : RevisionMap) (upper lower : ident)
    (implicit_base inclusive : bool) : result (list ref) :=
  let reldelta : Z := (if inclusive then 1 else 0)%Z in
  match relative_of upper, upper with
  | Some (branch_label, relative), IStr upper_s =>
      let from_ :=
        match given branch_label with
        | Some b => (b ++ "@head")%string
        | None => "head"
        end in
      revs <- _iterate_revisions fuel st (IStr from_) lower inclusive
                implicit_base ;;
      let revs := slice_from revs (- relative - reldelta) in
      if (Z.of_nat (length revs) =? Z.abs relative + reldelta)%Z then Ok revs
      else Err (RevisionError (RelativeNotProduced upper_s (Z.abs relative)))
  | _, _ =>
      match relative_of lower, lower with
      | Some (branch_label, relative), IStr lower_s =>
          let to_ :=
            match given branch_label with
            | Some b => (b ++ "@base")%string
            | None => "base"
            end in
          revs <- _iterate_revisions fuel st upper (IStr to_) inclusive
                    implicit_base ;;
          let revs := slice_to revs (- relative + reldelta) in
          if (Z.of_nat (length revs) =? Z.abs relative + reldelta)%Z then Ok revs
          else Err (RevisionError (RelativeNotProduced lower_s (Z.abs relative)))
      | _, _ =>
          _iterate_revisions fuel st upper lower inclusive implicit_base
      end
  end.

(* ================================================================== *)
(** ** [get_revision] *)

(** The partial lookup of [_revision_for_ident] when [resolved_id] is the
    empty tuple: [x.startswith(())] is false for every string, and a
    tuple has no [startswith]. *)
Fixpoint partial_lookup_unit (keys : list key) : result (list string) :=
  match keys with
  | [] => Ok []
  | k :: rest =>
      match k with
      | KTuple (_ :: _) => Err AttributeError
      | _ => partial_lookup_unit rest
      end
  end.

(** [_revision_for_ident((), check_branch)], the call [get_revision] makes
    for ["base"] and [None].  Without the key [()] the message
    ["... '%s'" % ()] cannot be formatted: [TypeError]. *)
Definition _revision_for_ident_unit (fuel : nat) (st : RevisionMap)
    (check_branch : option string) : result node :=
  branch_rev <-
    match given check_branch with
    | Some b => _resolve_branch fuel st b
    | None => Ok None
    end ;;
  rev <-
    match dict_get (_revision_map st) (KTuple []) with
    | Some v => Ok v
    | None =>
        revs <- partial_lookup_unit (dict_keys (_revision_map st)) ;;
        revs <-
          match branch_rev, given check_branch with
          | Some _, Some b => filter_for_lineage fuel st revs b
          | _, _ => Ok revs
          end ;;
        match revs with
        | [] => Err TypeError
        | _ :: _ :: _ => Err (ResolutionError (multiple_revisions "()" revs))
        | [x] => dict_lookup (_revision_map st) (KStr x)
        end
    end ;;
  match given check_branch, rev with
  | Some b, Some _ =>
      name <- attr (objs st) rev revision ;;
      branch_name <- attr (objs st) branch_rev revision ;;
      shares <- _shares_lineage fuel st name (LStr branch_name) ;;
      if shares then Ok rev
      else Err (ResolutionError (not_member name b))
  | _, _ => Ok rev
  end.

(** [MultipleHeads(resolved_id, id_)]: the message joins the heads, which
    have to be strings. *)
Definition raise_multiple_heads (resolved_id : list (option string))
    (id_ : option string) : result node :=
  hs <- mapM (fun h => match h with
                       | Some s => Ok s
                       | None => Err TypeError
                       end) resolved_id ;;
  Err (MultipleHeads hs (pystr id_)).

(** [get_revision], for an identifier that is a string or [None]. *)
Definition get_revision (fuel : nat) (st : RevisionMap) (id_ : option string)
  : result node :=
  ' (resolved_id, branch_label) <- _resolve_revision_number fuel st id_ ;;
  match resolved_id with
  | _ :: _ :: _ => raise_multiple_heads resolved_id id_
  | [x] => _revision_for_ident fuel st x branch_label
  | [] => _revision_for_ident_unit fuel st branch_label
  end.

(* ================================================================== *)
(** ** [add_revision] *)

(** What [add_revision] comes to: the map with the revision added, an
    exception of the methods it calls, or the plain [Exception]
    ["revision %s not in map"] of a replacement that replaces nothing.
    The first two come with the warnings logged. *)
Inductive add_outcome : Type :=
| Added (warnings : list warning) (st : RevisionMap)
| AddRaised (warnings : list warning) (e : exn)
| NotInMap (revision : string).

Definition add_outcome_of (r : wresult RevisionMap) : add_outcome :=
  match r with
  | (w, Ok st) => Added w st
  | (w, Err e) => AddRaised w e
  end.

(** [self.heads = tuple(head for head in self.heads if head not in
    set(revision._down_revision_tuple).union([revision.revision])) +
    (revision.revision,)] *)
Definition heads_with (heads : list string) (down : list string)
    (name : string) : list string :=
  filter (fun head =>
            negb (str_mem head (str_set_update (str_set_of down) [name])))
    heads ++ [name].

(** [add_revision] from [map_[revision.revision] = revision] on.  The
    revision is an object the store does not hold yet; it becomes the
    last one.  The loop over the parents is that of the build, with no
    heads to discard from. *)
Definition add_revision_run (fuel : nat) (st : RevisionMap) (rv : Revision)
  : wresult RevisionMap :=
  let r := length (objs st) in
  let map_ := dict_set (_revision_map st) (KStr (revision rv)) (Some r) in
  ' (objs, map_) <-- lift (_add_branches fuel (objs st ++ [rv]) map_ r) ;;
  o <-- lift (deref objs r) ;;
  let bases := if is_base o then bases st ++ [revision o] else bases st in
  ' (objs, _) <--
    link_downrevs map_ r (revision o) (down_revision o)
      (_down_revision_tuple o) objs [] ;;
  o <-- lift (deref objs r) ;;
  let heads :=
    if is_head o
    then heads_with (heads st) (_down_revision_tuple o) (revision o)
    else heads st in
  wret {| objs := objs; _revision_map := map_; heads := heads;
          bases := bases |}.

Definition add_revision (fuel : nat) (st : RevisionMap) (rv : Revision)
    (_replace : bool) : add_outcome :=
  let present := dict_mem (_revision_map st) (KStr (revision rv)) in
  if negb _replace && present then
    add_outcome_of
      (_ <-- warn (WarnPresentTwice (revision rv)) ;; add_revision_run fuel st rv)
  else if _replace && negb present then NotInMap (revision rv)
  else add_outcome_of (add_revision_run fuel st rv).

(* ================================================================== *)
(** * The vocabulary of the properties *)

(** ** References and ranges *)

(** [rev not in requested_lowers] *)
Definition not_requested (requested_lowers : list node) (r : ref) : bool :=
  negb (node_mem (Some r) requested_lowers).

(** The id of the object behind a reference. *)
Definition rev_id (st : RevisionMap) (r : ref) : string :=
  match nth_error (objs st) r with
  | Some o => revision o
  | None => EmptyString
  end.

Definition in_store (objs : store) (r : ref) : Prop :=
  exists o, nth_error objs r = Some o.

(** The bounds [iterate_revisions] hands to [_iterate_revisions]: a
    relative bound is replaced by its anchor, the head or the base,
    possibly of a branch. *)
Definition range_bounds (upper lower : ident) : ident * ident :=
  match relative_of upper, upper with
  | Some (branch_label, _), IStr _ =>
      (IStr match given branch_label with
            | Some b => (b ++ "@head")%string
            | None => "head"
            end, lower)
  | _, _ =>
      match relative_of lower, lower with
      | Some (branch_label, _), IStr _ =>
          (upper, IStr match given branch_label with
                       | Some b => (b ++ "@base")%string
                       | None => "base"
                       end)
      | _, _ => (upper, lower)
      end
  end.

(** The ids of two lists of objects have nothing in common. *)
Definition disjoint_ids (st : RevisionMap) (xs ys : list ref) : Prop :=
  forall x y, In x xs -> In y ys -> rev_id st x <> rev_id st y.

(* ------------------------------------------------------------------ *)
(** ** The build *)

(** [if revision.branch_labels] *)
Definition has_labels (o : Revision) : bool :=
  match branch_labels o with [] => false | _ => true end.

Definition labelled_at (l : list Revision) (r : ref) : bool :=
  match nth_error l r with Some o => has_labels o | None => false end.

(** What the first loop has built once it has seen [seen]. *)
Record indexed_spec (seen : list Revision) (acc : indexed) : Prop := {
  ix_keys : dict_keys (i_map acc) = map KStr (i_heads acc);
  ix_heads : i_heads acc = str_set_of (map revision seen);
  ix_bases : i_bases acc = map revision (filter is_base seen);
  ix_get : forall k v,
    dict_get (i_map acc) k = Some v ->
    exists s r o,
      k = KStr s /\ v = Some r /\ nth_error seen r = Some o /\ revision o = s;
  ix_last : forall r o,
    nth_error seen r = Some o ->
    (forall r' o', (r < r')%nat -> nth_error seen r' = Some o' ->
                   revision o' <> revision o) ->
    dict_get (i_map acc) (KStr (revision o)) = Some (Some r);
  ix_labeled :
    i_labeled acc = filter (labelled_at seen) (seq 0 (length seen));
  ix_warnings : NoDup (map revision seen) -> i_warnings acc = []
}.

(** Two states of an object that differ in [nextrev] at most. *)
Definition same_but_nextrev (o o' : Revision) : Prop :=
  revision o' = revision o
  /\ down_revision o' = down_revision o
  /\ _orig_branch_labels o' = _orig_branch_labels o
  /\ branch_labels o' = branch_labels o.

(** The parents named by [ds] are in the dictionary and in the store. *)
Definition parents_present (map_ : list (key * option nat)) (n : nat)
    (ds : list string) : Prop :=
  forall d, In d ds ->
    exists r, dict_get map_ (KStr d) = Some (Some r) /\ (r < n)%nat.

(** The object [r] after the links of the child [name] to the parents
    [ds]: it has gained the child when one of [ds] is a key of it. *)
Definition linked (map_ : list (key * option nat)) (name : string)
    (ds : list string) (r : nat) (o o' : Revision) : Prop :=
  same_but_nextrev o o'
  /\ (NoDup (nextrev o) -> NoDup (nextrev o'))
  /\ forall y,
       In y (nextrev o') <->
       In y (nextrev o)
       \/ (y = name
           /\ exists d, In d ds /\ dict_get map_ (KStr d) = Some (Some r)).

(** The parent ids of the objects of a list of dictionary values. *)
Definition downs_of (objs : list Revision) (v : option nat) : list string :=
  match v with
  | Some c =>
      match nth_error objs c with
      | Some o => _down_revision_tuple o
      | None => []
      end
  | None => []
  end.

Definition all_downs (objs : list Revision) (vs : list (option nat))
  : list string :=
  flat_map (downs_of objs) vs.

(** [y] is the id of an object of [vs] one of whose parent ids is a key
    of the object [r]. *)
Definition child_of (map_ : list (key * option nat)) (objs : list Revision)
    (vs : list (option nat)) (r : nat) (y : string) : Prop :=
  exists c oc d,
    In (Some c) vs /\ nth_error objs c = Some oc /\ revision oc = y
    /\ In d (_down_revision_tuple oc)
    /\ dict_get map_ (KStr d) = Some (Some r).

Definition linked_all (map_ : list (key * option nat)) (objs : list Revision)
    (vs : list (option nat)) (r : nat) (o o' : Revision) : Prop :=
  same_but_nextrev o o'
  /\ (NoDup (nextrev o) -> NoDup (nextrev o'))
  /\ forall y, In y (nextrev o') <-> In y (nextrev o) \/ child_of map_ objs vs r y.

(** Two states of an object that differ in [branch_labels] at most, the
    later one with more labels. *)
Definition same_but_labels (o o' : Revision) : Prop :=
  revision o' = revision o
  /\ down_revision o' = down_revision o
  /\ _orig_branch_labels o' = _orig_branch_labels o
  /\ nextrev o' = nextrev o
  /\ incl (branch_labels o) (branch_labels o').

(** The store after some [branch_labels.update]: the same objects, with
    more labels. *)
Definition store_ext (objs objs' : list Revision) : Prop :=
  length objs' = length objs
  /\ forall r o, nth_error objs r = Some o ->
       exists o', nth_error objs' r = Some o' /\ same_but_labels o o'.

(** The dictionary after the registration of branch labels: the old
    entries, and new string keys for objects of the store. *)
Definition dict_ext (n : nat) (d d' : list (key * option nat)) : Prop :=
  (forall k v, dict_get d k = Some v -> dict_get d' k = Some v)
  /\ (forall k v, dict_get d' k = Some v ->
        dict_get d k = Some v
        \/ exists s r, k = KStr s /\ v = Some r /\ (r < n)%nat).

(** The dictionary with the two sentinels. *)
Definition with_sentinels (map_ : list (key * option nat))
  : list (key * option nat) :=
  dict_set (dict_set map_ KNone None) (KTuple []) None.

(** An object as its constructor leaves it. *)
Definition constructed (o : Revision) : Prop :=
  exists revision down_revision branch_labels,
    o = Revision_init revision down_revision branch_labels.

(** No parent: [_down_revision_tuple] is empty. *)
Definition no_parent (o : Revision) : bool :=
  match _down_revision_tuple o with [] => true | _ => false end.

(** The graph a build leaves behind, for a generator whose ids are all
    different: every produced object is in the store at its position and
    in the dictionary under its id, its children are the ids of the
    objects that name it as a parent, and [bases] and [heads] list the
    objects without parents and without children. *)
Record graph_of (generator : list Revision) (st : RevisionMap) : Prop := {
  g_length : length (objs st) = length generator;
  g_node : forall r o,
    nth_error generator r = Some o ->
    exists o',
      nth_error (objs st) r = Some o'
      /\ revision o' = revision o
      /\ down_revision o' = down_revision o
      /\ _orig_branch_labels o' = _orig_branch_labels o
      /\ incl (branch_labels o) (branch_labels o')
      /\ NoDup (nextrev o')
      /\ (forall y, In y (nextrev o') <->
                    exists c, In c generator /\ revision c = y
                              /\ In (revision o) (_down_revision_tuple c))
      /\ dict_get (_revision_map st) (KStr (revision o)) = Some (Some r);
  g_parents : forall c d,
    In c generator -> In d (_down_revision_tuple c) ->
    In d (map revision generator);
  g_bases : bases st = map revision (filter no_parent (objs st));
  g_heads : heads st = map revision (filter is_head (objs st));
  g_keys : forall k v,
    dict_get (_revision_map st) k = Some v ->
    (v = None /\ (k = KNone \/ k = KTuple []))
    \/ exists s r, k = KStr s /\ v = Some r /\ (r < length (objs st))%nat;
  g_sentinels :
    dict_get (_revision_map st) KNone = Some None
    /\ dict_get (_revision_map st) (KTuple []) = Some None
}.

(* ------------------------------------------------------------------ *)
(** ** Built maps, and examples *)

(** The map a generator builds, or an empty map when the build raises. *)
Definition built (fuel : nat) (generator : list Revision) : RevisionMap :=
  match snd (RevisionMap_build fuel generator) with
  | Ok st => st
  | Err _ => {| objs := []; _revision_map := []; heads := []; bases := [] |}
  end.

(** The ids of a list of objects of a map. *)
Definition names (st : RevisionMap) (l : list nat) : list string :=
  map (rev_id st) l.

Definition names_of (st : RevisionMap) (r : result (list nat))
  : result (list string) :=
  match r with
  | Ok l => Ok (names st l)
  | Err e => Err e
  end.

Module Examples.

(** A <- B <- C *)
Definition chain3 : list Revision :=
  [ Revision_init "A" PNone PNone;
    Revision_init "B" (PStr "A") PNone;
    Revision_init "C" (PStr "B") PNone ].

(** a1 <- a2 <- a3 <- a4 <- a5 *)
Definition chain5 : list Revision :=
  [ Revision_init "a1" PNone PNone;
    Revision_init "a2" (PStr "a1") PNone;
    Revision_init "a3" (PStr "a2") PNone;
    Revision_init "a4" (PStr "a3") PNone;
    Revision_init "a5" (PStr "a4") PNone ].

(** A <- X, A <- Y, and M merges X and Y *)
Definition diamond : list Revision :=
  [ Revision_init "A" PNone PNone;
    Revision_init "X" (PStr "A") PNone;
    Revision_init "Y" (PStr "A") PNone;
    Revision_init "M" (PTuple ["X"; "Y"]) PNone ].

(** A <- B <- C, Z, and D merges C and Z; B carries the label rel1 *)
Definition labelled_merge : list Revision :=
  [ Revision_init "A" PNone PNone;
    Revision_init "B" (PStr "A") (PStr "rel1");
    Revision_init "C" (PStr "B") PNone;
    Revision_init "Z" PNone PNone;
    Revision_init "D" (PTuple ["C"; "Z"]) PNone ].

(** A <- B <- C; B carries the label rel1 *)
Definition labelled_chain : list Revision :=
  [ Revision_init "A" PNone PNone;
    Revision_init "B" (PStr "A") (PStr "rel1");
    Revision_init "C" (PStr "B") PNone ].

(** B names a parent that no revision has *)
Definition dangling : list Revision :=
  [ Revision_init "B" (PStr "A") PNone ].

(** abc123 <- abc456 *)
Definition prefixes : list Revision :=
  [ Revision_init "abc123" PNone PNone;
    Revision_init "abc456" (PStr "abc123") PNone ].

(** Two heads H1 and H2 over the base A *)
Definition two_heads : list Revision :=
  [ Revision_init "A" PNone PNone;
    Revision_init "H1" (PStr "A") PNone;
    Revision_init "H2" (PStr "A") PNone ].

(** A <- B and A <- C; B carries the label rel1 *)
Definition labelled_fork : list Revision :=
  [ Revision_init "A" PNone PNone;
    Revision_init "B" (PStr "A") (PStr "rel1");
    Revision_init "C" (PStr "A") PNone ].

(** A and B, each one the parent of the other *)
Definition loop2 : list Revision :=
  [ Revision_init "A" (PStr "B") PNone;
    Revision_init "B" (PStr "A") PNone ].

End Examples.

(* ------------------------------------------------------------------ *)
(** ** Resolution *)

(** A key a build can leave in the dictionary: an id or a label, [None]
    or [()]. *)
Definition plain_key (k : key) : Prop :=
  match k with
  | KTuple (_ :: _) => False
  | _ => True
  end.

(** The ids the map knows: the strings among its keys (revision ids and
    branch labels) that are not empty. *)
Definition known_ids (st : RevisionMap) : list string :=
  flat_map (fun k => match k with
                     | KStr s => if str_truthy s then [s] else []
                     | _ => []
                     end)
    (dict_keys (_revision_map st)).

(** The known ids that start with [p], in the order of the dictionary. *)
Definition candidates (st : RevisionMap) (p : string) : list string :=
  filter (fun x => startswith x p) (known_ids st).

(** An identifier with no branch part that is none of the symbols. *)
Definition bare (p : string) : Prop :=
  contains_at p = false
  /\ String.eqb p "heads" = false
  /\ String.eqb p "head" = false
  /\ String.eqb p "base" = false.

(** The heads that qualify for [get_current_head(branch_label)]: all the
    heads, or those that share the lineage of the branch. *)
Definition qualifying_heads (fuel : nat) (st : RevisionMap)
    (branch_label : option string) : result (list string) :=
  match given branch_label with
  | Some b => filter_for_lineage fuel st (heads st) b
  | None => Ok (heads st)
  end.

(** The request that asks for the head, of a branch or of the map. *)
Definition head_request (branch_label : option string) : string :=
  match given branch_label with
  | Some b => (b ++ "@head")%string
  | None => "head"
  end.

(* ------------------------------------------------------------------ *)
(** ** The graph of a generator *)

(** The ids of the revisions of [l] that name [x] as a parent. *)
Definition children_of (l : list Revision) (x : string) : list string :=
  map revision (filter (fun c => str_mem x (_down_revision_tuple c)) l).

(** The ids of [l] that no revision of [l] names as a parent. *)
Definition childless (l : list Revision) : list string :=
  filter (fun h => match children_of l h with [] => true | _ => false end)
    (map revision l).

(** The ids of the revisions of [l] without a parent. *)
Definition parentless (l : list Revision) : list string :=
  map revision (filter no_parent l).

(** What a build over [generator], a rearrangement of [l], leaves for the
    revision [o] of [l]: its object, with the children [l] gives it. *)
Record node_of (l : list Revision) (st : RevisionMap) (o : Revision)
    (r : nat) (o' : Revision) : Prop := {
  n_get : dict_get (_revision_map st) (KStr (revision o)) = Some (Some r);
  n_obj : nth_error (objs st) r = Some o';
  n_revision : revision o' = revision o;
  n_down : _down_revision_tuple o' = _down_revision_tuple o;
  n_nodup : NoDup (nextrev o');
  n_nextrev : forall y, In y (nextrev o') <-> In y (children_of l (revision o))
}.

(** The entry of the id [x] in a built map: its reference, its object,
    and the parents and children of the object. *)
Record node_at (st : RevisionMap) (x : string) (r : nat) (o : Revision)
    (parents children : list string) : Prop := {
  at_get : dict_get (_revision_map st) (KStr x) = Some (Some r);
  at_obj : nth_error (objs st) r = Some o;
  at_revision : revision o = x;
  at_down : _down_revision_tuple o = parents;
  at_nextrev : nextrev o = children
}.

(** A revision as a generator produces it, by its id and its parents. *)
Definition chain_node (o : Revision) (x : string) (parents : list string)
  : Prop :=
  constructed o /\ revision o = x /\ _down_revision_tuple o = parents.

(* ------------------------------------------------------------------ *)
(** ** Walks and branch labels *)

(** One edge of the walk with [fn]: an id that [fn] gives for the object
    [p] is a key of the object [c]. *)
Definition edge (fn : Revision -> list string) (objs : list Revision)
    (map_ : list (key * option nat)) (p c : nat) : Prop :=
  exists op y,
    nth_error objs p = Some op /\ In y (fn op)
    /\ dict_get map_ (KStr y) = Some (Some c).

(** The objects the walk with [fn] can reach from [r], [r] included. *)
Inductive reach (fn : Revision -> list string) (objs : list Revision)
    (map_ : list (key * option nat)) : nat -> nat -> Prop :=
| reach_refl r : reach fn objs map_ r r
| reach_step p c r :
    edge fn objs map_ p c -> reach fn objs map_ c r ->
    reach fn objs map_ p r.

(** The descendants of an object of a map, itself included. *)
Definition descendant (st : RevisionMap) : nat -> nat -> Prop :=
  reach nextrev (objs st) (_revision_map st).

(** Every child id of an object of the store is a key of the dictionary,
    for an object. *)
Definition resolvable (objs : list Revision) (map_ : list (key * option nat))
  : Prop :=
  forall r o y, nth_error objs r = Some o -> In y (nextrev o) ->
    exists c, dict_get map_ (KStr y) = Some (Some c).

(** Neither a branch point nor a merge point. *)
Definition straight (o : Revision) : bool :=
  negb (is_branch_point o || is_merge_point o).

(** [n] is what [map_[parent.down_revision]] gives for an object that the
    backward walk of [_add_branches] has passed. *)
Definition via (objs : list Revision) (map_ : list (key * option nat))
    (n : nat) : Prop :=
  exists c oc,
    nth_error objs c = Some oc /\ straight oc = true
    /\ pyval_truthy (down_revision oc) = true
    /\ dict_get map_ (key_of_pyval (down_revision oc)) = Some (Some n).

(** The two ways in which the object [n] is given labels of another
    one: as a descendant, or on the backward walk. *)
Definition acquired (objs : list Revision) (map_ : list (key * option nat))
    (n : nat) (o : Revision) : Prop :=
  (exists p, edge nextrev objs map_ p n)
  \/ (straight o = true /\ via objs map_ n).

(** Every label of an object is one of its own or an acquired one. *)
Definition labels_inv (objs : list Revision) (map_ : list (key * option nat))
  : Prop :=
  forall n o l, nth_error objs n = Some o -> In l (branch_labels o) ->
    In l (_orig_branch_labels o) \/ acquired objs map_ n o.

(* ------------------------------------------------------------------ *)
(** ** Maps without cycles *)

(** What a build leaves: every object is a key of the dictionary under
    its id, and the ids in [_down_revision_tuple] and in [nextrev] are
    those of objects that name one another. *)
Record wf_map (st : RevisionMap) : Prop := {
  wf_key : forall r o, nth_error (objs st) r = Some o ->
    dict_get (_revision_map st) (KStr (revision o)) = Some (Some r);
  wf_down : forall r o d, nth_error (objs st) r = Some o ->
    In d (_down_revision_tuple o) ->
    exists p op, nth_error (objs st) p = Some op /\ revision op = d
                 /\ In (revision o) (nextrev op);
  wf_next : forall p op y, nth_error (objs st) p = Some op ->
    In y (nextrev op) ->
    exists c oc, nth_error (objs st) c = Some oc /\ revision oc = y
                 /\ In (revision op) (_down_revision_tuple oc);
  wf_bases : bases st = map revision (filter no_parent (objs st))
}.

(** [p] is a parent of [c]. *)
Definition parent_of (st : RevisionMap) (c p : nat) : Prop :=
  exists oc op,
    nth_error (objs st) c = Some oc /\ nth_error (objs st) p = Some op
    /\ In (revision op) (_down_revision_tuple oc).

Definition ancestor (st : RevisionMap) : nat -> nat -> Prop :=
  reach _down_revision_tuple (objs st) (_revision_map st).

(** A node of the deque that is an object of the store. *)
Definition valid_node (objs : list Revision) (n : option nat) : Prop :=
  exists r, n = Some r /\ (r < length objs)%nat.

(** The number of turns the walk takes for a deque is at most its
    weight: an object of height [k] counts for [(N + 1) ^ k], where
    no object has more than [N] neighbours and the neighbours of an
    object are lower than it is. *)
Definition weight (h : nat -> nat) (N : nat) (todo : list (option nat)) : nat :=
  list_sum (map (fun n => match n with
                          | Some r => S N ^ h r
                          | None => 0
                          end) todo).

(** The object the dictionary has for an id. *)
Definition ref_of (st : RevisionMap) (d : string) : nat :=
  match dict_get (_revision_map st) (KStr d) with
  | Some (Some r) => r
  | _ => O
  end.

(** An object of the range. *)
Definition inT (st : RevisionMap) (T : list string) (r : nat) : Prop :=
  exists o, nth_error (objs st) r = Some o /\ In (revision o) T.

(** What holds at every turn of the loop of [_iterate_revisions], for the
    deque [tl], the set [stop] and the objects [done] that have been
    yielded. *)
Record loop_inv (st : RevisionMap) (T E : list string) (tl : list nat)
    (stop : list stop_item) (done : list nat) : Prop := {
  i_todo : NoDup tl;
  i_done : NoDup done;
  i_apart : forall r, In r tl -> ~ In r done;
  i_range : forall r, In r tl \/ In r done -> inT st T r;
  i_single : forall n o c,
    In n tl \/ In n done -> nth_error (objs st) n = Some o ->
    ~ In (revision o) E -> inT st T c -> parent_of st c n -> In c done;
  i_stop : forall s, In (SId s) stop ->
    In s E /\ exists r, (In r tl \/ In r done) /\ rev_id st r = s;
  i_stopped : forall n o,
    In n done -> nth_error (objs st) n = Some o -> In (revision o) E ->
    In (SId (revision o)) stop;
  i_next : forall n,
    inT st T n ->
    (In n tl \/ In n done)
    \/ exists c, inT st T c /\ parent_of st c n /\ ~ In c done
}.

(** The ids a turn of the loop adds to [stop]. *)
Definition stop_after (st : RevisionMap) (E : list string) (tl : list nat)
    (stop : list stop_item) : list stop_item :=
  set_update stop_eqb stop
    (map SId (filter (fun i => str_mem i E) (map (rev_id st) tl))).

(** The parents a turn puts at the left end, and those it puts at the
    right end. *)
Definition pushed_front (st : RevisionMap) (T E : list string)
    (stop1 : list stop_item) (o : Revision) : list nat :=
  map (ref_of st)
    (filter (fun downrev =>
               negb (str_mem downrev E)
               && negb (mem stop_eqb (SId downrev) stop1)
               && str_mem downrev T)
       (List.rev (_down_revision_tuple o))).

Definition pushed_back (st : RevisionMap) (T E : list string)
    (stop1 : list stop_item) (o : Revision) : list nat :=
  map (ref_of st)
    (filter (fun downrev =>
               str_mem downrev E
               && negb (mem stop_eqb (SId downrev) stop1)
               && str_mem downrev T)
       (_down_revision_tuple o)).

(** No object has more neighbours than [width], and none ranks higher
    than [top_rank]. *)
Definition width (st : RevisionMap) : nat :=
  list_max (map (fun o => length (nextrev o) + length (_down_revision_tuple o))%nat
              (objs st)).

Definition top_rank (st : RevisionMap) (rank : string -> nat) : nat :=
  list_max (map (fun o => rank (revision o)) (objs st)).

(** The heights that bound the walk to the ancestors and the walk to the
    descendants. *)
Definition h_down (st : RevisionMap) (rank : string -> nat) (r : nat) : nat :=
  rank (rev_id st r).

Definition h_up (st : RevisionMap) (rank : string -> nat) (r : nat) : nat :=
  (top_rank st rank - rank (rev_id st r))%nat.

(** The objects without parents, as [self.bases] resolves to them. *)
Definition base_refs (st : RevisionMap) : list nat :=
  set_of Nat.eqb (map (ref_of st) (bases st)).

(** The way of the backward walk of [_add_branches]: from a straight
    object to what the dictionary has for its [down_revision]. *)
Inductive spath (objs : list Revision) (map_ : list (key * option nat))
  : nat -> nat -> Prop :=
| spath_refl p : spath objs map_ p p
| spath_step p op p' q :
    nth_error objs p = Some op -> straight op = true ->
    pyval_truthy (down_revision op) = true ->
    dict_get map_ (key_of_pyval (down_revision op)) = Some (Some p') ->
    spath objs map_ p' q -> spath objs map_ p q.

(* ------------------------------------------------------------------ *)
(** ** Repeated ids, cycles and relative identifiers *)

(** The ids of [l] that [seen] or an earlier place of [l] has already,
    in the order of [l]. *)
Fixpoint again (seen l : list string) : list string :=
  match l with
  | [] => []
  | x :: rest =>
      (if str_mem x seen then [x] else []) ++ again (x :: seen) rest
  end.

(** An object on a cycle. *)
Definition on_cycle (fn : Revision -> list string) (objs : list Revision)
    (map_ : list (key * option nat)) (r : nat) : Prop :=
  exists c, edge fn objs map_ r c /\ reach fn objs map_ c r.

(** The number of revisions a relative bound asks for. *)
Definition asked (relative : Z) (inclusive : bool) : Z :=
  (Z.abs relative + if inclusive then 1 else 0)%Z.

(** The characters ['+'] and ['-']. *)
Fixpoint has_sign (s : string) : bool :=
  match s with
  | EmptyString => false
  | String c r =>
      Ascii.eqb c "+"%char || Ascii.eqb c "-"%char || has_sign r
  end.






(* ================================================================== *)
(** * Properties *)

(** ** The result monad *)

Lemma bind_ok (T U : Type) (m : result T) (f : T -> result U) (x : T) :
  m = Ok x -> bind m f = f x.
Proof. intros ->. reflexivity. Qed.

Lemma bind_err (T U : Type) (m : result T) (f : T -> result U) (e : exn) :
  m = Err e -> bind m f = Err e.
Proof. intros ->. reflexivity. Qed.

Lemma bind_ret (T : Type) (m : result T) : bind m (fun x => Ok x) = m.
Proof. destruct m; reflexivity. Qed.

Lemma bind_inv (T U : Type) (m : result T) (f : T -> result U) (y : U) :
  bind m f = Ok y -> exists x, m = Ok x /\ f x = Ok y.
Proof. destruct m as [x|e]; simpl; [eauto | discriminate]. Qed.

(** Case analysis on the first computation of a chain of [bind]s. *)
Ltac bind_case :=
  match goal with
  | |- context [bind ?m _] =>
      let E := fresh "E" in destruct m eqn:E; simpl bind
  end.

Ltac bind_inv H :=
  let x := fresh "x" in
  let E := fresh "E" in
  apply bind_inv in H; destruct H as (x & E & H).

(* ------------------------------------------------------------------ *)
(** ** The exclusive range skips the requested lower revisions only *)

(** The exclusive loop yields what the inclusive loop yields, less the
    revisions of [requested_lowers]. *)
Lemma traverse_exclusive st total_space branch_endpoints requested_lowers :
  forall fuel todo stop,
    traverse st total_space branch_endpoints false requested_lowers fuel todo stop
    = (out <- traverse st total_space branch_endpoints true requested_lowers
                fuel todo stop ;;
       Ok (filter (not_requested requested_lowers) out)).
Proof.
  induction fuel as [|fuel IH]; intros [|rev todo] stop; try reflexivity.
  cbn [traverse].
  do 4 (bind_case; [|reflexivity]).
  rewrite IH.
  destruct (traverse st _ _ true _ _ _ _) as [rest|e]; [|reflexivity].
  destruct rev as [r|]; [|discriminate].
  cbn [negb andb bind filter]. unfold not_requested.
  destruct (node_mem (Some r) requested_lowers); reflexivity.
Qed.

Lemma traverse_no_lowers st total_space branch_endpoints inclusive :
  forall fuel todo stop,
    traverse st total_space branch_endpoints inclusive [] fuel todo stop
    = traverse st total_space branch_endpoints true [] fuel todo stop.
Proof.
  destruct inclusive; [reflexivity|]. intros.
  rewrite traverse_exclusive.
  destruct (traverse _ _ _ _ _ _ _ _) as [out|e]; [|reflexivity]. simpl.
  f_equal. apply forallb_filter_id. apply forallb_forall. reflexivity.
Qed.

(** [_iterate_revisions] with [inclusive=False], in terms of the inclusive
    run and the revisions the lower identifier resolves to. *)
Lemma _iterate_revisions_exclusive fuel st upper lower implicit_base :
  _iterate_revisions fuel st upper lower false implicit_base
  = (requested_lowers <- get_revisions fuel st lower ;;
     out <- _iterate_revisions fuel st upper lower true implicit_base ;;
     Ok (filter (not_requested requested_lowers) out)).
Proof.
  unfold _iterate_revisions.
  destruct (get_revisions fuel st lower) as [requested_lowers|e];
    [|reflexivity].
  simpl bind.
  repeat (bind_case; [|reflexivity]).
  match goal with
  | |- context [match ?t with [] => _ | _ :: _ => _ end] => destruct t
  end; [reflexivity|].
  repeat (bind_case; [|reflexivity]).
  apply traverse_exclusive.
Qed.

(** ["base"] and [None] resolve to no revision at all. *)
Lemma get_revisions_base fuel st :
  get_revisions (S fuel) st (IStr "base") = Ok []
  /\ get_revisions (S fuel) st INone = Ok [].
Proof. split; reflexivity. Qed.

(* ------------------------------------------------------------------ *)
(** ** Sets as lists *)

Section SetFacts.

Variable A : Type.

Variable eqb : A -> A -> bool.

Hypothesis eqb_eq : forall x y, eqb x y = true <-> x = y.

Lemma mem_In x l : mem eqb x l = true <-> In x l.
Proof.
  unfold mem. rewrite existsb_exists. split.
  - intros (y & Hy & E). apply eqb_eq in E. now subst.
  - intros H. exists x. split; [assumption | now apply eqb_eq].
Qed.

Lemma mem_false x l : mem eqb x l = false <-> ~ In x l.
Proof.
  rewrite <- mem_In. destruct (mem eqb x l); split; congruence.
Qed.

Lemma In_set_add x y l : In x (set_add eqb y l) <-> x = y \/ In x l.
Proof.
  unfold set_add. destruct (mem eqb y l) eqn:E.
  - apply mem_In in E. split; [tauto | intros [->|]; assumption].
  - rewrite in_app_iff. simpl. intuition congruence.
Qed.

Lemma In_set_update x xs : forall l,
  In x (set_update eqb l xs) <-> In x l \/ In x xs.
Proof.
  unfold set_update. induction xs as [|y xs IH]; intros l; simpl.
  - tauto.
  - rewrite IH, In_set_add. intuition congruence.
Qed.

Lemma In_set_of x xs : In x (set_of eqb xs) <-> In x xs.
Proof. unfold set_of. rewrite In_set_update. simpl. tauto. Qed.

Lemma In_set_inter x l xs :
  In x (set_inter eqb l xs) <-> In x l /\ In x xs.
Proof. unfold set_inter. rewrite filter_In, mem_In. tauto. Qed.

Lemma In_set_diff x l xs :
  In x (set_diff eqb l xs) <-> In x l /\ ~ In x xs.
Proof.
  unfold set_diff. rewrite filter_In, negb_true_iff, mem_false. tauto.
Qed.

Lemma In_set_discard x y l :
  In x (set_discard eqb y l) <-> In x l /\ x <> y.
Proof.
  unfold set_discard. rewrite filter_In, negb_true_iff.
  split; intros [H1 H2]; split; try assumption.
  - intros ->. assert (eqb y y = true) by now apply eqb_eq. congruence.
  - destruct (eqb y x) eqn:E; [|reflexivity].
    apply eqb_eq in E. congruence.
Qed.

Lemma NoDup_set_add y l : NoDup l -> NoDup (set_add eqb y l).
Proof.
  intros H. unfold set_add. destruct (mem eqb y l) eqn:E; [assumption|].
  apply mem_false in E.
  apply NoDup_app; [assumption | repeat constructor; intros [] |].
  intros z Hz [<-|[]]. contradiction.
Qed.

Lemma NoDup_set_update xs : forall l,
  NoDup l -> NoDup (set_update eqb l xs).
Proof.
  unfold set_update. induction xs as [|y xs IH]; intros l H; simpl.
  - assumption.
  - apply IH. now apply NoDup_set_add.
Qed.

Lemma NoDup_set_of xs : NoDup (set_of eqb xs).
Proof. apply NoDup_set_update. constructor. Qed.

End SetFacts.

Lemma node_eqb_eq (x y : node) : node_eqb x y = true <-> x = y.
Proof.
  destruct x as [x|], y as [y|]; simpl; try (split; congruence).
  rewrite Nat.eqb_eq. split; congruence.
Qed.

Lemma strs_eqb_eq (x y : list string) : strs_eqb x y = true <-> x = y.
Proof.
  revert y. induction x as [|a x IH]; intros [|b y]; simpl;
    try (split; congruence).
  rewrite andb_true_iff, String.eqb_eq, IH. split.
  - intros [-> ->]. reflexivity.
  - intros [= -> ->]. tauto.
Qed.

Lemma key_eqb_eq (x y : key) : key_eqb x y = true <-> x = y.
Proof.
  destruct x, y; simpl; try (split; congruence).
  - rewrite String.eqb_eq. split; congruence.
  - rewrite strs_eqb_eq. split; congruence.
Qed.

Lemma key_eqb_refl (k : key) : key_eqb k k = true.
Proof. now apply key_eqb_eq. Qed.

Lemma key_eqb_neq (x y : key) : key_eqb x y = false <-> x <> y.
Proof.
  rewrite <- key_eqb_eq. destruct (key_eqb x y); split; congruence.
Qed.

(* ------------------------------------------------------------------ *)
(** ** Lists of results *)

Lemma mapM_ok (T U : Type) (f : T -> result U) (g : T -> U) (l : list T) :
  (forall x, In x l -> f x = Ok (g x)) -> mapM f l = Ok (map g l).
Proof.
  induction l as [|x l IH]; intros H; simpl; [reflexivity|].
  rewrite (H x) by now left. simpl.
  rewrite IH by (intros; apply H; now right). reflexivity.
Qed.

Lemma mapM_inv (T U : Type) (f : T -> result U) (l : list T) (ys : list U) :
  mapM f l = Ok ys -> Forall2 (fun x y => f x = Ok y) l ys.
Proof.
  revert ys. induction l as [|x l IH]; simpl; intros ys H.
  - injection H as <-. constructor.
  - bind_inv H. bind_inv H. injection H as <-. constructor; auto.
Qed.

Lemma filterM_ok (T : Type) (p : T -> result bool) (q : T -> bool) (l : list T) :
  (forall x, In x l -> p x = Ok (q x)) -> filterM p l = Ok (filter q l).
Proof.
  induction l as [|x l IH]; intros H; simpl; [reflexivity|].
  rewrite (H x) by now left. simpl.
  rewrite IH by (intros; apply H; now right). reflexivity.
Qed.

Lemma filterM_inv (T : Type) (p : T -> result bool) (l ys : list T) :
  filterM p l = Ok ys ->
  forall x, In x ys <-> In x l /\ p x = Ok true.
Proof.
  revert ys. induction l as [|a l IH]; simpl; intros ys H x.
  - injection H as <-. simpl. tauto.
  - bind_inv H. bind_inv H. injection H as <-.
    specialize (IH _ E0 x).
    destruct x0; simpl; rewrite IH; split.
    + intros [<-|[? ?]]; auto.
    + intros [[<-|?] ?]; auto.
    + intros [? ?]; auto.
    + intros [[<-|?] ?]; [congruence | auto].
Qed.

(* ------------------------------------------------------------------ *)
(** ** The closure walks yield objects of the store *)

Lemma deref_ok objs r o : deref objs r = Ok o <-> nth_error objs r = Some o.
Proof.
  unfold deref. destruct (nth_error objs r); split; congruence.
Qed.

Lemma related_loop_in_store fn objs map_ :
  forall fuel todo l,
    related_loop fn objs map_ fuel todo = Ok l -> Forall (in_store objs) l.
Proof.
  induction fuel as [|fuel IH]; intros [|[r|] todo] l H; simpl in H;
    try discriminate; try (injection H as <-; constructor).
  bind_inv H. bind_inv H. bind_inv H. injection H as <-.
  constructor; [|eauto].
  exists x. now apply deref_ok.
Qed.

Lemma related_targets_in_store fn objs map_ fuel check targets :
  forall rest l,
    related_targets fn objs map_ fuel check targets rest = Ok l ->
    Forall (in_store objs) l.
Proof.
  induction rest as [|t rest IH]; simpl; intros l H.
  - injection H as <-. constructor.
  - bind_inv H.
    destruct (if check then overlap x targets t else []).
    + bind_inv H. injection H as <-.
      apply Forall_app. split; [eapply related_loop_in_store|]; eauto.
    + destruct (attr objs t revision); discriminate.
Qed.

Lemma _iterate_related_revisions_in_store fn objs map_ fuel targets check l :
  _iterate_related_revisions fn objs map_ fuel targets check = Ok l ->
  Forall (in_store objs) l.
Proof. apply related_targets_in_store. Qed.

Lemma revisions_of_in_store st l :
  Forall (in_store (objs st)) l -> revisions_of st l = Ok (map (rev_id st) l).
Proof.
  intros H. unfold revisions_of. apply mapM_ok. intros r Hr.
  rewrite Forall_forall in H. destruct (H r Hr) as [o Ho].
  unfold attr, rev_id, deref. rewrite Ho. reflexivity.
Qed.

Lemma ref_set_of_in_store objs l :
  Forall (in_store objs) l -> Forall (in_store objs) (ref_set_of l).
Proof.
  rewrite !Forall_forall. intros H r Hr. apply H.
  unfold ref_set_of in Hr.
  exact (proj1 (In_set_of Nat.eqb Nat.eqb_eq r l) Hr).
Qed.

(* ------------------------------------------------------------------ *)
(** ** A lower bound that is not an ancestor *)

Lemma range_bounds_plain upper lower :
  relative_of upper = None -> relative_of lower = None ->
  range_bounds upper lower = (upper, lower).
Proof.
  unfold range_bounds. intros -> ->. reflexivity.
Qed.

Lemma iterate_revisions_plain fuel st upper lower implicit_base inclusive :
  relative_of upper = None -> relative_of lower = None ->
  iterate_revisions fuel st upper lower implicit_base inclusive
  = _iterate_revisions fuel st upper lower inclusive implicit_base.
Proof.
  unfold iterate_revisions. intros -> ->. reflexivity.
Qed.

(** An exception of the inner generator goes through
    [iterate_revisions] unchanged. *)
Lemma iterate_revisions_raises fuel st upper lower implicit_base inclusive e :
  _iterate_revisions fuel st (fst (range_bounds upper lower))
    (snd (range_bounds upper lower)) inclusive implicit_base = Err e ->
  iterate_revisions fuel st upper lower implicit_base inclusive = Err e.
Proof.
  unfold iterate_revisions, range_bounds.
  destruct (relative_of upper) as [[bu nu]|] eqn:Eu.
  - destruct upper as [|s|l]; try discriminate.
    simpl. intros ->. reflexivity.
  - assert (Hl :
      match relative_of lower, lower with
      | Some (branch_label, relative), IStr lower_s =>
          (upper, IStr match given branch_label with
                       | Some b => (b ++ "@base")%string
                       | None => "base"
                       end)
      | _, _ => (upper, lower)
      end =
      match None (A := option string * Z), upper with
      | Some (branch_label, _), IStr _ =>
          (IStr match given branch_label with
                | Some b => (b ++ "@head")%string
                | None => "head"
                end, lower)
      | _, _ =>
          match relative_of lower, lower with
          | Some (branch_label, _), IStr _ =>
              (upper, IStr match given branch_label with
                           | Some b => (b ++ "@base")%string
                           | None => "base"
                           end)
          | _, _ => (upper, lower)
          end
      end) by (destruct upper; reflexivity).
    destruct (relative_of lower) as [[bl nl]|] eqn:El.
    + destruct lower as [|s|l]; try discriminate.
      destruct upper; simpl; intros ->; reflexivity.
    + destruct upper, lower; simpl; intros ->; reflexivity.
Qed.

Lemma _iterate_revisions_not_ancestor fuel st upper lower inclusive implicit_base
    requested_lowers uppers upper_ancestors lowers lower_descendants :
  get_revisions fuel st lower = Ok requested_lowers ->
  get_revisions fuel st upper = Ok uppers ->
  _get_ancestor_nodes (objs st) (_revision_map st) fuel uppers true
    = Ok upper_ancestors ->
  range_lowers fuel st lower implicit_base requested_lowers
    (ref_set_of upper_ancestors) = Ok lowers ->
  _get_descendant_nodes (objs st) (_revision_map st) fuel lowers true
    = Ok lower_descendants ->
  disjoint_ids st upper_ancestors lower_descendants ->
  _iterate_revisions fuel st upper lower inclusive implicit_base
  = Err (RangeNotAncestorError lower upper).
Proof.
  intros Hrl Hu Hua Hl Hld Hdis.
  unfold _iterate_revisions.
  rewrite Hrl, Hu. simpl bind. rewrite Hua. simpl bind. rewrite Hl. simpl bind.
  apply _iterate_related_revisions_in_store in Hua as Vua.
  rewrite (revisions_of_in_store st (ref_set_of_in_store Vua)). simpl bind.
  rewrite Hld. simpl bind.
  apply _iterate_related_revisions_in_store in Hld as Vld.
  rewrite (revisions_of_in_store st Vld). simpl bind.
  match goal with
  | |- match ?t with [] => _ | _ :: _ => _ end = _ =>
      destruct t as [|x ts] eqn:E
  end; [reflexivity|].
  exfalso.
  assert (Hx : In x (x :: ts)) by now left.
  rewrite <- E in Hx.
  apply (proj1 (In_set_inter String.eqb String.eqb_eq _ _ _)) in Hx.
  destruct Hx as [Hx1 Hx2].
  apply (proj1 (In_set_of String.eqb String.eqb_eq _ _)) in Hx1.
  apply in_map_iff in Hx1 as (a & <- & Ha).
  apply in_map_iff in Hx2 as (d & Hd & Hd').
  apply (proj1 (In_set_of Nat.eqb Nat.eqb_eq _ _)) in Ha.
  now apply (Hdis a d).
Qed.

(* ------------------------------------------------------------------ *)
(** ** The dictionary *)

Lemma dict_get_set_same d k v : dict_get (dict_set d k v) k = Some v.
Proof.
  induction d as [|[k' v'] d IH]; simpl.
  - now rewrite key_eqb_refl.
  - destruct (key_eqb k k') eqn:E; simpl; rewrite E; auto.
Qed.

Lemma dict_get_set_other d k v k' :
  k <> k' -> dict_get (dict_set d k v) k' = dict_get d k'.
Proof.
  intros N. induction d as [|[k0 v0] d IH]; simpl.
  - destruct (key_eqb k' k) eqn:E; [|reflexivity].
    apply key_eqb_eq in E. congruence.
  - destruct (key_eqb k k0) eqn:E; simpl.
    + apply key_eqb_eq in E. subst k0.
      destruct (key_eqb k' k) eqn:E'; [|reflexivity].
      apply key_eqb_eq in E'. congruence.
    + now rewrite IH.
Qed.

Lemma dict_get_set d k v k' :
  dict_get (dict_set d k v) k' = if key_eqb k k' then Some v else dict_get d k'.
Proof.
  destruct (key_eqb k k') eqn:E.
  - apply key_eqb_eq in E. subst. apply dict_get_set_same.
  - apply key_eqb_neq in E. now apply dict_get_set_other.
Qed.

Lemma dict_get_In d k : In k (dict_keys d) <-> dict_get d k <> None.
Proof.
  induction d as [|[k' v'] d IH]; simpl.
  - split; [intros [] | congruence].
  - destruct (key_eqb k k') eqn:E.
    + apply key_eqb_eq in E. split; [congruence | auto].
    + apply key_eqb_neq in E. rewrite <- IH. split; [|tauto].
      intros [?|?]; [congruence | assumption].
Qed.

Lemma dict_mem_In d k : dict_mem d k = true <-> In k (dict_keys d).
Proof.
  rewrite dict_get_In. unfold dict_mem.
  destruct (dict_get d k); split; congruence.
Qed.

Lemma dict_keys_set d k v :
  dict_keys (dict_set d k v)
  = if dict_mem d k then dict_keys d else dict_keys d ++ [k].
Proof.
  unfold dict_mem. induction d as [|[k' v'] d IH]; simpl; [reflexivity|].
  destruct (key_eqb k k') eqn:E; simpl; [reflexivity|].
  rewrite IH. now destruct (dict_get d k).
Qed.

Lemma dict_get_entry d k v :
  NoDup (dict_keys d) -> In (k, v) d -> dict_get d k = Some v.
Proof.
  induction d as [|[k' v'] d IH]; simpl; intros N H; [contradiction|].
  inversion N as [|? ? Hk N']; subst.
  destruct H as [[= -> ->]|H].
  - now rewrite key_eqb_refl.
  - destruct (key_eqb k k') eqn:E; [|auto].
    apply key_eqb_eq in E. subst k'.
    exfalso. apply Hk. change k with (fst (k, v)). now apply in_map.
Qed.

Lemma dict_values_get d v :
  In v (dict_values d) -> NoDup (dict_keys d) ->
  exists k, dict_get d k = Some v.
Proof.
  intros H N. apply in_map_iff in H as ([k v'] & <- & H).
  exists k. now apply dict_get_entry.
Qed.

Lemma dict_get_value d k v : dict_get d k = Some v -> In v (dict_values d).
Proof.
  induction d as [|[k' v'] d IH]; simpl; [discriminate|].
  destruct (key_eqb k k'); [intros [= ->]; now left | auto].
Qed.

(* ------------------------------------------------------------------ *)
(** ** The object store *)

Lemma set_obj_length objs r o : length (set_obj objs r o) = length objs.
Proof.
  revert r. induction objs as [|x objs IH]; intros [|r]; simpl; auto.
Qed.

Lemma nth_set_obj_same objs r o :
  (r < length objs)%nat -> nth_error (set_obj objs r o) r = Some o.
Proof.
  revert r. induction objs as [|x objs IH]; intros [|r]; simpl; intros H;
    try lia; [reflexivity | apply IH; lia].
Qed.

Lemma nth_set_obj_other objs r o r' :
  r <> r' -> nth_error (set_obj objs r o) r' = nth_error objs r'.
Proof.
  revert r r'. induction objs as [|x objs IH]; intros [|r] [|r'] H; simpl;
    try reflexivity; try congruence.
  apply IH. congruence.
Qed.

Lemma nth_set_obj objs r o r' x :
  nth_error (set_obj objs r o) r' = Some x ->
  (r = r' /\ x = o) \/ (r <> r' /\ nth_error objs r' = Some x).
Proof.
  intros H. destruct (Nat.eq_dec r r') as [<-|N].
  - left. split; [reflexivity|].
    assert (L : (r < length objs)%nat).
    { rewrite <- (set_obj_length objs r o).
      apply nth_error_Some. congruence. }
    rewrite nth_set_obj_same in H by assumption. congruence.
  - right. rewrite nth_set_obj_other in H by assumption. auto.
Qed.

(* ------------------------------------------------------------------ *)
(** ** The build, first loop: indexing *)

Lemma set_of_snoc (A : Type) (eqb : A -> A -> bool) (l : list A) (x : A) :
  set_of eqb (l ++ [x]) = set_add eqb x (set_of eqb l).
Proof. unfold set_of, set_update. now rewrite fold_left_app. Qed.

Lemma dict_mem_str d l x :
  dict_keys d = map KStr l -> dict_mem d (KStr x) = str_mem x l.
Proof.
  intros H.
  destruct (str_mem x l) eqn:E.
  - apply dict_mem_In. rewrite H. apply in_map.
    now apply (mem_In String.eqb String.eqb_eq).
  - destruct (dict_mem d (KStr x)) eqn:E'; [|reflexivity].
    apply dict_mem_In in E'. rewrite H in E'.
    apply in_map_iff in E' as (y & [= ->] & Hy).
    apply (mem_In String.eqb String.eqb_eq) in Hy.
    unfold str_mem in E. congruence.
Qed.

Lemma filter_seq_snoc (f g : nat -> bool) n :
  (forall r, (r < n)%nat -> f r = g r) ->
  filter f (seq 0 (S n)) = filter g (seq 0 n) ++ (if f n then [n] else []).
Proof.
  intros H. rewrite seq_S, filter_app. simpl. f_equal.
  apply filter_ext_in. intros r Hr. apply in_seq in Hr. apply H. lia.
Qed.

Lemma index_step_spec seen rv acc :
  indexed_spec seen acc ->
  indexed_spec (seen ++ [rv]) (index_step (length seen) rv acc).
Proof.
  intros [Hk Hh Hb Hg Hl Hlab Hw].
  assert (Hmem : dict_mem (i_map acc) (KStr (revision rv))
                 = str_mem (revision rv) (i_heads acc))
    by now apply dict_mem_str.
  constructor; simpl.
  - rewrite dict_keys_set, Hmem, Hk.
    unfold str_set_add, set_add, str_mem.
    destruct (mem String.eqb (revision rv) (i_heads acc)); [reflexivity|].
    now rewrite map_app.
  - rewrite map_app. simpl. unfold str_set_of.
    rewrite set_of_snoc. unfold str_set_add. f_equal. exact Hh.
  - rewrite filter_app, map_app, Hb. simpl.
    destruct (is_base rv); simpl; [reflexivity | now rewrite app_nil_r].
  - intros k v H. rewrite dict_get_set in H.
    destruct (key_eqb (KStr (revision rv)) k) eqn:E.
    + apply key_eqb_eq in E. subst k. injection H as <-.
      exists (revision rv), (length seen), rv. repeat split.
      rewrite nth_error_app2 by lia. now rewrite Nat.sub_diag.
    + destruct (Hg _ _ H) as (s & r & o & -> & -> & Hn & Hr).
      exists s, r, o. repeat split; try assumption.
      rewrite nth_error_app1; [assumption|].
      apply nth_error_Some. congruence.
  - intros r o Hn Hlast. rewrite dict_get_set.
    destruct (Nat.lt_ge_cases r (length seen)) as [L|L].
    + rewrite nth_error_app1 in Hn by assumption.
      destruct (key_eqb (KStr (revision rv)) (KStr (revision o))) eqn:E.
      * apply key_eqb_eq in E. injection E as E.
        exfalso. apply (Hlast (length seen) rv L); [|assumption].
        rewrite nth_error_app2 by lia. now rewrite Nat.sub_diag.
      * apply Hl; [assumption|].
        intros r' o' Hlt Hn'. apply (Hlast r' o' Hlt).
        rewrite nth_error_app1; [assumption|].
        apply nth_error_Some. congruence.
    + rewrite nth_error_app2 in Hn by assumption.
      destruct (r - length seen)%nat as [|m] eqn:Em; simpl in Hn.
      * injection Hn as <-. rewrite key_eqb_refl. f_equal. f_equal. lia.
      * now destruct m.
  - rewrite length_app. simpl. rewrite Nat.add_1_r.
    rewrite (filter_seq_snoc (labelled_at (seen ++ [rv])) (labelled_at seen)).
    + rewrite <- Hlab. unfold labelled_at at 1.
      rewrite nth_error_app2 by lia. rewrite Nat.sub_diag. simpl.
      unfold has_labels.
      destruct (branch_labels rv); [now rewrite app_nil_r|].
      unfold set_add.
      destruct (mem Nat.eqb (length seen) (i_labeled acc)) eqn:E;
        [|reflexivity].
      apply (mem_In Nat.eqb Nat.eqb_eq) in E. rewrite Hlab in E.
      apply filter_In in E as [E _]. apply in_seq in E. lia.
    + intros r Hr. unfold labelled_at. now rewrite nth_error_app1.
  - intros N. rewrite map_app in N. simpl in N.
    apply NoDup_app_remove_r in N as N'. rewrite (Hw N'), Hmem.
    destruct (str_mem (revision rv) (i_heads acc)) eqn:E; [|reflexivity].
    apply (mem_In String.eqb String.eqb_eq) in E. rewrite Hh in E.
    apply (proj1 (In_set_of String.eqb String.eqb_eq _ _)) in E.
    exfalso. apply NoDup_remove_2 in N. apply N.
    now rewrite app_nil_r.
Qed.

Lemma index_loop_spec rest : forall seen acc,
  indexed_spec seen acc ->
  indexed_spec (seen ++ rest) (index_loop (length seen) rest acc).
Proof.
  induction rest as [|rv rest IH]; intros seen acc H; simpl.
  - now rewrite app_nil_r.
  - replace (seen ++ rv :: rest) with ((seen ++ [rv]) ++ rest)
      by now rewrite <- app_assoc.
    replace (S (length seen)) with (length (seen ++ [rv]))
      by (rewrite length_app; simpl; lia).
    apply IH. now apply index_step_spec.
Qed.

Lemma index_revisions_spec generator :
  indexed_spec generator (index_revisions generator).
Proof.
  apply (index_loop_spec generator (seen := [])).
  constructor; simpl; try reflexivity.
  - discriminate.
  - intros [|r] o H; discriminate.
Qed.

(* ------------------------------------------------------------------ *)
(** ** The build, second loop: linking *)

Lemma wbind_inv (T U : Type) (m : wresult T) (f : T -> wresult U) w (y : U) :
  wbind m f = (w, Ok y) ->
  exists w1 x w2, m = (w1, Ok x) /\ f x = (w2, Ok y) /\ w = w1 ++ w2.
Proof.
  destruct m as [w1 [x|e]]; simpl; [|discriminate].
  destruct (f x) as [w2 r] eqn:E. intros [= <- ->].
  now exists w1, x, w2.
Qed.

Lemma same_but_nextrev_refl o : same_but_nextrev o o.
Proof. repeat split. Qed.

Lemma same_but_nextrev_trans o1 o2 o3 :
  same_but_nextrev o1 o2 -> same_but_nextrev o2 o3 -> same_but_nextrev o1 o3.
Proof.
  unfold same_but_nextrev. intros (? & ? & ? & ?) (? & ? & ? & ?).
  repeat split; congruence.
Qed.

Lemma same_but_nextrev_tuple o o' :
  same_but_nextrev o o' -> _down_revision_tuple o' = _down_revision_tuple o.
Proof. unfold _down_revision_tuple. now intros (_ & -> & _). Qed.

Lemma discard_filter d ds (heads : list string) :
  filter (fun h => negb (str_mem h ds)) (set_discard String.eqb d heads)
  = filter (fun h => negb (str_mem h (d :: ds))) heads.
Proof.
  unfold set_discard. induction heads as [|h heads IH]; simpl; [reflexivity|].
  rewrite (String.eqb_sym h d).
  destruct (String.eqb d h); simpl; rewrite IH; reflexivity.
Qed.

Lemma link_downrevs_spec map_ rev name down :
  forall ds objs heads w objs' heads',
    link_downrevs map_ rev name down ds objs heads = (w, Ok (objs', heads')) ->
    w = []
    /\ length objs' = length objs
    /\ heads' = filter (fun h => negb (str_mem h ds)) heads
    /\ parents_present map_ (length objs) ds
    /\ forall r o, nth_error objs r = Some o ->
         exists o', nth_error objs' r = Some o' /\ linked map_ name ds r o o'.
Proof.
  induction ds as [|d ds IH]; intros objs heads w objs' heads' H.
  - simpl in H. injection H as <- <- <-. repeat split.
    + symmetry. apply forallb_filter_id. apply forallb_forall. reflexivity.
    + intros d [].
    + intros r o Hn. exists o. split; [assumption|].
      split; [apply same_but_nextrev_refl|]. split; [auto|].
      intros y. split; [auto|]. intros [?|(_ & ? & [] & _)]. assumption.
  - cbn [link_downrevs] in H.
    apply wbind_inv in H as (w1 & [] & w2 & H1 & H & ->).
    apply wbind_inv in H as (w3 & dn & w4 & H2 & H & ->).
    apply wbind_inv in H as (w5 & objs1 & w6 & H3 & H & ->).
    unfold lift, dict_lookup in H2.
    destruct (dict_get map_ (KStr d)) as [v|] eqn:Ed; [|discriminate].
    injection H2 as <- <-.
    unfold dict_mem in H1. rewrite Ed in H1. injection H1 as <-.
    destruct v as [p|]; [|discriminate].
    unfold lift in H3.
    destruct (deref objs p) as [po|] eqn:Ep; [|discriminate].
    injection H3 as <- <-. apply deref_ok in Ep.
    assert (Lp : (p < length objs)%nat) by (apply nth_error_Some; congruence).
    apply IH in H as (-> & Hlen & -> & Hpp & Hobj).
    rewrite set_obj_length in Hlen, Hpp.
    repeat split; try assumption.
    + apply discard_filter.
    + intros d' [<-|Hd']; [now exists p | now apply Hpp].
    + intros r o Hn.
      destruct (Nat.eq_dec p r) as [<-|Npr].
      * destruct (Hobj p (add_nextrev po name)) as (o' & Hn' & Hs & Hnd & Hy).
        { now apply nth_set_obj_same. }
        assert (o = po) by congruence. subst o.
        exists o'. split; [assumption|]. split; [|split].
        -- destruct Hs as (? & ? & ? & ?). repeat split; assumption.
        -- intros N. apply Hnd. simpl. unfold str_set_add.
           now apply (NoDup_set_add String.eqb String.eqb_eq).
        -- intros y. rewrite Hy. simpl. unfold str_set_add.
           rewrite (In_set_add String.eqb String.eqb_eq). split.
           ++ intros [[->|?]|(-> & d' & Hd' & Hg)].
              ** right. split; [reflexivity|]. exists d.
                 split; [now left | assumption].
              ** now left.
              ** right. split; [reflexivity|]. exists d'.
                 split; [now right | assumption].
           ++ intros [?|(-> & d' & [<-|Hd'] & Hg)].
              ** left. now right.
              ** left. now left.
              ** right. split; [reflexivity|]. now exists d'.
      * destruct (Hobj r o) as (o' & Hn' & Hs & Hnd & Hy).
        { now rewrite nth_set_obj_other. }
        exists o'. split; [assumption|]. split; [assumption|].
        split; [assumption|].
        intros y. rewrite Hy. split.
        -- intros [?|(-> & d' & Hd' & Hg)].
           ++ now left.
           ++ right. split; [reflexivity|]. exists d'.
              split; [now right | assumption].
        -- intros [?|(-> & d' & [<-|Hd'] & Hg)].
           ++ now left.
           ++ congruence.
           ++ right. split; [reflexivity|]. now exists d'.
Qed.

Lemma link_downrevs_ok map_ rev name down :
  forall ds objs heads,
    parents_present map_ (length objs) ds ->
    exists objs' heads',
      link_downrevs map_ rev name down ds objs heads = ([], Ok (objs', heads')).
Proof.
  induction ds as [|d ds IH]; intros objs heads Hpp.
  - now exists objs, heads.
  - destruct (Hpp d) as (p & Hg & Lp); [now left|].
    cbn [link_downrevs]. unfold dict_mem, dict_lookup. rewrite Hg.
    destruct (nth_error objs p) as [po|] eqn:Ep;
      [|apply nth_error_None in Ep; lia].
    simpl. unfold deref. rewrite Ep. simpl.
    destruct (IH (set_obj objs p (add_nextrev po name))
                (set_discard String.eqb d heads)) as (objs' & heads' & E).
    { rewrite set_obj_length. intros d' Hd'. apply Hpp. now right. }
    rewrite E. now exists objs', heads'.
Qed.

Lemma str_mem_app x (l1 l2 : list string) :
  str_mem x (l1 ++ l2) = str_mem x l1 || str_mem x l2.
Proof. unfold str_mem, mem. apply existsb_app. Qed.

Lemma filter_filter (T : Type) (f g : T -> bool) (l : list T) :
  filter f (filter g l) = filter (fun x => g x && f x) l.
Proof.
  induction l as [|x l IH]; simpl; [reflexivity|].
  destruct (g x); simpl; [destruct (f x)|]; now rewrite IH.
Qed.

Lemma link_values_spec map_ :
  forall vs objs heads w objs' heads',
    link_values map_ vs objs heads = (w, Ok (objs', heads')) ->
    w = []
    /\ length objs' = length objs
    /\ heads' = filter (fun h => negb (str_mem h (all_downs objs vs))) heads
    /\ parents_present map_ (length objs) (all_downs objs vs)
    /\ Forall (fun v => exists c, v = Some c /\ (c < length objs)%nat) vs
    /\ forall r o, nth_error objs r = Some o ->
         exists o', nth_error objs' r = Some o'
                    /\ linked_all map_ objs vs r o o'.
Proof.
  induction vs as [|v vs IH]; intros objs heads w objs' heads' H.
  - simpl in H. injection H as <- <- <-. repeat split.
    + symmetry. apply forallb_filter_id. apply forallb_forall. reflexivity.
    + intros d [].
    + constructor.
    + intros r o Hn. exists o. split; [assumption|].
      split; [apply same_but_nextrev_refl|]. split; [auto|].
      intros y. split; [auto|].
      intros [?|(c & oc & d & [] & _)]. assumption.
  - cbn [link_values] in H. destruct v as [c|]; [|discriminate].
    apply wbind_inv in H as (w1 & ocx & w2 & H1 & H & ->).
    unfold lift in H1. destruct (deref objs c) as [oc|] eqn:Ec; [|discriminate].
    injection H1 as <- <-. apply deref_ok in Ec.
    apply wbind_inv in H as (w3 & [objs1 heads1] & w4 & H2 & H & ->).
    apply link_downrevs_spec in H2 as (-> & Hlen1 & -> & Hpp1 & Hobj1).
    apply IH in H as (-> & Hlen & -> & Hpp & Hvs & Hobj).
    assert (Hdowns : forall v, downs_of objs1 v = downs_of objs v).
    { intros [c'|]; [|reflexivity]. simpl.
      destruct (nth_error objs c') as [o|] eqn:E.
      - destruct (Hobj1 _ _ E) as (o1 & -> & Hs & _).
        now apply same_but_nextrev_tuple.
      - apply nth_error_None in E. rewrite <- Hlen1 in E.
        apply nth_error_None in E. now rewrite E. }
    assert (Hall : all_downs objs1 vs = all_downs objs vs).
    { unfold all_downs. apply flat_map_ext. exact Hdowns. }
    rewrite Hall in *. rewrite Hlen1 in *.
    assert (Hd : all_downs objs (Some c :: vs)
                 = _down_revision_tuple oc ++ all_downs objs vs).
    { unfold all_downs. simpl. now rewrite Ec. }
    rewrite Hd. repeat split.
    + assumption.
    + rewrite filter_filter. apply filter_ext. intros h.
      rewrite str_mem_app. now rewrite negb_orb.
    + intros d Hdin. apply in_app_iff in Hdin as [Hdin|Hdin]; auto.
    + constructor; [|assumption].
      exists c. split; [reflexivity|]. apply nth_error_Some. congruence.
    + intros r o Hn.
      destruct (Hobj1 _ _ Hn) as (o1 & Hn1 & Hs1 & Hnd1 & Hy1).
      destruct (Hobj _ _ Hn1) as (o' & Hn' & Hs & Hnd & Hy).
      exists o'. split; [assumption|]. split; [|split].
      * eapply same_but_nextrev_trans; eassumption.
      * auto.
      * intros y. rewrite Hy, Hy1. split.
        -- intros [[?|(-> & d & Hdin & Hg)]|(c' & oc' & d & Hc & Hn2 & Hr & Hdin & Hg)].
           ++ now left.
           ++ right. exists c, oc, d. repeat split; auto. now left.
           ++ right.
              assert (exists oc0, nth_error objs c' = Some oc0
                                  /\ same_but_nextrev oc0 oc') as (oc0 & Hn0 & Hs0).
              { destruct (nth_error objs c') as [oc0|] eqn:E.
                - destruct (Hobj1 _ _ E) as (o2 & Hn2' & Hs2 & _).
                  exists oc0. split; [reflexivity|]. congruence.
                - apply nth_error_None in E. rewrite <- Hlen1 in E.
                  apply nth_error_None in E. congruence. }
              exists c', oc0, d. repeat split; auto.
              ** now right.
              ** destruct Hs0 as (E & _). congruence.
              ** now rewrite <- (same_but_nextrev_tuple Hs0).
        -- intros [?|(c' & oc' & d & [[= <-]|Hc] & Hn2 & Hr & Hdin & Hg)].
           ++ left. now left.
           ++ left. right. assert (oc' = oc) by congruence. subst oc'.
              split; [now symmetry|]. now exists d.
           ++ right.
              destruct (Hobj1 _ _ Hn2) as (o2 & Hn2' & Hs2 & _).
              exists c', o2, d. repeat split; auto.
              ** destruct Hs2 as (E & _). congruence.
              ** now rewrite (same_but_nextrev_tuple Hs2).
Qed.

Lemma link_values_ok map_ :
  forall vs objs heads,
    Forall (fun v => exists c, v = Some c /\ (c < length objs)%nat) vs ->
    parents_present map_ (length objs) (all_downs objs vs) ->
    exists objs' heads',
      link_values map_ vs objs heads = ([], Ok (objs', heads')).
Proof.
  induction vs as [|v vs IH]; intros objs heads Hvs Hpp.
  - now exists objs, heads.
  - inversion Hvs as [|? ? (c & -> & Lc) Hvs']; subst.
    destruct (nth_error objs c) as [oc|] eqn:Ec;
      [|apply nth_error_None in Ec; lia].
    cbn [link_values]. unfold deref. rewrite Ec. simpl.
    assert (Hd : all_downs objs (Some c :: vs)
                 = _down_revision_tuple oc ++ all_downs objs vs).
    { unfold all_downs. simpl. now rewrite Ec. }
    rewrite Hd in Hpp.
    destruct (@link_downrevs_ok map_ c (revision oc) (down_revision oc)
                (_down_revision_tuple oc) objs heads) as (objs1 & heads1 & E1).
    { intros d Hdin. apply Hpp. apply in_app_iff. now left. }
    rewrite E1. simpl.
    apply link_downrevs_spec in E1 as (_ & Hlen1 & _ & _ & Hobj1).
    assert (Hall : all_downs objs1 vs = all_downs objs vs).
    { unfold all_downs. apply flat_map_ext. intros [c'|]; [|reflexivity].
      simpl. destruct (nth_error objs c') as [o|] eqn:E.
      - destruct (Hobj1 _ _ E) as (o1 & -> & Hs & _).
        now apply same_but_nextrev_tuple.
      - apply nth_error_None in E. rewrite <- Hlen1 in E.
        apply nth_error_None in E. now rewrite E. }
    destruct (IH objs1 heads1) as (objs' & heads' & E).
    { now rewrite Hlen1. }
    { rewrite Hlen1, Hall. intros d Hdin. apply Hpp. apply in_app_iff.
      now right. }
    rewrite E. now exists objs', heads'.
Qed.

(* ------------------------------------------------------------------ *)
(** ** The build, third loop: branch labels *)

Lemma same_but_labels_refl o : same_but_labels o o.
Proof. repeat split. apply incl_refl. Qed.

Lemma same_but_labels_trans o1 o2 o3 :
  same_but_labels o1 o2 -> same_but_labels o2 o3 -> same_but_labels o1 o3.
Proof.
  unfold same_but_labels. intros (? & ? & ? & ? & ?) (? & ? & ? & ? & ?).
  repeat split; try congruence. eapply incl_tran; eassumption.
Qed.

Lemma same_but_labels_update o labels :
  same_but_labels o (update_branch_labels o labels).
Proof.
  repeat split. simpl. intros x Hx. unfold str_set_update.
  apply (In_set_update String.eqb String.eqb_eq). now left.
Qed.

Lemma store_ext_refl objs : store_ext objs objs.
Proof.
  split; [reflexivity|]. intros r o H. exists o.
  split; [assumption | apply same_but_labels_refl].
Qed.

Lemma store_ext_trans o1 o2 o3 :
  store_ext o1 o2 -> store_ext o2 o3 -> store_ext o1 o3.
Proof.
  intros [L1 H1] [L2 H2]. split; [congruence|].
  intros r o Hn. destruct (H1 _ _ Hn) as (o' & Hn' & S1).
  destruct (H2 _ _ Hn') as (o'' & Hn'' & S2).
  exists o''. split; [assumption|]. eapply same_but_labels_trans; eassumption.
Qed.

Lemma store_ext_back objs objs' r o' :
  store_ext objs objs' -> nth_error objs' r = Some o' ->
  exists o, nth_error objs r = Some o /\ same_but_labels o o'.
Proof.
  intros [L H] Hn. destruct (nth_error objs r) as [o|] eqn:E.
  - destruct (H _ _ E) as (o2 & Hn2 & S). exists o.
    split; [reflexivity|]. congruence.
  - apply nth_error_None in E. rewrite <- L in E.
    apply nth_error_None in E. congruence.
Qed.

Lemma store_ext_set objs r o labels :
  nth_error objs r = Some o ->
  store_ext objs (set_obj objs r (update_branch_labels o labels)).
Proof.
  intros Hn. split; [apply set_obj_length|].
  intros r' o' Hn'. destruct (Nat.eq_dec r r') as [<-|N].
  - assert (o' = o) by congruence. subst o'.
    exists (update_branch_labels o labels). split.
    + apply nth_set_obj_same. apply nth_error_Some. congruence.
    + apply same_but_labels_update.
  - exists o'. rewrite nth_set_obj_other by assumption.
    split; [assumption | apply same_but_labels_refl].
Qed.

Lemma label_node_ext rev objs n objs' :
  label_node rev objs n = Ok objs' -> store_ext objs objs'.
Proof.
  unfold label_node. intros H. bind_inv H. bind_inv H. injection H as <-.
  apply store_ext_set. now apply deref_ok.
Qed.

Lemma label_nodes_ext rev nodes : forall objs objs',
  label_nodes rev objs nodes = Ok objs' -> store_ext objs objs'.
Proof.
  induction nodes as [|n nodes IH]; simpl; intros objs objs' H.
  - injection H as <-. apply store_ext_refl.
  - bind_inv H. eapply store_ext_trans; [eapply label_node_ext|]; eauto.
Qed.

Lemma label_ancestors_ext map_ rev : forall fuel objs parent objs',
  label_ancestors fuel map_ rev objs parent = Ok objs' -> store_ext objs objs'.
Proof.
  induction fuel as [|fuel IH]; intros objs [p|] objs' H; simpl in H;
    try (injection H as <-; apply store_ext_refl).
  - bind_inv H. destruct (is_branch_point x || is_merge_point x);
      [injection H as <-; apply store_ext_refl | discriminate].
  - bind_inv H. apply deref_ok in E.
    destruct (is_branch_point x || is_merge_point x);
      [injection H as <-; apply store_ext_refl|].
    bind_inv H.
    destruct (pyval_truthy (down_revision x)).
    + bind_inv H. eapply store_ext_trans; [|eapply IH; eassumption].
      now apply store_ext_set.
    + injection H as <-. now apply store_ext_set.
Qed.

Lemma dict_ext_refl n d : dict_ext n d d.
Proof. split; auto. Qed.

Lemma dict_ext_trans n d1 d2 d3 :
  dict_ext n d1 d2 -> dict_ext n d2 d3 -> dict_ext n d1 d3.
Proof.
  intros [A1 B1] [A2 B2]. split; [auto|].
  intros k v H. destruct (B2 _ _ H) as [H'|H']; auto.
Qed.

Lemma register_labels_ext objs rev name labels : forall map_ map',
  (rev < length objs)%nat ->
  register_labels objs rev name labels map_ = Ok map' ->
  dict_ext (length objs) map_ map'.
Proof.
  induction labels as [|l labels IH]; simpl; intros map_ map' L H.
  - injection H as <-. apply dict_ext_refl.
  - destruct (dict_get map_ (KStr l)) as [other|] eqn:E.
    + destruct (attr objs other revision); discriminate.
    + eapply dict_ext_trans; [|eapply IH; eassumption].
      split.
      * intros k v Hk. rewrite dict_get_set.
        destruct (key_eqb (KStr l) k) eqn:Ek; [|assumption].
        apply key_eqb_eq in Ek. congruence.
      * intros k v Hk. rewrite dict_get_set in Hk.
        destruct (key_eqb (KStr l) k) eqn:Ek; [|now left].
        apply key_eqb_eq in Ek. subst k. injection Hk as <-.
        right. now exists l, rev.
Qed.

Lemma _add_branches_ext fuel objs map_ rev objs' map' :
  _add_branches fuel objs map_ rev = Ok (objs', map') ->
  store_ext objs objs' /\ dict_ext (length objs) map_ map'.
Proof.
  unfold _add_branches. intros H. bind_inv H. apply deref_ok in E.
  destruct (branch_labels x).
  - injection H as <- <-. split; [apply store_ext_refl | apply dict_ext_refl].
  - bind_inv H. bind_inv H. bind_inv H. bind_inv H. injection H as <- <-.
    split.
    + eapply store_ext_trans; [eapply label_nodes_ext|
                                eapply label_ancestors_ext]; eassumption.
    + eapply register_labels_ext; [|eassumption].
      apply nth_error_Some. congruence.
Qed.

Lemma add_all_branches_ext fuel labeled : forall objs map_ objs' map',
  add_all_branches fuel labeled objs map_ = Ok (objs', map') ->
  store_ext objs objs' /\ dict_ext (length objs) map_ map'.
Proof.
  induction labeled as [|rev labeled IH]; simpl; intros objs map_ objs' map' H.
  - injection H as <- <-. split; [apply store_ext_refl | apply dict_ext_refl].
  - bind_inv H. destruct x as [objs1 map1].
    apply _add_branches_ext in E as [S1 D1].
    apply IH in H as [S2 D2].
    split; [eapply store_ext_trans; eassumption|].
    eapply dict_ext_trans; [eassumption|].
    destruct S1 as [L1 _]. now rewrite <- L1.
Qed.

(* ------------------------------------------------------------------ *)
(** ** The build as a whole *)

Lemma with_sentinels_str map_ s :
  dict_get (with_sentinels map_) (KStr s) = dict_get map_ (KStr s).
Proof.
  unfold with_sentinels.
  rewrite !dict_get_set_other by discriminate. reflexivity.
Qed.

Lemma RevisionMap_build_inv fuel generator w st :
  RevisionMap_build fuel generator = (w, Ok st) ->
  let ix := index_revisions generator in
  exists objs1,
    link_values (i_map ix) (dict_values (i_map ix)) generator (i_heads ix)
      = ([], Ok (objs1, heads st))
    /\ add_all_branches fuel (i_labeled ix) objs1 (with_sentinels (i_map ix))
       = Ok (objs st, _revision_map st)
    /\ bases st = i_bases ix
    /\ w = i_warnings ix.
Proof.
  intros H ix. unfold RevisionMap_build in H. fold ix in H.
  apply wbind_inv in H as (w1 & [objs1 heads1] & w2 & H1 & H & ->).
  apply wbind_inv in H1 as (w3 & [] & w4 & H0 & H1 & ->).
  injection H0 as <-.
  apply wbind_inv in H as (w5 & [objs2 map2] & w6 & H2 & H & ->).
  unfold lift in H2. injection H as <- <-. simpl.
  destruct (add_all_branches _ _ _ _) as [[? ?]|] eqn:E; [|discriminate].
  injection H2 as <- <- <-.
  apply link_values_spec in H1 as H1'. destruct H1' as (-> & _).
  exists objs1. repeat split; try assumption.
  now rewrite !app_nil_r.
Qed.

Lemma constructed_nextrev o : constructed o -> nextrev o = [].
Proof. intros (r & d & b & ->). reflexivity. Qed.

Lemma constructed_is_base o : constructed o -> is_base o = no_parent o.
Proof.
  intros (r & d & b & ->). unfold is_base, no_parent, _down_revision_tuple.
  simpl. destruct d as [|[|c s]|[|x [|y l]]]; reflexivity.
Qed.

Lemma set_add_fresh (A : Type) (eqb : A -> A -> bool) x l :
  mem eqb x l = false -> set_add eqb x l = l ++ [x].
Proof. unfold set_add. now intros ->. Qed.

Lemma set_of_NoDup (A : Type) (eqb : A -> A -> bool) :
  (forall x y, eqb x y = true <-> x = y) ->
  forall l, NoDup l -> set_of eqb l = l.
Proof.
  intros eqb_eq l. induction l as [|x l IH] using rev_ind; intros N.
  - reflexivity.
  - rewrite set_of_snoc. apply NoDup_remove in N as [N Hx].
    rewrite app_nil_r in *. rewrite (IH N).
    apply set_add_fresh. now apply (mem_false eqb eqb_eq).
Qed.

Lemma filter_map_pointwise (T U V : Type) (f : V -> bool) (g : T -> V)
    (f' : U -> bool) (g' : U -> V) :
  forall (l : list T) (l' : list U),
    length l = length l' ->
    (forall r a b, nth_error l r = Some a -> nth_error l' r = Some b ->
                   g a = g' b /\ f (g a) = f' b) ->
    filter f (map g l) = map g' (filter f' l').
Proof.
  induction l as [|a l IH]; intros [|b l'] L H; simpl in *; try discriminate.
  - reflexivity.
  - destruct (H 0%nat a b eq_refl eq_refl) as [E1 E2].
    rewrite E2, E1.
    rewrite (IH l') by (try lia; intros r; apply (H (S r))).
    now destruct (f' b).
Qed.

Lemma map_filter_pointwise (T U V : Type) (g : T -> V) (g' : U -> V)
    (f : T -> bool) (f' : U -> bool) :
  forall (l : list T) (l' : list U),
    length l = length l' ->
    (forall r a b, nth_error l r = Some a -> nth_error l' r = Some b ->
                   g a = g' b /\ f a = f' b) ->
    map g (filter f l) = map g' (filter f' l').
Proof.
  induction l as [|a l IH]; intros [|b l'] L H; simpl in *; try discriminate.
  - reflexivity.
  - destruct (H 0%nat a b eq_refl eq_refl) as [E1 E2].
    rewrite E2.
    assert (E : map g (filter f l) = map g' (filter f' l'))
      by (apply IH; [lia | intros r; apply (H (S r))]).
    destruct (f' b); simpl; now rewrite ?E1, E.
Qed.

Lemma NoDup_map_nth (T U : Type) (g : T -> U) (l : list T) r r' a b :
  NoDup (map g l) -> nth_error l r = Some a -> nth_error l r' = Some b ->
  g a = g b -> r = r'.
Proof.
  intros N Ha Hb E.
  apply (proj1 (NoDup_nth_error (map g l)) N).
  - rewrite length_map. apply nth_error_Some. congruence.
  - rewrite !nth_error_map, Ha, Hb. simpl. now rewrite E.
Qed.

Section BuildGraph.

Variable generator : list Revision.

Hypothesis Hcons : Forall constructed generator.

Hypothesis Hnodup : NoDup (map revision generator).

Local Abbreviation ix := (index_revisions generator).

Lemma index_get_nodup r o :
  nth_error generator r = Some o ->
  dict_get (i_map ix) (KStr (revision o)) = Some (Some r).
Proof.
  intros Hn. apply (ix_last (index_revisions_spec generator)); [assumption|].
  intros r' o' Hlt Hn' E.
  assert (r' = r) by (eapply NoDup_map_nth; eassumption). lia.
Qed.

Lemma index_get_inv d r :
  dict_get (i_map ix) (KStr d) = Some (Some r) ->
  exists o, nth_error generator r = Some o /\ revision o = d.
Proof.
  intros H.
  destruct (ix_get (index_revisions_spec generator) _ H)
    as (s & r' & o & [= <-] & [= <-] & Hn & Hr).
  now exists o.
Qed.

Lemma index_keys_nodup : NoDup (dict_keys (i_map ix)).
Proof.
  rewrite (ix_keys (index_revisions_spec generator)).
  apply Injective_map_NoDup; [intros x y [= ->]; reflexivity|].
  rewrite (ix_heads (index_revisions_spec generator)).
  apply (NoDup_set_of String.eqb String.eqb_eq).
Qed.

Lemma index_values c :
  In (Some c) (dict_values (i_map ix)) <-> (c < length generator)%nat.
Proof.
  split.
  - intros H. apply dict_values_get in H as (k & Hk);
      [|apply index_keys_nodup].
    destruct (ix_get (index_revisions_spec generator) _ Hk)
      as (s & r' & o & _ & [= <-] & Hn & _).
    apply nth_error_Some. congruence.
  - intros L. destruct (nth_error generator c) as [o|] eqn:E;
      [|apply nth_error_None in E; lia].
    apply dict_get_value with (k := KStr (revision o)).
    now apply index_get_nodup.
Qed.

Lemma index_all_downs d :
  In d (all_downs generator (dict_values (i_map ix))) <->
  exists c, In c generator /\ In d (_down_revision_tuple c).
Proof.
  unfold all_downs. rewrite in_flat_map. split.
  - intros ([c|] & Hc & Hd); [|contradiction]. simpl in Hd.
    destruct (nth_error generator c) as [o|] eqn:E; [|contradiction].
    exists o. split; [eapply nth_error_In; eassumption | assumption].
  - intros (o & Ho & Hd). apply In_nth_error in Ho as (c & Hc).
    exists (Some c). split.
    + apply index_values. apply nth_error_Some. congruence.
    + simpl. now rewrite Hc.
Qed.

Lemma index_child_of r o y :
  nth_error generator r = Some o ->
  child_of (i_map ix) generator (dict_values (i_map ix)) r y <->
  exists c, In c generator /\ revision c = y
            /\ In (revision o) (_down_revision_tuple c).
Proof.
  intros Hn. split.
  - intros (c & oc & d & Hc & Hnc & Hr & Hd & Hg).
    exists oc. split; [eapply nth_error_In; eassumption|].
    split; [assumption|].
    apply index_get_inv in Hg as (o2 & Hn2 & <-).
    congruence.
  - intros (oc & Hoc & Hr & Hd). apply In_nth_error in Hoc as (c & Hc).
    exists c, oc, (revision o). repeat split; try assumption.
    + apply index_values. apply nth_error_Some. congruence.
    + now apply index_get_nodup.
Qed.

Theorem build_graph fuel w st :
  RevisionMap_build fuel generator = (w, Ok st) ->
  w = [] /\ graph_of generator st.
Proof.
  intros H. apply RevisionMap_build_inv in H.
  destruct H as (objs1 & Hlink & Hlab & Hbases & ->).
  pose proof (index_revisions_spec generator) as IX.
  apply link_values_spec in Hlink
    as (_ & Hlen1 & Hheads & Hpp & Hvs & Hobj1).
  apply add_all_branches_ext in Hlab as [[Hlen2 Hobj2] [Hd1 Hd2]].
  assert (Hnode : forall r o,
    nth_error generator r = Some o ->
    exists o',
      nth_error (objs st) r = Some o'
      /\ revision o' = revision o
      /\ down_revision o' = down_revision o
      /\ _orig_branch_labels o' = _orig_branch_labels o
      /\ incl (branch_labels o) (branch_labels o')
      /\ NoDup (nextrev o')
      /\ (forall y, In y (nextrev o') <->
                    exists c, In c generator /\ revision c = y
                              /\ In (revision o) (_down_revision_tuple c))
      /\ dict_get (_revision_map st) (KStr (revision o)) = Some (Some r)).
  { intros r o Hn.
    destruct (Hobj1 _ _ Hn) as (o1 & Hn1 & (S1 & S2 & S3 & S4) & Hnd & Hy).
    destruct (Hobj2 _ _ Hn1) as (o2 & Hn2 & (T1 & T2 & T3 & T4 & T5)).
    assert (Hfresh : nextrev o = []).
    { apply constructed_nextrev. rewrite Forall_forall in Hcons.
      apply Hcons. eapply nth_error_In; eassumption. }
    exists o2. repeat split; try congruence.
    - rewrite <- S4. assumption.
    - rewrite T4. apply Hnd. rewrite Hfresh. constructor.
    - rewrite T4. intros Hin. apply Hy in Hin as [Hin|Hin].
      + rewrite Hfresh in Hin. contradiction.
      + exact (proj1 (@index_child_of r o y Hn) Hin).
    - rewrite T4. intros Hin. apply Hy. right.
      exact (proj2 (@index_child_of r o y Hn) Hin).
    - apply Hd1. rewrite with_sentinels_str. now apply index_get_nodup. }
  split; [now apply (ix_warnings IX)|].
  constructor.
  - congruence.
  - exact Hnode.
  - intros c d Hc Hd.
    destruct (Hpp d) as (r & Hg & _).
    { apply index_all_downs. now exists c. }
    apply index_get_inv in Hg as (o & Hn & <-).
    apply in_map. eapply nth_error_In; eassumption.
  - rewrite Hbases, (ix_bases IX).
    apply map_filter_pointwise; [congruence|].
    intros r a b Ha Hb.
    destruct (Hnode _ _ Ha) as (o' & Hn' & R1 & R2 & _).
    assert (o' = b) by congruence. subst o'.
    split; [now symmetry|].
    rewrite constructed_is_base.
    + unfold no_parent, _down_revision_tuple. now rewrite R2.
    + rewrite Forall_forall in Hcons. apply Hcons.
      eapply nth_error_In; eassumption.
  - rewrite Hheads, (ix_heads IX).
    unfold str_set_of.
    rewrite (set_of_NoDup String.eqb String.eqb_eq Hnodup).
    apply filter_map_pointwise; [congruence|].
    intros r a b Ha Hb.
    destruct (Hnode _ _ Ha) as (o' & Hn' & R1 & _ & _ & _ & _ & Hy & _).
    assert (o' = b) by congruence. subst o'.
    split; [now symmetry|].
    unfold is_head.
    destruct (nextrev b) as [|y ys] eqn:Eb.
    + apply negb_true_iff. apply (mem_false String.eqb String.eqb_eq).
      intros Hin. apply index_all_downs in Hin as (c & Hc & Hd).
      apply (proj2 (Hy (revision c))). now exists c.
    + apply negb_false_iff. apply (mem_In String.eqb String.eqb_eq).
      apply index_all_downs.
      destruct (proj1 (Hy y)) as (c & Hc & _ & Hd); [now left|].
      now exists c.
  - intros k v Hk. apply Hd2 in Hk as [Hk|(s & r & -> & -> & L)].
    + unfold with_sentinels in Hk. rewrite !dict_get_set in Hk.
      destruct (key_eqb (KTuple []) k) eqn:E1.
      { apply key_eqb_eq in E1. injection Hk as <-. left. auto. }
      destruct (key_eqb KNone k) eqn:E2.
      { apply key_eqb_eq in E2. injection Hk as <-. left. auto. }
      right.
      destruct (ix_get IX _ Hk) as (s & r & o & -> & -> & Hn & _).
      exists s, r. repeat split.
      rewrite Hlen2, Hlen1. apply nth_error_Some. congruence.
    + right. exists s, r. repeat split. now rewrite Hlen2.
  - split; apply Hd1; unfold with_sentinels.
    + rewrite dict_get_set_other by discriminate. apply dict_get_set_same.
    + apply dict_get_set_same.
Qed.

End BuildGraph.

(* ------------------------------------------------------------------ *)
(** ** When the build goes through, and when it does not *)

Lemma index_values_in_store generator :
  Forall (fun v => exists c, v = Some c /\ (c < length generator)%nat)
    (dict_values (i_map (index_revisions generator))).
Proof.
  apply Forall_forall. intros v Hv.
  apply dict_values_get in Hv as (k & Hk); [|apply index_keys_nodup].
  destruct (ix_get (index_revisions_spec generator) _ Hk)
    as (s & r & o & _ & -> & Hn & _).
  exists r. split; [reflexivity|]. apply nth_error_Some. congruence.
Qed.

Lemma index_get_in_store generator d v :
  dict_get (i_map (index_revisions generator)) (KStr d) = Some v ->
  exists r, v = Some r /\ (r < length generator)%nat.
Proof.
  intros H.
  destruct (ix_get (index_revisions_spec generator) _ H)
    as (s & r & o & _ & -> & Hn & _).
  exists r. split; [reflexivity|]. apply nth_error_Some. congruence.
Qed.

Lemma index_mem generator d :
  dict_mem (i_map (index_revisions generator)) (KStr d) = true
  <-> In d (map revision generator).
Proof.
  pose proof (index_revisions_spec generator) as IX.
  rewrite (@dict_mem_str _ _ d (ix_keys IX)), (ix_heads IX).
  unfold str_mem. rewrite (mem_In String.eqb String.eqb_eq).
  apply (In_set_of String.eqb String.eqb_eq).
Qed.

Lemma all_downs_In objs vs d :
  In d (all_downs objs vs) <->
  exists c oc, In (Some c) vs /\ nth_error objs c = Some oc
               /\ In d (_down_revision_tuple oc).
Proof.
  unfold all_downs. rewrite in_flat_map. split.
  - intros ([c|] & Hc & Hd); [|contradiction]. simpl in Hd.
    destruct (nth_error objs c) as [o|] eqn:E; [|contradiction].
    now exists c, o.
  - intros (c & oc & Hc & Hn & Hd). exists (Some c).
    split; [assumption|]. simpl. now rewrite Hn.
Qed.

Lemma filter_none (T : Type) (f : T -> bool) (l : list T) :
  (forall x, In x l -> f x = false) -> filter f l = [].
Proof.
  induction l as [|x l IH]; intros H; simpl; [reflexivity|].
  rewrite (H x) by now left. apply IH. intros y Hy. apply H. now right.
Qed.

(** A generator without branch labels whose parents are all produced:
    the build returns a map. *)
Lemma build_unlabelled_ok fuel generator :
  (forall c d, In c generator -> In d (_down_revision_tuple c) ->
               In d (map revision generator)) ->
  Forall (fun o => branch_labels o = []) generator ->
  exists w st, RevisionMap_build fuel generator = (w, Ok st).
Proof.
  intros Hpar Hlab.
  pose proof (index_revisions_spec generator) as IX.
  destruct (@link_values_ok (i_map (index_revisions generator))
              (dict_values (i_map (index_revisions generator)))
              generator (i_heads (index_revisions generator)))
    as (objs1 & heads1 & E).
  { apply index_values_in_store. }
  { intros d Hd. apply all_downs_In in Hd as (c & oc & Hc & Hn & Hd).
    assert (Hin : In d (map revision generator)).
    { apply (Hpar oc); [eapply nth_error_In; eassumption | assumption]. }
    apply index_mem in Hin. unfold dict_mem in Hin.
    destruct (dict_get _ (KStr d)) as [v|] eqn:Ev; [|discriminate].
    destruct (index_get_in_store _ _ Ev) as (r & -> & L). now exists r. }
  assert (El : i_labeled (index_revisions generator) = []).
  { rewrite (ix_labeled IX).
    apply filter_none. intros r _. unfold labelled_at.
    destruct (nth_error generator r) as [o|] eqn:Er; [|reflexivity].
    rewrite Forall_forall in Hlab. unfold has_labels.
    rewrite (Hlab o); [reflexivity | eapply nth_error_In; eassumption]. }
  unfold RevisionMap_build. rewrite E, El. simpl.
  eexists. eexists. reflexivity.
Qed.

(** The inner loop of the linking either links every parent or stops at
    the first one that is missing, with a warning and a [KeyError]. *)
Lemma link_downrevs_cases map_ rev name down n :
  (forall d v, dict_get map_ (KStr d) = Some v ->
               exists r, v = Some r /\ (r < n)%nat) ->
  forall ds objs heads,
    length objs = n ->
    (exists objs' heads',
        link_downrevs map_ rev name down ds objs heads
        = ([], Ok (objs', heads'))
        /\ length objs' = n)
    \/ (exists d,
           In d ds /\ dict_mem map_ (KStr d) = false
           /\ link_downrevs map_ rev name down ds objs heads
              = ([WarnNotPresent down rev], Err (KeyError (KStr d)))).
Proof.
  intros Hmap. induction ds as [|d ds IH]; intros objs heads L.
  - left. now exists objs, heads.
  - cbn [link_downrevs]. unfold dict_mem, dict_lookup.
    destruct (dict_get map_ (KStr d)) as [v|] eqn:Ed.
    + destruct (Hmap _ _ Ed) as (p & -> & Lp). simpl.
      destruct (nth_error objs p) as [po|] eqn:Ep;
        [|apply nth_error_None in Ep; lia].
      unfold deref. rewrite Ep. simpl.
      destruct (IH (set_obj objs p (add_nextrev po name))
                  (set_discard String.eqb d heads))
        as [(objs' & heads' & E & L')|(d' & Hd' & Hm & E)].
      * now rewrite set_obj_length.
      * left. rewrite E. now exists objs', heads'.
      * right. exists d'. rewrite E. unfold dict_mem in Hm.
        repeat split; [now right | assumption].
    + right. exists d. simpl. unfold dict_mem. rewrite Ed.
      repeat split. now left.
Qed.

Lemma link_values_missing map_ n :
  (forall d v, dict_get map_ (KStr d) = Some v ->
               exists r, v = Some r /\ (r < n)%nat) ->
  forall vs objs heads,
    length objs = n ->
    Forall (fun v => exists c, v = Some c /\ (c < n)%nat) vs ->
    (exists d, In d (all_downs objs vs) /\ dict_mem map_ (KStr d) = false) ->
    exists d c oc,
      dict_mem map_ (KStr d) = false
      /\ nth_error objs c = Some oc
      /\ In d (_down_revision_tuple oc)
      /\ link_values map_ vs objs heads
         = ([WarnNotPresent (down_revision oc) c], Err (KeyError (KStr d))).
Proof.
  intros Hmap. induction vs as [|v vs IH]; intros objs heads L Hvs Hmiss.
  - destruct Hmiss as (d & [] & _).
  - inversion Hvs as [|? ? (c & -> & Lc) Hvs']; subst.
    destruct (nth_error objs c) as [oc|] eqn:Ec;
      [|apply nth_error_None in Ec; lia].
    cbn [link_values]. unfold deref. rewrite Ec. simpl.
    destruct (@link_downrevs_cases map_ c (revision oc) (down_revision oc)
                (length objs) Hmap (_down_revision_tuple oc) objs heads
                eq_refl)
      as [(objs1 & heads1 & E & L1)|(d & Hd & Hm & E)].
    + rewrite E. simpl.
      apply link_downrevs_spec in E as (_ & _ & _ & Hpp & Hobj1).
      assert (Hall : all_downs objs1 vs = all_downs objs vs).
      { unfold all_downs. apply flat_map_ext. intros [c'|]; [|reflexivity].
        simpl. destruct (nth_error objs c') as [o|] eqn:E.
        - destruct (Hobj1 _ _ E) as (o1 & -> & Hs & _).
          now apply same_but_nextrev_tuple.
        - apply nth_error_None in E. rewrite <- L1 in E.
          apply nth_error_None in E. now rewrite E. }
      destruct (IH objs1 heads1 L1 Hvs') as (d & c' & oc' & Hm & Hn & Hd & E).
      { destruct Hmiss as (d & Hd & Hm). exists d. split; [|assumption].
        rewrite Hall. unfold all_downs in Hd. simpl in Hd. rewrite Ec in Hd.
        apply in_app_iff in Hd as [Hd|Hd]; [|assumption].
        exfalso. destruct (Hpp d Hd) as (r & Hg & _).
        unfold dict_mem in Hm. now rewrite Hg in Hm. }
      rewrite E.
      assert (exists oc0, nth_error objs c' = Some oc0
                          /\ same_but_nextrev oc0 oc') as (oc0 & Hn0 & Hs0).
      { destruct (nth_error objs c') as [oc0|] eqn:E0.
        - destruct (Hobj1 _ _ E0) as (o2 & Hn2' & Hs2 & _).
          exists oc0. split; [reflexivity|]. congruence.
        - apply nth_error_None in E0. rewrite <- L1 in E0.
          apply nth_error_None in E0. congruence. }
      exists d, c', oc0. repeat split; try assumption.
      * now rewrite <- (same_but_nextrev_tuple Hs0).
      * destruct Hs0 as (_ & -> & _). reflexivity.
    + rewrite E. simpl. now exists d, c, oc.
Qed.

(* ================================================================== *)
(** * Example maps *)

Example chain3_range :
  names_of (built 20 Examples.chain3)
    (iterate_revisions 20 (built 20 Examples.chain3) (IStr "head") (IStr "base")
       false true)
  = Ok ["C"; "B"; "A"].
Proof. reflexivity. Qed.

Example diamond_range :
  names_of (built 20 Examples.diamond)
    (iterate_revisions 20 (built 20 Examples.diamond) (IStr "M") (IStr "base")
       false true)
  = Ok ["M"; "X"; "Y"; "A"].
Proof. reflexivity. Qed.

Example dangling_build :
  RevisionMap_build 20 Examples.dangling
  = ([WarnNotPresent (PStr "A") 0], Err (KeyError (KStr "A"))).
Proof. reflexivity. Qed.

Example prefixes_ambiguous :
  get_revisions 20 (built 20 Examples.prefixes) (IStr "abc")
  = Err (ResolutionError
           "Multiple revisions start with 'abc': 'abc123', 'abc456'...").
Proof. reflexivity. Qed.

Example prefixes_unique :
  names_of (built 20 Examples.prefixes)
    (r <- get_revisions 20 (built 20 Examples.prefixes) (IStr "abc1") ;;
     Ok (flat_map (fun n => match n with Some x => [x] | None => [] end) r))
  = Ok ["abc123"].
Proof. reflexivity. Qed.

Example two_heads_head :
  get_revisions 20 (built 20 Examples.two_heads) (IStr "head")
  = Err (MultipleHeads ["H1"; "H2"] "head").
Proof. reflexivity. Qed.

(* ================================================================== *)
(** * The statements of the specification *)

Lemma get_revisions_no_lower fuel st lower requested_lowers :
  lower = IStr "base" \/ lower = INone ->
  get_revisions fuel st lower = Ok requested_lowers ->
  requested_lowers = [].
Proof.
  intros Hl H. destruct fuel as [|fuel].
  - destruct Hl as [-> | ->]; discriminate.
  - destruct Hl as [-> | ->]; simpl in H; congruence.
Qed.

(** C10.  With [inclusive=False] and a lower bound of ["base"] or [None],
    the lower identifier resolves to no revision, so the exclusive range
    skips nothing: [_iterate_revisions] yields exactly what the inclusive
    run yields, the base revisions at the lower boundary included, and so
    does [iterate_revisions] when [upper] is not a relative identifier. *)
Theorem exclusive_range_keeps_bases fuel st upper implicit_base lower :
  lower = IStr "base" \/ lower = INone ->
  get_revisions (S fuel) st lower = Ok []
  /\ _iterate_revisions fuel st upper lower false implicit_base
     = _iterate_revisions fuel st upper lower true implicit_base
  /\ (relative_of upper = None ->
      iterate_revisions fuel st upper lower implicit_base false
      = iterate_revisions fuel st upper lower implicit_base true).
Proof.
  intros Hl.
  assert (Heq : _iterate_revisions fuel st upper lower false implicit_base
                = _iterate_revisions fuel st upper lower true implicit_base).
  { rewrite _iterate_revisions_exclusive.
    destruct (get_revisions fuel st lower) as [rl|e] eqn:E.
    - apply (get_revisions_no_lower _ _ Hl) in E as ->. simpl.
      destruct (_iterate_revisions fuel st upper lower true implicit_base)
        as [out|e]; [|reflexivity].
      simpl. f_equal. apply forallb_filter_id. apply forallb_forall.
      reflexivity.
    - simpl. unfold _iterate_revisions. now rewrite E. }
  split; [destruct Hl as [-> | ->]; reflexivity|].
  split; [exact Heq|].
  intros Hu.
  assert (Hlo : relative_of lower = None)
    by (destruct Hl as [-> | ->]; reflexivity).
  now rewrite !iterate_revisions_plain.
Qed.

Lemma exclusive_range_keeps_bases_witness :
  names_of (built 20 Examples.chain3)
    (iterate_revisions 20 (built 20 Examples.chain3) (IStr "head")
       (IStr "base") false false)
  = Ok ["C"; "B"; "A"].
Proof.
  rewrite (proj2 (proj2 (exclusive_range_keeps_bases 20
                           (built 20 Examples.chain3) (IStr "head") false
                           (or_introl eq_refl))) eq_refl).
  reflexivity.
Defined.

(** C8.  When the ancestors of the resolved upper revisions and the
    descendants of the resolved lower boundary share no revision id,
    [_iterate_revisions] and [iterate_revisions] raise
    [RangeNotAncestorError] with the two bounds of the range: the bounds
    given, or the anchor (head or base) of a relative bound. *)
Theorem iterate_revisions_not_ancestor fuel st upper lower implicit_base
    inclusive requested_lowers uppers upper_ancestors lowers
    lower_descendants :
  get_revisions fuel st (snd (range_bounds upper lower))
    = Ok requested_lowers ->
  get_revisions fuel st (fst (range_bounds upper lower)) = Ok uppers ->
  _get_ancestor_nodes (objs st) (_revision_map st) fuel uppers true
    = Ok upper_ancestors ->
  range_lowers fuel st (snd (range_bounds upper lower)) implicit_base
    requested_lowers (ref_set_of upper_ancestors) = Ok lowers ->
  _get_descendant_nodes (objs st) (_revision_map st) fuel lowers true
    = Ok lower_descendants ->
  disjoint_ids st upper_ancestors lower_descendants ->
  _iterate_revisions fuel st (fst (range_bounds upper lower))
    (snd (range_bounds upper lower)) inclusive implicit_base
  = Err (RangeNotAncestorError (snd (range_bounds upper lower))
           (fst (range_bounds upper lower)))
  /\ iterate_revisions fuel st upper lower implicit_base inclusive
     = Err (RangeNotAncestorError (snd (range_bounds upper lower))
              (fst (range_bounds upper lower)))
  /\ (relative_of upper = None -> relative_of lower = None ->
      range_bounds upper lower = (upper, lower)).
Proof.
  intros Hrl Hu Hua Hl Hld Hdis.
  assert (E : _iterate_revisions fuel st (fst (range_bounds upper lower))
                (snd (range_bounds upper lower)) inclusive implicit_base
              = Err (RangeNotAncestorError (snd (range_bounds upper lower))
                       (fst (range_bounds upper lower))))
    by (eapply _iterate_revisions_not_ancestor; eassumption).
  split; [exact E|]. split.
  - now apply iterate_revisions_raises.
  - apply range_bounds_plain.
Qed.

Lemma iterate_revisions_not_ancestor_witness :
  iterate_revisions 20 (built 20 Examples.chain5) (IStr "a2") (IStr "a4")
    false true
  = Err (RangeNotAncestorError (IStr "a4") (IStr "a2")).
Proof.
  refine (proj1 (proj2
    (@iterate_revisions_not_ancestor 20 (built 20 Examples.chain5)
       (IStr "a2") (IStr "a4") false true
       [Some 3] [Some 1] [1; 0] [Some 3] [3; 4]
       eq_refl eq_refl eq_refl eq_refl eq_refl _))).
  intros x y Hx Hy. simpl in Hx, Hy.
  destruct Hx as [<-|[<-|[]]]; destruct Hy as [<-|[<-|[]]];
    vm_compute; discriminate.
Defined.

(** C9.  After a build from constructed revisions with pairwise
    different ids, [bases] is the ids of the objects without a parent and
    [heads] the ids of the objects without a child, both in the order of
    construction; an id is in [bases] (in [heads]) exactly when its object
    has no parent (no child). *)
Theorem build_bases_heads fuel generator w st :
  Forall constructed generator ->
  NoDup (map revision generator) ->
  RevisionMap_build fuel generator = (w, Ok st) ->
  map revision (objs st) = map revision generator
  /\ bases st = map revision (filter no_parent (objs st))
  /\ heads st = map revision (filter is_head (objs st))
  /\ forall o, In o (objs st) ->
       (In (revision o) (bases st) <-> _down_revision_tuple o = [])
       /\ (In (revision o) (heads st) <-> nextrev o = []).
Proof.
  intros Hc Hn Hb.
  destruct (@build_graph _ Hc Hn _ _ _ Hb) as (_ & G).
  assert (Hids : map revision (objs st) = map revision generator).
  { apply nth_error_ext. intros r. rewrite !nth_error_map.
    destruct (nth_error generator r) as [o|] eqn:E.
    - destruct (g_node G _ E) as (o' & Hn' & Hr' & _).
      rewrite Hn'. simpl. now rewrite Hr'.
    - apply nth_error_None in E. rewrite <- (g_length G) in E.
      apply nth_error_None in E. now rewrite E. }
  split; [exact Hids|].
  split; [exact (g_bases G)|]. split; [exact (g_heads G)|].
  assert (Huniq : forall (f : Revision -> bool) o,
             In o (objs st) ->
             (In (revision o) (map revision (filter f (objs st)))
              <-> f o = true)).
  { intros f o Ho. split.
    - intros H. apply in_map_iff in H as (o2 & E & H2).
      apply filter_In in H2 as [H2 F2].
      apply In_nth_error in Ho as (r & Hr).
      apply In_nth_error in H2 as (r2 & Hr2).
      rewrite <- Hids in Hn.
      assert (r2 = r) by (eapply NoDup_map_nth; eassumption).
      subst r2. congruence.
    - intros F. apply in_map. apply filter_In. now split. }
  intros o Ho. rewrite (g_bases G), (g_heads G), !Huniq by assumption.
  unfold no_parent, is_head. split.
  - destruct (_down_revision_tuple o); split; congruence.
  - destruct (nextrev o); split; congruence.
Qed.

Lemma build_bases_heads_witness :
  bases (built 20 Examples.diamond) = ["A"]
  /\ heads (built 20 Examples.diamond) = ["M"].
Proof.
  assert (Hc : Forall constructed Examples.diamond).
  { repeat constructor; eexists; eexists; eexists; reflexivity. }
  assert (Hn : NoDup (map revision Examples.diamond)).
  { simpl. repeat constructor; simpl; intuition discriminate. }
  destruct (@build_bases_heads 20 Examples.diamond []
              (built 20 Examples.diamond) Hc Hn eq_refl)
    as (_ & Hb & Hh & _).
  rewrite Hb, Hh. split; reflexivity.
Defined.

(** C2 (the code differs).  A build over revisions with pairwise
    different ids, one of which names a parent id that no revision has:
    the build logs the warning and then raises [KeyError] at
    [map_[downrev]]; no map is returned. *)
Theorem build_missing_parent_raises fuel generator o d :
  NoDup (map revision generator) ->
  In o generator ->
  In d (_down_revision_tuple o) ->
  ~ In d (map revision generator) ->
  exists d' c oc,
    ~ In d' (map revision generator)
    /\ nth_error generator c = Some oc
    /\ In d' (_down_revision_tuple oc)
    /\ RevisionMap_build fuel generator
       = ([WarnNotPresent (down_revision oc) c], Err (KeyError (KStr d'))).
Proof.
  intros Hn Ho Hd Hmiss.
  pose proof (index_revisions_spec generator) as IX.
  apply In_nth_error in Ho as (r & Hr).
  destruct (@link_values_missing (i_map (index_revisions generator))
              (length generator) (@index_get_in_store generator)
              (dict_values (i_map (index_revisions generator)))
              generator (i_heads (index_revisions generator)) eq_refl
              (index_values_in_store generator))
    as (d' & c & oc & Hm & Hc & Hd' & E).
  { exists d. split.
    - apply all_downs_In. exists r, o. repeat split; try assumption.
      apply index_values; [assumption|]. apply nth_error_Some. congruence.
    - destruct (dict_mem _ (KStr d)) eqn:Em; [|reflexivity].
      apply index_mem in Em. contradiction. }
  exists d', c, oc. repeat split; try assumption.
  - intros Hin. apply index_mem in Hin. congruence.
  - unfold RevisionMap_build. rewrite E, (ix_warnings IX Hn). reflexivity.
Qed.

Lemma build_missing_parent_raises_witness :
  RevisionMap_build 20 Examples.dangling
  = ([WarnNotPresent (PStr "A") 0], Err (KeyError (KStr "A"))).
Proof.
  assert (Hn : NoDup (map revision Examples.dangling)).
  { simpl. repeat constructor; simpl; intuition discriminate. }
  destruct (@build_missing_parent_raises 20 Examples.dangling
              (Revision_init "B" (PStr "A") PNone) "A" Hn
              (or_introl eq_refl) (or_introl eq_refl))
    as (d' & c & oc & _ & _ & _ & E).
  { simpl. intuition discriminate. }
  reflexivity.
Defined.

(* ------------------------------------------------------------------ *)
(** ** Resolution of a prefix *)

Lemma partial_lookup_plain keys p :
  Forall plain_key keys ->
  partial_lookup keys (Some p)
  = Ok (filter (fun x => startswith x p)
          (flat_map (fun k => match k with
                              | KStr s => if str_truthy s then [s] else []
                              | _ => []
                              end) keys)).
Proof.
  induction keys as [|k keys IH]; intros H; [reflexivity|].
  inversion H as [|? ? Hk H']; subst. specialize (IH H').
  destruct k as [|s|[|x l]]; simpl; try assumption; try contradiction.
  destruct s as [|c s]; [assumption|].
  rewrite IH. cbn [bind str_truthy app filter].
  now destruct (startswith (String c s) p).
Qed.

Lemma known_ids_get st x :
  In x (known_ids st) -> exists v, dict_get (_revision_map st) (KStr x) = Some v.
Proof.
  unfold known_ids. intros H. apply in_flat_map in H as (k & Hk & Hx).
  destruct k as [|s|l]; try contradiction.
  destruct (str_truthy s); [|contradiction].
  destruct Hx as [<-|[]].
  apply dict_get_In in Hk.
  destruct (dict_get (_revision_map st) (KStr s)) as [v|]; [|congruence].
  now exists v.
Qed.

Lemma _revision_for_ident_partial fuel st p :
  Forall plain_key (dict_keys (_revision_map st)) ->
  dict_get (_revision_map st) (KStr p) = None ->
  _revision_for_ident (S fuel) st (Some p) None
  = match candidates st p with
    | [] => Err (ResolutionError (no_such_revision p))
    | [x] => dict_lookup (_revision_map st) (KStr x)
    | revs => Err (ResolutionError (multiple_revisions p revs))
    end.
Proof.
  intros Hk Hg. cbn [_revision_for_ident given bind]. rewrite Hg.
  rewrite (@partial_lookup_plain _ p Hk). fold (known_ids st).
  fold (candidates st p). cbn [bind pystr].
  destruct (candidates st p) as [|x [|y revs]]; cbn [bind]; try reflexivity.
  now destruct (dict_lookup (_revision_map st) (KStr x)).
Qed.

(** C6.  A string [p] that is not a key of the dictionary is resolved as
    a prefix of the known ids (the non-empty string keys of the map): with
    no candidate a [ResolutionError] is raised, with exactly one the entry
    of that candidate is returned, and with more a [ResolutionError] is
    raised whose message gives the requested string and the first three
    candidates at most, followed by an ellipsis.  Resolving a bare
    identifier with [get_revisions] gives the same outcome. *)
Theorem prefix_resolution fuel st p :
  Forall plain_key (dict_keys (_revision_map st)) ->
  dict_get (_revision_map st) (KStr p) = None ->
  match candidates st p with
  | [] =>
      _revision_for_ident (S fuel) st (Some p) None
      = Err (ResolutionError
               ("No such revision or branch '" ++ p ++ "'")%string)
  | [x] =>
      exists v,
        dict_get (_revision_map st) (KStr x) = Some v
        /\ _revision_for_ident (S fuel) st (Some p) None = Ok v
  | revs =>
      _revision_for_ident (S fuel) st (Some p) None
      = Err (ResolutionError
               ("Multiple revisions start with '" ++ p ++ "': "
                  ++ join ", " (map quoted (firstn 3 revs)) ++ "...")%string)
  end
  /\ (bare p ->
      get_revisions (S fuel) st (IStr p)
      = (rev <- _revision_for_ident (S fuel) st (Some p) None ;; Ok [rev])).
Proof.
  intros Hk Hg. split.
  - rewrite (@_revision_for_ident_partial fuel st p Hk Hg).
    destruct (candidates st p) as [|x [|y revs]] eqn:E; try reflexivity.
    destruct (@known_ids_get st x) as (v & Hv).
    { assert (Hx : In x (candidates st p)) by (rewrite E; now left).
      unfold candidates in Hx. now apply filter_In in Hx as [Hx _]. }
    exists v. split; [assumption|]. unfold dict_lookup. now rewrite Hv.
  - intros (Hat & H1 & H2 & H3).
    cbn [get_revisions _resolve_revision_number].
    rewrite Hat, H1, H2, H3. cbn [bind mapM].
    destruct (_revision_for_ident (S fuel) st (Some p) None); reflexivity.
Qed.

Lemma prefix_resolution_witness :
  get_revisions 1 (built 20 Examples.prefixes) (IStr "abc")
  = Err (ResolutionError
           "Multiple revisions start with 'abc': 'abc123', 'abc456'...")
  /\ get_revisions 1 (built 20 Examples.prefixes) (IStr "abc1") = Ok [Some 0]
  /\ get_revisions 1 (built 20 Examples.prefixes) (IStr "x")
     = Err (ResolutionError "No such revision or branch 'x'").
Proof.
  assert (Hk : Forall plain_key
                 (dict_keys (_revision_map (built 20 Examples.prefixes)))).
  { repeat constructor. }
  destruct (@prefix_resolution 0 (built 20 Examples.prefixes) "abc" Hk eq_refl)
    as [H1 G1].
  destruct (@prefix_resolution 0 (built 20 Examples.prefixes) "abc1" Hk eq_refl)
    as [H2 G2].
  destruct (@prefix_resolution 0 (built 20 Examples.prefixes) "x" Hk eq_refl)
    as [H3 G3].
  rewrite G1, G2, G3 by (repeat split).
  repeat split; reflexivity.
Defined.

(* ------------------------------------------------------------------ *)
(** ** The current head *)

Lemma filterM_incl (T : Type) (p : T -> result bool) (l ys : list T) :
  filterM p l = Ok ys -> incl ys l.
Proof.
  intros H x Hx. now apply (filterM_inv _ _ H) in Hx as [Hx _].
Qed.

Lemma contains_at_app b r :
  contains_at (b ++ String at_sign r)%string = true.
Proof.
  induction b as [|c b IH]; simpl.
  - reflexivity.
  - rewrite IH. apply orb_true_r.
Qed.

Lemma split_at_app b r :
  contains_at b = false -> split_at (b ++ String at_sign r)%string = (b, r).
Proof.
  induction b as [|c b IH]; simpl; intros H.
  - reflexivity.
  - apply orb_false_iff in H as [H1 H2]. rewrite H1, (IH H2). reflexivity.
Qed.

Lemma qualifying_heads_are_heads fuel st branch_label hs :
  qualifying_heads fuel st branch_label = Ok hs -> incl hs (heads st).
Proof.
  unfold qualifying_heads. destruct (given branch_label) as [b|].
  - destruct fuel as [|fuel]; [discriminate|].
    cbn [filter_for_lineage]. intros H. bind_inv H. destruct x as [id_ bl].
    eapply filterM_incl. eassumption.
  - intros [= <-]. apply incl_refl.
Qed.

(** [get_current_head] by the heads that qualify: it returns the one
    qualifying head when there is exactly one, [None] when there is none,
    and raises [MultipleHeads] with all the qualifying heads and the
    request (["head"] or ["<branch>@head"]) when there are more.
    Resolving the request string goes through [get_current_head]. *)
Lemma get_current_head_cases fuel st branch_label hs :
  qualifying_heads fuel st branch_label = Ok hs ->
  get_current_head (S fuel) st branch_label
  = match hs with
    | [] => Ok None
    | [h] => Ok (Some h)
    | _ => Err (MultipleHeads hs (head_request branch_label))
    end
  /\ incl hs (heads st)
  /\ (given branch_label = None -> hs = heads st)
  /\ ((forall b, given branch_label = Some b -> contains_at b = false) ->
      _resolve_revision_number (S (S fuel)) st
        (Some (head_request branch_label))
      = (h <- get_current_head (S fuel) st (given branch_label) ;;
         Ok ([h], given branch_label))).
Proof.
  intros H. split; [|split; [|split]].
  - unfold qualifying_heads in H. cbn [get_current_head].
    unfold head_request. destruct (given branch_label) as [b|].
    + rewrite H. cbn [bind]. destruct hs as [|h [|h2 hs]]; reflexivity.
    + injection H as <-. cbn [bind].
      destruct (heads st) as [|h [|h2 hs]]; reflexivity.
  - eapply qualifying_heads_are_heads. eassumption.
  - unfold qualifying_heads in H. intros E. rewrite E in H. congruence.
  - intros Hb. unfold head_request.
    destruct (given branch_label) as [b|] eqn:E.
    + specialize (Hb b eq_refl).
      cbn [_resolve_revision_number].
      change (b ++ "@head")%string with (b ++ String at_sign "head")%string.
      rewrite contains_at_app, (@split_at_app b "head" Hb).
      reflexivity.
    + reflexivity.
Qed.

(* ------------------------------------------------------------------ *)
(** ** The graph of a build, by the revisions the generator produces *)

Lemma children_of_In l x y :
  In y (children_of l x) <->
  exists c, In c l /\ revision c = y /\ In x (_down_revision_tuple c).
Proof.
  unfold children_of. rewrite in_map_iff. split.
  - intros (c & Hr & Hc). apply filter_In in Hc as [Hc Hm].
    apply (mem_In String.eqb String.eqb_eq) in Hm. now exists c.
  - intros (c & Hc & Hr & Hx). exists c. split; [assumption|].
    apply filter_In. split; [assumption|].
    now apply (mem_In String.eqb String.eqb_eq).
Qed.

Lemma children_of_perm l l' x y :
  Permutation l l' -> In y (children_of l x) <-> In y (children_of l' x).
Proof.
  intros P. rewrite !children_of_In. split; intros (c & Hc & H);
    exists c; (split; [|assumption]).
  - eapply Permutation_in; eassumption.
  - eapply Permutation_in; [apply Permutation_sym|]; eassumption.
Qed.

Lemma childless_In l h :
  In h (childless l) <->
  In h (map revision l) /\ forall y, ~ In y (children_of l h).
Proof.
  unfold childless. rewrite filter_In. split; intros [H1 H2];
    (split; [assumption|]).
  - destruct (children_of l h); [intros y []|discriminate].
  - destruct (children_of l h) as [|y ys]; [reflexivity|].
    destruct (H2 y). now left.
Qed.

Lemma childless_perm l l' h :
  Permutation l l' -> In h (childless l) <-> In h (childless l').
Proof.
  intros P. rewrite !childless_In. split; intros [H1 H2]; split.
  - eapply Permutation_in; [apply Permutation_map|]; eassumption.
  - intros y Hy. apply (H2 y). now apply (children_of_perm h y P).
  - eapply Permutation_in;
      [apply Permutation_map, Permutation_sym|]; eassumption.
  - intros y Hy. apply (H2 y). now apply (children_of_perm h y P).
Qed.

Lemma parentless_perm l l' h :
  Permutation l l' -> In h (parentless l) <-> In h (parentless l').
Proof.
  intros P. unfold parentless. rewrite !in_map_iff.
  split; intros (c & Hr & Hc); exists c; (split; [assumption|]);
    apply filter_In in Hc as [Hc Hn]; apply filter_In; (split; [|assumption]).
  - eapply Permutation_in; eassumption.
  - eapply Permutation_in; [apply Permutation_sym|]; eassumption.
Qed.

Lemma NoDup_singleton (T : Type) (l : list T) (x : T) :
  NoDup l -> (forall y, In y l <-> y = x) -> l = [x].
Proof.
  intros N H. destruct l as [|a [|b l]].
  - destruct (proj2 (H x) eq_refl).
  - f_equal. apply H. now left.
  - exfalso. inversion N as [|? ? Ha _]; subst. apply Ha.
    assert (a = x) by (apply H; now left).
    assert (b = x) by (apply H; right; now left).
    left. congruence.
Qed.

Lemma In_nil (T : Type) (l : list T) : (forall y, ~ In y l) -> l = [].
Proof.
  destruct l as [|a l]; [reflexivity|]. intros H. destruct (H a). now left.
Qed.

Lemma NoDup_map_filter (T U : Type) (g : T -> U) (f : T -> bool) (l : list T) :
  NoDup (map g l) -> NoDup (map g (filter f l)).
Proof.
  induction l as [|x l IH]; simpl; intros N; [constructor|].
  inversion N as [|? ? Hx N']; subst.
  destruct (f x); simpl; [|auto].
  constructor; [|auto].
  intros H. apply Hx. apply in_map_iff in H as (y & E & Hy).
  apply filter_In in Hy as [Hy _]. apply in_map_iff. now exists y.
Qed.

Lemma graph_node l generator st o :
  Permutation l generator -> graph_of generator st -> In o l ->
  exists r o', node_of l st o r o'.
Proof.
  intros P G Ho.
  assert (Hg : In o generator) by (eapply Permutation_in; eassumption).
  apply In_nth_error in Hg as (r & Hr).
  destruct (g_node G _ Hr) as (o' & Hn & R1 & R2 & _ & _ & Nd & Hy & Hget).
  exists r, o'. constructor; try assumption.
  - unfold _down_revision_tuple. now rewrite R2.
  - intros y. rewrite Hy, (children_of_perm (revision o) y P).
    symmetry. apply children_of_In.
Qed.

Lemma graph_heads l generator st :
  Permutation l generator -> graph_of generator st ->
  NoDup (map revision generator) ->
  NoDup (heads st) /\ forall h, In h (heads st) <-> In h (childless l).
Proof.
  intros P G N.
  assert (Hids : map revision (objs st) = map revision generator).
  { apply nth_error_ext. intros r. rewrite !nth_error_map.
    destruct (nth_error generator r) as [o|] eqn:E.
    - destruct (g_node G _ E) as (o' & Hn' & Hr' & _).
      rewrite Hn'. simpl. now rewrite Hr'.
    - apply nth_error_None in E. rewrite <- (g_length G) in E.
      apply nth_error_None in E. now rewrite E. }
  split.
  - rewrite (g_heads G). apply NoDup_map_filter. now rewrite Hids.
  - intros h. rewrite (childless_perm h P), childless_In, (g_heads G).
    rewrite in_map_iff. split.
    + intros (o' & Hr & Ho'). apply filter_In in Ho' as [Ho' Hh].
      apply In_nth_error in Ho' as (r & Hr').
      destruct (nth_error generator r) as [o|] eqn:E.
      * destruct (g_node G _ E) as (o2 & Hn2 & R1 & _ & _ & _ & _ & Hy & _).
        assert (o2 = o') by congruence. subst o2.
        split.
        -- apply in_map_iff. exists o. split; [congruence|].
           eapply nth_error_In; eassumption.
        -- intros y Hy'. apply children_of_In in Hy'.
           assert (Hin : In y (nextrev o'))
             by (apply Hy; now rewrite <- Hr, R1 in Hy').
           unfold is_head in Hh. destruct (nextrev o'); [destruct Hin|].
           discriminate.
      * apply nth_error_None in E. rewrite <- (g_length G) in E.
        apply nth_error_None in E. congruence.
    + intros (Hh & Hno). apply in_map_iff in Hh as (o & Hr & Ho).
      apply In_nth_error in Ho as (r & Hn).
      destruct (g_node G _ Hn) as (o' & Hn' & R1 & _ & _ & _ & _ & Hy & _).
      exists o'. split; [congruence|]. apply filter_In.
      split; [eapply nth_error_In; eassumption|].
      unfold is_head. destruct (nextrev o') as [|y ys] eqn:Ey; [reflexivity|].
      exfalso. apply (Hno y). apply children_of_In. rewrite <- Hr.
      apply Hy. now left.
Qed.

Lemma graph_bases l generator st :
  Permutation l generator -> graph_of generator st ->
  NoDup (map revision generator) ->
  NoDup (bases st) /\ forall h, In h (bases st) <-> In h (parentless l).
Proof.
  intros P G N.
  assert (Hids : map revision (objs st) = map revision generator).
  { apply nth_error_ext. intros r. rewrite !nth_error_map.
    destruct (nth_error generator r) as [o|] eqn:E.
    - destruct (g_node G _ E) as (o' & Hn' & Hr' & _).
      rewrite Hn'. simpl. now rewrite Hr'.
    - apply nth_error_None in E. rewrite <- (g_length G) in E.
      apply nth_error_None in E. now rewrite E. }
  split.
  - rewrite (g_bases G). apply NoDup_map_filter. now rewrite Hids.
  - intros h. rewrite (parentless_perm h P), (g_bases G).
    unfold parentless. rewrite !in_map_iff. split.
    + intros (o' & Hr & Ho'). apply filter_In in Ho' as [Ho' Hh].
      apply In_nth_error in Ho' as (r & Hr').
      destruct (nth_error generator r) as [o|] eqn:E.
      * destruct (g_node G _ E) as (o2 & Hn2 & R1 & R2 & _).
        assert (o2 = o') by congruence. subst o2.
        exists o. split; [congruence|]. apply filter_In.
        split; [eapply nth_error_In; eassumption|].
        unfold no_parent, _down_revision_tuple in *. now rewrite <- R2.
      * apply nth_error_None in E. rewrite <- (g_length G) in E.
        apply nth_error_None in E. congruence.
    + intros (o & Hr & Ho). apply filter_In in Ho as [Ho Hh].
      apply In_nth_error in Ho as (r & Hn).
      destruct (g_node G _ Hn) as (o' & Hn' & R1 & R2 & _).
      exists o'. split; [congruence|]. apply filter_In.
      split; [eapply nth_error_In; eassumption|].
      unfold no_parent, _down_revision_tuple in *. now rewrite R2.
Qed.

(* ------------------------------------------------------------------ *)
(** ** Symbolic runs over a map of known shape *)

Lemma related_loop_nil fn objs map_ fuel :
  related_loop fn objs map_ fuel [] = Ok [].
Proof. destruct fuel; reflexivity. Qed.

Lemma traverse_nil st total_space branch_endpoints inclusive requested_lowers
    fuel stop :
  traverse st total_space branch_endpoints inclusive requested_lowers fuel []
    stop = Ok [].
Proof. destruct fuel; reflexivity. Qed.

Lemma node_at_deref st x r o ps cs :
  node_at st x r o ps cs -> deref (objs st) r = Ok o.
Proof. intros H. apply deref_ok. apply (at_obj H). Qed.

Lemma node_at_lookup st x r o ps cs :
  node_at st x r o ps cs ->
  dict_lookup (_revision_map st) (KStr x) = Ok (Some r).
Proof. intros H. unfold dict_lookup. now rewrite (at_get H). Qed.

Lemma node_at_branch_point st x r o ps cs :
  node_at st x r o ps cs -> is_branch_point o = (1 <? length cs)%nat.
Proof. intros H. unfold is_branch_point. now rewrite (at_nextrev H). Qed.

Lemma node_at_ref_neq st x r o ps cs x' r' o' ps' cs' :
  node_at st x r o ps cs -> node_at st x' r' o' ps' cs' -> x <> x' ->
  Nat.eqb r r' = false.
Proof.
  intros H H' N. apply Nat.eqb_neq. intros ->.
  pose proof (at_obj H). pose proof (at_obj H').
  pose proof (at_revision H). pose proof (at_revision H'). congruence.
Qed.

Lemma node_at_rev_id st x r o ps cs :
  node_at st x r o ps cs -> rev_id st r = x.
Proof.
  intros H. unfold rev_id. rewrite (at_obj H). apply (at_revision H).
Qed.

Create HintDb pyset.

#[local] Hint Unfold set_add set_update set_of set_inter set_diff set_discard
  mem str_mem node_mem ref_mem ref_set_of str_set_of str_set_add
  str_set_update overlap revisions_of range_branch_endpoints lookup_all
  children_of childless parentless no_parent : pyset.

(** Rewrite with every equation among the hypotheses. *)
Ltac rew :=
  repeat match goal with
         | H : _ = _ |- _ => rewrite H
         end.

(** Unfold a node's record into equations the run can rewrite with. *)
Ltac open_nodes :=
  repeat match goal with
         | H : node_at _ _ _ _ _ _ |- _ =>
             pose proof (node_at_deref H);
             pose proof (node_at_lookup H);
             pose proof (node_at_branch_point H);
             pose proof (node_at_rev_id H);
             destruct H
         end.

(** The references of two nodes with different ids are different. *)
Ltac distinct_refs :=
  repeat match goal with
         | H : node_at _ ?x ?r _ _ _, H' : node_at _ ?y ?r' _ _ _,
           N : ?x <> ?y |- _ =>
             lazymatch goal with
             | _ : Nat.eqb r r' = false |- _ => fail
             | _ => idtac
             end;
             pose proof (node_at_ref_neq H H' N);
             pose proof (node_at_ref_neq H' H (not_eq_sym N))
         end.

(** Two different strings, as the tests of the code see them. *)
Ltac distinct_ids :=
  repeat match goal with
         | N : ?x <> ?y |- _ =>
             lazymatch type of x with string => idtac end;
             lazymatch goal with
             | _ : String.eqb x y = false |- _ => fail
             | _ => idtac
             end;
             pose proof (proj2 (String.eqb_neq x y) N);
             pose proof (proj2 (String.eqb_neq y x) (not_eq_sym N))
         end.

(** Evaluate as far as the equations at hand allow. *)
Ltac run :=
  repeat (progress (cbn; autounfold with pyset; rew;
                    rewrite ?String.eqb_refl, ?Nat.eqb_refl,
                      ?related_loop_nil, ?traverse_nil,
                      ?andb_false_r, ?orb_false_r)).

(** The range from the head down to the base over a chain a <- b <- c. *)
Lemma chain3_run st a b c ra rb rc oa ob oc n inclusive :
  bare a -> a <> b -> a <> c -> b <> c ->
  node_at st a ra oa [] [b] ->
  node_at st b rb ob [a] [c] ->
  node_at st c rc oc [b] [] ->
  heads st = [c] -> bases st = [a] ->
  _iterate_revisions (3 + n) st (IStr "head") (IStr "base") inclusive false
  = Ok [rc; rb; ra].
Proof.
  intros (Hat & Ha1 & Ha2 & Ha3) Nab Nac Nbc Ha Hb Hc Hheads Hbases.
  distinct_refs. distinct_ids. open_nodes.
  unfold _iterate_revisions. run. reflexivity.
Qed.

Lemma node_of_children l st o r o' :
  node_of l st o r o' -> NoDup (children_of l (revision o)) ->
  Permutation (children_of l (revision o)) (nextrev o').
Proof.
  intros H N. apply NoDup_Permutation; [assumption | apply (n_nodup H)|].
  intros y. symmetry. apply (n_nextrev H).
Qed.

Lemma node_of_at l st o r o' x ps cs :
  node_of l st o r o' -> revision o = x -> _down_revision_tuple o = ps ->
  nextrev o' = cs -> node_at st x r o' ps cs.
Proof.
  intros H <- <- <-. constructor; try apply H; reflexivity.
Qed.

Lemma same_elements_perm (T : Type) (l cs : list T) :
  NoDup l -> NoDup cs -> (forall y, In y l <-> In y cs) -> Permutation cs l.
Proof.
  intros N N' H. apply NoDup_Permutation; try assumption.
  intros y. symmetry. apply H.
Qed.

Lemma chain3_shape a b c A B C generator st :
  bare a -> a <> b -> a <> c -> b <> c ->
  chain_node A a [] -> chain_node B b [a] -> chain_node C c [b] ->
  Permutation [A; B; C] generator ->
  graph_of generator st ->
  exists ra rb rc oa ob oc,
    node_at st a ra oa [] [b]
    /\ node_at st b rb ob [a] [c]
    /\ node_at st c rc oc [b] []
    /\ heads st = [c] /\ bases st = [a].
Proof.
  intros _ Nab Nac Nbc (_ & RA & DA) (_ & RB & DB) (_ & RC & DC) P G.
  assert (N : NoDup (map revision generator)).
  { apply (Permutation_NoDup (Permutation_map revision P)).
    simpl. rewrite RA, RB, RC.
    repeat constructor; simpl; intuition congruence. }
  distinct_ids.
  destruct (@graph_node _ _ _ A P G) as (ra & oa & Ha); [simpl; auto|].
  destruct (@graph_node _ _ _ B P G) as (rb & ob & Hb); [simpl; auto|].
  destruct (@graph_node _ _ _ C P G) as (rc & oc & Hc); [simpl; auto|].
  destruct (graph_heads P G N) as (Nh & Hh).
  destruct (graph_bases P G N) as (Nb & Hbs).
  assert (Ca : children_of [A; B; C] a = [b]) by (run; reflexivity).
  assert (Cb : children_of [A; B; C] b = [c]) by (run; reflexivity).
  assert (Cc : children_of [A; B; C] c = []) by (run; reflexivity).
  assert (Lh : childless [A; B; C] = [c]) by (run; reflexivity).
  assert (Lb : parentless [A; B; C] = [a]) by (run; reflexivity).
  exists ra, rb, rc, oa, ob, oc.
  split; [|split; [|split; [|split]]].
  - refine (node_of_at Ha RA DA _). apply Permutation_length_1_inv.
    rewrite <- Ca, <- RA. apply (node_of_children Ha).
    rewrite RA, Ca. repeat constructor. intros [].
  - refine (node_of_at Hb RB DB _). apply Permutation_length_1_inv.
    rewrite <- Cb, <- RB. apply (node_of_children Hb).
    rewrite RB, Cb. repeat constructor. intros [].
  - refine (node_of_at Hc RC DC _). apply Permutation_nil.
    rewrite <- Cc, <- RC. apply (node_of_children Hc).
    rewrite RC, Cc. constructor.
  - apply Permutation_length_1_inv. rewrite <- Lh.
    apply same_elements_perm; try assumption.
    rewrite Lh. repeat constructor. intros [].
  - apply Permutation_length_1_inv. rewrite <- Lb.
    apply same_elements_perm; try assumption.
    rewrite Lb. repeat constructor. intros [].
Qed.

(** C1.  A generator that produces, in any order, the three revisions of
    a chain a <- b <- c with pairwise different ids ([a] a bare id):
    every map it builds has the sole head [c] and the sole base [a], and
    [iterate_revisions(upper="head", lower="base", inclusive=True)]
    yields the revisions c, b, a in this order; without branch labels the
    build does return a map. *)
Theorem chain3_head_to_base a b c A B C generator fuel n :
  bare a -> a <> b -> a <> c -> b <> c ->
  chain_node A a [] -> chain_node B b [a] -> chain_node C c [b] ->
  Permutation [A; B; C] generator ->
  (forall w st,
      RevisionMap_build fuel generator = (w, Ok st) ->
      heads st = [c] /\ bases st = [a]
      /\ names_of st (iterate_revisions (3 + n) st (IStr "head") (IStr "base")
                        false true)
         = Ok [c; b; a])
  /\ (branch_labels A = [] -> branch_labels B = [] -> branch_labels C = [] ->
      exists w st, RevisionMap_build fuel generator = (w, Ok st)).
Proof.
  intros Hbare Nab Nac Nbc HA HB HC P. split.
  - intros w st Hb.
    assert (Hc : Forall constructed generator).
    { apply (Permutation_Forall P). repeat constructor;
        [apply HA | apply HB | apply HC]. }
    assert (N : NoDup (map revision generator)).
    { apply (Permutation_NoDup (Permutation_map revision P)).
      destruct HA as (_ & RA & _), HB as (_ & RB & _), HC as (_ & RC & _).
      simpl. rewrite RA, RB, RC.
      repeat constructor; simpl; intuition congruence. }
    destruct (@build_graph _ Hc N _ _ _ Hb) as (_ & G).
    destruct (chain3_shape Hbare Nab Nac Nbc HA HB HC P G)
      as (ra & rb & rc & oa & ob & oc & Ha & Hb' & Hc' & Hh & Hbs).
    split; [assumption|]. split; [assumption|].
    rewrite iterate_revisions_plain by reflexivity.
    rewrite (chain3_run n true Hbare Nab Nac Nbc Ha Hb' Hc' Hh Hbs).
    simpl. unfold names. simpl.
    now rewrite (node_at_rev_id Ha), (node_at_rev_id Hb'),
      (node_at_rev_id Hc').
  - intros LA LB LC. apply build_unlabelled_ok.
    + intros x d Hx Hd.
      apply (Permutation_in _ (Permutation_sym P)) in Hx.
      apply (Permutation_in _ (Permutation_map revision P)).
      destruct HA as (_ & RA & DA), HB as (_ & RB & DB), HC as (_ & RC & DC).
      simpl. rewrite RA, RB, RC.
      destruct Hx as [<-|[<-|[<-|[]]]].
      * rewrite DA in Hd. destruct Hd.
      * rewrite DB in Hd. destruct Hd as [<-|[]]. auto.
      * rewrite DC in Hd. destruct Hd as [<-|[]]. auto.
    + apply (Permutation_Forall P). repeat constructor; assumption.
Qed.

Lemma chain3_head_to_base_witness :
  names_of (built 0 Examples.chain3)
    (iterate_revisions 3 (built 0 Examples.chain3) (IStr "head") (IStr "base")
       false true)
  = Ok ["C"; "B"; "A"].
Proof.
  assert (HA : chain_node (Revision_init "A" PNone PNone) "A" []).
  { split; [now exists "A", PNone, PNone | split; reflexivity]. }
  assert (HB : chain_node (Revision_init "B" (PStr "A") PNone) "B" ["A"]).
  { split; [now exists "B", (PStr "A"), PNone | split; reflexivity]. }
  assert (HC : chain_node (Revision_init "C" (PStr "B") PNone) "C" ["B"]).
  { split; [now exists "C", (PStr "B"), PNone | split; reflexivity]. }
  refine (proj2 (proj2 (proj1
    (@chain3_head_to_base "A" "B" "C" _ _ _ Examples.chain3 0 0
       _ _ _ _ HA HB HC (Permutation_refl _)) [] (built 0 Examples.chain3)
       eq_refl)));
    try discriminate.
  repeat split.
Defined.

Ltac not_ors :=
  repeat match goal with
         | H : ~ (_ \/ _) |- _ => apply Decidable.not_or in H; destruct H
         | H : ~ False |- _ => clear H
         end.

(** The pairwise differences a [NoDup] hypothesis stands for. *)
Ltac open_nodup H :=
  repeat (apply NoDup_cons_iff in H;
          let N := fresh "N" in destruct H as [N H]; simpl in N);
  clear H; not_ors.

(** The range from the head down to the base over a chain of five. *)
Lemma chain5_run st a1 a2 a3 a4 a5 r1 r2 r3 r4 r5 o1 o2 o3 o4 o5 n inclusive :
  bare a1 -> NoDup [a1; a2; a3; a4; a5] ->
  node_at st a1 r1 o1 [] [a2] ->
  node_at st a2 r2 o2 [a1] [a3] ->
  node_at st a3 r3 o3 [a2] [a4] ->
  node_at st a4 r4 o4 [a3] [a5] ->
  node_at st a5 r5 o5 [a4] [] ->
  heads st = [a5] -> bases st = [a1] ->
  _iterate_revisions (5 + n) st (IStr "head") (IStr "base") inclusive false
  = Ok [r5; r4; r3; r2; r1].
Proof.
  intros (Hat & Ha1 & Ha2 & Ha3) N H1 H2 H3 H4 H5 Hheads Hbases.
  open_nodup N. distinct_refs. distinct_ids. open_nodes.
  unfold _iterate_revisions. run. reflexivity.
Qed.

Lemma chain5_shape a1 a2 a3 a4 a5 A1 A2 A3 A4 A5 generator st :
  NoDup [a1; a2; a3; a4; a5] ->
  chain_node A1 a1 [] -> chain_node A2 a2 [a1] -> chain_node A3 a3 [a2] ->
  chain_node A4 a4 [a3] -> chain_node A5 a5 [a4] ->
  Permutation [A1; A2; A3; A4; A5] generator ->
  graph_of generator st ->
  exists r1 r2 r3 r4 r5 o1 o2 o3 o4 o5,
    node_at st a1 r1 o1 [] [a2]
    /\ node_at st a2 r2 o2 [a1] [a3]
    /\ node_at st a3 r3 o3 [a2] [a4]
    /\ node_at st a4 r4 o4 [a3] [a5]
    /\ node_at st a5 r5 o5 [a4] []
    /\ heads st = [a5] /\ bases st = [a1].
Proof.
  intros Nd (_ & R1 & D1) (_ & R2 & D2) (_ & R3 & D3) (_ & R4 & D4)
    (_ & R5 & D5) P G.
  assert (N : NoDup (map revision generator)).
  { apply (Permutation_NoDup (Permutation_map revision P)).
    simpl. now rewrite R1, R2, R3, R4, R5. }
  open_nodup Nd. distinct_ids.
  destruct (@graph_node _ _ _ A1 P G) as (r1 & o1 & Hn1); [simpl; auto|].
  destruct (@graph_node _ _ _ A2 P G) as (r2 & o2 & Hn2); [simpl; auto|].
  destruct (@graph_node _ _ _ A3 P G) as (r3 & o3 & Hn3); [simpl; auto|].
  destruct (@graph_node _ _ _ A4 P G) as (r4 & o4 & Hn4); [simpl; auto 6|].
  destruct (@graph_node _ _ _ A5 P G) as (r5 & o5 & Hn5); [simpl; auto 7|].
  destruct (graph_heads P G N) as (Nh & Hh).
  destruct (graph_bases P G N) as (Nb & Hbs).
  assert (Ch1 : children_of [A1; A2; A3; A4; A5] a1 = [a2])
    by (run; reflexivity).
  assert (Ch2 : children_of [A1; A2; A3; A4; A5] a2 = [a3])
    by (run; reflexivity).
  assert (Ch3 : children_of [A1; A2; A3; A4; A5] a3 = [a4])
    by (run; reflexivity).
  assert (Ch4 : children_of [A1; A2; A3; A4; A5] a4 = [a5])
    by (run; reflexivity).
  assert (Ch5 : children_of [A1; A2; A3; A4; A5] a5 = [])
    by (run; reflexivity).
  assert (Lh : childless [A1; A2; A3; A4; A5] = [a5]) by (run; reflexivity).
  assert (Lb : parentless [A1; A2; A3; A4; A5] = [a1]) by (run; reflexivity).
  exists r1, r2, r3, r4, r5, o1, o2, o3, o4, o5.
  split; [|split; [|split; [|split; [|split; [|split]]]]].
  - refine (node_of_at Hn1 R1 D1 _). apply Permutation_length_1_inv.
    rewrite <- Ch1, <- R1. apply (node_of_children Hn1).
    rewrite R1, Ch1. repeat constructor. intros [].
  - refine (node_of_at Hn2 R2 D2 _). apply Permutation_length_1_inv.
    rewrite <- Ch2, <- R2. apply (node_of_children Hn2).
    rewrite R2, Ch2. repeat constructor. intros [].
  - refine (node_of_at Hn3 R3 D3 _). apply Permutation_length_1_inv.
    rewrite <- Ch3, <- R3. apply (node_of_children Hn3).
    rewrite R3, Ch3. repeat constructor. intros [].
  - refine (node_of_at Hn4 R4 D4 _). apply Permutation_length_1_inv.
    rewrite <- Ch4, <- R4. apply (node_of_children Hn4).
    rewrite R4, Ch4. repeat constructor. intros [].
  - refine (node_of_at Hn5 R5 D5 _). apply Permutation_nil.
    rewrite <- Ch5, <- R5. apply (node_of_children Hn5).
    rewrite R5, Ch5. constructor.
  - apply Permutation_length_1_inv. rewrite <- Lh.
    apply same_elements_perm; try assumption.
    rewrite Lh. repeat constructor. intros [].
  - apply Permutation_length_1_inv. rewrite <- Lb.
    apply same_elements_perm; try assumption.
    rewrite Lb. repeat constructor. intros [].
Qed.

(** C3, as the code has it.  Over a chain of five revisions
    a1 <- ... <- a5, produced in any order,
    [iterate_revisions(upper="+2", lower="base", inclusive=False)] yields
    exactly two revisions, a2 and then a1: the two nearest the base, the
    tail of the range from the head.  With ["+10"] the range has five
    revisions, not ten, and [RevisionError] is raised. *)
Theorem chain5_relative_upper a1 a2 a3 a4 a5 A1 A2 A3 A4 A5 generator fuel n :
  bare a1 -> NoDup [a1; a2; a3; a4; a5] ->
  chain_node A1 a1 [] -> chain_node A2 a2 [a1] -> chain_node A3 a3 [a2] ->
  chain_node A4 a4 [a3] -> chain_node A5 a5 [a4] ->
  Permutation [A1; A2; A3; A4; A5] generator ->
  (forall w st,
      RevisionMap_build fuel generator = (w, Ok st) ->
      names_of st (iterate_revisions (5 + n) st (IStr "+2") (IStr "base")
                     false false)
      = Ok [a2; a1]
      /\ iterate_revisions (5 + n) st (IStr "+10") (IStr "base") false false
         = Err (RevisionError (RelativeNotProduced "+10" 10)))
  /\ (Forall (fun o => branch_labels o = []) [A1; A2; A3; A4; A5] ->
      exists w st, RevisionMap_build fuel generator = (w, Ok st)).
Proof.
  intros Hbare Nd C1 C2 C3 C4 C5 P. split.
  - intros w st Hb.
    assert (Hc : Forall constructed generator).
    { apply (Permutation_Forall P). repeat constructor;
        [apply C1 | apply C2 | apply C3 | apply C4 | apply C5]. }
    assert (N : NoDup (map revision generator)).
    { apply (Permutation_NoDup (Permutation_map revision P)).
      destruct C1 as (_ & R1 & _), C2 as (_ & R2 & _), C3 as (_ & R3 & _),
        C4 as (_ & R4 & _), C5 as (_ & R5 & _).
      simpl. now rewrite R1, R2, R3, R4, R5. }
    destruct (@build_graph _ Hc N _ _ _ Hb) as (_ & G).
    destruct (chain5_shape Nd C1 C2 C3 C4 C5 P G)
      as (r1 & r2 & r3 & r4 & r5 & o1 & o2 & o3 & o4 & o5
          & H1 & H2 & H3 & H4 & H5 & Hh & Hbs).
    pose proof (chain5_run n false Hbare Nd H1 H2 H3 H4 H5 Hh Hbs) as E.
    unfold iterate_revisions.
    change (relative_of (IStr "+2")) with (Some (@None string, 2%Z)).
    change (relative_of (IStr "+10")) with (Some (@None string, 10%Z)).
    cbn [given]. rewrite E. cbn [bind]. split.
    + assert (S2 : slice_from [r5; r4; r3; r2; r1] (- (2) - 0) = [r2; r1])
        by reflexivity.
      rewrite S2. cbn. unfold names. cbn [map].
      now rewrite (node_at_rev_id H1), (node_at_rev_id H2).
    + reflexivity.
  - intros L. apply build_unlabelled_ok.
    + intros x d Hx Hd.
      apply (Permutation_in _ (Permutation_sym P)) in Hx.
      apply (Permutation_in _ (Permutation_map revision P)).
      destruct C1 as (_ & R1 & D1), C2 as (_ & R2 & D2), C3 as (_ & R3 & D3),
        C4 as (_ & R4 & D4), C5 as (_ & R5 & D5).
      simpl. rewrite R1, R2, R3, R4, R5.
      destruct Hx as [<-|[<-|[<-|[<-|[<-|[]]]]]].
      * rewrite D1 in Hd. destruct Hd.
      * rewrite D2 in Hd. destruct Hd as [<-|[]]. auto.
      * rewrite D3 in Hd. destruct Hd as [<-|[]]. auto.
      * rewrite D4 in Hd. destruct Hd as [<-|[]]. auto.
      * rewrite D5 in Hd. destruct Hd as [<-|[]]. auto 6.
    + now apply (Permutation_Forall P).
Qed.

Lemma chain5_relative_upper_witness :
  names_of (built 0 Examples.chain5)
    (iterate_revisions 5 (built 0 Examples.chain5) (IStr "+2") (IStr "base")
       false false)
  = Ok ["a2"; "a1"]
  /\ iterate_revisions 5 (built 0 Examples.chain5) (IStr "+10") (IStr "base")
       false false
     = Err (RevisionError (RelativeNotProduced "+10" 10)).
Proof.
  assert (H1 : chain_node (Revision_init "a1" PNone PNone) "a1" []).
  { split; [now exists "a1", PNone, PNone | split; reflexivity]. }
  assert (H2 : chain_node (Revision_init "a2" (PStr "a1") PNone) "a2" ["a1"]).
  { split; [now exists "a2", (PStr "a1"), PNone | split; reflexivity]. }
  assert (H3 : chain_node (Revision_init "a3" (PStr "a2") PNone) "a3" ["a2"]).
  { split; [now exists "a3", (PStr "a2"), PNone | split; reflexivity]. }
  assert (H4 : chain_node (Revision_init "a4" (PStr "a3") PNone) "a4" ["a3"]).
  { split; [now exists "a4", (PStr "a3"), PNone | split; reflexivity]. }
  assert (H5 : chain_node (Revision_init "a5" (PStr "a4") PNone) "a5" ["a4"]).
  { split; [now exists "a5", (PStr "a4"), PNone | split; reflexivity]. }
  assert (Nd : NoDup ["a1"; "a2"; "a3"; "a4"; "a5"]).
  { repeat constructor; simpl; intuition discriminate. }
  assert (Hb : bare "a1") by (repeat split).
  exact (proj1 (@chain5_relative_upper "a1" "a2" "a3" "a4" "a5" _ _ _ _ _
                  Examples.chain5 0 0 Hb Nd H1 H2 H3 H4 H5
                  (Permutation_refl _))
           [] (built 0 Examples.chain5) eq_refl).
Defined.

(** C3, as the specification words it, fails: the two revisions that
    ["+2"] yields over the chain of five are a2 and a1, and neither of
    the two nearest the head, a5 and a4, is among them. *)
Lemma relative_upper_not_nearest_head :
  names_of (built 0 Examples.chain5)
    (iterate_revisions 5 (built 0 Examples.chain5) (IStr "+2") (IStr "base")
       false false)
  = Ok ["a2"; "a1"]
  /\ ~ In "a5" ["a2"; "a1"] /\ ~ In "a4" ["a2"; "a1"].
Proof.
  split; [reflexivity|]. split; simpl; intuition discriminate.
Qed.

(** The range from a merge point down to the base over a diamond
    a <- x, a <- y, m merging x and y; the children of [a] are [x] and
    [y] in either order. *)
Lemma diamond_run st a x y m ra rx ry rm oa ox oy om cs n inclusive :
  bare a -> bare m -> NoDup [a; x; y; m] ->
  cs = [x; y] \/ cs = [y; x] ->
  node_at st a ra oa [] cs ->
  node_at st x rx ox [a] [m] ->
  node_at st y ry oy [a] [m] ->
  node_at st m rm om [x; y] [] ->
  bases st = [a] ->
  _iterate_revisions (5 + n) st (IStr m) (IStr "base") inclusive false
  = Ok [rm; rx; ry; ra].
Proof.
  intros (Hat & Ha1 & Ha2 & Ha3) (Hmt & Hm1 & Hm2 & Hm3) N Hcs Ha Hx Hy Hm
    Hbases.
  open_nodup N. distinct_refs. distinct_ids.
  destruct Hcs as [-> | ->]; open_nodes;
    unfold _iterate_revisions; run; reflexivity.
Qed.

Lemma diamond_shape a x y m A X Y M generator st :
  NoDup [a; x; y; m] ->
  chain_node A a [] -> chain_node X x [a] -> chain_node Y y [a] ->
  chain_node M m [x; y] ->
  Permutation [A; X; Y; M] generator ->
  graph_of generator st ->
  exists ra rx ry rm oa ox oy om cs,
    (cs = [x; y] \/ cs = [y; x])
    /\ node_at st a ra oa [] cs
    /\ node_at st x rx ox [a] [m]
    /\ node_at st y ry oy [a] [m]
    /\ node_at st m rm om [x; y] []
    /\ heads st = [m] /\ bases st = [a].
Proof.
  intros Nd (_ & RA & DA) (_ & RX & DX) (_ & RY & DY) (_ & RM & DM) P G.
  assert (N : NoDup (map revision generator)).
  { apply (Permutation_NoDup (Permutation_map revision P)).
    simpl. now rewrite RA, RX, RY, RM. }
  assert (Nxy : NoDup [x; y]).
  { inversion Nd as [|? ? _ Nd']; subst.
    inversion Nd' as [|? ? Hx Nd'']; subst.
    repeat constructor; simpl in *; intuition. }
  open_nodup Nd. distinct_ids.
  destruct (@graph_node _ _ _ A P G) as (ra & oa & Hna); [simpl; auto|].
  destruct (@graph_node _ _ _ X P G) as (rx & ox & Hnx); [simpl; auto|].
  destruct (@graph_node _ _ _ Y P G) as (ry & oy & Hny); [simpl; auto|].
  destruct (@graph_node _ _ _ M P G) as (rm & om & Hnm); [simpl; auto 6|].
  destruct (graph_heads P G N) as (Nh & Hh).
  destruct (graph_bases P G N) as (Nb & Hbs).
  assert (Ca : children_of [A; X; Y; M] a = [x; y]) by (run; reflexivity).
  assert (Cx : children_of [A; X; Y; M] x = [m]) by (run; reflexivity).
  assert (Cy : children_of [A; X; Y; M] y = [m]) by (run; reflexivity).
  assert (Cm : children_of [A; X; Y; M] m = []) by (run; reflexivity).
  assert (Lh : childless [A; X; Y; M] = [m]) by (run; reflexivity).
  assert (Lb : parentless [A; X; Y; M] = [a]) by (run; reflexivity).
  exists ra, rx, ry, rm, oa, ox, oy, om, (nextrev oa).
  split; [|split; [|split; [|split; [|split; [|split]]]]].
  - apply Permutation_length_2_inv.
    rewrite <- Ca, <- RA. apply (node_of_children Hna).
    now rewrite RA, Ca.
  - now refine (node_of_at Hna RA DA _).
  - refine (node_of_at Hnx RX DX _). apply Permutation_length_1_inv.
    rewrite <- Cx, <- RX. apply (node_of_children Hnx).
    rewrite RX, Cx. repeat constructor. intros [].
  - refine (node_of_at Hny RY DY _). apply Permutation_length_1_inv.
    rewrite <- Cy, <- RY. apply (node_of_children Hny).
    rewrite RY, Cy. repeat constructor. intros [].
  - refine (node_of_at Hnm RM DM _). apply Permutation_nil.
    rewrite <- Cm, <- RM. apply (node_of_children Hnm).
    rewrite RM, Cm. constructor.
  - apply Permutation_length_1_inv. rewrite <- Lh.
    apply same_elements_perm; try assumption.
    rewrite Lh. repeat constructor. intros [].
  - apply Permutation_length_1_inv. rewrite <- Lb.
    apply same_elements_perm; try assumption.
    rewrite Lb. repeat constructor. intros [].
Qed.

(** The range from the merge point of a diamond down to the base,
    inclusive: the merge point comes first and once, then the two arms
    in the order of its parents, then the base the arms share, once,
    after both arms. *)
Theorem diamond_merge_range a x y m A X Y M generator fuel n :
  bare a -> bare m -> relative_of (IStr m) = None -> NoDup [a; x; y; m] ->
  chain_node A a [] -> chain_node X x [a] -> chain_node Y y [a] ->
  chain_node M m [x; y] ->
  Permutation [A; X; Y; M] generator ->
  (forall w st,
      RevisionMap_build fuel generator = (w, Ok st) ->
      names_of st (iterate_revisions (5 + n) st (IStr m) (IStr "base")
                     false true)
      = Ok [m; x; y; a])
  /\ (Forall (fun o => branch_labels o = []) [A; X; Y; M] ->
      exists w st, RevisionMap_build fuel generator = (w, Ok st)).
Proof.
  intros Ba Bm Rm Nd CA CX CY CM P. split.
  - intros w st Hb.
    assert (Hc : Forall constructed generator).
    { apply (Permutation_Forall P). repeat constructor;
        [apply CA | apply CX | apply CY | apply CM]. }
    assert (N : NoDup (map revision generator)).
    { apply (Permutation_NoDup (Permutation_map revision P)).
      destruct CA as (_ & RA & _), CX as (_ & RX & _), CY as (_ & RY & _),
        CM as (_ & RM & _).
      simpl. now rewrite RA, RX, RY, RM. }
    destruct (@build_graph _ Hc N _ _ _ Hb) as (_ & G).
    destruct (diamond_shape Nd CA CX CY CM P G)
      as (ra & rx & ry & rm & oa & ox & oy & om & cs
          & Hcs & Ha & Hx & Hy & Hm & _ & Hbs).
    rewrite iterate_revisions_plain by (assumption || reflexivity).
    rewrite (diamond_run n true Ba Bm Nd Hcs Ha Hx Hy Hm Hbs).
    simpl. unfold names. simpl.
    now rewrite (node_at_rev_id Ha), (node_at_rev_id Hx),
      (node_at_rev_id Hy), (node_at_rev_id Hm).
  - intros L. apply build_unlabelled_ok; [|now apply (Permutation_Forall P)].
    intros c d Hc Hd.
    apply (Permutation_in _ (Permutation_sym P)) in Hc.
    apply (Permutation_in _ (Permutation_map revision P)).
    destruct CA as (_ & RA & DA), CX as (_ & RX & DX), CY as (_ & RY & DY),
      CM as (_ & RM & DM).
    simpl. rewrite RA, RX, RY, RM.
    destruct Hc as [<-|[<-|[<-|[<-|[]]]]].
    + rewrite DA in Hd. destruct Hd.
    + rewrite DX in Hd. destruct Hd as [<-|[]]. auto.
    + rewrite DY in Hd. destruct Hd as [<-|[]]. auto.
    + rewrite DM in Hd. destruct Hd as [<-|[<-|[]]]; auto.
Qed.

Lemma diamond_merge_range_witness :
  names_of (built 0 Examples.diamond)
    (iterate_revisions 5 (built 0 Examples.diamond) (IStr "M") (IStr "base")
       false true)
  = Ok ["M"; "X"; "Y"; "A"].
Proof.
  assert (HA : chain_node (Revision_init "A" PNone PNone) "A" []).
  { split; [now exists "A", PNone, PNone | split; reflexivity]. }
  assert (HX : chain_node (Revision_init "X" (PStr "A") PNone) "X" ["A"]).
  { split; [now exists "X", (PStr "A"), PNone | split; reflexivity]. }
  assert (HY : chain_node (Revision_init "Y" (PStr "A") PNone) "Y" ["A"]).
  { split; [now exists "Y", (PStr "A"), PNone | split; reflexivity]. }
  assert (HM : chain_node (Revision_init "M" (PTuple ["X"; "Y"]) PNone)
                 "M" ["X"; "Y"]).
  { split; [now exists "M", (PTuple ["X"; "Y"]), PNone | split; reflexivity]. }
  assert (Nd : NoDup ["A"; "X"; "Y"; "M"]).
  { repeat constructor; simpl; intuition discriminate. }
  assert (Ba : bare "A") by (repeat split).
  assert (Bm : bare "M") by (repeat split).
  exact (proj1 (@diamond_merge_range "A" "X" "Y" "M" _ _ _ _
                  Examples.diamond 0 0 Ba Bm eq_refl Nd HA HX HY HM
                  (Permutation_refl _))
           [] (built 0 Examples.diamond) eq_refl).
Defined.

(** C4, as the specification words it, fails: over the diamond A <- X,
    A <- Y with M merging X and Y, the range from M down to the base
    starts with M; what comes last is the base A. *)
Lemma merge_point_not_last :
  names_of (built 0 Examples.diamond)
    (iterate_revisions 5 (built 0 Examples.diamond) (IStr "M") (IStr "base")
       false true)
  = Ok ["M"; "X"; "Y"; "A"]
  /\ last ["M"; "X"; "Y"; "A"] "" <> "M".
Proof. split; [reflexivity | discriminate]. Qed.

(* ================================================================== *)
(** * Branch labels *)

(** ** Reachability and the closure walks *)

Lemma mapM_In (T U : Type) (f : T -> result U) (l : list T) (ys : list U) x y :
  mapM f l = Ok ys -> In x l -> f x = Ok y -> In y ys.
Proof.
  intros H. apply mapM_inv in H. induction H as [|a b l ys Hab _ IH]; simpl.
  - intros [].
  - intros [->|Hx] Hy; [left; congruence | right; auto].
Qed.

Lemma mapM_In_inv (T U : Type) (f : T -> result U) (l : list T) (ys : list U) y :
  mapM f l = Ok ys -> In y ys -> exists x, In x l /\ f x = Ok y.
Proof.
  intros H. apply mapM_inv in H. induction H as [|a b l ys Hab _ IH]; simpl.
  - intros [].
  - intros [<-|Hy]; [exists a; auto|].
    destruct (IH Hy) as (x & Hx & E). exists x. auto.
Qed.

(** The walk yields every object it can reach from its stack. *)
Lemma related_loop_complete fn objs map_ :
  forall fuel todo out,
    related_loop fn objs map_ fuel todo = Ok out ->
    forall r r', In (Some r) todo -> reach fn objs map_ r r' -> In r' out.
Proof.
  induction fuel as [|fuel IH]; intros [|[t|] todo] out H r r' Hr Hreach;
    simpl in H; try discriminate; try destruct Hr.
  - injection H0 as <-. bind_inv H. bind_inv H. bind_inv H.
    injection H as <-. apply deref_ok in E.
    destruct Hreach as [r|p c r' (op & y & Hp & Hy & Hg) Hreach'].
    + now left.
    + right. apply (IH _ _ E1 c); [|assumption].
      apply in_app_iff. left. apply -> in_rev.
      assert (op = x) by congruence. subst op.
      eapply mapM_In; [eassumption | eassumption |].
      unfold dict_lookup. now rewrite Hg.
  - bind_inv H. bind_inv H. bind_inv H. injection H as <-.
    right. apply (IH _ _ E1 r); [|assumption].
    apply in_app_iff. now right.
Qed.

(** Every object the walk yields is on its stack or at the end of an edge
    from an object it yields. *)
Lemma related_loop_sound fn objs map_ :
  forall fuel todo out,
    related_loop fn objs map_ fuel todo = Ok out ->
    forall r', In r' out ->
      exists r, In (Some r) todo /\ reach fn objs map_ r r'.
Proof.
  induction fuel as [|fuel IH]; intros [|[t|] todo] out H r' Hr';
    simpl in H; try discriminate.
  - injection H as <-. destruct Hr'.
  - injection H as <-. destruct Hr'.
  - bind_inv H. bind_inv H. bind_inv H. injection H as <-.
    apply deref_ok in E.
    destruct Hr' as [<-|Hr'].
    + exists t. split; [now left | constructor].
    + destruct (IH _ _ E1 _ Hr') as (r & Hr & Hreach).
      apply in_app_iff in Hr as [Hr|Hr].
      * apply in_rev in Hr.
        destruct (@mapM_In_inv _ _ _ _ _ _ E0 Hr) as (y & Hy & Hl).
        unfold dict_lookup in Hl.
        destruct (dict_get map_ (KStr y)) as [v|] eqn:Eg; [|discriminate].
        injection Hl as ->.
        exists t. split; [now left|].
        apply reach_step with (c := r); [|assumption].
        now exists x, y.
      * exists r. split; [now right | assumption].
Qed.

Lemma reach_trans fn objs map_ a b c :
  reach fn objs map_ a b -> reach fn objs map_ b c -> reach fn objs map_ a c.
Proof.
  induction 1; [auto|]. intros H'. eapply reach_step; eauto.
Qed.

(* ------------------------------------------------------------------ *)
(** ** Branch labels reach the descendants *)

Lemma resolvable_ext objs map_ objs' map' n :
  resolvable objs map_ -> store_ext objs objs' -> dict_ext n map_ map' ->
  resolvable objs' map'.
Proof.
  intros K S [D _] r o' y Hn Hy.
  destruct (store_ext_back _ S Hn) as (o & Hn0 & (_ & _ & _ & Hx & _)).
  rewrite Hx in Hy. destruct (K _ _ _ Hn0 Hy) as (c & Hc).
  exists c. now apply D.
Qed.

Lemma edge_ext objs map_ objs' map' n p c :
  resolvable objs map_ -> store_ext objs objs' -> dict_ext n map_ map' ->
  edge nextrev objs map_ p c <-> edge nextrev objs' map' p c.
Proof.
  intros K S D. split.
  - intros (op & y & Hp & Hy & Hg).
    destruct S as [_ S]. destruct (S _ _ Hp) as (op' & Hp' & (_ & _ & _ & Hx & _)).
    exists op', y. rewrite Hx. repeat split; try assumption.
    now apply D.
  - intros (op' & y & Hp' & Hy & Hg).
    destruct (store_ext_back _ S Hp') as (op & Hp & (_ & _ & _ & Hx & _)).
    rewrite Hx in Hy. exists op, y. repeat split; try assumption.
    destruct (K _ _ _ Hp Hy) as (c0 & Hc0).
    destruct D as [D _]. apply D in Hc0 as Hc1. congruence.
Qed.

Lemma reach_ext objs map_ objs' map' n r r' :
  resolvable objs map_ -> store_ext objs objs' -> dict_ext n map_ map' ->
  reach nextrev objs map_ r r' <-> reach nextrev objs' map' r r'.
Proof.
  intros K S D. split; induction 1; try constructor.
  - eapply reach_step; [|eassumption]. now apply (edge_ext p c K S D).
  - eapply reach_step; [|eassumption]. now apply (edge_ext p c K S D).
Qed.

Lemma label_node_adds rev objs n objs' rv l o' :
  label_node rev objs n = Ok objs' ->
  nth_error objs rev = Some rv -> In l (branch_labels rv) ->
  nth_error objs' n = Some o' -> In l (branch_labels o').
Proof.
  unfold label_node. intros H Hrv Hl Hn. bind_inv H. bind_inv H.
  injection H as <-. apply deref_ok in E, E0.
  assert (x = rv) by congruence. subst x.
  rewrite nth_set_obj_same in Hn by (apply nth_error_Some; congruence).
  injection Hn as <-. simpl. unfold str_set_update.
  apply (In_set_update String.eqb String.eqb_eq). now right.
Qed.

Lemma store_ext_labels objs objs' r o o' l :
  store_ext objs objs' -> nth_error objs r = Some o ->
  nth_error objs' r = Some o' -> In l (branch_labels o) ->
  In l (branch_labels o').
Proof.
  intros [_ S] Hn Hn' Hl. destruct (S _ _ Hn) as (o2 & Hn2 & (_ & _ & _ & _ & I)).
  assert (o2 = o') by congruence. subst o2. now apply I.
Qed.

Lemma label_nodes_adds rev nodes : forall objs objs' rv l n o',
  label_nodes rev objs nodes = Ok objs' ->
  nth_error objs rev = Some rv -> In l (branch_labels rv) ->
  In n nodes -> nth_error objs' n = Some o' -> In l (branch_labels o').
Proof.
  induction nodes as [|n0 nodes IH]; simpl; intros objs objs' rv l n o' H Hrv Hl Hn Hn'.
  - destruct Hn.
  - bind_inv H.
    pose proof (label_node_ext _ _ _ E) as S1.
    pose proof (label_nodes_ext _ _ _ H) as S2.
    assert (exists rv1, nth_error x rev = Some rv1 /\ In l (branch_labels rv1))
      as (rv1 & Hrv1 & Hl1).
    { destruct S1 as [_ S1]. destruct (S1 _ _ Hrv) as (rv1 & Hrv1 & (_ & _ & _ & _ & I)).
      exists rv1. split; [assumption | now apply I]. }
    destruct (in_dec Nat.eq_dec n nodes) as [Hin|Hnot].
    + eapply IH; eassumption.
    + destruct Hn as [<-|Hn]; [|contradiction].
      destruct (store_ext_back _ S2 Hn') as (o1 & Hn1 & _).
      eapply store_ext_labels; [exact S2 | exact Hn1 | exact Hn'|].
      eapply label_node_adds; eassumption.
Qed.

Lemma descendants_of_one fn objs map_ fuel rev :
  _iterate_related_revisions fn objs map_ fuel [Some rev] false
  = related_loop fn objs map_ fuel [Some rev].
Proof.
  unfold _iterate_related_revisions. simpl.
  destruct (related_loop fn objs map_ fuel [Some rev]); simpl;
    [now rewrite app_nil_r | reflexivity].
Qed.

Lemma _add_branches_adds fuel objs map_ rev objs' map' rv l n o' :
  _add_branches fuel objs map_ rev = Ok (objs', map') ->
  resolvable objs map_ ->
  nth_error objs rev = Some rv -> In l (branch_labels rv) ->
  reach nextrev objs map_ rev n -> nth_error objs' n = Some o' ->
  In l (branch_labels o').
Proof.
  unfold _add_branches. intros H K Hrv Hl Hreach Hn'.
  bind_inv H. apply deref_ok in E. assert (x = rv) by congruence. subst x.
  destruct (branch_labels rv) eqn:Eb; [destruct Hl|]. rewrite <- Eb in Hl.
  bind_inv H. bind_inv H. bind_inv H. bind_inv H. injection H as <- <-.
  assert (D : dict_ext (length objs) map_ x).
  { eapply register_labels_ext; [|eassumption].
    apply nth_error_Some. congruence. }
  unfold _get_descendant_nodes in E1. rewrite descendants_of_one in E1.
  assert (Hin : In n x0).
  { eapply related_loop_complete; [eassumption | now left |].
    now apply (reach_ext rev n K (store_ext_refl objs) D). }
  pose proof (label_ancestors_ext _ _ _ _ _ E3) as S3.
  destruct (store_ext_back _ S3 Hn') as (o1 & Hn1 & _).
  eapply store_ext_labels; [exact S3 | exact Hn1 | exact Hn'|].
  eapply label_nodes_adds; eassumption.
Qed.

Lemma add_all_branches_adds fuel labeled : forall objs map_ objs' map' rev rv l n o',
  add_all_branches fuel labeled objs map_ = Ok (objs', map') ->
  resolvable objs map_ ->
  In rev labeled ->
  nth_error objs rev = Some rv -> In l (branch_labels rv) ->
  reach nextrev objs map_ rev n -> nth_error objs' n = Some o' ->
  In l (branch_labels o').
Proof.
  induction labeled as [|rev0 labeled IH]; simpl;
    intros objs map_ objs' map' rev rv l n o' H K Hin Hrv Hl Hreach Hn'.
  - destruct Hin.
  - bind_inv H. destruct x as [objs1 map1].
    pose proof (_add_branches_ext _ _ _ _ E) as [S1 D1].
    pose proof (add_all_branches_ext _ _ _ _ H) as [S2 D2].
    destruct (in_dec Nat.eq_dec rev labeled) as [Hin'|Hnot].
    + destruct S1 as [L1 S1']. destruct (S1' _ _ Hrv) as (rv1 & Hrv1 & (_ & _ & _ & _ & I)).
      eapply (IH objs1 map1); try eassumption.
      * eapply resolvable_ext; [eassumption | split; eassumption | eassumption].
      * now apply I.
      * apply (reach_ext rev n K (conj L1 S1') D1). assumption.
    + destruct Hin as [<-|Hin]; [|contradiction].
      destruct (store_ext_back _ S2 Hn') as (o1 & Hn1 & _).
      eapply store_ext_labels; [exact S2 | exact Hn1 | exact Hn'|].
      eapply _add_branches_adds; eassumption.
Qed.

(* ------------------------------------------------------------------ *)
(** ** Where a branch label can come from *)

Lemma same_but_labels_straight o o' :
  same_but_labels o o' -> straight o' = straight o.
Proof.
  intros (_ & Hd & _ & Hx & _).
  unfold straight, is_branch_point, is_merge_point, _down_revision_tuple.
  now rewrite Hd, Hx.
Qed.

Lemma edge_mono objs map_ objs' map' n p c :
  store_ext objs objs' -> dict_ext n map_ map' ->
  edge nextrev objs map_ p c -> edge nextrev objs' map' p c.
Proof.
  intros [_ S] [D _] (op & y & Hp & Hy & Hg).
  destruct (S _ _ Hp) as (op' & Hp' & (_ & _ & _ & Hx & _)).
  exists op', y. rewrite Hx. repeat split; auto.
Qed.

Lemma via_mono objs map_ objs' map' m n :
  store_ext objs objs' -> dict_ext m map_ map' ->
  via objs map_ n -> via objs' map' n.
Proof.
  intros [_ S] [D _] (c & oc & Hc & Hs & Ht & Hg).
  destruct (S _ _ Hc) as (oc' & Hc' & Hsame).
  exists c, oc'. rewrite (same_but_labels_straight Hsame).
  destruct Hsame as (_ & -> & _). repeat split; auto.
Qed.

Lemma acquired_mono objs map_ objs' map' m n o o' :
  store_ext objs objs' -> dict_ext m map_ map' -> same_but_labels o o' ->
  acquired objs map_ n o -> acquired objs' map' n o'.
Proof.
  intros S D Hsame [(p & He)|[Hs Hv]].
  - left. exists p. eapply edge_mono; eassumption.
  - right. rewrite (same_but_labels_straight Hsame).
    split; [assumption | eapply via_mono; eassumption].
Qed.

Lemma reach_last fn objs map_ r r' :
  reach fn objs map_ r r' -> r = r' \/ exists p, edge fn objs map_ p r'.
Proof.
  induction 1 as [r|p c r He _ IH]; [now left|].
  right. destruct IH as [<-|IH]; [now exists p | assumption].
Qed.

(** What [label_node] adds comes from the labels of [rev]. *)
Lemma label_node_from rev objs n0 objs' n o' l :
  label_node rev objs n0 = Ok objs' ->
  nth_error objs' n = Some o' -> In l (branch_labels o') ->
  (exists o, nth_error objs n = Some o /\ In l (branch_labels o))
  \/ (n = n0 /\ exists rv, nth_error objs rev = Some rv /\ In l (branch_labels rv)).
Proof.
  unfold label_node. intros H Hn Hl. bind_inv H. bind_inv H.
  injection H as <-. apply deref_ok in E, E0.
  apply nth_set_obj in Hn as [[<- ->]|[N Hn]].
  - simpl in Hl. unfold str_set_update in Hl.
    apply (In_set_update String.eqb String.eqb_eq) in Hl as [Hl|Hl].
    + left. now exists x0.
    + right. split; [reflexivity|]. now exists x.
  - left. now exists o'.
Qed.

Lemma label_nodes_from rev nodes : forall objs objs' n o' l,
  label_nodes rev objs nodes = Ok objs' ->
  nth_error objs' n = Some o' -> In l (branch_labels o') ->
  (exists o, nth_error objs n = Some o /\ In l (branch_labels o))
  \/ (In n nodes /\ exists rv, nth_error objs rev = Some rv /\ In l (branch_labels rv)).
Proof.
  induction nodes as [|n0 nodes IH]; simpl; intros objs objs' n o' l H Hn Hl.
  - injection H as <-. left. now exists o'.
  - bind_inv H.
    destruct (IH _ _ _ _ _ H Hn Hl) as [(o1 & Hn1 & Hl1)|(Hin & rv1 & Hrv1 & Hl1)].
    + destruct (label_node_from _ _ _ _ _ E Hn1 Hl1) as [?|(-> & ?)];
        [now left | right; split; [now left | assumption]].
    + right. split; [now right|].
      destruct (label_node_from _ _ _ _ _ E Hrv1 Hl1) as [?|(_ & ?)]; assumption.
Qed.

(** What the backward walk adds comes from the labels of [rev], and it
    adds to straight objects only: the one it starts at, and those found
    through the [down_revision] of a straight object. *)
Lemma label_ancestors_from map_ rev (P : nat -> Prop) :
  forall fuel objs parent objs',
  label_ancestors fuel map_ rev objs parent = Ok objs' ->
  (forall p, parent = Some p -> P p \/ via objs map_ p) ->
  forall n o' l,
  nth_error objs' n = Some o' -> In l (branch_labels o') ->
  (exists o, nth_error objs n = Some o /\ In l (branch_labels o))
  \/ ((exists rv, nth_error objs rev = Some rv /\ In l (branch_labels rv))
      /\ straight o' = true /\ (P n \/ via objs' map_ n)).
Proof.
  induction fuel as [|fuel IH]; intros objs [p|] objs' H Hp n o' l Hn Hl;
    simpl in H; try (injection H as <-; left; now exists o').
  - bind_inv H. destruct (is_branch_point x || is_merge_point x);
      [injection H as <-; left; now exists o' | discriminate].
  - bind_inv H. apply deref_ok in E.
    destruct (is_branch_point x || is_merge_point x) eqn:Es;
      [injection H as <-; left; now exists o'|].
    bind_inv H. apply deref_ok in E0.
    set (objs1 := set_obj objs p (update_branch_labels x (branch_labels x0))) in *.
    assert (S1 : store_ext objs objs1) by now apply store_ext_set.
    assert (Hp1 : nth_error objs1 p = Some (update_branch_labels x (branch_labels x0))).
    { apply nth_set_obj_same. apply nth_error_Some. congruence. }
    assert (Hback : forall o1, nth_error objs1 n = Some o1 ->
              In l (branch_labels o1) ->
              (exists o, nth_error objs n = Some o /\ In l (branch_labels o))
              \/ (n = p /\ In l (branch_labels x0))).
    { intros o1 Hn1 Hl1. apply nth_set_obj in Hn1 as [[<- ->]|[N Hn1]].
      - simpl in Hl1. unfold str_set_update in Hl1.
        apply (In_set_update String.eqb String.eqb_eq) in Hl1 as [Hl1|Hl1].
        + left. now exists x.
        + right. now split.
      - left. now exists o1. }
    assert (S2 : store_ext objs1 objs').
    { destruct (pyval_truthy (down_revision x)).
      - bind_inv H. eapply label_ancestors_ext; eassumption.
      - injection H as <-. apply store_ext_refl. }
    assert (Hfinal : forall o1, nth_error objs1 n = Some o1 ->
              In l (branch_labels o1) ->
              (exists o, nth_error objs n = Some o /\ In l (branch_labels o))
              \/ ((exists rv, nth_error objs rev = Some rv /\ In l (branch_labels rv))
                  /\ straight o' = true /\ (P n \/ via objs' map_ n))).
    { intros o1 Hn1 Hl1. destruct (Hback _ Hn1 Hl1) as [?|[-> Hl0]]; [now left|].
      right. split; [now exists x0|].
      destruct (proj2 S2 _ _ Hp1) as (o2 & Hn2 & Hsame).
      assert (o2 = o') by congruence. subst o2.
      split.
      - rewrite (same_but_labels_straight Hsame).
        unfold straight, is_branch_point, is_merge_point, _down_revision_tuple in *.
        simpl. now rewrite Es.
      - destruct (Hp p eq_refl) as [?|Hv]; [now left|]. right.
        eapply via_mono; [eapply store_ext_trans; [exact S1 | exact S2]
                         | apply (dict_ext_refl 0) | exact Hv]. }
    destruct (pyval_truthy (down_revision x)) eqn:Et.
    + bind_inv H. unfold dict_lookup in E1.
      destruct (dict_get map_ (key_of_pyval (down_revision x))) as [v|] eqn:Eg;
        [|discriminate].
      injection E1 as ->.
      destruct (IH _ _ _ H) with (n := n) (o' := o') (l := l)
        as [(o1 & Hn1 & Hl1)|((rv1 & Hrv1 & Hlr) & Hs & Hv)]; try assumption.
      * intros p' ->. right.
        exists p, (update_branch_labels x (branch_labels x0)).
        repeat split; try assumption.
        unfold straight, is_branch_point, is_merge_point, _down_revision_tuple in *.
        simpl. now rewrite Es.
      * eapply Hfinal; eassumption.
      * right. split; [|now split].
        exists x0. split; [assumption|].
        destruct (Nat.eq_dec p rev) as [->|N].
        -- rewrite Hp1 in Hrv1. injection Hrv1 as <-. simpl in Hlr.
           unfold str_set_update in Hlr.
           apply (In_set_update String.eqb String.eqb_eq) in Hlr as [Hlr|Hlr];
             [|assumption].
           congruence.
        -- unfold objs1 in Hrv1. rewrite nth_set_obj_other in Hrv1 by assumption.
           congruence.
    + injection H as <-. eapply Hfinal; eassumption.
Qed.

Lemma last_In (A : Type) (l : list A) (d : A) : last l d = d \/ In (last l d) l.
Proof.
  induction l as [|x [|y l] IH]; [now left | right; now left |].
  destruct IH as [IH|IH].
  - left. exact IH.
  - right. right. exact IH.
Qed.

Lemma _add_branches_labels fuel objs map_ rev objs' map' :
  labels_inv objs map_ ->
  _add_branches fuel objs map_ rev = Ok (objs', map') ->
  labels_inv objs' map'.
Proof.
  intros Inv H. pose proof (_add_branches_ext _ _ _ _ H) as [S D].
  unfold _add_branches in H. bind_inv H. apply deref_ok in E.
  destruct (branch_labels x) as [|l0 ls] eqn:Eb.
  { injection H as <- <-. exact Inv. }
  bind_inv H. bind_inv H. bind_inv H. bind_inv H. injection H as <- <-.
  rename x0 into map1, x1 into nodes, x2 into objs2, x3 into objs3.
  pose proof (label_nodes_ext _ _ _ E2) as S2.
  pose proof (label_ancestors_ext _ _ _ _ _ E3) as S3.
  unfold _get_descendant_nodes in E1. rewrite descendants_of_one in E1.
  intros n o3 l Hn Hl.
  assert (Own : forall o, nth_error objs n = Some o -> In l (branch_labels o) ->
            In l (_orig_branch_labels o3) \/ acquired objs3 map1 n o3).
  { intros o Ho Hlo. destruct (proj2 S _ _ Ho) as (o' & Ho' & Hsame).
    assert (o' = o3) by congruence. subst o'.
    destruct (Inv _ _ _ Ho Hlo) as [Hor|Hac].
    - left. destruct Hsame as (_ & _ & -> & _). exact Hor.
    - right. exact (acquired_mono S D Hsame Hac). }
  assert (Desc : In n nodes -> In l (branch_labels x) ->
            In l (_orig_branch_labels o3) \/ acquired objs3 map1 n o3).
  { intros Hin Hlx.
    destruct (related_loop_sound _ _ _ _ _ E1 _ Hin) as (r & [[= <-]|[]] & Hr).
    apply reach_last in Hr as [<-|(p & He)].
    - now apply (Own x).
    - right. left. exists p.
      eapply edge_mono; [exact S | apply (dict_ext_refl 0) | exact He]. }
  assert (Rev : forall rv2, nth_error objs2 rev = Some rv2 ->
            In l (branch_labels rv2) -> In l (branch_labels x)).
  { intros rv2 Hrv2 Hl2.
    destruct (label_nodes_from _ _ _ _ _ E2 Hrv2 Hl2)
      as [(o & Ho & Hlo)|(_ & rv & Hrv & Hlr)]; congruence. }
  assert (Mid : forall o2, nth_error objs2 n = Some o2 ->
            In l (branch_labels o2) ->
            In l (_orig_branch_labels o3) \/ acquired objs3 map1 n o3).
  { intros o2 Ho2 Hl2.
    destruct (label_nodes_from _ _ _ _ _ E2 Ho2 Hl2)
      as [(o & Ho & Hlo)|(Hin & rv & Hrv & Hlr)].
    - now apply (Own o).
    - apply Desc; [assumption | congruence]. }
  destruct (@label_ancestors_from map1 rev (fun k => k = last nodes rev)
              _ _ _ _ E3) with (n := n) (o' := o3) (l := l)
    as [(o2 & Ho2 & Hl2)|((rv2 & Hrv2 & Hlr) & Hs & [Hlast|Hv])];
    try assumption.
  - intros p [= <-]. now left.
  - now apply (Mid o2).
  - apply Rev in Hlr; [|assumption].
    destruct (last_In nodes rev) as [Hd|Hin].
    + apply (Own x); congruence.
    + apply Desc; [congruence | assumption].
  - right. right. now split.
Qed.

Lemma add_all_branches_labels fuel labeled : forall objs map_ objs' map',
  labels_inv objs map_ ->
  add_all_branches fuel labeled objs map_ = Ok (objs', map') ->
  labels_inv objs' map'.
Proof.
  induction labeled as [|rev labeled IH]; simpl; intros objs map_ objs' map' Inv H.
  - now injection H as <- <-.
  - bind_inv H. destruct x as [objs1 map1].
    eapply IH; [|eassumption]. eapply _add_branches_labels; eassumption.
Qed.

(* ------------------------------------------------------------------ *)
(** ** One owner for a branch label *)

Lemma register_labels_fresh objs rev name labels : forall map_ map' l,
  register_labels objs rev name labels map_ = Ok map' ->
  In l labels ->
  dict_get map_ (KStr l) = None /\ dict_get map' (KStr l) <> None.
Proof.
  induction labels as [|l0 labels IH]; simpl; intros map_ map' l H Hin;
    [destruct Hin|].
  destruct (dict_get map_ (KStr l0)) as [other|] eqn:E.
  { destruct (attr objs other revision); discriminate. }
  assert (Hset : forall labels d m k,
            register_labels objs rev name labels d = Ok m ->
            dict_get d k <> None -> dict_get m k <> None).
  { clear. induction labels as [|l1 labels IHl]; simpl; intros d m k Hm Hk.
    - now injection Hm as <-.
    - destruct (dict_get d (KStr l1)) eqn:E1.
      { destruct (attr objs o revision); discriminate. }
      eapply IHl; [eassumption|]. rewrite dict_get_set.
      destruct (key_eqb (KStr l1) k); [discriminate | assumption]. }
  destruct (string_dec l0 l) as [<-|N].
  - split; [assumption|]. eapply Hset; [eassumption|].
    rewrite dict_get_set_same. discriminate.
  - destruct Hin as [?|Hin]; [contradiction|].
    destruct (IH _ _ _ H Hin) as [H1 H2]. split; [|assumption].
    rewrite dict_get_set_other in H1; [assumption | congruence].
Qed.

Lemma _add_branches_fresh fuel objs map_ rev objs' map' rv l :
  _add_branches fuel objs map_ rev = Ok (objs', map') ->
  nth_error objs rev = Some rv -> branch_labels rv <> [] ->
  In l (_orig_branch_labels rv) ->
  dict_get map_ (KStr l) = None /\ dict_get map' (KStr l) <> None.
Proof.
  unfold _add_branches. intros H Hrv Hne Hl. bind_inv H. apply deref_ok in E.
  assert (x = rv) by congruence. subst x.
  destruct (branch_labels rv); [congruence|].
  bind_inv H. bind_inv H. bind_inv H. bind_inv H. injection H as <- <-.
  eapply register_labels_fresh; eassumption.
Qed.

Lemma add_all_branches_fresh fuel labeled : forall objs map_ objs' map' r o l,
  add_all_branches fuel labeled objs map_ = Ok (objs', map') ->
  In r labeled -> nth_error objs r = Some o -> branch_labels o <> [] ->
  In l (_orig_branch_labels o) ->
  dict_get map_ (KStr l) = None /\ dict_get map' (KStr l) <> None.
Proof.
  induction labeled as [|rev labeled IH]; simpl;
    intros objs map_ objs' map' r o l H Hin Hn Hne Hl; [destruct Hin|].
  bind_inv H. destruct x as [objs1 map1].
  pose proof (_add_branches_ext _ _ _ _ E) as [S1 D1].
  pose proof (add_all_branches_ext _ _ _ _ H) as [S2 D2].
  destruct Hin as [->|Hin].
  - destruct (@_add_branches_fresh _ _ _ _ _ _ _ _ E Hn Hne Hl) as [F1 F2].
    split; [assumption|].
    destruct (dict_get map1 (KStr l)) as [v|] eqn:Ev; [|congruence].
    rewrite (proj1 D2 _ _ Ev). discriminate.
  - destruct (proj2 S1 _ _ Hn) as (o1 & Hn1 & (_ & _ & Ho & _ & I)).
    destruct (IH _ _ _ _ r o1 l H Hin Hn1) as [F1 F2].
    + destruct (branch_labels o) as [|b bs]; [congruence|].
      intros N. specialize (I b (or_introl eq_refl)). now rewrite N in I.
    + now rewrite Ho.
    + split; [|assumption].
      destruct (dict_get map_ (KStr l)) as [v|] eqn:Ev; [|reflexivity].
      rewrite (proj1 D1 _ _ Ev) in F1. discriminate.
Qed.

(** Two objects with labels cannot both declare the same one: the second
    [_add_branches] would raise. *)
Lemma add_all_branches_owner fuel labeled :
  forall objs map_ objs' map' r1 o1 r2 o2 l,
  add_all_branches fuel labeled objs map_ = Ok (objs', map') ->
  In r1 labeled -> In r2 labeled -> r1 <> r2 ->
  nth_error objs r1 = Some o1 -> nth_error objs r2 = Some o2 ->
  branch_labels o1 <> [] -> branch_labels o2 <> [] ->
  In l (_orig_branch_labels o1) -> In l (_orig_branch_labels o2) -> False.
Proof.
  assert (Step : forall fuel labeled objs map_ objs' map' rev o1 r2 o2 l,
    add_all_branches fuel (rev :: labeled) objs map_ = Ok (objs', map') ->
    In r2 labeled ->
    nth_error objs rev = Some o1 -> nth_error objs r2 = Some o2 ->
    branch_labels o1 <> [] -> branch_labels o2 <> [] ->
    In l (_orig_branch_labels o1) -> In l (_orig_branch_labels o2) -> False).
  { intros fuel0 labeled0 objs map_ objs' map' rev o1 r2 o2 l H Hin Hn1 Hn2 N1 N2 L1 L2.
    simpl in H. bind_inv H. destruct x as [objs1 map1].
    pose proof (_add_branches_ext _ _ _ _ E) as [S1 D1].
    destruct (@_add_branches_fresh _ _ _ _ _ _ _ _ E Hn1 N1 L1) as [_ F].
    destruct (proj2 S1 _ _ Hn2) as (o2' & Hn2' & (_ & _ & Ho & _ & I)).
    destruct (@add_all_branches_fresh _ _ _ _ _ _ r2 o2' l H Hin Hn2') as [F' _].
    - destruct (branch_labels o2) as [|b bs]; [congruence|].
      intros N. specialize (I b (or_introl eq_refl)). now rewrite N in I.
    - now rewrite Ho.
    - contradiction. }
  induction labeled as [|rev labeled IH];
    intros objs map_ objs' map' r1 o1 r2 o2 l H Hin1 Hin2 Hneq Hn1 Hn2 N1 N2 L1 L2;
    [destruct Hin1|].
  destruct Hin1 as [->|Hin1]; destruct Hin2 as [->|Hin2].
  - congruence.
  - eapply (Step fuel labeled _ _ _ _ r1 o1 r2 o2); eassumption.
  - eapply (Step fuel labeled _ _ _ _ r2 o2 r1 o1); eassumption.
  - simpl in H. bind_inv H. destruct x as [objs1 map1].
    pose proof (_add_branches_ext _ _ _ _ E) as [S1 D1].
    destruct (proj2 S1 _ _ Hn1) as (o1' & Hn1' & (_ & _ & Ho1 & _ & I1)).
    destruct (proj2 S1 _ _ Hn2) as (o2' & Hn2' & (_ & _ & Ho2 & _ & I2)).
    eapply (IH objs1 map1 _ _ r1 o1' r2 o2' l); try eassumption.
    + destruct (branch_labels o1) as [|b bs]; [congruence|].
      intros N. specialize (I1 b (or_introl eq_refl)). now rewrite N in I1.
    + destruct (branch_labels o2) as [|b bs]; [congruence|].
      intros N. specialize (I2 b (or_introl eq_refl)). now rewrite N in I2.
    + now rewrite Ho1.
    + now rewrite Ho2.
Qed.

(* ------------------------------------------------------------------ *)
(** ** Branch labels after the build *)

Lemma constructed_labels o l :
  constructed o -> In l (branch_labels o) <-> In l (_orig_branch_labels o).
Proof.
  intros (r & d & b & ->). simpl. unfold str_set_of.
  apply (In_set_of String.eqb String.eqb_eq).
Qed.

Lemma short_list_eq (T : Type) (l : list T) x y :
  (1 <? length l)%nat = false -> In x l -> In y l -> x = y.
Proof.
  destruct l as [|a [|b l]]; simpl; intros H Hx Hy.
  - destruct Hx.
  - destruct Hx as [<-|[]], Hy as [<-|[]]. reflexivity.
  - discriminate.
Qed.

Section BuildLabels.

Variable generator : list Revision.

Hypothesis Hcons : Forall constructed generator.

Hypothesis Hnodup : NoDup (map revision generator).

Variables (fuel : nat) (w : list warning) (st : RevisionMap).

Hypothesis Hbuild : RevisionMap_build fuel generator = (w, Ok st).

Local Abbreviation ix := (index_revisions generator).

Local Abbreviation map0 := (with_sentinels (i_map (index_revisions generator))).

(** The store and the dictionary between the second and the third loop
    of the build. *)
Lemma build_before_labels :
  exists objs1,
    add_all_branches fuel (i_labeled ix) objs1 map0
      = Ok (objs st, _revision_map st)
    /\ length objs1 = length generator
    /\ (forall r o, nth_error generator r = Some o ->
          exists o1, nth_error objs1 r = Some o1 /\ same_but_nextrev o o1)
    /\ resolvable objs1 map0
    /\ labels_inv objs1 map0.
Proof.
  destruct (RevisionMap_build_inv _ _ Hbuild) as (objs1 & Hlink & Hlab & _ & _).
  apply link_values_spec in Hlink as (_ & Hlen1 & _ & _ & _ & Hobj1).
  exists objs1. split; [assumption|]. split; [assumption|].
  assert (Hback : forall r o1, nth_error objs1 r = Some o1 ->
            exists o, nth_error generator r = Some o
                      /\ linked_all (i_map ix) generator
                           (dict_values (i_map ix)) r o o1).
  { intros r o1 Hn1. destruct (nth_error generator r) as [o|] eqn:E.
    - destruct (Hobj1 _ _ E) as (o1' & Hn1' & Hl). exists o.
      split; [reflexivity|]. congruence.
    - apply nth_error_None in E. rewrite <- Hlen1 in E.
      apply nth_error_None in E. congruence. }
  split; [|split].
  - intros r o Hn. destruct (Hobj1 _ _ Hn) as (o1 & Hn1 & Hs & _).
    now exists o1.
  - intros r o1 y Hn1 Hy.
    destruct (Hback _ _ Hn1) as (o & Hn & _ & _ & Hch).
    destruct (proj1 (Hch y) Hy) as [Hy'|(c & oc & d & _ & Hc & Hr & _)].
    + rewrite constructed_nextrev in Hy'; [destruct Hy'|].
      rewrite Forall_forall in Hcons. apply Hcons.
      eapply nth_error_In; eassumption.
    + exists c. rewrite with_sentinels_str, <- Hr.
      now apply index_get_nodup.
  - intros n o1 l Hn1 Hl.
    destruct (Hback _ _ Hn1) as (o & Hn & (_ & _ & Ho & Hb) & _).
    left. rewrite Ho. rewrite Hb in Hl.
    apply constructed_labels; [|assumption].
    rewrite Forall_forall in Hcons. apply Hcons.
    eapply nth_error_In; eassumption.
Qed.

Lemma labelled_registered r o :
  nth_error generator r = Some o -> branch_labels o <> [] ->
  In r (i_labeled ix).
Proof.
  intros Hn Hne.
  rewrite (ix_labeled (index_revisions_spec generator)).
  apply filter_In. split.
  - apply in_seq. split; [lia|]. simpl. apply nth_error_Some. congruence.
  - unfold labelled_at, has_labels. rewrite Hn.
    destruct (branch_labels o); congruence.
Qed.

(** A label that an object declares is on all its descendants. *)
Lemma build_labels_descendants r o l n o' :
  nth_error generator r = Some o -> In l (_orig_branch_labels o) ->
  descendant st r n -> nth_error (objs st) n = Some o' ->
  In l (branch_labels o').
Proof.
  intros Hn Hl Hd Hn'.
  destruct build_before_labels as (objs1 & Hlab & Hlen & Hobj & Hres & _).
  destruct (Hobj _ _ Hn) as (o1 & Hn1 & (_ & _ & Ho & Hb)).
  assert (Hc : constructed o).
  { rewrite Forall_forall in Hcons. apply Hcons.
    eapply nth_error_In; eassumption. }
  assert (Hlo : In l (branch_labels o)) by now apply constructed_labels.
  pose proof (add_all_branches_ext _ _ _ _ Hlab) as [S D].
  eapply (@add_all_branches_adds fuel (i_labeled ix) objs1 map0
            (objs st) (_revision_map st) r o1 l n o'); try eassumption.
  - apply (@labelled_registered r o Hn). intros N. now rewrite N in Hlo.
  - now rewrite Hb.
  - apply (reach_ext r n Hres S D). exact Hd.
Qed.

(** A label on an object without parents that does not declare it has
    come down the backward walk: the object is straight, and so is the
    child the walk has come from. *)
Lemma build_labels_base ra A A' l :
  nth_error generator ra = Some A -> _down_revision_tuple A = [] ->
  nth_error (objs st) ra = Some A' ->
  In l (branch_labels A') -> ~ In l (_orig_branch_labels A) ->
  straight A' = true
  /\ exists c oc, nth_error (objs st) c = Some oc /\ straight oc = true
       /\ In (revision A) (_down_revision_tuple oc).
Proof.
  intros Hn Hbase Hn' Hl Hnot.
  destruct build_before_labels as (objs1 & Hlab & Hlen & Hobj & Hres & Hinv).
  pose proof (@add_all_branches_labels _ _ _ _ _ _ Hinv Hlab) as Inv.
  destruct (@build_graph _ Hcons Hnodup _ _ _ Hbuild) as [_ G].
  destruct (g_node G _ Hn) as (A2 & HA2 & _ & _ & HoA & _ & _ & _ & HgA).
  assert (A2 = A') by congruence. subst A2.
  assert (Hgen : forall c oc, nth_error (objs st) c = Some oc ->
            exists gc, nth_error generator c = Some gc
                       /\ revision oc = revision gc
                       /\ down_revision oc = down_revision gc
                       /\ (forall y, In y (nextrev oc) ->
                             exists k, In k generator /\ revision k = y
                               /\ In (revision gc) (_down_revision_tuple k))).
  { intros c oc Hc. destruct (nth_error generator c) as [gc|] eqn:E.
    - destruct (g_node G _ E) as (oc' & Hc' & R1 & R2 & _ & _ & _ & Hy & _).
      assert (oc' = oc) by congruence. subst oc'.
      exists gc. repeat split; try assumption. intros y. apply Hy.
    - apply nth_error_None in E. rewrite <- (g_length G) in E.
      apply nth_error_None in E. congruence. }
  assert (Hkey : forall s r, dict_get (_revision_map st) (KStr s) = Some (Some r) ->
            In s (map revision generator) ->
            exists o, nth_error generator r = Some o /\ revision o = s).
  { intros s r Hg Hin. apply in_map_iff in Hin as (o & <- & Hin).
    apply In_nth_error in Hin as (r' & Hr').
    destruct (g_node G _ Hr') as (_ & _ & _ & _ & _ & _ & _ & _ & Hg').
    exists o. split; [congruence | reflexivity]. }
  destruct (Inv _ _ _ Hn' Hl) as [Hor|[(p & op & y & Hp & Hy & Hg)|(Hs & c & oc & Hc & Hsc & Ht & Hg)]].
  - rewrite HoA in Hor. contradiction.
  - exfalso. destruct (Hgen _ _ Hp) as (gp & _ & _ & _ & Hch).
    destruct (Hch _ Hy) as (k & Hk & <- & Hd).
    destruct (Hkey _ _ Hg (in_map revision _ _ Hk)) as (o & Ho & Hr).
    assert (o = A) by congruence. subst o.
    apply In_nth_error in Hk as (rk & Hrk).
    assert (rk = ra) by (eapply NoDup_map_nth; eauto).
    subst rk. assert (k = A) by congruence. subst k.
    rewrite Hbase in Hd. destruct Hd.
  - split; [assumption|]. exists c, oc. split; [assumption|].
    split; [assumption|].
    destruct (Hgen _ _ Hc) as (gc & Hgc & _ & Hdc & _).
    destruct (down_revision oc) as [|s|t] eqn:Ed; simpl in Ht, Hg.
    + discriminate.
    + unfold _down_revision_tuple. rewrite Ed. simpl. left.
      destruct (@Hkey s ra Hg) as (o & Ho & Hr).
      * apply (g_parents G gc); [eapply nth_error_In; eassumption|].
        unfold _down_revision_tuple. rewrite <- Hdc. simpl. now left.
      * congruence.
    + destruct (g_keys G _ Hg) as [[? _]|(s & r & ? & _)]; discriminate.
Qed.

(** Two revisions cannot declare the same label: the build would raise. *)
Lemma build_label_owner r1 o1 r2 o2 l :
  nth_error generator r1 = Some o1 -> nth_error generator r2 = Some o2 ->
  r1 <> r2 ->
  In l (_orig_branch_labels o1) -> In l (_orig_branch_labels o2) -> False.
Proof.
  intros Hn1 Hn2 Hneq Hl1 Hl2.
  destruct build_before_labels as (objs1 & Hlab & _ & Hobj & _ & _).
  destruct (Hobj _ _ Hn1) as (p1 & Hp1 & (_ & _ & Ho1 & Hb1)).
  destruct (Hobj _ _ Hn2) as (p2 & Hp2 & (_ & _ & Ho2 & Hb2)).
  pose proof (proj1 (Forall_forall _ _) Hcons) as Hc.
  assert (N1 : branch_labels o1 <> []).
  { intros N. apply (constructed_labels l) in Hl1;
      [now rewrite N in Hl1 | apply Hc; eapply nth_error_In; eassumption]. }
  assert (N2 : branch_labels o2 <> []).
  { intros N. apply (constructed_labels l) in Hl2;
      [now rewrite N in Hl2 | apply Hc; eapply nth_error_In; eassumption]. }
  eapply (@add_all_branches_owner fuel _ objs1 _ _ _ r1 p1 r2 p2 l Hlab);
    try eassumption; try congruence.
  - eapply labelled_registered; eassumption.
  - eapply labelled_registered; eassumption.
Qed.

End BuildLabels.

(** C5, as the code has it.  In a map built from revisions with pairwise
    different ids, with an object A without parents and a child B of A
    that declares the branch label l: the label is on B and on every
    descendant of B, and it is on A only if neither A nor B is a branch
    point or a merge point. *)
Theorem branch_label_propagation fuel generator w st ra rb A B A' B' l :
  Forall constructed generator ->
  NoDup (map revision generator) ->
  RevisionMap_build fuel generator = (w, Ok st) ->
  nth_error generator ra = Some A -> nth_error generator rb = Some B ->
  _down_revision_tuple A = [] ->
  In (revision A) (_down_revision_tuple B) ->
  In l (_orig_branch_labels B) ->
  nth_error (objs st) ra = Some A' -> nth_error (objs st) rb = Some B' ->
  In l (branch_labels B')
  /\ (forall n o, descendant st rb n -> nth_error (objs st) n = Some o ->
        In l (branch_labels o))
  /\ (In l (branch_labels A') ->
        is_branch_point A' = false /\ is_merge_point A' = false
        /\ is_branch_point B' = false /\ is_merge_point B' = false).
Proof.
  intros Hcons Hnodup Hbuild HA HB Hbase Hchild Hl HA' HB'.
  assert (Hdesc : forall n o, descendant st rb n ->
            nth_error (objs st) n = Some o -> In l (branch_labels o)).
  { intros n o Hd Hn.
    exact (@build_labels_descendants _ Hcons Hnodup _ _ _ Hbuild _ _ _ _ _ HB Hl Hd Hn). }
  split; [apply (Hdesc rb B'); [apply reach_refl | assumption]|].
  split; [exact Hdesc|].
  intros HlA.
  assert (Hneq : ra <> rb).
  { intros ->. assert (A = B) by congruence. subst B.
    rewrite Hbase in Hchild. destruct Hchild. }
  assert (Hnot : ~ In l (_orig_branch_labels A)).
  { intros N. exact (@build_label_owner _ Hcons Hnodup _ _ _ Hbuild _ _ _ _ _ HA HB Hneq N Hl). }
  destruct (@build_labels_base _ Hcons Hnodup _ _ _ Hbuild _ _ _ _ HA Hbase HA' HlA Hnot)
    as (HsA & c & oc & Hc & Hsc & Hd).
  destruct (@build_graph _ Hcons Hnodup _ _ _ Hbuild) as [_ G].
  destruct (g_node G _ HA) as (A2 & HA2 & _ & _ & _ & _ & _ & Hy & _).
  assert (A2 = A') by congruence. subst A2.
  assert (Hgc : exists gc, nth_error generator c = Some gc
                  /\ revision oc = revision gc
                  /\ down_revision oc = down_revision gc).
  { destruct (nth_error generator c) as [gc|] eqn:E.
    - destruct (g_node G _ E) as (oc' & Hc' & R1 & R2 & _).
      assert (oc' = oc) by congruence. subst oc'. now exists gc.
    - apply nth_error_None in E. rewrite <- (g_length G) in E.
      apply nth_error_None in E. congruence. }
  destruct Hgc as (gc & Hgc & Rc & Dc).
  assert (Hsame : revision gc = revision B).
  { unfold straight in HsA. apply negb_true_iff, orb_false_iff in HsA as [HbA _].
    apply (short_list_eq (nextrev A')); [exact HbA| |].
    - apply Hy. exists gc. split; [eapply nth_error_In; eassumption|].
      split; [reflexivity|]. unfold _down_revision_tuple in *. now rewrite <- Dc.
    - apply Hy. exists B. split; [eapply nth_error_In; eassumption|]. now split. }
  assert (c = rb) by (eapply NoDup_map_nth; eauto). subst c.
  assert (oc = B') by congruence. subst oc.
  unfold straight in HsA, Hsc.
  apply negb_true_iff, orb_false_iff in HsA as [? ?].
  apply negb_true_iff, orb_false_iff in Hsc as [? ?].
  auto.
Qed.

Lemma branch_label_propagation_witness :
  exists A' B',
    nth_error (objs (built 20 Examples.labelled_chain)) 0 = Some A'
    /\ nth_error (objs (built 20 Examples.labelled_chain)) 1 = Some B'
    /\ In "rel1" (branch_labels B')
    /\ (forall n o, descendant (built 20 Examples.labelled_chain) 1 n ->
          nth_error (objs (built 20 Examples.labelled_chain)) n = Some o ->
          In "rel1" (branch_labels o))
    /\ (In "rel1" (branch_labels A') ->
          is_branch_point A' = false /\ is_merge_point A' = false
          /\ is_branch_point B' = false /\ is_merge_point B' = false).
Proof.
  eexists. eexists. split; [reflexivity|]. split; [reflexivity|].
  assert (Hc : Forall constructed Examples.labelled_chain).
  { repeat constructor; eexists; eexists; eexists; reflexivity. }
  assert (Hn : NoDup (map revision Examples.labelled_chain)).
  { simpl. repeat constructor; simpl; intuition discriminate. }
  apply (@branch_label_propagation 20 Examples.labelled_chain []
           (built 20 Examples.labelled_chain) 0 1
           (Revision_init "A" PNone PNone)
           (Revision_init "B" (PStr "A") (PStr "rel1")) _ _ "rel1" Hc Hn);
    try reflexivity; simpl; auto.
Defined.

(** C5, as the specification words it, fails: over A <- B <- C, Z, and
    D merging C and Z, with B declaring rel1, neither A nor B is a
    branch point or a merge point, and yet A is left without the label.
    The backward walk starts at the last descendant seen, D, a merge
    point, and stops there. *)
Lemma label_stops_at_merge_point :
  exists st A B C D,
    RevisionMap_build 20 Examples.labelled_merge = ([], Ok st)
    /\ nth_error (objs st) 0 = Some A /\ nth_error (objs st) 1 = Some B
    /\ nth_error (objs st) 2 = Some C /\ nth_error (objs st) 4 = Some D
    /\ (revision A, down_revision A, nextrev A) = ("A", PNone, ["B"])
    /\ (revision B, down_revision B, nextrev B) = ("B", PStr "A", ["C"])
    /\ is_branch_point A = false /\ is_merge_point A = false
    /\ is_branch_point B = false /\ is_merge_point B = false
    /\ branch_labels B = ["rel1"] /\ branch_labels C = ["rel1"]
    /\ branch_labels D = ["rel1"] /\ is_merge_point D = true
    /\ ~ In "rel1" (branch_labels A).
Proof.
  do 5 eexists. split; [reflexivity|]. repeat split; try reflexivity.
  simpl. intros [].
Qed.

(* ================================================================== *)
(** * Ranges over maps without cycles *)

(** ** The map as a graph *)

Lemma graph_wf generator st :
  NoDup (map revision generator) -> graph_of generator st -> wf_map st.
Proof.
  intros N G.
  assert (Hgen : forall r o, nth_error (objs st) r = Some o ->
            exists g, nth_error generator r = Some g
              /\ revision o = revision g
              /\ down_revision o = down_revision g
              /\ (forall y, In y (nextrev o) <->
                    exists c, In c generator /\ revision c = y
                              /\ In (revision g) (_down_revision_tuple c))
              /\ dict_get (_revision_map st) (KStr (revision g)) = Some (Some r)).
  { intros r o Hn. destruct (nth_error generator r) as [g|] eqn:E.
    - destruct (g_node G _ E) as (o' & Hn' & R1 & R2 & _ & _ & _ & Hy & Hg).
      assert (o' = o) by congruence. subst o'. exists g.
      repeat split; try assumption; apply Hy.
    - apply nth_error_None in E. rewrite <- (g_length G) in E.
      apply nth_error_None in E. congruence. }
  constructor.
  - intros r o Hn. destruct (Hgen _ _ Hn) as (g & _ & -> & _ & _ & Hg).
    exact Hg.
  - intros r o d Hn Hd.
    destruct (Hgen _ _ Hn) as (g & Hg & Rg & Dg & _).
    assert (Hd' : In d (_down_revision_tuple g)).
    { unfold _down_revision_tuple in *. now rewrite <- Dg. }
    assert (Hin : In g generator) by (eapply nth_error_In; eassumption).
    pose proof (g_parents G _ _ Hin Hd') as Hp.
    destruct (proj1 (in_map_iff _ _ _) Hp) as (gp & Egp & Hgp).
    destruct (In_nth_error _ _ Hgp) as (p & Hp').
    destruct (g_node G _ Hp') as (op & Hop & R1 & _ & _ & _ & _ & Hy & _).
    exists p, op. split; [assumption|]. split; [congruence|].
    apply Hy. exists g. rewrite Rg, Egp. auto.
  - intros p op y Hn Hy.
    destruct (Hgen _ _ Hn) as (gp & Hgp & Rp & _ & Hch & _).
    destruct (proj1 (Hch y) Hy) as (c & Hc & Ec & Hd).
    destruct (In_nth_error _ _ Hc) as (rc & Hrc).
    destruct (g_node G _ Hrc) as (oc & Hoc & R1 & R2 & _).
    exists rc, oc. split; [assumption|]. split; [congruence|].
    unfold _down_revision_tuple in *. now rewrite R2, Rp.
  - apply (g_bases G).
Qed.

Section MapGraph.

Variable st : RevisionMap.

Hypothesis Hwf : wf_map st.

Lemma wf_id_inj r1 o1 r2 o2 :
  nth_error (objs st) r1 = Some o1 -> nth_error (objs st) r2 = Some o2 ->
  revision o1 = revision o2 -> r1 = r2.
Proof.
  intros H1 H2 E. pose proof (wf_key Hwf _ H1) as K1.
  pose proof (wf_key Hwf _ H2) as K2. rewrite E in K1. congruence.
Qed.

Lemma edge_down_parent c p :
  edge _down_revision_tuple (objs st) (_revision_map st) c p <->
  parent_of st c p.
Proof.
  split.
  - intros (oc & d & Hc & Hd & Hg).
    destruct (wf_down Hwf _ _ Hc Hd) as (p' & op & Hp & <- & _).
    rewrite (wf_key Hwf _ Hp) in Hg. injection Hg as <-.
    now exists oc, op.
  - intros (oc & op & Hc & Hp & Hd).
    exists oc, (revision op). repeat split; try assumption.
    now apply (wf_key Hwf).
Qed.

Lemma edge_next_parent p c :
  edge nextrev (objs st) (_revision_map st) p c <-> parent_of st c p.
Proof.
  split.
  - intros (op & y & Hp & Hy & Hg).
    destruct (wf_next Hwf _ _ Hp Hy) as (c' & oc & Hc & <- & Hd).
    rewrite (wf_key Hwf _ Hc) in Hg. injection Hg as <-.
    now exists oc, op.
  - intros (oc & op & Hc & Hp & Hd).
    destruct (wf_down Hwf _ _ Hc Hd) as (p' & op' & Hp' & E & Hn).
    assert (p' = p) by (eapply wf_id_inj; eassumption). subst p'.
    assert (op' = op) by congruence. subst op'.
    exists op, (revision oc). repeat split; try assumption.
    now apply (wf_key Hwf).
Qed.

(** Descendants are ancestors read backwards. *)
Lemma descendant_ancestor a b : descendant st a b <-> ancestor st b a.
Proof.
  unfold descendant, ancestor. split.
  - induction 1 as [r|p c r He _ IH]; [constructor|].
    apply edge_next_parent, edge_down_parent in He.
    eapply reach_trans; [exact IH|].
    eapply reach_step; [exact He | constructor].
  - induction 1 as [r|p c r He _ IH]; [constructor|].
    apply edge_down_parent, edge_next_parent in He.
    eapply reach_trans; [exact IH|].
    eapply reach_step; [exact He | constructor].
Qed.

End MapGraph.

(* ------------------------------------------------------------------ *)
(** ** The closure walks come to an end *)

Lemma weight_app h N l1 l2 :
  weight h N (l1 ++ l2) = (weight h N l1 + weight h N l2)%nat.
Proof. unfold weight. now rewrite map_app, list_sum_app. Qed.

Lemma weight_rev h N l : weight h N (List.rev l) = weight h N l.
Proof.
  induction l as [|x l IH]; [reflexivity|].
  simpl List.rev. rewrite weight_app, IH. unfold weight. simpl. lia.
Qed.

Section WalkTerminates.

Variable fn : Revision -> list string.

Variable objs : list Revision.

Variable map_ : list (key * option nat).

Variable h : nat -> nat.

Variable N : nat.

Hypothesis Hstep : forall r o y,
  nth_error objs r = Some o -> In y (fn o) ->
  exists c, dict_get map_ (KStr y) = Some (Some c)
            /\ (c < length objs)%nat /\ (h c < h r)%nat.

Hypothesis Hwidth : forall r o,
  nth_error objs r = Some o -> (length (fn o) <= N)%nat.

Lemma lookups_weight hr ys :
  (forall y, In y ys ->
     exists c, dict_get map_ (KStr y) = Some (Some c)
               /\ (c < length objs)%nat /\ (h c < hr)%nat) ->
  exists next,
    mapM (fun y => dict_lookup map_ (KStr y)) ys = Ok next
    /\ Forall (valid_node objs) next
    /\ (weight h N next * S N <= length ys * S N ^ hr)%nat.
Proof.
  induction ys as [|y ys IH]; intros H.
  - exists []. repeat split; [constructor | simpl; lia].
  - destruct IH as (next & Hm & Hv & Hw); [intros; apply H; now right|].
    destruct (H y (or_introl eq_refl)) as (c & Hc & Lc & Hh).
    exists (Some c :: next). simpl. unfold dict_lookup at 1. rewrite Hc.
    simpl. rewrite Hm. simpl. split; [reflexivity|].
    split; [constructor; [now exists c | assumption]|].
    unfold weight in *. simpl.
    assert (S N ^ h c * S N <= S N ^ hr)%nat.
    { replace (S N ^ h c * S N)%nat with (S N ^ S (h c))%nat
        by (simpl; lia).
      apply Nat.pow_le_mono_r; lia. }
    lia.
Qed.

Lemma related_loop_terminates : forall fuel todo,
  Forall (valid_node objs) todo -> (weight h N todo < fuel)%nat ->
  exists out, related_loop fn objs map_ fuel todo = Ok out.
Proof.
  induction fuel as [|fuel IH]; intros todo Hv Hw; [lia|].
  destruct todo as [|n todo]; [now exists []|].
  inversion Hv as [|? ? (r & -> & Lr) Hv']. subst.
  destruct (nth_error objs r) as [o|] eqn:Eo;
    [|apply nth_error_None in Eo; lia].
  destruct (@lookups_weight (h r) (fn o)) as (next & Hm & Hn & Hwn).
  { intros y Hy. eapply Hstep; eassumption. }
  pose proof (Hwidth _ Eo) as HW.
  assert (P : (1 <= S N ^ h r)%nat).
  { apply Nat.neq_0_lt_0. apply Nat.pow_nonzero. lia. }
  destruct (IH (List.rev next ++ todo)) as (out & Hout).
  - apply Forall_app. split; [now apply Forall_rev | assumption].
  - rewrite weight_app, weight_rev.
    unfold weight in Hw. simpl in Hw. fold (weight h N todo) in Hw.
    assert (weight h N next < S N ^ h r)%nat; [|lia].
    assert (weight h N next * S N < S N ^ h r * S N)%nat; [|nia].
    apply Nat.le_lt_trans with (length (fn o) * S N ^ h r)%nat; [assumption|].
    nia.
  - exists (r :: out). simpl. unfold deref. rewrite Eo. simpl.
    rewrite Hm. simpl. rewrite Hout. reflexivity.
Qed.

End WalkTerminates.

Lemma nil_no_In (T : Type) (l : list T) : (forall x, ~ In x l) -> l = [].
Proof.
  destruct l as [|x l]; [reflexivity|]. intros H.
  destruct (H x). now left.
Qed.

Lemma overlap_nil visited targets target :
  (forall x, In x visited -> In (Some x) targets -> Some x = target) ->
  overlap visited targets target = [].
Proof.
  intros H. apply nil_no_In. intros n Hn. unfold overlap in Hn.
  apply (proj1 (In_set_diff node_eqb node_eqb_eq _ _ _)) in Hn as [Hn Hnot].
  apply (proj1 (In_set_inter node_eqb node_eqb_eq _ _ _)) in Hn as [Hn Ht].
  apply (proj1 (In_set_of node_eqb node_eqb_eq _ _)) in Hn.
  apply (proj1 (in_map_iff _ _ _)) in Hn as (x & <- & Hx).
  apply Hnot. left. symmetry. now apply H.
Qed.

Lemma related_targets_spec fn objs map_ fuel check targets : forall rest,
  (forall t, In t rest ->
     exists out, related_loop fn objs map_ fuel [t] = Ok out
       /\ (forall x, In x out -> In (Some x) targets -> Some x = t)) ->
  exists all,
    related_targets fn objs map_ fuel check targets rest = Ok all
    /\ forall r, In r all <->
         exists t out, In t rest
           /\ related_loop fn objs map_ fuel [t] = Ok out /\ In r out.
Proof.
  induction rest as [|t rest IH]; intros H.
  - exists []. split; [reflexivity|]. intros r. split; [intros []|].
    intros (t & out & [] & _).
  - destruct (H t (or_introl eq_refl)) as (out & Hout & Hov).
    destruct IH as (more & Hmore & Hspec); [intros; apply H; now right|].
    exists (out ++ more). simpl. rewrite Hout. simpl.
    rewrite (overlap_nil _ _ Hov), Hmore.
    split; [now destruct check|].
    intros r. rewrite in_app_iff, Hspec. split.
    + intros [Hr|(t' & out' & Ht' & Ho' & Hr)].
      * exists t, out. auto.
      * exists t', out'. auto.
    + intros (t' & out' & [<-|Ht'] & Ho' & Hr).
      * left. congruence.
      * right. now exists t', out'.
Qed.

Section WalkClosure.

Variable fn : Revision -> list string.

Variable objs : list Revision.

Variable map_ : list (key * option nat).

Variable h : nat -> nat.

Variable N : nat.

Hypothesis Hstep : forall r o y,
  nth_error objs r = Some o -> In y (fn o) ->
  exists c, dict_get map_ (KStr y) = Some (Some c)
            /\ (c < length objs)%nat /\ (h c < h r)%nat.

Hypothesis Hwidth : forall r o,
  nth_error objs r = Some o -> (length (fn o) <= N)%nat.

(** The walk from targets none of which is reached from another one:
    with fuel for the heaviest target it yields the objects reached from
    the targets. *)
Lemma walk_closure fuel targets check :
  (forall t, In t targets -> (t < length objs)%nat /\ (S N ^ h t < fuel)%nat) ->
  (forall t t', In t targets -> In t' targets ->
                reach fn objs map_ t t' -> t = t') ->
  exists all,
    _iterate_related_revisions fn objs map_ fuel (map Some targets) check
      = Ok all
    /\ forall r, In r all <->
         exists t, In t targets /\ reach fn objs map_ t r.
Proof.
  intros Hv Hsep.
  assert (Hone : forall t, In t targets ->
            exists out, related_loop fn objs map_ fuel [Some t] = Ok out).
  { intros t Ht. destruct (Hv t Ht) as [L W].
    apply (@related_loop_terminates fn objs map_ h N Hstep Hwidth).
    - constructor; [now exists t | constructor].
    - unfold weight. simpl. lia. }
  destruct (@related_targets_spec fn objs map_ fuel check (map Some targets)
              (map Some targets)) as (all & Hall & Hspec).
  { intros n Hn. apply in_map_iff in Hn as (t & <- & Ht).
    destruct (Hone t Ht) as (out & Hout). exists out.
    split; [assumption|]. intros x Hx Hxt.
    apply in_map_iff in Hxt as (t' & [= ->] & Ht').
    f_equal. symmetry. apply Hsep; try assumption.
    destruct (related_loop_sound _ _ _ _ _ Hout _ Hx)
      as (r0 & [[= <-]|[]] & Hr). exact Hr. }
  exists all. split; [exact Hall|].
  intros r. rewrite Hspec. split.
  - intros (n & out & Hn & Hout & Hr).
    apply in_map_iff in Hn as (t & <- & Ht). exists t.
    split; [assumption|].
    destruct (related_loop_sound _ _ _ _ _ Hout _ Hr)
      as (r0 & [[= <-]|[]] & Hr0). exact Hr0.
  - intros (t & Ht & Hr). destruct (Hone t Ht) as (out & Hout).
    exists (Some t), out. split; [now apply in_map|].
    split; [assumption|].
    eapply related_loop_complete; [exact Hout | now left | exact Hr].
Qed.

End WalkClosure.

(* ------------------------------------------------------------------ *)
(** ** The loop of [_iterate_revisions] from one upper bound *)

Lemma NoDup_map_local (A B : Type) (f : A -> B) (l : list A) :
  (forall x y, In x l -> In y l -> f x = f y -> x = y) ->
  NoDup l -> NoDup (map f l).
Proof.
  induction l as [|a l IH]; intros Hinj Hn; simpl; [constructor|].
  inversion Hn as [|? ? Ha Hl]. subst. constructor.
  - intros Hin. apply in_map_iff in Hin as (y & Hy & Hin).
    assert (y = a) by (apply Hinj; [now right | now left | assumption]).
    subst y. contradiction.
  - apply IH; [|assumption]. intros x y Hx Hy. apply Hinj; now right.
Qed.

Lemma NoDup_bounded (l : list nat) (n : nat) :
  NoDup l -> (forall x, In x l -> (x < n)%nat) -> (length l <= n)%nat.
Proof.
  intros Hn Hb.
  assert (H : incl l (seq 0 n)).
  { intros x Hx. apply in_seq. specialize (Hb x Hx). lia. }
  pose proof (NoDup_incl_length Hn H) as L.
  now rewrite length_seq in L.
Qed.

Lemma stop_eqb_eq (x y : stop_item) : stop_eqb x y = true <-> x = y.
Proof.
  destruct x as [x|x], y as [y|y]; simpl; try (split; congruence).
  - rewrite node_eqb_eq. split; congruence.
  - rewrite String.eqb_eq. split; congruence.
Qed.

Lemma str_mem_In x l : str_mem x l = true <-> In x l.
Proof. apply (mem_In String.eqb String.eqb_eq). Qed.

Lemma str_mem_not_In x l : str_mem x l = false <-> ~ In x l.
Proof. apply (mem_false String.eqb String.eqb_eq). Qed.

Section MergeTraverse.

Variable st : RevisionMap.

Hypothesis Hwf : wf_map st.

Variables T E : list string.

Variable requested_lowers : list (option nat).

Hypothesis Hone : forall n o c1 c2,
  nth_error (objs st) n = Some o -> ~ In (revision o) E ->
  inT st T c1 -> inT st T c2 -> parent_of st c1 n -> parent_of st c2 n -> c1 = c2.

Hypothesis Hnodup : forall r o,
  nth_error (objs st) r = Some o -> NoDup (_down_revision_tuple o).

Lemma ref_of_id r o :
  nth_error (objs st) r = Some o -> ref_of st (revision o) = r.
Proof. intros H. unfold ref_of. now rewrite (wf_key Hwf _ H). Qed.

Lemma rev_id_at r o : nth_error (objs st) r = Some o -> rev_id st r = revision o.
Proof. intros H. unfold rev_id. now rewrite H. Qed.

(** The parents of an object, by id. *)
Lemma parent_by_id r o d :
  nth_error (objs st) r = Some o -> In d (_down_revision_tuple o) ->
  exists op, nth_error (objs st) (ref_of st d) = Some op /\ revision op = d
             /\ parent_of st r (ref_of st d)
             /\ dict_get (_revision_map st) (KStr d) = Some (Some (ref_of st d)).
Proof.
  intros Hn Hd. destruct (wf_down Hwf _ _ Hn Hd) as (p & op & Hp & Hr & _).
  assert (ref_of st d = p) by (rewrite <- Hr; now apply ref_of_id).
  subst p. exists op. repeat split; try assumption.
  - exists o, op. rewrite Hr. auto.
  - rewrite <- Hr at 1. now apply (wf_key Hwf).
Qed.

Lemma lookup_parents r o ds :
  nth_error (objs st) r = Some o -> incl ds (_down_revision_tuple o) ->
  lookup_all st ds = Ok (map Some (map (ref_of st) ds)).
Proof.
  intros Hn Hi. unfold lookup_all. rewrite map_map. apply mapM_ok.
  intros d Hd. destruct (@parent_by_id _ _ _ Hn (Hi _ Hd)) as (_ & _ & _ & _ & Hg).
  unfold dict_lookup. now rewrite Hg.
Qed.

Lemma parents_nodup r o ds :
  nth_error (objs st) r = Some o -> incl ds (_down_revision_tuple o) ->
  NoDup ds -> NoDup (map (ref_of st) ds).
Proof.
  intros Hn Hi Hd. apply NoDup_map_local; [|assumption].
  intros x y Hx Hy E0.
  destruct (@parent_by_id _ _ _ Hn (Hi _ Hx)) as (ox & Hox & Rx & _).
  destruct (@parent_by_id _ _ _ Hn (Hi _ Hy)) as (oy & Hoy & Ry & _).
  rewrite E0 in Hox. congruence.
Qed.

Lemma In_stop_after tl stop x :
  In x (stop_after st E tl stop) <->
  In x stop \/ exists r, In r tl /\ In (rev_id st r) E /\ x = SId (rev_id st r).
Proof.
  unfold stop_after. rewrite (In_set_update stop_eqb stop_eqb_eq).
  rewrite in_map_iff. split; (intros [H|H]; [now left | right]).
  - destruct H as (s & <- & Hs). apply filter_In in Hs as [Hs HE].
    apply in_map_iff in Hs as (r & <- & Hr). apply str_mem_In in HE.
    now exists r.
  - destruct H as (r & Hr & HE & ->). exists (rev_id st r).
    split; [reflexivity|]. apply filter_In.
    split; [now apply in_map | now apply str_mem_In].
Qed.

Lemma In_pushed_front stop1 r o p :
  nth_error (objs st) r = Some o ->
  In p (pushed_front st T E stop1 o) <->
  exists op, nth_error (objs st) p = Some op
    /\ In (revision op) (_down_revision_tuple o)
    /\ ~ In (revision op) E /\ ~ In (SId (revision op)) stop1
    /\ In (revision op) T.
Proof.
  intros Hn. unfold pushed_front. rewrite in_map_iff. split.
  - intros (d & <- & Hd). apply filter_In in Hd as [Hd Hf].
    apply in_rev in Hd.
    apply andb_true_iff in Hf as [Hf HT]. apply andb_true_iff in Hf as [HE Hs].
    apply negb_true_iff in HE, Hs.
    apply str_mem_not_In in HE. apply (mem_false stop_eqb stop_eqb_eq) in Hs.
    apply str_mem_In in HT.
    destruct (@parent_by_id _ _ _ Hn Hd) as (op & Hop & Hr & _).
    exists op. rewrite Hr. auto.
  - intros (op & Hop & Hd & HE & Hs & HT). exists (revision op).
    split; [now apply ref_of_id|]. apply filter_In.
    split; [now apply -> in_rev|].
    apply str_mem_not_In in HE. apply (mem_false stop_eqb stop_eqb_eq) in Hs.
    apply str_mem_In in HT. now rewrite HE, Hs, HT.
Qed.

Lemma In_pushed_back stop1 r o p :
  nth_error (objs st) r = Some o ->
  In p (pushed_back st T E stop1 o) <->
  exists op, nth_error (objs st) p = Some op
    /\ In (revision op) (_down_revision_tuple o)
    /\ In (revision op) E /\ ~ In (SId (revision op)) stop1
    /\ In (revision op) T.
Proof.
  intros Hn. unfold pushed_back. rewrite in_map_iff. split.
  - intros (d & <- & Hd). apply filter_In in Hd as [Hd Hf].
    apply andb_true_iff in Hf as [Hf HT]. apply andb_true_iff in Hf as [HE Hs].
    apply negb_true_iff in Hs.
    apply str_mem_In in HE. apply (mem_false stop_eqb stop_eqb_eq) in Hs.
    apply str_mem_In in HT.
    destruct (@parent_by_id _ _ _ Hn Hd) as (op & Hop & Hr & _).
    exists op. rewrite Hr. auto.
  - intros (op & Hop & Hd & HE & Hs & HT). exists (revision op).
    split; [now apply ref_of_id|]. apply filter_In.
    split; [assumption|].
    apply str_mem_In in HE. apply (mem_false stop_eqb stop_eqb_eq) in Hs.
    apply str_mem_In in HT. now rewrite HE, Hs, HT.
Qed.

Lemma pushed_front_nodup stop1 r o :
  nth_error (objs st) r = Some o -> NoDup (pushed_front st T E stop1 o).
Proof.
  intros Hn. unfold pushed_front.
  apply (@parents_nodup r o); [assumption | |].
  - intros d Hd. apply filter_In in Hd as [Hd _]. now apply in_rev in Hd.
  - apply NoDup_filter, NoDup_rev. eapply Hnodup; eassumption.
Qed.

Lemma pushed_back_nodup stop1 r o :
  nth_error (objs st) r = Some o -> NoDup (pushed_back st T E stop1 o).
Proof.
  intros Hn. unfold pushed_back.
  apply (@parents_nodup r o); [assumption | |].
  - intros d Hd. now apply filter_In in Hd as [Hd _].
  - apply NoDup_filter. eapply Hnodup; eassumption.
Qed.

Lemma inT_obj r o : nth_error (objs st) r = Some o -> inT st T r -> In (revision o) T.
Proof. intros H (o' & H' & HT). congruence. Qed.

(** One turn of the loop keeps the invariant. *)
Lemma inv_step rev tl stop done o :
  loop_inv st T E (rev :: tl) stop done -> nth_error (objs st) rev = Some o ->
  loop_inv st T E ((List.rev (pushed_front st T E (stop_after st E (rev :: tl) stop) o) ++ tl)
         ++ pushed_back st T E (stop_after st E (rev :: tl) stop) o)
      (stop_after st E (rev :: tl) stop) (rev :: done).
Proof.
  intros I Ho.
  set (stop1 := stop_after st E (rev :: tl) stop).
  set (F := pushed_front st T E stop1 o). set (B := pushed_back st T E stop1 o).
  assert (Hmem : forall r, In r ((List.rev F ++ tl) ++ B) <->
                           In r F \/ In r tl \/ In r B).
  { intros r. rewrite !in_app_iff, <- in_rev. tauto. }
  assert (Hrev : inT st T rev) by (apply (i_range I); left; now left).
  assert (Hrevdone : ~ In rev done) by (apply (i_apart I); now left).
  assert (HF : forall p, In p F ->
            exists op, nth_error (objs st) p = Some op
              /\ ~ In (revision op) E /\ In (revision op) T
              /\ parent_of st rev p
              /\ ~ In p (rev :: tl) /\ ~ In p done).
  { intros p Hp. apply (@In_pushed_front stop1 rev o p Ho) in Hp
      as (op & Hop & Hd & HE & Hs & HT).
    assert (Hpar : parent_of st rev p) by now exists o, op.
    exists op. repeat split; try assumption.
    - intros Hin. apply Hrevdone.
      apply (@i_single _ _ _ _ _ _ I p op rev); auto.
    - intros Hin. apply Hrevdone.
      apply (@i_single _ _ _ _ _ _ I p op rev); auto. }
  assert (HB : forall p, In p B ->
            exists op, nth_error (objs st) p = Some op
              /\ In (revision op) E /\ In (revision op) T
              /\ parent_of st rev p
              /\ ~ In p (rev :: tl) /\ ~ In p done).
  { intros p Hp. apply (@In_pushed_back stop1 rev o p Ho) in Hp
      as (op & Hop & Hd & HE & Hs & HT).
    assert (Hpar : parent_of st rev p) by now exists o, op.
    exists op. repeat split; try assumption.
    - intros Hin. apply Hs. apply In_stop_after. right.
      exists p. rewrite (@rev_id_at _ _ Hop). auto.
    - intros Hin. apply Hs. apply In_stop_after. left.
      apply (@i_stopped _ _ _ _ _ _ I p op); assumption. }
  assert (Hold : forall r, In r (rev :: tl) \/ In r done ->
            In r ((List.rev F ++ tl) ++ B) \/ In r (rev :: done)).
  { intros r [[<-|Hr]|Hr].
    - right. now left.
    - left. apply Hmem. auto.
    - right. now right. }
  assert (Hstop : forall s, In (SId s) stop1 ->
            In s E /\ exists r,
              (In r ((List.rev F ++ tl) ++ B) \/ In r (rev :: done))
              /\ rev_id st r = s).
  { intros s Hs. apply In_stop_after in Hs as [Hs|(r & Hr & HE & [= ->])].
    - destruct (i_stop I _ Hs) as (HE & r & Hr & Hid).
      split; [assumption|]. exists r. auto.
    - split; [assumption|]. exists r. auto. }
  pose proof (i_todo I) as Htodo.
  inversion Htodo as [|? ? Hrevtl Htl]. subst.
  constructor.
  - (* no object twice in the deque *)
    apply NoDup_app; [apply NoDup_app| |].
    + apply NoDup_rev. eapply pushed_front_nodup; eassumption.
    + assumption.
    + intros a Ha Hin. apply in_rev in Ha.
      destruct (HF _ Ha) as (_ & _ & _ & _ & _ & Hn & _).
      apply Hn. now right.
    + eapply pushed_back_nodup; eassumption.
    + intros a Ha Hin. destruct (HB _ Hin) as (op & Hop & HE & _ & _ & Hn & _).
      apply in_app_iff in Ha as [Ha|Ha].
      * apply in_rev in Ha. destruct (HF _ Ha) as (op' & Hop' & HE' & _).
        assert (op' = op) by congruence. subst op'. contradiction.
      * apply Hn. now right.
  - constructor; [assumption | apply (i_done I)].
  - intros r Hr [<-|Hd].
    + apply Hmem in Hr as [Hr|[Hr|Hr]].
      * destruct (HF _ Hr) as (_ & _ & _ & _ & _ & Hn & _). apply Hn. now left.
      * contradiction.
      * destruct (HB _ Hr) as (_ & _ & _ & _ & _ & Hn & _). apply Hn. now left.
    + apply Hmem in Hr as [Hr|[Hr|Hr]].
      * destruct (HF _ Hr) as (_ & _ & _ & _ & _ & _ & Hn). contradiction.
      * apply (@i_apart _ _ _ _ _ _ I r); [now right | assumption].
      * destruct (HB _ Hr) as (_ & _ & _ & _ & _ & _ & Hn). contradiction.
  - intros r [Hr|[<-|Hr]].
    + apply Hmem in Hr as [Hr|[Hr|Hr]].
      * destruct (HF _ Hr) as (op & Hop & _ & HT & _). now exists op.
      * apply (i_range I). left. now right.
      * destruct (HB _ Hr) as (op & Hop & _ & HT & _). now exists op.
    + assumption.
    + apply (i_range I). now right.
  - intros n on c Hn Hon HE Hc Hpar.
    assert (Hcase : In n F \/ In n B \/ (In n (rev :: tl) \/ In n done)).
    { destruct Hn as [Hn|[<-|Hn]].
      - apply Hmem in Hn as [?|[?|?]]; auto. right. right. left. now right.
      - right. right. left. now left.
      - auto. }
    destruct Hcase as [Hn'|[Hn'|Hn']].
    + left. symmetry.
      destruct (HF _ Hn') as (_ & _ & _ & _ & Hp & _).
      exact (@Hone _ _ _ _ Hon HE Hc Hrev Hpar Hp).
    + destruct (HB _ Hn') as (op & Hop & HE' & _).
      assert (op = on) by congruence. subst op. contradiction.
    + right. exact (@i_single _ _ _ _ _ _ I _ _ _ Hn' Hon HE Hc Hpar).
  - exact Hstop.
  - intros n on [<-|Hn] Hon HE.
    + apply In_stop_after. right. exists rev.
      rewrite (@rev_id_at _ _ Hon). repeat split; try assumption. now left.
    + apply In_stop_after. left. exact (@i_stopped _ _ _ _ _ _ I _ _ Hn Hon HE).
  - intros n Hn. destruct (i_next I Hn) as [Hin|(c & Hc & Hpar & Hcd)].
    { left. now apply Hold. }
    destruct (Nat.eq_dec c rev) as [->|Hneq].
    2:{ right. exists c. repeat split; try assumption.
        intros [?|?]; [congruence | contradiction]. }
    left. destruct Hpar as (oc & op & Hoc & Hop & Hd).
    assert (oc = o) by congruence. subst oc.
    pose proof (@inT_obj _ _ Hop Hn) as HT.
    destruct (mem stop_eqb (SId (revision op)) stop1) eqn:Es.
    + apply (mem_In stop_eqb stop_eqb_eq) in Es.
      destruct (Hstop _ Es) as (_ & r & Hr & Hid).
      assert (r = n); [|now subst r].
      assert (Hrt : inT st T r).
      { destruct Hr as [Hr|[<-|Hr]].
        - apply Hmem in Hr as [Hr|[Hr|Hr]].
          + destruct (HF _ Hr) as (x & Hx & _ & HTx & _). now exists x.
          + apply (i_range I). left. now right.
          + destruct (HB _ Hr) as (x & Hx & _ & HTx & _). now exists x.
        - assumption.
        - apply (i_range I). now right. }
      destruct Hrt as (or & Hor & _).
      rewrite (@rev_id_at _ _ Hor) in Hid.
      exact (@wf_id_inj st Hwf _ _ _ _ Hor Hop Hid).
    + apply (mem_false stop_eqb stop_eqb_eq) in Es.
      left. apply Hmem.
      destruct (in_dec string_dec (revision op) E) as [HE|HE].
      * right. right. apply (@In_pushed_back stop1 rev o n Ho). now exists op.
      * left. apply (@In_pushed_front stop1 rev o n Ho). now exists op.
Qed.

Lemma ids_of_todo tl :
  (forall r, In r tl -> inT st T r) ->
  mapM (fun r => attr (objs st) r revision) (map Some tl)
  = Ok (map (rev_id st) tl).
Proof.
  intros H. rewrite <- (map_map Some (fun n => match n with
                                               | Some r => rev_id st r
                                               | None => EmptyString
                                               end)).
  apply mapM_ok. intros n Hn. apply in_map_iff in Hn as (r & <- & Hr).
  destruct (H r Hr) as (o & Ho & _).
  unfold attr, deref, rev_id. now rewrite Ho.
Qed.

(** One turn of the loop. *)
Lemma traverse_turn inclusive fuel rev tl stop o :
  (forall r, In r (rev :: tl) -> inT st T r) ->
  nth_error (objs st) rev = Some o ->
  traverse st T E inclusive requested_lowers (S fuel) (map Some (rev :: tl))
    stop
  = (rest <- traverse st T E inclusive requested_lowers fuel
               (map Some
                  ((List.rev (pushed_front st T E (stop_after st E (rev :: tl) stop) o)
                      ++ tl)
                     ++ pushed_back st T E (stop_after st E (rev :: tl) stop) o))
               (stop_after st E (rev :: tl) stop) ;;
     if negb inclusive && node_mem (Some rev) requested_lowers then Ok rest
     else Ok (rev :: rest)).
Proof.
  intros Hv Ho.
  change (map Some (rev :: tl)) with (Some rev :: map Some tl).
  cbn [traverse].
  change (Some rev :: map Some tl) with (map Some (rev :: tl)).
  rewrite (@ids_of_todo _ Hv). cbn [bind].
  unfold attr at 1, deref. rewrite Ho. cbn [bind].
  fold (stop_after st E (rev :: tl) stop).
  rewrite (@lookup_parents rev o) by
    (assumption || (intros d Hd; apply filter_In in Hd as [Hd _];
                    now apply in_rev in Hd)).
  cbn [bind].
  rewrite (@lookup_parents rev o) by
    (assumption || (intros d Hd; now apply filter_In in Hd as [Hd _])).
  cbn [bind].
  fold (pushed_front st T E (stop_after st E (rev :: tl) stop) o).
  fold (pushed_back st T E (stop_after st E (rev :: tl) stop) o).
  rewrite <- map_rev, <- !map_app. reflexivity.
Qed.

(** The loop: every object of the deque is yielded, once, and so is
    every object that the loop comes to from there. *)
Lemma traverse_spec : forall fuel tl stop done,
  loop_inv st T E tl stop done -> (length (objs st) <= fuel + length done)%nat ->
  exists out,
    traverse st T E true requested_lowers fuel (map Some tl) stop = Ok out
    /\ NoDup out
    /\ (forall r, In r out -> ~ In r done)
    /\ (forall r, In r out -> inT st T r)
    /\ hd_error out = hd_error tl
    /\ (forall n, inT st T n ->
          In n done \/ In n out
          \/ exists c, inT st T c /\ parent_of st c n
                       /\ ~ In c done /\ ~ In c out).
Proof.
  induction fuel as [|fuel IH]; intros tl stop done I L.
  - destruct tl as [|rev tl].
    + exists []. split; [reflexivity|]. split; [constructor|].
      split; [intros r []|]. split; [intros r []|]. split; [reflexivity|].
      intros n Hn. destruct (i_next I Hn) as [[[]|?]|(c & ? & ? & ?)]; auto.
      right. right. exists c. auto.
    + exfalso.
      assert (length (rev :: done) <= length (objs st))%nat.
      { apply NoDup_bounded.
        - constructor; [apply (i_apart I); now left | apply (i_done I)].
        - intros x [<-|Hx].
          + destruct (@i_range _ _ _ _ _ _ I rev) as (o & Ho & _); [left; now left|].
            apply nth_error_Some. congruence.
          + destruct (@i_range _ _ _ _ _ _ I x) as (o & Ho & _); [now right|].
            apply nth_error_Some. congruence. }
      simpl in *. lia.
  - destruct tl as [|rev tl].
    + exists []. split; [reflexivity|]. split; [constructor|].
      split; [intros r []|]. split; [intros r []|]. split; [reflexivity|].
      intros n Hn. destruct (i_next I Hn) as [[[]|?]|(c & ? & ? & ?)]; auto.
      right. right. exists c. auto.
    + destruct (@i_range _ _ _ _ _ _ I rev) as (o & Ho & HoT); [left; now left|].
      pose proof (inv_step I Ho) as I'.
      destruct (IH _ _ _ I') as (rest & Hrest & Nd & Hap & Hin & _ & Hnext).
      { simpl. lia. }
      exists (rev :: rest).
      rewrite (@traverse_turn true fuel rev tl stop o);
        [| intros r Hr; apply (i_range I); now left | assumption].
      rewrite Hrest. cbn [bind negb andb].
      split; [reflexivity|].
      split; [constructor; [|assumption]|].
      { intros Hr. apply (Hap _ Hr). now left. }
      split.
      { intros r [<-|Hr].
        - apply (i_apart I). now left.
        - intros Hd. apply (Hap _ Hr). now right. }
      split.
      { intros r [<-|Hr]; [now exists o | now apply Hin]. }
      split; [reflexivity|].
      intros n Hn. destruct (Hnext n Hn) as [[<-|Hd]|[Hr|(c & Hc & Hp & Hcd & Hcr)]].
      * right. left. now left.
      * now left.
      * right. left. now right.
      * right. right. exists c. repeat split; try assumption.
        -- intros Hd. apply Hcd. now right.
        -- intros [<-|Hr]; [apply Hcd; now left | contradiction].
Qed.

End MergeTraverse.

(* ------------------------------------------------------------------ *)
(** ** Resolution of bare ids *)

Lemma get_revisions_bare fuel st s v :
  bare s -> dict_get (_revision_map st) (KStr s) = Some v ->
  get_revisions (S fuel) st (IStr s) = Ok [v].
Proof.
  intros (Hat & Hhs & Hh & Hb) Hg.
  cbn [get_revisions _resolve_revision_number]. rewrite Hat, Hhs, Hh, Hb.
  cbn [bind mapM _revision_for_ident given]. rewrite Hg. reflexivity.
Qed.

Lemma get_revisions_ids fuel st l :
  (forall s, In s l ->
     bare s
     /\ dict_get (_revision_map st) (KStr s) = Some (Some (ref_of st s))) ->
  get_revisions (S fuel) st (ids l) = Ok (map Some (map (ref_of st) l)).
Proof.
  unfold ids. induction l as [|s l IH]; intros H; [reflexivity|].
  destruct (H s (or_introl eq_refl)) as [Hb Hg].
  specialize (IH (fun s' Hs' => H s' (or_intror Hs'))).
  cbn [map get_revisions] in *.
  pose proof (get_revisions_bare fuel st Hb Hg) as Hs.
  cbn [get_revisions] in Hs. rewrite Hs. cbn [bind].
  rewrite IH. reflexivity.
Qed.

Lemma set_of_some (l : list nat) :
  set_of node_eqb (map Some l) = map Some (set_of Nat.eqb l).
Proof.
  unfold set_of, set_update.
  change (@nil (option nat)) with (map Some (@nil nat)).
  generalize (@nil nat). induction l as [|x l IH]; intros acc; [reflexivity|].
  simpl. rewrite <- IH. f_equal. unfold set_add.
  assert (mem node_eqb (Some x) (map Some acc) = mem Nat.eqb x acc) as ->.
  { unfold mem. clear. induction acc as [|a acc IHa]; [reflexivity|].
    simpl. now rewrite IHa. }
  destruct (mem Nat.eqb x acc); [reflexivity|]. now rewrite map_app.
Qed.

(* ------------------------------------------------------------------ *)
(** ** The range from one revision down to the bases *)

Lemma list_max_In (l : list nat) x : In x l -> (x <= list_max l)%nat.
Proof.
  intros H. pose proof (proj1 (list_max_le l (list_max l)) (Nat.le_refl _)) as F.
  rewrite Forall_forall in F. now apply F.
Qed.

Lemma reach_inv_last fn objs map_ a b :
  reach fn objs map_ a b ->
  a = b \/ exists c, reach fn objs map_ a c /\ edge fn objs map_ c b.
Proof.
  induction 1 as [r|p c r He _ IH]; [now left|]. right.
  destruct IH as [<-|(c' & Hc' & He')].
  - exists p. split; [apply reach_refl | assumption].
  - exists c'. split; [|assumption]. eapply reach_step; eassumption.
Qed.

Section MergeRange.

Variable st : RevisionMap.

Hypothesis Hwf : wf_map st.

Variable rank : string -> nat.

Hypothesis Hrank : forall r o d,
  nth_error (objs st) r = Some o -> In d (_down_revision_tuple o) ->
  (rank d < rank (revision o))%nat.

Hypothesis Hnodup : forall r o,
  nth_error (objs st) r = Some o -> NoDup (_down_revision_tuple o).

Hypothesis Hbases : forall r o,
  nth_error (objs st) r = Some o -> no_parent o = true -> bare (revision o).

Lemma rank_le_top r o :
  nth_error (objs st) r = Some o -> (rank (revision o) <= (top_rank st rank))%nat.
Proof.
  intros H. unfold top_rank. apply list_max_In.
  apply in_map_iff. exists o. split; [reflexivity|].
  eapply nth_error_In; eassumption.
Qed.

Lemma parent_rank c p :
  parent_of st c p -> (rank (rev_id st p) < rank (rev_id st c))%nat.
Proof.
  intros (oc & op & Hc & Hp & Hd).
  unfold rev_id. rewrite Hc, Hp. eapply Hrank; eassumption.
Qed.

Lemma parent_valid c p :
  parent_of st c p -> (p < length (objs st))%nat /\ (c < length (objs st))%nat.
Proof.
  intros (oc & op & Hc & Hp & Hd).
  split; apply nth_error_Some; congruence.
Qed.

Lemma ancestor_rank a b :
  ancestor st a b ->
  a = b \/ (rank (rev_id st b) < rank (rev_id st a))%nat.
Proof.
  induction 1 as [r|p c r He _ IH]; [now left|].
  right. apply (edge_down_parent Hwf) in He. apply parent_rank in He.
  destruct IH as [<-|IH]; lia.
Qed.

Lemma ancestor_valid a b :
  ancestor st a b -> (a < length (objs st))%nat -> (b < length (objs st))%nat.
Proof.
  induction 1 as [r|p c r He _ IH]; [auto|].
  intros _. apply IH. apply (edge_down_parent Hwf) in He.
  now apply parent_valid in He.
Qed.

Lemma step_down r o y :
  nth_error (objs st) r = Some o -> In y (_down_revision_tuple o) ->
  exists c, dict_get (_revision_map st) (KStr y) = Some (Some c)
            /\ (c < length (objs st))%nat /\ ((h_down st rank) c < (h_down st rank) r)%nat.
Proof.
  intros Hn Hy.
  destruct (@parent_by_id st Hwf _ _ _ Hn Hy) as (op & Hop & Hr & Hp & Hg).
  exists (ref_of st y). split; [assumption|].
  split; [apply nth_error_Some; congruence|].
  now apply parent_rank.
Qed.

Lemma step_up r o y :
  nth_error (objs st) r = Some o -> In y (nextrev o) ->
  exists c, dict_get (_revision_map st) (KStr y) = Some (Some c)
            /\ (c < length (objs st))%nat /\ ((h_up st rank) c < (h_up st rank) r)%nat.
Proof.
  intros Hn Hy.
  destruct (wf_next Hwf _ _ Hn Hy) as (c & oc & Hc & Hr & Hd).
  exists c. split; [rewrite <- Hr; now apply (wf_key Hwf)|].
  split; [apply nth_error_Some; congruence|].
  assert (Hp : parent_of st c r) by now exists oc, o.
  apply parent_rank in Hp. unfold h_up.
  pose proof (rank_le_top _ Hc) as L. unfold rev_id in *.
  rewrite Hc, Hn in *. lia.
Qed.

Lemma width_down r o :
  nth_error (objs st) r = Some o ->
  (length (_down_revision_tuple o) <= (width st))%nat.
Proof.
  intros H. unfold width.
  assert (In (length (nextrev o) + length (_down_revision_tuple o))%nat
            (map (fun o => length (nextrev o) + length (_down_revision_tuple o))%nat
               (objs st))).
  { apply in_map_iff. exists o. split; [reflexivity|].
    eapply nth_error_In; eassumption. }
  apply list_max_In in H0. lia.
Qed.

Lemma width_up r o :
  nth_error (objs st) r = Some o -> (length (nextrev o) <= (width st))%nat.
Proof.
  intros H. unfold width.
  assert (In (length (nextrev o) + length (_down_revision_tuple o))%nat
            (map (fun o => length (nextrev o) + length (_down_revision_tuple o))%nat
               (objs st))).
  { apply in_map_iff. exists o. split; [reflexivity|].
    eapply nth_error_In; eassumption. }
  apply list_max_In in H0. lia.
Qed.

(** Every object descends from one without parents. *)
Lemma has_base : forall k r o,
  (rank (revision o) < k)%nat -> nth_error (objs st) r = Some o ->
  exists b ob, nth_error (objs st) b = Some ob /\ no_parent ob = true
               /\ descendant st b r.
Proof.
  induction k as [|k IH]; intros r o Hk Hn; [lia|].
  destruct (_down_revision_tuple o) as [|d ds] eqn:Ed.
  - exists r, o. split; [assumption|].
    split; [unfold no_parent; now rewrite Ed | apply reach_refl].
  - assert (Hd : In d (_down_revision_tuple o)) by (rewrite Ed; now left).
    destruct (@parent_by_id st Hwf _ _ _ Hn Hd) as (op & Hop & Hr & Hp & _).
    pose proof (Hrank _ _ Hn Hd) as Hlt.
    destruct (IH (ref_of st d) op) as (b & ob & Hb & Hnp & Hdesc);
      [rewrite Hr; lia | assumption |].
    exists b, ob. split; [assumption|]. split; [assumption|].
    eapply reach_trans; [exact Hdesc|].
    eapply reach_step; [|apply reach_refl].
    now apply (edge_next_parent Hwf).
Qed.

Lemma parent_child_id c p oc op :
  nth_error (objs st) c = Some oc -> nth_error (objs st) p = Some op ->
  In (revision op) (_down_revision_tuple oc) -> In (revision oc) (nextrev op).
Proof.
  intros Hc Hp Hd.
  destruct (wf_down Hwf _ _ Hc Hd) as (p' & op' & Hp' & E & Hn).
  assert (p' = p) by (eapply (wf_id_inj Hwf); eassumption). subst p'.
  congruence.
Qed.

(** The branch points that [range_branch_endpoints] leaves out have at
    most one child in [total_space]. *)
Lemma range_branch_endpoints_spec total_space :
  (forall s, In s total_space ->
     exists r o, nth_error (objs st) r = Some o /\ revision o = s) ->
  exists branch_endpoints,
    range_branch_endpoints st total_space = Ok branch_endpoints
    /\ forall r o,
         nth_error (objs st) r = Some o -> In (revision o) total_space ->
         ~ In (revision o) branch_endpoints ->
         is_branch_point o = false
         \/ (1 <? length (set_inter String.eqb total_space (nextrev o)))%nat
            = false.
Proof.
  intros HT.
  set (q := fun n : option nat =>
              match n with
              | Some r =>
                  match nth_error (objs st) r with
                  | Some o =>
                      if is_branch_point o
                      then (1 <? length (set_inter String.eqb total_space
                                           (nextrev o)))%nat
                      else false
                  | None => false
                  end
              | None => false
              end).
  set (name := fun n : option nat =>
                 match n with Some r => rev_id st r | None => EmptyString end).
  set (revs := map (fun s => Some (ref_of st s)) total_space).
  assert (Hvalid : forall n, In n revs ->
            exists r o, n = Some r /\ nth_error (objs st) r = Some o
                        /\ In (revision o) total_space).
  { intros n Hn. apply in_map_iff in Hn as (s & <- & Hs).
    destruct (HT s Hs) as (r & o & Ho & <-).
    exists r, o. now rewrite (ref_of_id Hwf _ Ho). }
  exists (str_set_of (map name (filter q revs))).
  split.
  - unfold range_branch_endpoints.
    rewrite (mapM_ok _ (fun s => Some (ref_of st s))).
    2:{ intros s Hs. destruct (HT s Hs) as (r & o & Ho & <-).
        unfold dict_lookup. rewrite (wf_key Hwf _ Ho).
        now rewrite (ref_of_id Hwf _ Ho). }
    cbn [bind]. fold revs.
    rewrite (filterM_ok _ q).
    2:{ intros n Hn. destruct (Hvalid n Hn) as (r & o & -> & Ho & _).
        unfold attr, deref. simpl. rewrite Ho. simpl.
        destruct (is_branch_point o); reflexivity. }
    cbn [bind].
    rewrite (mapM_ok _ name).
    2:{ intros n Hn. apply filter_In in Hn as [Hn _].
        destruct (Hvalid n Hn) as (r & o & -> & Ho & _).
        unfold attr, deref, name, rev_id. now rewrite Ho. }
    reflexivity.
  - intros r o Ho HT' HE.
    destruct (is_branch_point o) eqn:Eb; [|now left]. right.
    destruct (1 <? length (set_inter String.eqb total_space (nextrev o)))%nat
      eqn:El; [|reflexivity].
    exfalso. apply HE. unfold str_set_of.
    apply (In_set_of String.eqb String.eqb_eq). apply in_map_iff.
    exists (Some r). split; [unfold name, rev_id; now rewrite Ho|].
    apply filter_In. split.
    + unfold revs. apply in_map_iff. exists (revision o).
      split; [now rewrite (ref_of_id Hwf _ Ho) | assumption].
    + unfold q. now rewrite Ho, Eb.
Qed.

Variables (top : nat) (M : Revision).

Hypothesis Htop : nth_error (objs st) top = Some M.

Hypothesis Hbare : bare (revision M).

Lemma In_base_refs b :
  In b (base_refs st) <->
  exists ob, nth_error (objs st) b = Some ob /\ no_parent ob = true.
Proof.
  unfold base_refs. rewrite (In_set_of Nat.eqb Nat.eqb_eq).
  rewrite (wf_bases Hwf), map_map, in_map_iff. split.
  - intros (o & <- & Ho). apply filter_In in Ho as [Ho Hnp].
    apply In_nth_error in Ho as (r & Hr).
    exists o. now rewrite (ref_of_id Hwf _ Hr).
  - intros (ob & Hb & Hnp). exists ob.
    split; [now apply (ref_of_id Hwf)|].
    apply filter_In. split; [eapply nth_error_In; eassumption | assumption].
Qed.

Lemma base_lowers_resolve fuel :
  get_revisions (S fuel) st (ids (bases st))
  = Ok (map Some (map (ref_of st) (bases st))).
Proof.
  apply get_revisions_ids. intros s Hs.
  rewrite (wf_bases Hwf) in Hs. apply in_map_iff in Hs as (o & <- & Ho).
  apply filter_In in Ho as [Ho Hnp]. apply In_nth_error in Ho as (r & Hr).
  split; [eapply Hbases; eassumption|].
  rewrite (ref_of_id Hwf _ Hr). now apply (wf_key Hwf).
Qed.

(** An object without parents is reached from no other object. *)
Lemma base_apart t t' :
  In t (base_refs st) -> In t' (base_refs st) -> descendant st t t' -> t = t'.
Proof.
  intros _ Ht' Hd. apply reach_last in Hd as [?|(p & He)]; [assumption|].
  apply (edge_next_parent Hwf) in He. destruct He as (oc & op & Hc & _ & Hd).
  apply In_base_refs in Ht' as (ob & Hb & Hnp).
  assert (oc = ob) by congruence. subst oc.
  unfold no_parent in Hnp.
  destruct (_down_revision_tuple ob); [destruct Hd | discriminate].
Qed.

(** The range from [top] down to the bases: the ancestors of [top], each
    once, [top] first. *)
Lemma merge_range_run fuel :
  (S (width st) ^ (top_rank st rank) + length (objs st) + 2 <= fuel)%nat ->
  exists out,
    _iterate_revisions fuel st (IStr (revision M)) (IStr "base") true false
    = Ok out
    /\ NoDup out /\ hd_error out = Some top
    /\ forall r, In r out <-> ancestor st top r.
Proof.
  intros Hfuel.
  destruct fuel as [|fuel']; [lia|].
  assert (Ltop : (top < length (objs st))%nat)
    by (apply nth_error_Some; congruence).
  assert (Hpow : forall k, (k <= (top_rank st rank))%nat -> (S (width st) ^ k < S fuel')%nat).
  { intros k Hk.
    assert (S (width st) ^ k <= S (width st) ^ (top_rank st rank))%nat
      by (apply Nat.pow_le_mono_r; lia).
    lia. }
  (* the two bounds *)
  unfold _iterate_revisions.
  replace (get_revisions (S fuel') st (IStr "base")) with (@Ok (list (option nat)) [])
    by reflexivity.
  cbn [bind].
  rewrite (@get_revisions_bare fuel' st (revision M) (Some top) Hbare
             (wf_key Hwf _ Htop)).
  cbn [bind].
  (* the ancestors of the upper bound *)
  destruct (@walk_closure _down_revision_tuple (objs st) (_revision_map st)
              (h_down st rank) (width st) step_down width_down (S fuel') [top] true)
    as (ua & Hua & Hanc).
  { intros t [<-|[]]. split; [assumption|]. apply Hpow.
    unfold h_down, rev_id. rewrite Htop. eapply rank_le_top; eassumption. }
  { intros t t' [<-|[]] [<-|[]] _. reflexivity. }
  assert (Hanc' : forall r, In r ua <-> ancestor st top r).
  { intros r. rewrite Hanc. split.
    - intros (t & [<-|[]] & Hr). exact Hr.
    - intros Hr. exists top. split; [now left | exact Hr]. }
  clear Hanc. unfold _get_ancestor_nodes. cbn [map] in Hua. rewrite Hua.
  cbn [bind].
  (* the lower boundary: the bases *)
  unfold range_lowers.
  replace (endswith "base" "@base") with false by reflexivity.
  cbn [andb].
  rewrite base_lowers_resolve. cbn [bind].
  rewrite set_of_some. fold (base_refs st).
  pose proof (_iterate_related_revisions_in_store _ _ _ _ _ _ Hua) as Sua.
  rewrite (revisions_of_in_store st (ref_set_of_in_store Sua)).
  cbn [bind].
  (* the descendants of the bases *)
  destruct (@walk_closure nextrev (objs st) (_revision_map st)
              (h_up st rank) (width st) step_up width_up (S fuel') (base_refs st) true)
    as (ld & Hld & Hdesc).
  { intros t Ht. apply In_base_refs in Ht as (ob & Hb & _).
    split; [apply nth_error_Some; congruence|].
    apply Hpow. unfold h_up. lia. }
  { exact base_apart. }
  unfold _get_descendant_nodes. rewrite Hld. cbn [bind].
  pose proof (_iterate_related_revisions_in_store _ _ _ _ _ _ Hld) as Sld.
  rewrite (revisions_of_in_store st Sld). cbn [bind].
  set (T := set_inter String.eqb
              (str_set_of (map (rev_id st) (ref_set_of ua)))
              (map (rev_id st) ld)).
  assert (HT : forall s, In s T <->
            exists r o, nth_error (objs st) r = Some o /\ revision o = s
                        /\ ancestor st top r).
  { intros s. unfold T. rewrite (In_set_inter String.eqb String.eqb_eq).
    unfold str_set_of. rewrite (In_set_of String.eqb String.eqb_eq).
    rewrite !in_map_iff. split.
    - intros [(r & Hr & Hin) _].
      unfold ref_set_of in Hin.
      apply (proj1 (In_set_of Nat.eqb Nat.eqb_eq _ _)) in Hin.
      apply (proj1 (Hanc' _)) in Hin.
      pose proof (ancestor_valid Hin Ltop) as Lr.
      destruct (nth_error (objs st) r) as [o|] eqn:Eo;
        [|apply nth_error_None in Eo; lia].
      exists r, o. unfold rev_id in Hr. rewrite Eo in Hr. auto.
    - intros (r & o & Ho & Hr & Ha). split.
      + exists r. split; [unfold rev_id; now rewrite Ho|].
        unfold ref_set_of.
        apply (proj2 (In_set_of Nat.eqb Nat.eqb_eq _ _)). now apply Hanc'.
      + exists r. split; [unfold rev_id; now rewrite Ho|].
        apply Hdesc.
        destruct (@has_base (S (rank (revision o))) r o) as (b & ob & Hb & Hnp & Hd);
          [lia | assumption |].
        exists b. split; [|exact Hd]. apply In_base_refs. now exists ob. }
  assert (HinT : forall r, inT st T r <-> ancestor st top r).
  { intros r. split.
    - intros (o & Ho & Hs). apply HT in Hs as (r' & o' & Ho' & E & Ha).
      assert (r' = r) by (eapply (wf_id_inj Hwf); eassumption). now subst r'.
    - intros Ha. pose proof (ancestor_valid Ha Ltop) as Lr.
      destruct (nth_error (objs st) r) as [o|] eqn:Eo;
        [|apply nth_error_None in Eo; lia].
      exists o. split; [exact Eo|]. apply HT. now exists r, o. }
  assert (HtopT : In (revision M) T).
  { apply HT. exists top, M. repeat split; [assumption | apply reach_refl]. }
  destruct T as [|s0 T0] eqn:ET; [destruct HtopT|]. rewrite <- ET in *.
  (* the branch points to come back to *)
  destruct (@range_branch_endpoints_spec T) as (E & HE & Hsingle).
  { intros s Hs. apply HT in Hs as (r & o & Ho & Hr & _). now exists r, o. }
  rewrite HE. cbn [bind filterM].
  unfold attr at 1, deref. rewrite Htop. cbn [bind].
  apply str_mem_In in HtopT as HtopT'. rewrite HtopT'. cbn [bind].
  (* the loop *)
  set (stop := set_of stop_eqb (map SNode (map Some (base_refs st)))).
  assert (Hacyc : forall c, inT st T c -> ~ parent_of st c top).
  { intros c Hc Hp. apply HinT in Hc. apply parent_rank in Hp.
    apply ancestor_rank in Hc as [<-|Hc]; lia. }
  assert (I : loop_inv st T E [top] stop []).
  { constructor.
    - repeat constructor. intros [].
    - constructor.
    - intros r _ [].
    - intros r [[<-|[]]|[]]. apply HinT. apply reach_refl.
    - intros n o c [[<-|[]]|[]] _ _ Hc Hp. destruct (Hacyc c Hc Hp).
    - intros s Hs. exfalso. unfold stop in Hs.
      apply (proj1 (In_set_of stop_eqb stop_eqb_eq _ _)) in Hs.
      apply (proj1 (in_map_iff _ _ _)) in Hs as (x & Hx & _). discriminate.
    - intros n o [].
    - intros n Hn. apply HinT in Hn.
      apply reach_inv_last in Hn as [<-|(c & Hc & He)].
      + left. left. now left.
      + right. exists c. split; [now apply HinT|].
        split; [now apply (edge_down_parent Hwf) | intros []]. }
  destruct (@traverse_spec st Hwf T E [] ) with (fuel := S fuel') (tl := [top])
    (stop := stop) (done := @nil nat)
    as (out & Hout & Nd & _ & Hin & Hhd & Hnext); try assumption.
  { (* at most one child in the range, away from the branch points *)
    intros n o c1 c2 Ho HnE (o1 & Ho1 & HT1) (o2 & Ho2 & HT2) Hp1 Hp2.
    assert (Hn1 : In (revision o1) (nextrev o)).
    { destruct Hp1 as (x & y & Hx & Hy & Hd).
      assert (x = o1) by congruence. assert (y = o) by congruence. subst.
      eapply parent_child_id; eassumption. }
    assert (Hn2 : In (revision o2) (nextrev o)).
    { destruct Hp2 as (x & y & Hx & Hy & Hd).
      assert (x = o2) by congruence. assert (y = o) by congruence. subst.
      eapply parent_child_id; eassumption. }
    assert (HoT : In (revision o) T).
    { assert (Hn : inT st T n).
      { apply HinT. assert (H1 : inT st T c1) by now exists o1.
        apply (proj1 (HinT _)) in H1. eapply reach_trans; [exact H1|].
        eapply reach_step; [|apply reach_refl].
        now apply (edge_down_parent Hwf). }
      destruct Hn as (o' & Ho' & HT'). congruence. }
    assert (revision o1 = revision o2).
    { destruct (Hsingle _ _ Ho HoT HnE) as [Hb|Hl].
      - apply (short_list_eq (nextrev o)); assumption.
      - apply (short_list_eq (set_inter String.eqb T (nextrev o)));
          [assumption| |];
          apply (In_set_inter String.eqb String.eqb_eq); auto. }
    eapply (wf_id_inj Hwf); eassumption. }
  { simpl. lia. }
  exists out. split; [exact Hout|]. split; [assumption|].
  split; [assumption|].
  intros r. split; [intros Hr; apply HinT; now apply Hin|].
  intros Ha. apply HinT in Ha.
  (* every object of the range has been yielded *)
  assert (Hall : forall k n, inT st T n ->
            (rank (revision M) - rank (rev_id st n) < k)%nat -> In n out).
  { induction k as [|k IH]; intros n Hn Hk; [lia|].
    destruct (Hnext n Hn) as [[]|[?|(c & Hc & Hp & _ & Hc')]]; [assumption|].
    exfalso. apply Hc'. apply IH; [assumption|].
    apply parent_rank in Hp.
    apply (proj1 (HinT _)) in Hc. apply ancestor_rank in Hc.
    assert (Hrt : rev_id st top = revision M)
      by (unfold rev_id; now rewrite Htop).
    destruct Hc as [<-|Hc]; rewrite Hrt in *; lia. }
  eapply Hall; [eassumption | apply Nat.lt_succ_diag_r].
Qed.

End MergeRange.

Lemma graph_obj generator st r o :
  graph_of generator st -> nth_error (objs st) r = Some o ->
  exists g, nth_error generator r = Some g
            /\ revision o = revision g
            /\ _down_revision_tuple o = _down_revision_tuple g.
Proof.
  intros G Hn. destruct (nth_error generator r) as [g|] eqn:E.
  - destruct (g_node G _ E) as (o' & Hn' & R1 & R2 & _).
    assert (o' = o) by congruence. subst o'. exists g.
    unfold _down_revision_tuple. now rewrite R2.
  - apply nth_error_None in E. rewrite <- (g_length G) in E.
    apply nth_error_None in E. congruence.
Qed.

(** C4, as the code has it.  In a map built from revisions with pairwise
    different ids and without cycles, where the ids of M and of the
    bases are bare, for a merge point M with the parents x and y: with
    enough fuel, the inclusive range from M down to the base yields M
    first, then, each exactly once, the ancestors of M: x and y and all
    their ancestors are among them, and M is not yielded again. *)
Theorem merge_range generator fuelb w st (rank : string -> nat) rm M x y :
  Forall constructed generator ->
  NoDup (map revision generator) ->
  RevisionMap_build fuelb generator = (w, Ok st) ->
  (forall c d, In c generator -> In d (_down_revision_tuple c) ->
               (rank d < rank (revision c))%nat) ->
  (forall c, In c generator -> NoDup (_down_revision_tuple c)) ->
  (forall c, In c generator -> _down_revision_tuple c = [] ->
             bare (revision c)) ->
  nth_error generator rm = Some M ->
  bare (revision M) -> relative_of (IStr (revision M)) = None ->
  _down_revision_tuple M = [x; y] ->
  exists fuel0, forall fuel, (fuel0 <= fuel)%nat ->
    exists rest,
      iterate_revisions fuel st (IStr (revision M)) (IStr "base") false true
      = Ok (rm :: rest)
      /\ rev_id st rm = revision M
      /\ NoDup (rm :: rest)
      /\ (forall r, In r (rm :: rest) <-> ancestor st rm r)
      /\ (forall p, In p [x; y] ->
            rev_id st (ref_of st p) = p
            /\ parent_of st rm (ref_of st p)
            /\ forall r, ancestor st (ref_of st p) r -> In r rest).
Proof.
  intros Hcons Hnd Hbuild Hrank Hdn Hbare HM HbM HrM HdM.
  destruct (@build_graph _ Hcons Hnd _ _ _ Hbuild) as [_ G].
  pose proof (graph_wf Hnd G) as Hwf.
  destruct (g_node G _ HM) as (M' & HM' & RM & DM & _).
  assert (DM' : _down_revision_tuple M' = [x; y])
    by (unfold _down_revision_tuple in *; now rewrite DM).
  assert (Hrank' : forall r o d,
            nth_error (objs st) r = Some o -> In d (_down_revision_tuple o) ->
            (rank d < rank (revision o))%nat).
  { intros r o d Ho Hd. destruct (graph_obj _ G Ho) as (g & Hg & -> & E).
    rewrite E in Hd. apply Hrank; [eapply nth_error_In; eassumption | exact Hd]. }
  assert (Hdn' : forall r o,
            nth_error (objs st) r = Some o -> NoDup (_down_revision_tuple o)).
  { intros r o Ho. destruct (graph_obj _ G Ho) as (g & Hg & _ & ->).
    apply Hdn. eapply nth_error_In; eassumption. }
  assert (Hbare' : forall r o,
            nth_error (objs st) r = Some o -> no_parent o = true ->
            bare (revision o)).
  { intros r o Ho Hnp. destruct (graph_obj _ G Ho) as (g & Hg & -> & E).
    apply Hbare; [eapply nth_error_In; eassumption|].
    rewrite <- E. unfold no_parent in Hnp.
    destruct (_down_revision_tuple o); [reflexivity | discriminate]. }
  rewrite <- RM in HbM.
  exists (S (width st) ^ top_rank st rank + length (objs st) + 2)%nat.
  intros fuel Hfuel.
  destruct (@merge_range_run st Hwf rank Hrank' Hdn' Hbare' rm M' HM' HbM
              fuel Hfuel) as (out & Hout & Nd & Hhd & Hall).
  destruct out as [|r0 rest]; [discriminate|]. injection Hhd as ->.
  exists rest. rewrite iterate_revisions_plain by (assumption || reflexivity).
  rewrite <- RM. split; [exact Hout|].
  split; [unfold rev_id; now rewrite HM'|].
  split; [assumption|]. split; [assumption|].
  intros p Hp. rewrite <- DM' in Hp.
  destruct (@parent_by_id st Hwf rm M' p HM' Hp) as (op & Hop & Rp & Hpar & _).
  split; [unfold rev_id; now rewrite Hop|]. split; [assumption|].
  intros r Hr.
  assert (Ha : ancestor st rm r).
  { eapply reach_step; [|exact Hr]. now apply (edge_down_parent Hwf). }
  apply Hall in Ha as [<-|Ha]; [|assumption]. exfalso.
  apply (parent_rank rank Hrank') in Hpar.
  apply (ancestor_rank Hwf rank Hrank') in Hr as [E|Hr]; [rewrite E in Hpar|]; lia.
Qed.

Lemma merge_range_witness :
  exists fuel0, forall fuel, (fuel0 <= fuel)%nat ->
    exists rest,
      iterate_revisions fuel (built 0 Examples.diamond) (IStr "M")
        (IStr "base") false true
      = Ok (3%nat :: rest)
      /\ rev_id (built 0 Examples.diamond) 3 = "M"
      /\ NoDup (3%nat :: rest)
      /\ (forall r, In r (3%nat :: rest) <->
                    ancestor (built 0 Examples.diamond) 3 r)
      /\ (forall p, In p ["X"; "Y"] ->
            rev_id (built 0 Examples.diamond)
              (ref_of (built 0 Examples.diamond) p) = p
            /\ parent_of (built 0 Examples.diamond) 3
                 (ref_of (built 0 Examples.diamond) p)
            /\ forall r,
                 ancestor (built 0 Examples.diamond)
                   (ref_of (built 0 Examples.diamond) p) r ->
                 In r rest).
Proof.
  assert (Hc : Forall constructed Examples.diamond).
  { repeat constructor; eexists; eexists; eexists; reflexivity. }
  assert (Hn : NoDup (map revision Examples.diamond)).
  { simpl. repeat constructor; simpl; intuition discriminate. }
  apply (@merge_range Examples.diamond 0 [] (built 0 Examples.diamond)
           (fun s => if String.eqb s "A" then 0
                     else if String.eqb s "M" then 2 else 1)%nat
           3 (Revision_init "M" (PTuple ["X"; "Y"]) PNone) "X" "Y" Hc Hn
           eq_refl).
  - intros c d [<-|[<-|[<-|[<-|[]]]]]; simpl;
      intros H; repeat (destruct H as [<-|H]; [simpl; lia|]); destruct H.
  - intros c [<-|[<-|[<-|[<-|[]]]]]; simpl;
      repeat constructor; simpl; intuition discriminate.
  - intros c [<-|[<-|[<-|[<-|[]]]]]; simpl; intros H;
      try discriminate; repeat split.
  - reflexivity.
  - repeat split.
  - reflexivity.
  - reflexivity.
Defined.

(* ================================================================== *)
(** * The label of a child on the base *)

Lemma spath_ext objs objs' map_ p q :
  store_ext objs objs' -> spath objs map_ p q -> spath objs' map_ p q.
Proof.
  intros S. induction 1 as [p|p op p' q Hp Hs Ht Hg _ IH]; [constructor|].
  destruct (proj2 S _ _ Hp) as (op' & Hp' & Hsame).
  apply spath_step with (op := op') (p' := p'); try assumption.
  - now rewrite (same_but_labels_straight Hsame).
  - destruct Hsame as (_ & -> & _). assumption.
  - destruct Hsame as (_ & -> & _). assumption.
Qed.

Lemma spath_back objs objs' map_ p q :
  store_ext objs objs' -> spath objs' map_ p q -> spath objs map_ p q.
Proof.
  intros S. induction 1 as [p|p op' p' q Hp' Hs Ht Hg _ IH]; [constructor|].
  destruct (store_ext_back _ S Hp') as (op & Hp & Hsame).
  apply spath_step with (op := op) (p' := p'); try assumption.
  - now rewrite <- (same_but_labels_straight Hsame).
  - destruct Hsame as (_ & <- & _). assumption.
  - destruct Hsame as (_ & <- & _). assumption.
Qed.

(** The backward walk labels the straight objects on its way. *)
Lemma label_ancestors_reaches map1 map' rev l :
  (forall k v, dict_get map1 k = Some v -> dict_get map' k = Some v) ->
  forall fuel objs p objs' q oq rv,
  label_ancestors fuel map1 rev objs (Some p) = Ok objs' ->
  spath objs map' p q ->
  nth_error objs q = Some oq -> straight oq = true ->
  nth_error objs rev = Some rv -> In l (branch_labels rv) ->
  exists oq', nth_error objs' q = Some oq' /\ In l (branch_labels oq').
Proof.
  intros D. induction fuel as [|fuel IH];
    intros objs p objs' q oq rv H Hpath Hq Hsq Hrv Hl; simpl in H.
  - bind_inv H. apply deref_ok in E.
    assert (Hsx : straight x = true).
    { inversion Hpath; subst; congruence. }
    unfold straight in Hsx. apply negb_true_iff in Hsx. rewrite Hsx in H.
    discriminate.
  - bind_inv H. apply deref_ok in E.
    assert (Hsx : straight x = true).
    { inversion Hpath; subst; congruence. }
    unfold straight in Hsx. apply negb_true_iff in Hsx. rewrite Hsx in H.
    bind_inv H. apply deref_ok in E0.
    assert (x0 = rv) by congruence. subst x0.
    set (objs1 := set_obj objs p (update_branch_labels x (branch_labels rv))) in *.
    assert (S1 : store_ext objs objs1) by now apply store_ext_set.
    assert (Hp1 : nth_error objs1 p = Some (update_branch_labels x (branch_labels rv))).
    { apply nth_set_obj_same. apply nth_error_Some. congruence. }
    assert (Hlp : In l (branch_labels (update_branch_labels x (branch_labels rv)))).
    { simpl. unfold str_set_update.
      apply (proj2 (In_set_update String.eqb String.eqb_eq _ _ _)). now right. }
    inversion Hpath as [p0|p0 op p' q0 Hop Hs Ht Hg Hrest]; subst.
    + (* the walk is at [q] *)
      assert (S2 : store_ext objs1 objs').
      { destruct (pyval_truthy (down_revision x)).
        - bind_inv H. eapply label_ancestors_ext; eassumption.
        - injection H as <-. apply store_ext_refl. }
      destruct (proj2 S2 _ _ Hp1) as (oq' & Hq' & (_ & _ & _ & _ & I)).
      exists oq'. split; [assumption | now apply I].
    + assert (op = x) by congruence. subst op. rewrite Ht in H.
      bind_inv H. unfold dict_lookup in E1.
      destruct (dict_get map1 (key_of_pyval (down_revision x))) as [v|] eqn:Ev;
        [|discriminate].
      injection E1 as ->. apply D in Ev. rewrite Hg in Ev. injection Ev as <-.
      destruct (proj2 S1 _ _ Hq) as (oq1 & Hq1 & Hsame).
      destruct (proj2 S1 _ _ Hrv) as (rv1 & Hrv1 & (_ & _ & _ & _ & I1)).
      eapply (IH objs1 p' objs' q oq1 rv1); try eassumption.
      * eapply spath_ext; eassumption.
      * now rewrite (same_but_labels_straight Hsame).
      * now apply I1.
Qed.

Lemma reach_right_ind fn objs map_ a (P : nat -> Prop) :
  P a ->
  (forall c d, reach fn objs map_ a c -> P c -> edge fn objs map_ c d -> P d) ->
  forall b, reach fn objs map_ a b -> P b.
Proof.
  intros Ha Hstep b Hab.
  assert (G : forall c r, reach fn objs map_ c r ->
            reach fn objs map_ a c -> P c -> P r).
  { induction 1 as [r|p c r He _ IH]; intros Hac Hc; [assumption|].
    apply IH.
    - eapply reach_trans; [exact Hac|].
      eapply reach_step; [exact He | apply reach_refl].
    - eapply Hstep; eassumption. }
  eapply G; [exact Hab | apply reach_refl | exact Ha].
Qed.

(** One call of [_add_branches] among those of the third loop. *)
Lemma add_all_branches_call fuel labeled : forall objs map_ objs' map' r,
  add_all_branches fuel labeled objs map_ = Ok (objs', map') ->
  In r labeled ->
  exists objs_a map_a objs_b map_b,
    store_ext objs objs_a /\ dict_ext (length objs) map_ map_a
    /\ _add_branches fuel objs_a map_a r = Ok (objs_b, map_b)
    /\ store_ext objs_b objs' /\ dict_ext (length objs) map_b map'.
Proof.
  induction labeled as [|rev labeled IH]; simpl;
    intros objs map_ objs' map' r H Hin; [destruct Hin|].
  bind_inv H. destruct x as [objs1 map1].
  pose proof (_add_branches_ext _ _ _ _ E) as [S1 D1].
  pose proof (add_all_branches_ext _ _ _ _ H) as [S2 D2].
  assert (L1 : length objs1 = length objs) by apply S1.
  rewrite L1 in D2.
  destruct Hin as [->|Hin].
  - exists objs, map_, objs1, map1.
    split; [apply store_ext_refl|]. split; [apply dict_ext_refl|].
    auto.
  - destruct (IH _ _ _ _ r H Hin)
      as (oa & ma & ob & mb & Sa & Da & Hcall & Sb & Db).
    rewrite L1 in Da, Db.
    exists oa, ma, ob, mb.
    split; [eapply store_ext_trans; eassumption|].
    split; [eapply dict_ext_trans; eassumption|]. auto.
Qed.

Lemma _add_branches_reaches fuel objs map_ rb objs' map' rv l ra oa :
  _add_branches fuel objs map_ rb = Ok (objs', map') ->
  nth_error objs rb = Some rv -> In l (branch_labels rv) ->
  nth_error objs ra = Some oa -> straight oa = true ->
  (forall d, reach nextrev objs map' rb d -> spath objs map' d ra) ->
  exists oa', nth_error objs' ra = Some oa' /\ In l (branch_labels oa').
Proof.
  unfold _add_branches. intros H Hrv Hl Ha Hsa Hchain.
  bind_inv H. apply deref_ok in E. assert (x = rv) by congruence. subst x.
  destruct (branch_labels rv) as [|l0 ls] eqn:Eb; [destruct Hl|].
  bind_inv H. bind_inv H. bind_inv H. bind_inv H. injection H as <- <-.
  rename x into map1, x0 into nodes, x1 into objs2, x2 into objs3.
  pose proof (label_nodes_ext _ _ _ E2) as S2.
  unfold _get_descendant_nodes in E1. rewrite descendants_of_one in E1.
  assert (Hlast : reach nextrev objs map1 rb (last nodes rb)).
  { destruct (last_In nodes rb) as [->|Hin]; [apply reach_refl|].
    destruct (related_loop_sound _ _ _ _ _ E1 _ Hin) as (r & [[= <-]|[]] & Hr).
    exact Hr. }
  destruct (proj2 S2 _ _ Ha) as (oa2 & Ha2 & Hsame).
  destruct (proj2 S2 _ _ Hrv) as (rv2 & Hrv2 & (_ & _ & _ & _ & I)).
  eapply (@label_ancestors_reaches map1 map1 rb l (fun k v H => H)
            fuel objs2 (last nodes rb) objs3 ra oa2 rv2); try eassumption.
  - eapply spath_ext; [exact S2|]. now apply Hchain.
  - now rewrite (same_but_labels_straight Hsame).
  - apply I. rewrite Eb. exact Hl.
Qed.

Lemma constructed_down_scalar o x :
  constructed o -> _down_revision_tuple o = [x] -> down_revision o = PStr x.
Proof.
  intros (r & d & b & ->). unfold _down_revision_tuple. simpl.
  destruct d as [|[|c s]|[|y [|z t]]]; simpl; intros [= <-]; reflexivity.
Qed.

(** The label of the child comes down to the base when the base and all
    the descendants of the child are straight: the backward walk then
    goes from the last descendant down to the base. *)
Theorem branch_label_reaches_base fuel generator w st ra rb A B A' l :
  Forall constructed generator ->
  NoDup (map revision generator) ->
  RevisionMap_build fuel generator = (w, Ok st) ->
  (forall c, In c generator -> revision c <> EmptyString) ->
  nth_error generator ra = Some A -> nth_error generator rb = Some B ->
  _down_revision_tuple B = [revision A] ->
  In l (_orig_branch_labels B) ->
  (forall n o, descendant st rb n -> nth_error (objs st) n = Some o ->
               straight o = true) ->
  nth_error (objs st) ra = Some A' -> straight A' = true ->
  In l (branch_labels A').
Proof.
  intros Hcons Hnd Hbuild Hne HA HB HdB Hl Hstraight HA' HsA.
  destruct (@build_before_labels _ Hcons Hnd _ _ _ Hbuild)
    as (objs1 & Hlab & Hlen & Hobj & Hres & _).
  destruct (@build_graph _ Hcons Hnd _ _ _ Hbuild) as [_ G].
  pose proof (graph_wf Hnd G) as Hwf.
  pose proof (proj1 (Forall_forall _ _) Hcons) as Hc.
  assert (HlB : In l (branch_labels B)).
  { apply constructed_labels; [apply Hc; eapply nth_error_In; eassumption|].
    exact Hl. }
  assert (Hreg : In rb (i_labeled (index_revisions generator))).
  { apply (@labelled_registered generator rb B HB).
    intros N. now rewrite N in HlB. }
  destruct (add_all_branches_call _ _ _ _ rb Hlab Hreg)
    as (oa & ma & ob & mb & Sa & Da & Hcall & Sb & Db).
  pose proof (_add_branches_ext _ _ _ _ Hcall) as [Sab Dab].
  assert (La : length oa = length objs1) by apply Sa.
  rewrite La in Dab.
  assert (S1b : store_ext objs1 ob) by (eapply store_ext_trans; eassumption).
  assert (Sa_fin : store_ext oa (objs st))
    by (eapply store_ext_trans; eassumption).
  assert (D0b : dict_ext (length objs1) (with_sentinels (i_map (index_revisions generator))) mb)
    by (eapply dict_ext_trans; eassumption).
  (* every id is a key of the dictionary of the call *)
  assert (Hkey : forall r g, nth_error generator r = Some g ->
            dict_get mb (KStr (revision g)) = Some (Some r)).
  { intros r g Hg. apply (proj1 D0b). rewrite with_sentinels_str.
    now apply index_get_nodup. }
  (* the objects of the call, by those of the generator *)
  assert (Hobj_a : forall r o, nth_error oa r = Some o ->
            exists g o', nth_error generator r = Some g
              /\ nth_error (objs st) r = Some o'
              /\ revision o = revision g /\ down_revision o = down_revision g
              /\ straight o = straight o').
  { intros r o Ho. destruct (proj2 Sa_fin _ _ Ho) as (o' & Ho' & Hsame).
    destruct (graph_obj _ G Ho') as (g & Hg & Rg & _).
    destruct (g_node G _ Hg) as (o2 & Ho2 & _ & Dg & _).
    assert (o2 = o') by congruence. subst o2.
    exists g, o'. rewrite <- (same_but_labels_straight Hsame).
    destruct Hsame as (R & D & _). repeat split; congruence. }
  destruct (store_ext_back _ Sa_fin HA') as (Aa & HAa & HsameA).
  destruct (Hobj _ _ HB) as (B1 & HB1 & (_ & _ & _ & HbB)).
  destruct (proj2 Sa _ _ HB1) as (Ba & HBa & (_ & _ & _ & _ & IB)).
  assert (Hres_b : resolvable oa mb).
  { eapply resolvable_ext; [exact Hres | exact Sa | exact D0b]. }
  destruct (@_add_branches_reaches fuel oa ma rb ob mb Ba l ra Aa Hcall HBa)
    as (Ab & HAb & HlAb).
  - apply IB. now rewrite HbB.
  - exact HAa.
  - now rewrite <- (same_but_labels_straight HsameA).
  - intros d Hd.
    assert (Hd' : descendant st rb d).
    { apply (reach_ext rb d Hres_b Sa_fin Db). exact Hd. }
    clear Hd. revert d Hd'.
    apply (@reach_right_ind nextrev (objs st) (_revision_map st) rb
             (fun d => spath oa mb d ra)).
    + (* the child itself *)
      destruct (Hobj_a _ _ HBa) as (g & B' & Hg & HB' & Rg & Dg & Sg).
      assert (g = B) by congruence. subst g.
      apply spath_step with (op := Ba) (p' := ra).
      * exact HBa.
      * rewrite Sg. apply (Hstraight rb B'); [apply reach_refl | exact HB'].
      * rewrite Dg, (constructed_down_scalar (Hc _ (nth_error_In _ _ HB)) HdB).
        simpl. specialize (Hne A (nth_error_In _ _ HA)).
        destruct (revision A); [congruence | reflexivity].
      * rewrite Dg, (constructed_down_scalar (Hc _ (nth_error_In _ _ HB)) HdB).
        simpl. now apply Hkey.
      * constructor.
    + intros c d Hc' IHc He.
      assert (Hd : descendant st rb d).
      { eapply reach_trans; [exact Hc'|].
        eapply reach_step; [exact He | apply reach_refl]. }
      apply (edge_next_parent Hwf) in He.
      destruct He as (od & oc & Hod & Hoc & Hin).
      destruct (store_ext_back _ Sa_fin Hod) as (da & Hda & Hsame_d).
      destruct (Hobj_a _ _ Hda) as (gd & od' & Hgd & Hod' & Rd & Dd & Sd).
      assert (od' = od) by congruence. subst od'.
      destruct (graph_obj _ G Hoc) as (gc & Hgc & Rc & _).
      destruct (graph_obj _ G Hod) as (gd' & Hgd' & _ & Tuple_d).
      assert (gd' = gd) by congruence. subst gd'.
      pose proof (Hstraight d od Hd Hod) as Hsd.
      assert (Htuple : _down_revision_tuple gd = [revision gc]).
      { unfold straight in Hsd. apply negb_true_iff, orb_false_iff in Hsd as [_ Hm].
        unfold is_merge_point in Hm. rewrite Tuple_d in Hm, Hin.
        destruct (_down_revision_tuple gd) as [|x [|y t]];
          [destruct Hin | | discriminate].
        destruct Hin as [E1|[]]. congruence. }
      apply spath_step with (op := da) (p' := c).
      * exact Hda.
      * now rewrite Sd.
      * rewrite Dd, (constructed_down_scalar (Hc _ (nth_error_In _ _ Hgd)) Htuple).
        simpl. specialize (Hne gc (nth_error_In _ _ Hgc)).
        destruct (revision gc); [congruence | reflexivity].
      * rewrite Dd, (constructed_down_scalar (Hc _ (nth_error_In _ _ Hgd)) Htuple).
        simpl. now apply Hkey.
      * exact IHc.
  - destruct (proj2 Sb _ _ HAb) as (A2 & HA2 & (_ & _ & _ & _ & I)).
    assert (A2 = A') by congruence. subst A2. now apply I.
Qed.

Lemma branch_label_reaches_base_witness :
  exists A',
    nth_error (objs (built 20 Examples.labelled_chain)) 0 = Some A'
    /\ In "rel1" (branch_labels A').
Proof.
  eexists. split; [reflexivity|].
  assert (Hc : Forall constructed Examples.labelled_chain).
  { repeat constructor; eexists; eexists; eexists; reflexivity. }
  assert (Hn : NoDup (map revision Examples.labelled_chain)).
  { simpl. repeat constructor; simpl; intuition discriminate. }
  apply (@branch_label_reaches_base 20 Examples.labelled_chain []
           (built 20 Examples.labelled_chain) 0 1
           (Revision_init "A" PNone PNone)
           (Revision_init "B" (PStr "A") (PStr "rel1")) _ "rel1" Hc Hn eq_refl).
  - intros c [<-|[<-|[<-|[]]]]; discriminate.
  - reflexivity.
  - reflexivity.
  - reflexivity.
  - simpl. auto.
  - intros n o Hd Hn'.
    destruct n as [|[|[|n]]]; vm_compute in Hn';
      try (injection Hn' as <-; reflexivity).
    destruct n; discriminate.
  - reflexivity.
  - reflexivity.
Defined.

(* ================================================================== *)
(** * [get_revision] *)

Lemma build_sentinels fuel generator w st :
  RevisionMap_build fuel generator = (w, Ok st) ->
  dict_get (_revision_map st) KNone = Some None
  /\ dict_get (_revision_map st) (KTuple []) = Some None.
Proof.
  intros H. destruct (RevisionMap_build_inv _ _ H) as (objs1 & _ & Hlab & _).
  apply add_all_branches_ext in Hlab as [_ [D _]].
  split; apply D; unfold with_sentinels.
  - rewrite dict_get_set_other by discriminate. apply dict_get_set_same.
  - apply dict_get_set_same.
Qed.

(** On a built map [get_revision("base")] and [get_revision(None)]
    return [None]: the identifier resolves to the empty tuple, and the
    build has put [None] under that key. *)
Theorem get_revision_base fuelb generator w st fuel :
  RevisionMap_build fuelb generator = (w, Ok st) ->
  get_revision (S fuel) st (Some "base") = Ok None
  /\ get_revision (S fuel) st None = Ok None.
Proof.
  intros H. destruct (build_sentinels _ _ H) as [_ Hs].
  unfold get_revision, _revision_for_ident_unit.
  cbn [_resolve_revision_number contains_at String.eqb Ascii.eqb Bool.eqb
       at_sign orb bind given].
  rewrite Hs. split; reflexivity.
Qed.

Lemma get_revision_base_witness :
  get_revision 1 (built 0 Examples.diamond) (Some "base") = Ok None
  /\ get_revision 1 (built 0 Examples.diamond) None = Ok None.
Proof.
  exact (@get_revision_base 0 Examples.diamond [] (built 0 Examples.diamond)
           0 eq_refl).
Defined.

(** What [_resolve_revision_number] gives when it gives more than one
    id: heads of the map. *)
Lemma resolve_many fuel st id_ x y l b :
  _resolve_revision_number fuel st id_ = Ok (x :: y :: l, b) ->
  exists hs, x :: y :: l = map Some hs /\ incl hs (heads st).
Proof.
  destruct fuel as [|fuel]; [discriminate|].
  cbn [_resolve_revision_number].
  destruct (match id_ with
            | Some s => if contains_at s
                        then let (b0, r) := split_at s in (Some b0, Some r)
                        else (None, Some s)
            | None => (None, None)
            end) as [bl [s|]]; [|discriminate].
  destruct (String.eqb s "heads").
  - destruct (given bl) as [b0|] eqn:Eg.
    + intros H. bind_inv H. injection H as <- <-.
      exists x0. split; [reflexivity|].
      destruct fuel as [|fuel]; [discriminate|].
      cbn [filter_for_lineage] in E. bind_inv E. destruct x1 as [i bl'].
      eapply filterM_incl; eassumption.
    + intros [= <- <-]. exists (heads st). split; [reflexivity | apply incl_refl].
  - destruct (String.eqb s "head").
    + intros H. bind_inv H. discriminate.
    + destruct (String.eqb s "base"); discriminate.
Qed.

(** [get_revision] against [get_revisions], for a string [s]: when
    [get_revisions(s)] returns one revision, [get_revision(s)] returns
    it; when it returns more, [get_revision(s)] raises [MultipleHeads]
    with as many heads of the map and with [s]; when it returns none and
    [s] has no branch part, [get_revision(s)] returns what the map has
    under the empty tuple. *)
Theorem get_revision_of_get_revisions fuel st s rs :
  get_revisions fuel st (IStr s) = Ok rs ->
  match rs with
  | [r] => get_revision fuel st (Some s) = Ok r
  | [] =>
      contains_at s = false ->
      forall v, dict_get (_revision_map st) (KTuple []) = Some v ->
      get_revision fuel st (Some s) = Ok v
  | _ =>
      exists hs,
        get_revision fuel st (Some s) = Err (MultipleHeads hs s)
        /\ length hs = length rs /\ incl hs (heads st)
  end.
Proof.
  intros H. cbn [get_revisions] in H. unfold get_revision.
  destruct (_resolve_revision_number fuel st (Some s)) as [[ids bl]|e] eqn:E;
    [|discriminate].
  cbn [bind] in *.
  pose proof (mapM_inv _ _ H) as F.
  destruct ids as [|x [|y l]].
  - inversion F. subst. intros Hat v Hv.
    destruct fuel as [|fuel]; [discriminate|].
    cbn [_resolve_revision_number] in E. rewrite Hat in E.
    assert (bl = None).
    { destruct (String.eqb s "heads").
      - cbn [given] in E. congruence.
      - destruct (String.eqb s "head").
        + bind_inv E. congruence.
        + destruct (String.eqb s "base"); congruence. }
    subst bl. unfold _revision_for_ident_unit. cbn [given bind].
    rewrite Hv. reflexivity.
  - inversion F as [|? r ? rs' Hx F']. subst. inversion F'. subst.
    exact Hx.
  - destruct (resolve_many _ _ _ E) as (hs & Hhs & Hin).
    assert (Hlen : length rs = length (x :: y :: l))
      by (symmetry; eapply Forall2_length; eassumption).
    destruct rs as [|r1 [|r2 rs']]; try discriminate.
    exists hs. unfold raise_multiple_heads. rewrite Hhs.
    rewrite (mapM_ok _ (fun h => match h with Some s0 => s0 | None => EmptyString end)).
    + rewrite map_map, map_id. cbn [bind pystr].
      split; [reflexivity|]. split; [|assumption].
      rewrite Hlen, Hhs, length_map. reflexivity.
    + intros h Hh. apply in_map_iff in Hh as (h0 & <- & _). reflexivity.
Qed.

Lemma get_revision_of_get_revisions_witness :
  get_revision 2 (built 0 Examples.diamond) (Some "M") = Ok (Some 3%nat)
  /\ exists hs,
       get_revision 2 (built 0 Examples.two_heads) (Some "heads")
       = Err (MultipleHeads hs "heads")
       /\ length hs = 2%nat /\ incl hs (heads (built 0 Examples.two_heads)).
Proof.
  split.
  - exact (@get_revision_of_get_revisions 2 (built 0 Examples.diamond) "M"
             [Some 3%nat] eq_refl).
  - exact (@get_revision_of_get_revisions 2 (built 0 Examples.two_heads)
             "heads" [Some 1%nat; Some 2%nat] eq_refl).
Defined.

(* ================================================================== *)
(** * The closure walks *)

Lemma related_targets_inv fn objs map_ fuel check targets : forall rest all,
  related_targets fn objs map_ fuel check targets rest = Ok all ->
  (forall r, In r all <->
     exists t, In (Some t) rest /\ reach fn objs map_ t r)
  /\ (forall n, In n rest -> exists t, n = Some t)
  /\ (check = true ->
      forall t t', In (Some t) rest -> In (Some t') targets ->
                   reach fn objs map_ t t' -> t = t').
Proof.
  induction rest as [|n rest IH]; simpl; intros all H.
  - injection H as <-. split; [|split].
    + intros r. split; [intros [] | intros (t & [] & _)].
    + intros n [].
    + intros _ t t' [].
  - bind_inv H.
    destruct (if check then overlap x targets n else []) eqn:Eo;
      [|destruct (attr objs n revision); discriminate].
    bind_inv H. injection H as <-.
    destruct (IH _ E0) as (Hall & Hsome & Hsep).
    assert (Hn : exists t, n = Some t).
    { destruct n as [t|]; [now exists t|].
      destruct fuel; discriminate. }
    destruct Hn as (t0 & ->).
    assert (Hx : forall r, In r x <-> reach fn objs map_ t0 r).
    { intros r. split.
      - intros Hr. destruct (related_loop_sound _ _ _ _ _ E _ Hr)
          as (r0 & [[= <-]|[]] & Hr0). exact Hr0.
      - intros Hr. eapply related_loop_complete;
          [exact E | now left | exact Hr]. }
    split; [|split].
    + intros r. rewrite in_app_iff, Hx, Hall. split.
      * intros [Hr|(t & Ht & Hr)]; [exists t0 | exists t]; auto.
      * intros (t & [[= <-]|Ht] & Hr); [now left | right; now exists t].
    + intros n [<-|Hn]; [now exists t0 | now apply Hsome].
    + intros -> t t' [[= <-]|Ht] Ht' Hr; [|now apply (Hsep eq_refl t t')].
      destruct (Nat.eq_dec t0 t') as [|N]; [assumption|]. exfalso.
      assert (Hin : In (Some t') (overlap x targets (Some t0))).
      { unfold overlap.
        apply (proj2 (In_set_diff node_eqb node_eqb_eq _ _ _)). split.
        - apply (proj2 (In_set_inter node_eqb node_eqb_eq _ _ _)).
          split; [|assumption].
          apply (proj2 (In_set_of node_eqb node_eqb_eq _ _)).
          apply in_map. now apply Hx.
        - intros [[= ->]|[]]. congruence. }
      rewrite Eo in Hin. destruct Hin.
Qed.

(** [_get_ancestor_nodes] and [_get_descendant_nodes], whatever the map:
    what the walk yields, when it comes to an end, are the objects that
    can be reached from the targets along the parents (along the
    children), the targets included; with [check=True] no target is then
    reached from another one. *)
Theorem closure_walk fn objs map_ fuel targets check all :
  _iterate_related_revisions fn objs map_ fuel targets check = Ok all ->
  (forall r, In r all <->
     exists t, In (Some t) targets /\ reach fn objs map_ t r)
  /\ (check = true ->
      forall t t', In (Some t) targets -> In (Some t') targets ->
                   reach fn objs map_ t t' -> t = t').
Proof.
  intros H. destruct (related_targets_inv _ _ _ _ _ _ _ H) as (A & _ & B).
  split; assumption.
Qed.

Lemma closure_walk_witness :
  (forall r, In r [3; 2; 0; 1; 0]%nat <->
     exists t, In (Some t) [Some 3%nat]
               /\ ancestor (built 0 Examples.diamond) t r)
  /\ (true = true ->
      forall t t', In (Some t) [Some 3%nat] -> In (Some t') [Some 3%nat] ->
                   ancestor (built 0 Examples.diamond) t t' -> t = t').
Proof.
  exact (@closure_walk _down_revision_tuple
           (objs (built 0 Examples.diamond))
           (_revision_map (built 0 Examples.diamond)) 5 [Some 3%nat] true
           [3; 2; 0; 1; 0]%nat eq_refl).
Defined.

(** With [check=True], a target that is reached from another target
    makes the walk raise, when it does not run out before: it cannot
    return. *)
Theorem closure_walk_overlap fn objs map_ fuel targets t t' :
  In (Some t) targets -> In (Some t') targets -> t <> t' ->
  reach fn objs map_ t t' ->
  exists e, _iterate_related_revisions fn objs map_ fuel targets true = Err e.
Proof.
  intros Ht Ht' N Hr.
  destruct (_iterate_related_revisions fn objs map_ fuel targets true)
    as [all|e] eqn:E; [|now exists e].
  destruct (related_targets_inv _ _ _ _ _ _ _ E) as (_ & _ & Hsep).
  destruct N. exact (Hsep eq_refl t t' Ht Ht' Hr).
Qed.

Lemma closure_walk_overlap_witness :
  exists e,
    _iterate_related_revisions _down_revision_tuple
      (objs (built 0 Examples.diamond))
      (_revision_map (built 0 Examples.diamond)) 9
      [Some 3%nat; Some 0%nat] true = Err e.
Proof.
  apply (@closure_walk_overlap _down_revision_tuple
           (objs (built 0 Examples.diamond))
           (_revision_map (built 0 Examples.diamond)) 9
           [Some 3%nat; Some 0%nat] 3%nat 0%nat).
  - now left.
  - right. now left.
  - discriminate.
  - apply reach_step with (c := 1%nat).
    + eexists _, "X". split; [reflexivity | split; [now left | reflexivity]].
    + apply reach_step with (c := 0%nat); [|constructor].
      eexists _, "A". split; [reflexivity | split; [now left | reflexivity]].
Defined.

Lemma reach_inv_first fn objs map_ a b :
  reach fn objs map_ a b ->
  a = b \/ exists c, edge fn objs map_ a c /\ reach fn objs map_ c b.
Proof. destruct 1 as [r|p c r He Hr]; [now left | right; now exists c]. Qed.

Lemma on_cycle_next fn objs map_ r :
  on_cycle fn objs map_ r ->
  exists o y c,
    nth_error objs r = Some o /\ In y (fn o)
    /\ dict_get map_ (KStr y) = Some (Some c) /\ on_cycle fn objs map_ c.
Proof.
  intros (c & (o & y & Ho & Hy & Hg) & Hc).
  exists o, y, c. repeat split; try assumption.
  assert (He : edge fn objs map_ r c) by now exists o, y.
  destruct (reach_inv_first Hc) as [E|(c' & He' & Hrest)].
  - exists c. split; [now rewrite E at 1 | constructor].
  - exists c'. split; [assumption|].
    eapply reach_trans; [exact Hrest|].
    eapply reach_step; [exact He | constructor].
Qed.

Lemma related_loop_cycle fn objs map_ : forall fuel todo r,
  In (Some r) todo -> on_cycle fn objs map_ r ->
  exists e, related_loop fn objs map_ fuel todo = Err e.
Proof.
  induction fuel as [|fuel IH]; intros todo r Hin Hc.
  - destruct todo as [|n todo]; [destruct Hin|]. now exists RecursionError.
  - destruct todo as [|n todo]; [destruct Hin|]. simpl.
    destruct n as [x|]; [|now exists AttributeError].
    destruct (deref objs x) as [o|e] eqn:Eo; [|now exists e]. simpl.
    destruct (mapM (fun rev_id => dict_lookup map_ (KStr rev_id)) (fn o))
      as [next|e] eqn:En; [|now exists e]. simpl.
    assert (Hnext : exists r', In (Some r') (List.rev next ++ todo)
                               /\ on_cycle fn objs map_ r').
    { destruct Hin as [[= ->]|Hin].
      - destruct (on_cycle_next Hc) as (o' & y & c & Ho' & Hy & Hg & Hcc).
        apply deref_ok in Eo. assert (o' = o) by congruence. subst o'.
        exists c. split; [|assumption].
        apply in_app_iff. left. apply -> in_rev.
        eapply mapM_In; [exact En | exact Hy|].
        unfold dict_lookup. now rewrite Hg.
      - exists r. split; [|assumption]. apply in_app_iff. now right. }
    destruct Hnext as (r' & Hin' & Hc').
    destruct (IH _ _ Hin' Hc') as (e & ->). now exists e.
Qed.

(** The walks do not look for cycles: from a target on a cycle of
    parents (of children) the walk does not return, whatever the fuel. *)
Theorem closure_walk_cycle fn objs map_ fuel targets check r :
  In (Some r) targets -> on_cycle fn objs map_ r ->
  exists e,
    _iterate_related_revisions fn objs map_ fuel targets check = Err e.
Proof.
  intros Hin Hc. unfold _iterate_related_revisions.
  generalize targets at 1. intros tg.
  induction targets as [|n rest IH]; [destruct Hin|]. simpl.
  destruct Hin as [->|Hin].
  - destruct (@related_loop_cycle fn objs map_ fuel [Some r] r) as (e & ->);
      [now left | assumption|]. now exists e.
  - destruct (related_loop fn objs map_ fuel [n]) as [v|e]; [|now exists e].
    simpl. destruct (if check then overlap v tg n else []).
    + destruct (IH Hin) as (e & ->). now exists e.
    + destruct (attr objs n revision) as [?|e]; simpl; eexists; reflexivity.
Qed.

Lemma closure_walk_cycle_witness :
  exists e,
    _iterate_related_revisions _down_revision_tuple
      (objs (built 0 Examples.loop2))
      (_revision_map (built 0 Examples.loop2)) 50 [Some 0%nat] false = Err e.
Proof.
  apply (@closure_walk_cycle _down_revision_tuple
           (objs (built 0 Examples.loop2))
           (_revision_map (built 0 Examples.loop2)) 50 [Some 0%nat] false
           0%nat).
  - now left.
  - exists 1%nat. split.
    + eexists _, "B". split; [reflexivity | split; [now left | reflexivity]].
    + apply reach_step with (c := 0%nat); [|constructor].
      eexists _, "A". split; [reflexivity | split; [now left | reflexivity]].
Defined.

(* ================================================================== *)
(** * Relative identifiers *)

Lemma slice_from_split (T : Type) (l : list T) z :
  exists pre,
    l = pre ++ slice_from l z
    /\ length pre = slice_index (length l) z.
Proof.
  unfold slice_from. exists (firstn (slice_index (length l) z) l).
  split; [symmetry; apply firstn_skipn|].
  rewrite length_firstn. unfold slice_index.
  destruct (z <? 0)%Z eqn:E; [apply Z.ltb_lt in E|]; lia.
Qed.

Lemma slice_to_split (T : Type) (l : list T) z :
  exists post,
    l = slice_to l z ++ post
    /\ length (slice_to l z) = slice_index (length l) z.
Proof.
  unfold slice_to. exists (skipn (slice_index (length l) z) l).
  split; [symmetry; apply firstn_skipn|].
  rewrite length_firstn. unfold slice_index.
  destruct (z <? 0)%Z eqn:E; [apply Z.ltb_lt in E|]; lia.
Qed.

(** A relative [upper]: what [iterate_revisions] returns is the end of
    the range from the head (of the branch) down to [lower], and it has
    as many revisions as the bound asks for; with a negative number the
    range has that many revisions more, less one when inclusive, at its
    start.  A relative [lower] under an [upper] that is not relative:
    the start of the range from [upper] down to the base, with as many
    revisions as asked for; with a positive number the range has that
    many more, less one when inclusive, at its end. *)
Theorem iterate_revisions_relative fuel st upper lower implicit_base
    inclusive revs :
  iterate_revisions fuel st upper lower implicit_base inclusive = Ok revs ->
  (forall u branch_label relative,
     upper = IStr u -> relative_of upper = Some (branch_label, relative) ->
     Z.of_nat (length revs) = asked relative inclusive
     /\ exists full pre,
          _iterate_revisions fuel st (fst (range_bounds upper lower)) lower
            inclusive implicit_base = Ok full
          /\ full = pre ++ revs
          /\ ((relative < 0)%Z ->
              Z.of_nat (length pre)
              = (Z.abs relative - if inclusive then 1 else 0)%Z))
  /\ (forall l branch_label relative,
        relative_of upper = None ->
        lower = IStr l -> relative_of lower = Some (branch_label, relative) ->
        Z.of_nat (length revs) = asked relative inclusive
        /\ exists full post,
             _iterate_revisions fuel st upper (snd (range_bounds upper lower))
               inclusive implicit_base = Ok full
             /\ full = revs ++ post
             /\ ((0 < relative)%Z ->
                 Z.of_nat (length post)
                 = (relative - if inclusive then 1 else 0)%Z)).
Proof.
  intros H. split.
  - intros u bl rel -> Hrel. unfold iterate_revisions in H.
    unfold range_bounds. rewrite Hrel in *. cbn [fst].
    bind_inv H. set (d := (if inclusive then 1 else 0)%Z) in *.
    destruct (Z.of_nat (length (slice_from x (- rel - d)))
              =? Z.abs rel + d)%Z eqn:El; [|discriminate].
    injection H as <-. apply Z.eqb_eq in El. split; [exact El|].
    destruct (slice_from_split x (- rel - d)) as (pre & Hpre & Hlen).
    exists x, pre. split; [exact E|]. split; [exact Hpre|].
    assert (Hd : (0 <= d <= 1)%Z) by (unfold d; destruct inclusive; lia).
    assert (Hx : length x = (length pre + length (slice_from x (- rel - d)))%nat).
    { rewrite Hpre at 1. apply length_app. }
    intros Hr. unfold slice_index in Hlen.
    destruct (- rel - d <? 0)%Z eqn:Ez; [apply Z.ltb_lt in Ez; lia|].
    lia.
  - intros l bl rel Hup -> Hrel. unfold iterate_revisions in H.
    unfold range_bounds. rewrite Hup, Hrel in *.
    set (d := (if inclusive then 1 else 0)%Z) in *.
    assert (Hd : (0 <= d <= 1)%Z) by (unfold d; destruct inclusive; lia).
    assert (G : forall x,
      _iterate_revisions fuel st upper
        (IStr match given bl with
              | Some b => (b ++ "@base")%string
              | None => "base"
              end) inclusive implicit_base = Ok x ->
      (if (Z.of_nat (length (slice_to x (- rel + d))) =? Z.abs rel + d)%Z
       then Ok (slice_to x (- rel + d))
       else Err (RevisionError (RelativeNotProduced l (Z.abs rel))))
      = Ok revs ->
      Z.of_nat (length revs) = asked rel inclusive
      /\ exists full post,
           _iterate_revisions fuel st upper
             (IStr match given bl with
                   | Some b => (b ++ "@base")%string
                   | None => "base"
                   end) inclusive implicit_base = Ok full
           /\ full = revs ++ post
           /\ ((0 < rel)%Z -> Z.of_nat (length post) = (rel - d)%Z)).
    { intros x E H0.
      destruct (Z.of_nat (length (slice_to x (- rel + d))) =? Z.abs rel + d)%Z
        eqn:El; [|discriminate].
      injection H0 as <-. apply Z.eqb_eq in El. split; [exact El|].
      destruct (slice_to_split x (- rel + d)) as (post & Hpost & Hlen).
      exists x, post. split; [exact E|]. split; [exact Hpost|].
      intros Hr.
      assert (Hx : length x = (length (slice_to x (- rel + d)) + length post)%nat).
      { rewrite Hpost at 1. apply length_app. }
      unfold slice_index in Hlen.
      destruct (- rel + d <? 0)%Z eqn:Ez.
      - lia.
      - apply Z.ltb_ge in Ez. lia. }
    destruct upper as [|u|us]; cbn [snd] in *; bind_inv H; eapply G; eassumption.
Qed.

Lemma iterate_revisions_relative_witness :
  Z.of_nat (length [1; 0]%nat) = asked 2 false
  /\ exists full pre,
       _iterate_revisions 5 (built 0 Examples.chain5) (IStr "head")
         (IStr "base") false false = Ok full
       /\ full = pre ++ [1; 0]%nat
       /\ ((2 < 0)%Z -> Z.of_nat (length pre) = (Z.abs 2 - 0)%Z).
Proof.
  exact (proj1 (@iterate_revisions_relative 5 (built 0 Examples.chain5)
                  (IStr "+2") (IStr "base") false false [1; 0]%nat eq_refl)
           "+2" None 2%Z eq_refl eq_refl).
Defined.

Lemma signed_number_no_sign s : has_sign s = false -> signed_number s = None.
Proof.
  destruct s as [|c r]; [reflexivity|]. simpl. intros H.
  apply orb_false_iff in H as [H _]. apply orb_false_iff in H as [-> ->].
  reflexivity.
Qed.

Lemma labelled_number_no_sign : forall s seen,
  has_sign s = false -> labelled_number seen s = None.
Proof.
  induction s as [|c r IH]; intros seen H; [reflexivity|].
  simpl in *. apply orb_false_iff in H as [_ H].
  rewrite (signed_number_no_sign _ H).
  destruct (Ascii.eqb c at_sign && str_truthy seen);
    destruct (Ascii.eqb c newline); auto.
Qed.

(** An identifier without ['+'] and ['-'] is never read as a relative
    one: between two such strings [iterate_revisions] is
    [_iterate_revisions]. *)
Theorem plain_not_relative s :
  has_sign s = false ->
  _relative_destination s = None
  /\ forall fuel st l implicit_base inclusive,
       has_sign l = false ->
       iterate_revisions fuel st (IStr s) (IStr l) implicit_base inclusive
       = _iterate_revisions fuel st (IStr s) (IStr l) inclusive implicit_base.
Proof.
  assert (G : forall x, has_sign x = false -> _relative_destination x = None).
  { intros x H. unfold _relative_destination.
    now rewrite (labelled_number_no_sign _ _ H), (signed_number_no_sign _ H). }
  intros H. split; [now apply G|].
  intros fuel st l ib inc Hl. apply iterate_revisions_plain; simpl; now apply G.
Qed.

Lemma plain_not_relative_witness :
  _relative_destination "1975ea83b712" = None
  /\ forall fuel st l implicit_base inclusive,
       has_sign l = false ->
       iterate_revisions fuel st (IStr "1975ea83b712") (IStr l)
         implicit_base inclusive
       = _iterate_revisions fuel st (IStr "1975ea83b712") (IStr l) inclusive
           implicit_base.
Proof. exact (@plain_not_relative "1975ea83b712" eq_refl). Defined.











(* ================================================================== *)
(** * Adding a revision to a built map *)

Lemma graph_id_key generator st d :
  graph_of generator st -> In d (map revision generator) ->
  exists r o, nth_error generator r = Some o /\ revision o = d
              /\ dict_get (_revision_map st) (KStr d) = Some (Some r).
Proof.
  intros G Hd. apply in_map_iff in Hd as (o & <- & Ho).
  apply In_nth_error in Ho as (r & Hr).
  destruct (g_node G _ Hr) as (o' & _ & _ & _ & _ & _ & _ & _ & Hg).
  now exists r, o.
Qed.

Lemma Forall2_pointwise (A B : Type) (R : A -> B -> Prop) :
  forall (l : list A) (l' : list B),
    length l' = length l ->
    (forall r o, nth_error l r = Some o ->
       exists o', nth_error l' r = Some o' /\ R o o') ->
    Forall2 R l l'.
Proof.
  induction l as [|x l IH]; intros [|y l'] Hlen H; try discriminate.
  - constructor.
  - constructor.
    + destruct (H 0%nat x eq_refl) as (o' & [= <-] & HR). exact HR.
    + apply IH; [simpl in Hlen; lia|].
      intros r o Hr. exact (H (S r) o Hr).
Qed.

Lemma Forall2_In_l (A B : Type) (R : A -> B -> Prop) (l0 : list A) :
  forall (l : list A) (l' : list B),
    incl l l0 ->
    Forall2 (fun o o' => In o l0 -> R o o') l l' -> Forall2 R l l'.
Proof.
  intros l l' Hincl F. induction F as [|a b l l' HR _ IH]; constructor.
  - apply HR. apply Hincl. now left.
  - apply IH. intros x Hx. apply Hincl. now right.
Qed.

Lemma heads_after_link (ds : list string) (name : string) :
  forall objs objs' : list Revision,
    Forall2 (fun o o' =>
               revision o' = revision o /\ revision o <> name
               /\ (nextrev o' = [] <-> nextrev o = [] /\ ~ In (revision o) ds))
            objs objs' ->
    map revision (filter is_head objs')
    = filter (fun head =>
                negb (str_mem head (str_set_update (str_set_of ds) [name])))
        (map revision (filter is_head objs)).
Proof.
  induction 1 as [|o o' objs objs' (Hr & Hn & Hh) _ IH]; [reflexivity|].
  assert (Hmem : ~ In (revision o) ds ->
            str_mem (revision o) (str_set_update (str_set_of ds) [name])
            = false).
  { intros N. apply (mem_false String.eqb String.eqb_eq).
    intros Hin.
    destruct (proj1 (In_set_update String.eqb String.eqb_eq _ _ _) Hin)
      as [Hin'|[E|[]]].
    - apply N. exact (proj1 (In_set_of String.eqb String.eqb_eq _ _) Hin').
    - congruence. }
  assert (Hmem' : In (revision o) ds ->
            str_mem (revision o) (str_set_update (str_set_of ds) [name])
            = true).
  { intros Hin. apply (mem_In String.eqb String.eqb_eq).
    apply (proj2 (In_set_update String.eqb String.eqb_eq _ _ _)). left.
    exact (proj2 (In_set_of String.eqb String.eqb_eq _ _) Hin). }
  cbn [filter].
  change (is_head o') with (match nextrev o' with [] => true | _ => false end).
  change (is_head o) with (match nextrev o with [] => true | _ => false end).
  destruct (nextrev o) as [|y ys] eqn:En.
  - destruct (in_dec string_dec (revision o) ds) as [Hin|Hin].
    + destruct (nextrev o') as [|y' ys'] eqn:En'.
      * destruct (proj1 Hh eq_refl) as [_ N]. tauto.
      * cbn [map filter]. rewrite (Hmem' Hin). cbn [negb]. exact IH.
    + rewrite (proj2 Hh (conj eq_refl Hin)). cbn [map filter].
      rewrite (Hmem Hin). cbn [negb]. now rewrite Hr, IH.
  - destruct (nextrev o') as [|y' ys'] eqn:En'.
    + destruct (proj1 Hh eq_refl) as [? _]. discriminate.
    + exact IH.
Qed.

Lemma bases_after_link :
  forall objs objs' : list Revision,
    Forall2 (fun o o' => revision o' = revision o
                         /\ down_revision o' = down_revision o)
            objs objs' ->
    map revision (filter no_parent objs')
    = map revision (filter no_parent objs).
Proof.
  induction 1 as [|o o' objs objs' (Hr & Hd) _ IH]; [reflexivity|].
  cbn [filter].
  assert (E : no_parent o' = no_parent o).
  { unfold no_parent, _down_revision_tuple. now rewrite Hd. }
  rewrite E. destruct (no_parent o); cbn [map]; now rewrite ?Hr, IH.
Qed.

Lemma Forall2_split_last (A B : Type) (R : A -> B -> Prop) l x l' :
  Forall2 R (l ++ [x]) l' ->
  exists l0 y, l' = l0 ++ [y] /\ Forall2 R l l0 /\ R x y.
Proof.
  intros H. apply Forall2_app_inv_l in H as (l0 & l1 & H0 & H1 & ->).
  inversion H1 as [|? y ? l2 HR H2]; subst. inversion H2; subst.
  now exists l0, y.
Qed.

(** [add_revision] keeps the map the graph of what it holds.  On a map
    that is the graph of a generator, adding a revision fresh from its
    constructor, without branch labels, whose id is no key of the
    dictionary and whose parents are all there, logs nothing, raises
    nothing, and leaves the graph of the generator with the revision
    produced last. *)
Theorem add_revision_graph fuel generator st rv :
  graph_of generator st ->
  constructed rv -> branch_labels rv = [] ->
  dict_mem (_revision_map st) (KStr (revision rv)) = false ->
  (forall d, In d (_down_revision_tuple rv) -> In d (map revision generator)) ->
  exists st',
    add_revision fuel st rv false = Added [] st'
    /\ graph_of (generator ++ [rv]) st'.
Proof.
  intros G C Hlab Hfresh Hpar.
  set (n := length (objs st)).
  set (map_ := dict_set (_revision_map st) (KStr (revision rv)) (Some n)).
  assert (Hnone : dict_get (_revision_map st) (KStr (revision rv)) = None).
  { unfold dict_mem in Hfresh.
    destruct (dict_get (_revision_map st) (KStr (revision rv)));
      [discriminate | reflexivity]. }
  assert (Hnew : ~ In (revision rv) (map revision generator)).
  { intros Hin. destruct (@graph_id_key _ _ _ G Hin) as (r & o & _ & _ & Hg).
    congruence. }
  assert (Hold : forall k, k <> KStr (revision rv) ->
            dict_get map_ k = dict_get (_revision_map st) k).
  { intros k N. unfold map_. apply dict_get_set_other. congruence. }
  assert (Hid : forall d, In d (map revision generator) ->
            exists r o, nth_error generator r = Some o /\ revision o = d
                        /\ dict_get map_ (KStr d) = Some (Some r)).
  { intros d Hd. destruct (@graph_id_key _ _ _ G Hd) as (r & o & Hr & Ho & Hg).
    exists r, o. repeat split; try assumption.
    rewrite Hold; [assumption|]. intros [= ->]. contradiction. }
  pose proof (g_length G) as Hlen. fold n in Hlen.
  assert (Hpp : parents_present map_ (length (objs st ++ [rv]))
                  (_down_revision_tuple rv)).
  { intros d Hd. destruct (Hid d (Hpar d Hd)) as (r & o & Hr & _ & Hg).
    exists r. split; [assumption|]. rewrite length_app. simpl.
    assert (r < length generator)%nat by (apply nth_error_Some; congruence).
    lia. }
  destruct (@link_downrevs_ok map_ n (revision rv) (down_revision rv)
              (_down_revision_tuple rv) (objs st ++ [rv]) [] Hpp)
    as (objs' & heads' & Elink).
  pose proof Elink as Hspec.
  apply link_downrevs_spec in Hspec as (_ & Hlen' & _ & _ & Hobj).
  rewrite length_app in Hlen'. simpl in Hlen'. fold n in Hlen'.
  assert (Hrv : nth_error (objs st ++ [rv]) n = Some rv).
  { rewrite nth_error_app2 by (unfold n; lia).
    unfold n. now rewrite Nat.sub_diag. }
  destruct (Hobj n rv Hrv) as (rv' & Hrv' & Hsame & _ & Hnext).
  assert (Hnext' : nextrev rv' = []).
  { destruct (nextrev rv') as [|y ys] eqn:E; [reflexivity|].
    destruct (proj1 (Hnext y) (or_introl eq_refl)) as [Hy|(_ & d & Hd & Hg)].
    - rewrite (constructed_nextrev C) in Hy. destruct Hy.
    - destruct (Hid d (Hpar d Hd)) as (r & o & Hr & _ & Hg').
      assert (r < length generator)%nat by (apply nth_error_Some; congruence).
      assert (r = n) by congruence. lia. }
  destruct Hsame as (Srev & Sdown & Sorig & Slab).
  assert (Stuple : _down_revision_tuple rv' = _down_revision_tuple rv).
  { unfold _down_revision_tuple. now rewrite Sdown. }
  (* the run *)
  assert (Erun : add_revision_run fuel st rv
                 = ([], Ok {| objs := objs'; _revision_map := map_;
                              heads := heads_with (heads st)
                                         (_down_revision_tuple rv)
                                         (revision rv);
                              bases := if is_base rv
                                       then bases st ++ [revision rv]
                                       else bases st |})).
  { unfold add_revision_run. fold n. fold map_.
    unfold _add_branches. unfold deref at 1. rewrite Hrv. simpl.
    rewrite Hlab. simpl. unfold deref at 1. rewrite Hrv. simpl.
    rewrite Elink. simpl. unfold deref. rewrite Hrv'. simpl.
    unfold is_head. rewrite Hnext', Stuple, Srev. reflexivity. }
  eexists. split.
  { unfold add_revision. rewrite Hfresh. simpl. rewrite Erun. reflexivity. }
  (* the graph *)
  assert (Hfirst : forall r o, nth_error generator r = Some o ->
            exists o0 o',
              nth_error (objs st) r = Some o0
              /\ nth_error objs' r = Some o'
              /\ revision o0 = revision o
              /\ same_but_nextrev o0 o'
              /\ (NoDup (nextrev o0) -> NoDup (nextrev o'))
              /\ forall y, In y (nextrev o') <->
                   In y (nextrev o0)
                   \/ (y = revision rv /\ In (revision o) (_down_revision_tuple rv))).
  { intros r o Hr.
    destruct (g_node G _ Hr) as (o0 & H0 & Hrev0 & _ & _ & _ & _ & _ & Hg0).
    assert (H0' : nth_error (objs st ++ [rv]) r = Some o0).
    { rewrite nth_error_app1; [assumption|]. apply nth_error_Some. congruence. }
    destruct (Hobj r o0 H0') as (o' & Ho' & Hs & Hnd & Hy).
    exists o0, o'. do 5 (split; [assumption|]). intros y. split.
    - intros Hin. apply Hy in Hin as [?|(-> & d & Hd & Hg)]; [now left|].
      right. split; [reflexivity|].
      destruct (Hid d (Hpar d Hd)) as (r0 & o1 & Hr0 & Ho1 & Hg').
      assert (r0 = r) by congruence. subst r0.
      assert (o1 = o) by congruence. subst o1. now rewrite Ho1.
    - intros [?|(-> & Hd)]; apply Hy; [now left|].
      right. split; [reflexivity|]. exists (revision o). split; [assumption|].
      rewrite Hold; [assumption|].
      intros [= E]. apply Hnew. rewrite <- E. apply in_map.
      eapply nth_error_In; eassumption. }
  assert (F : Forall2 (fun o o' =>
                 same_but_nextrev o o'
                 /\ (In o (objs st) ->
                     revision o <> revision rv
                     /\ (nextrev o' = [] <->
                         nextrev o = []
                         /\ ~ In (revision o) (_down_revision_tuple rv))))
                (objs st ++ [rv]) objs').
  { apply Forall2_pointwise;
      [rewrite length_app; simpl; unfold n in Hlen'; lia|].
    intros r o Hr. destruct (Hobj r o Hr) as (o' & Ho' & Hs & _ & Hy).
    exists o'. split; [assumption|]. split; [assumption|].
    intros Hin.
    destruct (Nat.lt_ge_cases r n) as [L|L].
    - rewrite nth_error_app1 in Hr by assumption.
      destruct (nth_error generator r) as [g|] eqn:Eg;
        [|apply nth_error_None in Eg; lia].
      destruct (Hfirst r g Eg) as (o0 & o'' & H0 & H0' & Hrev & _ & _ & Hy').
      assert (o0 = o) by congruence. subst o0.
      assert (o'' = o') by congruence. subst o''.
      assert (Hne : revision o <> revision rv).
      { rewrite Hrev. intros E. apply Hnew. rewrite <- E. apply in_map.
        eapply nth_error_In; eassumption. }
      split; [assumption|]. split.
      + intros E. rewrite E in Hy'. split.
        * destruct (nextrev o) as [|y ys]; [reflexivity|].
          destruct (proj2 (Hy' y) (or_introl (or_introl eq_refl))).
        * intros Hd. rewrite Hrev in Hd.
          destruct (proj2 (Hy' (revision rv)) (or_intror (conj eq_refl Hd))).
      + intros [E N]. destruct (nextrev o') as [|y ys]; [reflexivity|].
        destruct (proj1 (Hy' y) (or_introl eq_refl)) as [Hin'|[_ Hd]].
        * rewrite E in Hin'. destruct Hin'.
        * rewrite Hrev in N. contradiction.
    - exfalso. apply In_nth_error in Hin as (r0 & Hr0).
      assert (r0 < n)%nat by (apply nth_error_Some; congruence).
      destruct (nth_error generator r0) as [g|] eqn:Eg;
        [|apply nth_error_None in Eg; lia].
      destruct (g_node G _ Eg) as (o0 & H0 & Hrev0 & _).
      assert (o0 = o) by congruence. subst o0.
      assert (r = n).
      { assert (r < length (objs st ++ [rv]))%nat
          by (apply nth_error_Some; congruence).
        rewrite length_app in *. simpl in *. lia. }
      subst r. assert (Eo : o = rv) by congruence.
      apply Hnew. rewrite <- Eo, Hrev0. apply in_map.
      eapply nth_error_In; eassumption. }
  apply Forall2_split_last in F as (objs0 & last' & -> & F & (Hsl & _)).
  assert (last' = rv').
  { assert (Hl0 : length objs0 = n).
    { apply Forall2_length in F. now rewrite <- F. }
    rewrite nth_error_app2 in Hrv' by lia.
    rewrite Hl0, Nat.sub_diag in Hrv'. simpl in Hrv'. congruence. }
  subst last'.
  constructor; simpl.
  - rewrite !length_app. simpl. apply Forall2_length in F. lia.
  - intros r o Hr.
    destruct (Nat.lt_ge_cases r (length generator)) as [L|L].
    + rewrite nth_error_app1 in Hr by assumption.
      destruct (Hfirst r o Hr) as (o0 & o' & H0 & H0' & Hrev & Hs & Hnd & Hy).
      destruct (g_node G _ Hr)
        as (o0' & H0'' & _ & Hdown0 & Horig0 & Hlab0 & Hnd0 & Hy0 & Hg0).
      assert (o0' = o0) by congruence. subst o0'.
      destruct Hs as (E1 & E2 & E3 & E4).
      exists o'. split; [assumption|]. repeat split; try congruence.
      * now rewrite E4.
      * auto.
      * intros Hin. apply Hy in Hin as [Hin|(-> & Hd)].
        -- apply Hy0 in Hin as (c & Hc & Hcr & Hcd).
           exists c. repeat split; try assumption.
           apply in_app_iff. now left.
        -- exists rv. repeat split; [|assumption].
           apply in_app_iff. right. now left.
      * intros (c & Hc & Hcr & Hcd). apply Hy.
        apply in_app_iff in Hc as [Hc|[<-|[]]].
        -- left. apply Hy0. now exists c.
        -- right. split; [now symmetry | assumption].
      * rewrite Hold; [assumption|].
        intros [= E]. apply Hnew. rewrite <- E. apply in_map.
        eapply nth_error_In; eassumption.
    + assert (r = n).
      { assert (r < length (generator ++ [rv]))%nat
          by (apply nth_error_Some; congruence).
        rewrite length_app in *. simpl in *. lia. }
      subst r. rewrite nth_error_app2 in Hr by lia.
      rewrite <- Hlen, Nat.sub_diag in Hr. injection Hr as <-.
      exists rv'. split; [assumption|]. repeat split; try assumption.
      * rewrite Slab. apply incl_refl.
      * rewrite Hnext'. constructor.
      * rewrite Hnext'. intros [].
      * intros (c & Hc & _ & Hcd). exfalso. apply Hnew.
        apply in_app_iff in Hc as [Hc|[<-|[]]].
        -- exact (g_parents G _ _ Hc Hcd).
        -- now apply Hpar.
      * unfold map_. apply dict_get_set_same.
  - intros c d Hc Hd. rewrite map_app. apply in_app_iff. left.
    apply in_app_iff in Hc as [Hc|[<-|[]]].
    + exact (g_parents G _ _ Hc Hd).
    + now apply Hpar.
  - rewrite !filter_app, !map_app. simpl.
    rewrite (@bases_after_link (objs st) objs0).
    + rewrite <- (g_bases G). rewrite (constructed_is_base C).
      unfold no_parent at 2. rewrite Stuple. unfold no_parent.
      destruct (_down_revision_tuple rv); simpl;
        [now rewrite Srev | now rewrite app_nil_r].
    + eapply Forall2_impl; [|exact F].
      intros a b [(? & ? & _) _]. now split.
  - rewrite !filter_app, !map_app. simpl. unfold is_head at 2.
    rewrite Hnext'. simpl. rewrite Srev. unfold heads_with. f_equal.
    rewrite (g_heads G). symmetry. apply heads_after_link.
    assert (F' : Forall2 (fun o o' => In o (objs st) ->
                   revision o' = revision o /\ revision o <> revision rv
                   /\ (nextrev o' = [] <->
                       nextrev o = []
                       /\ ~ In (revision o) (_down_revision_tuple rv)))
                   (objs st) objs0).
    { eapply Forall2_impl; [|exact F].
      intros a b [(? & _) Hb] Hin. destruct (Hb Hin) as [Hne Hiff].
      split; [assumption|]. split; assumption. }
    exact (@Forall2_In_l _ _ _ _ _ _ (incl_refl _) F').
  - intros k v Hk. unfold map_ in Hk. rewrite dict_get_set in Hk.
    destruct (key_eqb (KStr (revision rv)) k) eqn:E.
    + apply key_eqb_eq in E. subst k. injection Hk as <-.
      right. exists (revision rv), n. repeat split.
      rewrite length_app. simpl. apply Forall2_length in F. lia.
    + destruct (g_keys G _ Hk) as [?|(s & r & -> & -> & L)]; [now left|].
      right. exists s, r. repeat split.
      rewrite length_app. simpl. apply Forall2_length in F. lia.
  - destruct (g_sentinels G) as [S1 S2].
    split; rewrite Hold; try assumption; discriminate.
Qed.

Lemma add_revision_graph_witness :
  exists st',
    add_revision 0 (built 0 Examples.chain3)
      (Revision_init "D" (PStr "C") PNone) false = Added [] st'
    /\ graph_of (Examples.chain3 ++ [Revision_init "D" (PStr "C") PNone]) st'.
Proof.
  apply (@add_revision_graph 0 Examples.chain3).
  - refine (proj2 (@build_graph Examples.chain3 _ _ 0 [] _ eq_refl)).
    + repeat constructor; eexists _, _, _; reflexivity.
    + repeat constructor; simpl; intuition discriminate.
  - eexists _, _, _; reflexivity.
  - reflexivity.
  - reflexivity.
  - intros d [<-|[]]. simpl. tauto.
Defined.

(* ================================================================== *)
(** * Branch labels as keys of the dictionary *)

Lemma register_labels_keeps objs rev name labels : forall map_ map' k v,
  register_labels objs rev name labels map_ = Ok map' ->
  dict_get map_ k = Some v -> dict_get map' k = Some v.
Proof.
  induction labels as [|l labels IH]; simpl; intros map_ map' k v H Hk.
  - now injection H as <-.
  - destruct (dict_get map_ (KStr l)) as [other|] eqn:E.
    { destruct (attr objs other revision); discriminate. }
    eapply IH; [eassumption|]. rewrite dict_get_set.
    destruct (key_eqb (KStr l) k) eqn:Ek; [|assumption].
    apply key_eqb_eq in Ek. congruence.
Qed.

Lemma register_labels_value objs rev name labels : forall map_ map' l,
  register_labels objs rev name labels map_ = Ok map' ->
  In l labels ->
  dict_get map' (KStr l) = Some (Some rev) /\ NoDup labels.
Proof.
  induction labels as [|l0 labels IH]; simpl; intros map_ map' l H Hin;
    [destruct Hin|].
  destruct (dict_get map_ (KStr l0)) as [other|] eqn:E.
  { destruct (attr objs other revision); discriminate. }
  assert (Hnd : NoDup (l0 :: labels)).
  { constructor.
    - intros Hl0.
      destruct (@register_labels_fresh _ _ _ _ _ _ l0 H Hl0) as [F _].
      rewrite dict_get_set_same in F. discriminate.
    - destruct labels as [|l1 labels']; [constructor|].
      exact (proj2 (IH _ _ l1 H (or_introl eq_refl))). }
  split; [|assumption].
  destruct Hin as [<-|Hin].
  - eapply register_labels_keeps; [eassumption|]. apply dict_get_set_same.
  - exact (proj1 (IH _ _ l H Hin)).
Qed.

Lemma _add_branches_value fuel objs map_ rev objs' map' rv l :
  _add_branches fuel objs map_ rev = Ok (objs', map') ->
  nth_error objs rev = Some rv -> branch_labels rv <> [] ->
  In l (_orig_branch_labels rv) ->
  dict_get map' (KStr l) = Some (Some rev) /\ NoDup (_orig_branch_labels rv).
Proof.
  unfold _add_branches. intros H Hrv Hne Hl. bind_inv H. apply deref_ok in E.
  assert (x = rv) by congruence. subst x.
  destruct (branch_labels rv); [congruence|].
  bind_inv H. bind_inv H. bind_inv H. bind_inv H. injection H as <- <-.
  eapply register_labels_value; eassumption.
Qed.

Lemma add_all_branches_value fuel labeled : forall objs map_ objs' map' r o l,
  add_all_branches fuel labeled objs map_ = Ok (objs', map') ->
  In r labeled -> nth_error objs r = Some o -> branch_labels o <> [] ->
  In l (_orig_branch_labels o) ->
  dict_get map' (KStr l) = Some (Some r) /\ NoDup (_orig_branch_labels o).
Proof.
  induction labeled as [|rev labeled IH]; simpl;
    intros objs map_ objs' map' r o l H Hin Hn Hne Hl; [destruct Hin|].
  bind_inv H. destruct x as [objs1 map1].
  pose proof (_add_branches_ext _ _ _ _ E) as [S1 D1].
  pose proof (add_all_branches_ext _ _ _ _ H) as [S2 D2].
  destruct Hin as [->|Hin].
  - destruct (@_add_branches_value _ _ _ _ _ _ _ _ E Hn Hne Hl) as [V N].
    split; [|assumption]. exact (proj1 D2 _ _ V).
  - destruct (proj2 S1 _ _ Hn) as (o1 & Hn1 & (_ & _ & Ho & _ & I)).
    rewrite <- Ho. apply (IH _ _ _ _ r o1 l H Hin Hn1).
    + destruct (branch_labels o) as [|b bs]; [congruence|].
      intros N. specialize (I b (or_introl eq_refl)). now rewrite N in I.
    + now rewrite Ho.
Qed.

(** The branch labels of a built map.  When the build of revisions fresh
    from their constructor, with ids all different, goes through, a label
    that a revision declares is a key of the dictionary for that
    revision, [get_revisions] and [get_revision] resolve it to that
    revision when it has no ['@'] and is none of the symbols, it is the
    id of no revision, no other revision declares it, and the revision
    declares it once. *)
Theorem build_label_lookup fuelb generator w st r o l :
  Forall constructed generator -> NoDup (map revision generator) ->
  RevisionMap_build fuelb generator = (w, Ok st) ->
  nth_error generator r = Some o -> In l (_orig_branch_labels o) ->
  dict_get (_revision_map st) (KStr l) = Some (Some r)
  /\ (bare l -> forall fuel,
        get_revisions (S fuel) st (IStr l) = Ok [Some r]
        /\ get_revision (S fuel) st (Some l) = Ok (Some r))
  /\ ~ In l (map revision generator)
  /\ (forall r' o', nth_error generator r' = Some o' ->
                    In l (_orig_branch_labels o') -> r' = r)
  /\ NoDup (_orig_branch_labels o).
Proof.
  intros Hcons Hnodup Hbuild Hn Hl.
  destruct (build_before_labels Hcons Hnodup _ Hbuild)
    as (objs1 & Hlab & _ & Hobj & _ & _).
  destruct (Hobj _ _ Hn) as (o1 & Hn1 & (_ & _ & Ho1 & Hb1)).
  assert (Hc : constructed o).
  { rewrite Forall_forall in Hcons. apply Hcons.
    eapply nth_error_In; eassumption. }
  assert (Hne : branch_labels o1 <> []).
  { intros N. rewrite Hb1 in N.
    apply (constructed_labels l Hc) in Hl. now rewrite N in Hl. }
  assert (Hreg : In r (i_labeled (index_revisions generator))).
  { eapply labelled_registered; [eassumption | congruence]. }
  assert (Hl1 : In l (_orig_branch_labels o1)) by now rewrite Ho1.
  destruct (add_all_branches_value _ _ _ _ _ _ Hlab Hreg Hn1 Hne Hl1)
    as [V N].
  destruct (add_all_branches_fresh _ _ _ _ _ _ Hlab Hreg Hn1 Hne Hl1)
    as [F _].
  split; [assumption|]. split; [|split; [|split]].
  - intros Hbare fuel. split.
    + now apply get_revisions_bare.
    + destruct Hbare as (Hat & Hhs & Hh & Hb).
      unfold get_revision. cbn [_resolve_revision_number].
      rewrite Hat, Hhs, Hh, Hb.
      cbn [bind to_tuple _revision_for_ident given]. now rewrite V.
  - intros Hin. apply in_map_iff in Hin as (g & <- & Hg).
    apply In_nth_error in Hg as (rg & Hrg).
    rewrite with_sentinels_str in F.
    rewrite (@index_get_nodup _ Hnodup _ _ Hrg) in F. discriminate.
  - intros r' o' Hn' Hl'. destruct (Nat.eq_dec r' r) as [E|E]; [assumption|].
    destruct (@build_label_owner _ Hcons Hnodup _ _ _ Hbuild _ _ _ _ _ Hn' Hn E Hl' Hl).
  - now rewrite <- Ho1.
Qed.

Lemma build_label_lookup_witness :
  dict_get (_revision_map (built 5 Examples.labelled_chain)) (KStr "rel1")
  = Some (Some 1%nat)
  /\ (bare "rel1" -> forall fuel,
        get_revisions (S fuel) (built 5 Examples.labelled_chain) (IStr "rel1")
        = Ok [Some 1%nat]
        /\ get_revision (S fuel) (built 5 Examples.labelled_chain) (Some "rel1")
           = Ok (Some 1%nat))
  /\ ~ In "rel1" (map revision Examples.labelled_chain)
  /\ (forall r' o', nth_error Examples.labelled_chain r' = Some o' ->
                    In "rel1" (_orig_branch_labels o') -> r' = 1%nat)
  /\ NoDup ["rel1"].
Proof.
  apply (@build_label_lookup 5 Examples.labelled_chain []
           (built 5 Examples.labelled_chain) 1
           (Revision_init "B" (PStr "A") (PStr "rel1")) "rel1").
  - repeat constructor; eexists _, _, _; reflexivity.
  - repeat constructor; simpl; intuition discriminate.
  - reflexivity.
  - reflexivity.
  - now left.
Defined.

(* ================================================================== *)
(** * Sharing a lineage *)

Lemma inter_nonempty (l xs : list (option nat)) :
  (match set_inter node_eqb l xs with [] => false | _ => true end) = true
  <-> exists x, In x l /\ In x xs.
Proof.
  split.
  - destruct (set_inter node_eqb l xs) as [|x rest] eqn:E; [discriminate|].
    intros _. exists x.
    apply (proj1 (In_set_inter node_eqb node_eqb_eq x l xs)).
    rewrite E. now left.
  - intros (x & Hl & Hx).
    pose proof (proj2 (In_set_inter node_eqb node_eqb_eq x l xs)
                  (conj Hl Hx)) as Hin.
    destruct (set_inter node_eqb l xs); [destruct Hin | reflexivity].
Qed.

Lemma shares_lineage_key st (rank : string -> nat) ra rb oa a b fuel :
  wf_map st ->
  (forall r o d, nth_error (objs st) r = Some o ->
     In d (_down_revision_tuple o) -> (rank d < rank (revision o))%nat) ->
  nth_error (objs st) ra = Some oa ->
  lineage_truthy a = true -> lineage_tuple a = [Some b] ->
  dict_get (_revision_map st) (KStr b) = Some (Some rb) ->
  (S (width st) ^ top_rank st rank + 3 <= fuel)%nat ->
  exists v,
    _shares_lineage fuel st (revision oa) a = Ok v
    /\ (v = true <-> ancestor st ra rb \/ ancestor st rb ra).
Proof.
  intros Hwf Hrank Ha Hne Htup Hb Hfuel.
  destruct fuel as [|[|fuel]]; try lia.
  assert (La : (ra < length (objs st))%nat)
    by (apply nth_error_Some; congruence).
  assert (Hpow : forall k, (k <= top_rank st rank)%nat ->
            (S (width st) ^ k < S fuel)%nat).
  { intros k Hk.
    assert (S (width st) ^ k <= S (width st) ^ top_rank st rank)%nat
      by (apply Nat.pow_le_mono_r; lia).
    lia. }
  destruct (@walk_closure nextrev (objs st) (_revision_map st)
              (h_up st rank) (width st) (step_up Hwf rank Hrank)
              (@width_up st) (S fuel) [ra] false)
    as (desc & Hdesc & Hd).
  { intros t [<-|[]]. split; [assumption|]. apply Hpow. unfold h_up. lia. }
  { intros t t' [<-|[]] [<-|[]] _. reflexivity. }
  destruct (@walk_closure _down_revision_tuple (objs st) (_revision_map st)
              (h_down st rank) (width st) (step_down Hwf rank Hrank)
              (@width_down st) (S fuel) [ra] false)
    as (anc & Hanc & Hc).
  { intros t [<-|[]]. split; [assumption|]. apply Hpow.
    unfold h_down, rev_id. rewrite Ha. eapply rank_le_top; eassumption. }
  { intros t t' [<-|[]] [<-|[]] _. reflexivity. }
  eexists. split.
  - cbn [_shares_lineage]. rewrite Hne, Htup.
    cbn [negb _revision_for_ident given mapM bind].
    rewrite (wf_key Hwf _ Ha), Hb. cbn [bind].
    unfold _get_descendant_nodes, _get_ancestor_nodes.
    cbn [map] in Hdesc, Hanc. rewrite Hdesc, Hanc. cbn [bind]. reflexivity.
  - rewrite inter_nonempty. split.
    + intros (x & Hl & [<-|[]]).
      apply (proj1 (In_set_update node_eqb node_eqb_eq _ _ _)) in Hl
        as [Hl|Hl].
      * apply (proj1 (In_set_of node_eqb node_eqb_eq _ _)) in Hl.
        apply in_map_iff in Hl as (r & [= ->] & Hr).
        apply Hd in Hr as (t & [<-|[]] & Hr).
        right. now apply (descendant_ancestor Hwf).
      * apply in_map_iff in Hl as (r & [= ->] & Hr).
        apply Hc in Hr as (t & [<-|[]] & Hr). now left.
    + intros H. exists (Some rb). split; [|now left].
      apply (proj2 (In_set_update node_eqb node_eqb_eq _ _ _)).
      destruct H as [H|H].
      * right. apply in_map. apply Hc. exists ra. split; [now left | exact H].
      * left. apply (proj2 (In_set_of node_eqb node_eqb_eq _ _)).
        apply in_map. apply Hd. exists ra. split; [now left|].
        now apply (descendant_ancestor Hwf).
Qed.

Lemma shares_lineage_run st (rank : string -> nat) ra rb oa ob fuel :
  wf_map st ->
  (forall r o d, nth_error (objs st) r = Some o ->
     In d (_down_revision_tuple o) -> (rank d < rank (revision o))%nat) ->
  nth_error (objs st) ra = Some oa -> nth_error (objs st) rb = Some ob ->
  str_truthy (revision ob) = true ->
  (S (width st) ^ top_rank st rank + 3 <= fuel)%nat ->
  exists v,
    _shares_lineage fuel st (revision oa) (LStr (revision ob)) = Ok v
    /\ (v = true <-> ancestor st ra rb \/ ancestor st rb ra).
Proof.
  intros Hwf Hrank Ha Hb Hne Hfuel.
  exact (@shares_lineage_key st rank ra rb oa (LStr (revision ob))
           (revision ob) fuel Hwf Hrank Ha Hne eq_refl
           (wf_key Hwf _ Hb) Hfuel).
Qed.

(** [_shares_lineage] in a map without cycles, built from revisions with
    ids all different and not empty: with enough fuel it returns, two
    revisions share a lineage exactly when one is an ancestor of the
    other (or they are the same), and the answer is the same whichever
    of the two is the target. *)
Theorem shares_lineage_related generator fuelb w st (rank : string -> nat)
    ra rb A B :
  Forall constructed generator ->
  NoDup (map revision generator) ->
  RevisionMap_build fuelb generator = (w, Ok st) ->
  (forall c d, In c generator -> In d (_down_revision_tuple c) ->
               (rank d < rank (revision c))%nat) ->
  nth_error generator ra = Some A -> nth_error generator rb = Some B ->
  str_truthy (revision A) = true -> str_truthy (revision B) = true ->
  exists fuel0, forall fuel, (fuel0 <= fuel)%nat ->
    exists v,
      _shares_lineage fuel st (revision A) (LStr (revision B)) = Ok v
      /\ _shares_lineage fuel st (revision B) (LStr (revision A)) = Ok v
      /\ (v = true <-> ancestor st ra rb \/ ancestor st rb ra).
Proof.
  intros Hcons Hnd Hbuild Hrank HA HB HtA HtB.
  destruct (@build_graph _ Hcons Hnd _ _ _ Hbuild) as [_ G].
  pose proof (graph_wf Hnd G) as Hwf.
  assert (Hrank' : forall r o d,
            nth_error (objs st) r = Some o -> In d (_down_revision_tuple o) ->
            (rank d < rank (revision o))%nat).
  { intros r o d Hn Hd. destruct (graph_obj _ G Hn) as (g & Hg & -> & Ed).
    rewrite Ed in Hd. eapply Hrank; [|eassumption].
    eapply nth_error_In; eassumption. }
  destruct (g_node G _ HA) as (A' & HA' & RA & _).
  destruct (g_node G _ HB) as (B' & HB' & RB & _).
  exists (S (width st) ^ top_rank st rank + 3)%nat. intros fuel Hfuel.
  destruct (@shares_lineage_run st rank ra rb A' B' fuel Hwf Hrank' HA' HB')
    as (v & Hv & Hiff); [congruence | assumption|].
  destruct (@shares_lineage_run st rank rb ra B' A' fuel Hwf Hrank' HB' HA')
    as (v' & Hv' & Hiff'); [congruence | assumption|].
  assert (v' = v).
  { destruct v, v'; try reflexivity.
    - apply (proj2 Hiff'). destruct (proj1 Hiff eq_refl); auto.
    - symmetry. apply (proj2 Hiff). destruct (proj1 Hiff' eq_refl); auto. }
  subst v'. exists v. rewrite <- RA, <- RB. repeat split; try assumption.
  - apply Hiff.
  - apply Hiff.
Qed.

Lemma shares_lineage_related_witness :
  exists fuel0, forall fuel, (fuel0 <= fuel)%nat ->
    exists v,
      _shares_lineage fuel (built 0 Examples.diamond) "X" (LStr "Y") = Ok v
      /\ _shares_lineage fuel (built 0 Examples.diamond) "Y" (LStr "X") = Ok v
      /\ (v = true <-> ancestor (built 0 Examples.diamond) 1 2
                       \/ ancestor (built 0 Examples.diamond) 2 1).
Proof.
  apply (@shares_lineage_related Examples.diamond 0 [] (built 0 Examples.diamond)
           (fun s => if String.eqb s "A" then 0
                     else if String.eqb s "M" then 2 else 1)%nat
           1 2 (Revision_init "X" (PStr "A") PNone)
           (Revision_init "Y" (PStr "A") PNone)).
  - repeat constructor; eexists _, _, _; reflexivity.
  - repeat constructor; simpl; intuition discriminate.
  - reflexivity.
  - intros c d [<-|[<-|[<-|[<-|[]]]]]; simpl; intros Hd;
      repeat (destruct Hd as [<-|Hd]; [simpl; lia|]); destruct Hd.
  - reflexivity.
  - reflexivity.
  - reflexivity.
  - reflexivity.
Defined.

(* ================================================================== *)
(** * Identifiers with a branch: ["<branch>@<id>"] *)

Lemma resolve_branched fuel st b x :
  contains_at b = false -> bare x ->
  _resolve_revision_number (S fuel) st (Some (b ++ String at_sign x)%string)
  = Ok ([Some x], Some b).
Proof.
  intros Hb (Hat & Hhs & Hh & Hbase). cbn [_resolve_revision_number].
  rewrite contains_at_app, (@split_at_app b x Hb), Hhs, Hh, Hbase. reflexivity.
Qed.

(** A branch that the map does not know.  When [b] is no key of the
    dictionary and not the prefix of exactly one known id, every
    ["b@x"] with a bare [x] raises the [ResolutionError]
    ["No such branch: 'b'"], from [get_revision] and from
    [get_revisions]: also when [b] is the prefix of several ids. *)
Theorem unknown_branch fuel st b x :
  Forall plain_key (dict_keys (_revision_map st)) ->
  str_truthy b = true -> contains_at b = false -> bare x ->
  dict_get (_revision_map st) (KStr b) = None ->
  length (candidates st b) <> 1%nat ->
  get_revision (S (S (S fuel))) st (Some (b ++ String at_sign x)%string)
  = Err (ResolutionError ("No such branch: '" ++ b ++ "'")%string)
  /\ get_revisions (S (S (S fuel))) st (IStr (b ++ String at_sign x)%string)
     = Err (ResolutionError ("No such branch: '" ++ b ++ "'")%string).
Proof.
  intros Hk Ht Hb Hx Hg Hc.
  assert (Hbr : _resolve_branch (S (S fuel)) st b
                = Err (ResolutionError (no_such_branch b))).
  { cbn [_resolve_branch]. rewrite Hg.
    rewrite (@_revision_for_ident_partial fuel st b Hk Hg).
    destruct (candidates st b) as [|y [|z revs]]; simpl in Hc;
      [reflexivity | congruence | reflexivity]. }
  assert (Hid : _revision_for_ident (S (S (S fuel))) st (Some x) (Some b)
                = Err (ResolutionError (no_such_branch b))).
  { cbn [_revision_for_ident given]. rewrite Ht, Hbr. reflexivity. }
  split.
  - unfold get_revision. rewrite (@resolve_branched _ st b x Hb Hx). cbn [bind].
    exact Hid.
  - cbn [get_revisions]. rewrite (@resolve_branched _ st b x Hb Hx).
    cbn [bind mapM]. rewrite Hid. reflexivity.
Qed.

Lemma unknown_branch_witness :
  get_revision 3 (built 20 Examples.prefixes) (Some "abc@abc123")
  = Err (ResolutionError "No such branch: 'abc'")
  /\ get_revisions 3 (built 20 Examples.prefixes) (IStr "abc@abc123")
     = Err (ResolutionError "No such branch: 'abc'").
Proof.
  apply (@unknown_branch 0 (built 20 Examples.prefixes) "abc" "abc123").
  - repeat constructor.
  - reflexivity.
  - reflexivity.
  - repeat split.
  - reflexivity.
  - discriminate.
Defined.

(** Membership of a branch.  In a map without cycles built from
    revisions with ids all different, where [b] is a key of the
    dictionary (a label or an id) for the revision [B]: with enough fuel,
    ["b@x"] resolves to the revision [X] of id [x] when [X] and [B] are
    in one line (one is an ancestor of the other, or they are the same),
    and raises the [ResolutionError] ["Revision x is not a member of
    branch 'b'"] when they are not. *)
Theorem branch_membership generator fuelb w st (rank : string -> nat)
    rx rb X B b :
  Forall constructed generator ->
  NoDup (map revision generator) ->
  RevisionMap_build fuelb generator = (w, Ok st) ->
  (forall c d, In c generator -> In d (_down_revision_tuple c) ->
               (rank d < rank (revision c))%nat) ->
  nth_error generator rx = Some X -> nth_error generator rb = Some B ->
  dict_get (_revision_map st) (KStr b) = Some (Some rb) ->
  str_truthy b = true -> contains_at b = false ->
  bare (revision X) -> str_truthy (revision B) = true ->
  exists fuel0, forall fuel, (fuel0 <= fuel)%nat ->
    (ancestor st rx rb \/ ancestor st rb rx ->
     get_revision fuel st (Some (b ++ String at_sign (revision X))%string)
     = Ok (Some rx))
    /\ (~ (ancestor st rx rb \/ ancestor st rb rx) ->
        get_revision fuel st (Some (b ++ String at_sign (revision X))%string)
        = Err (ResolutionError
                 ("Revision " ++ revision X ++ " is not a member of branch '"
                    ++ b ++ "'")%string)).
Proof.
  intros Hcons Hnd Hbuild Hrank HX HB Hgb Htb Hcb HbX HtB.
  destruct (@build_graph _ Hcons Hnd _ _ _ Hbuild) as [_ G].
  pose proof (graph_wf Hnd G) as Hwf.
  assert (Hrank' : forall r o d,
            nth_error (objs st) r = Some o -> In d (_down_revision_tuple o) ->
            (rank d < rank (revision o))%nat).
  { intros r o d Hn Hd. destruct (graph_obj _ G Hn) as (g & Hg & -> & Ed).
    rewrite Ed in Hd. eapply Hrank; [|eassumption].
    eapply nth_error_In; eassumption. }
  destruct (g_node G _ HX) as (X' & HX' & RX & _ & _ & _ & _ & _ & HgX).
  destruct (g_node G _ HB) as (B' & HB' & RB & _).
  exists (S (width st) ^ top_rank st rank + 5)%nat. intros fuel Hfuel.
  destruct fuel as [|fuel]; [lia|].
  destruct (@shares_lineage_run st rank rx rb X' B' fuel Hwf Hrank' HX' HB')
    as (v & Hv & Hiff); [congruence | lia|].
  assert (Hbr : _resolve_branch fuel st b = Ok (Some rb)).
  { destruct fuel as [|fuel']; [lia|]. cbn [_resolve_branch].
    now rewrite Hgb. }
  assert (Hrun : get_revision (S fuel) st
                   (Some (b ++ String at_sign (revision X))%string)
                 = if v then Ok (Some rx)
                   else Err (ResolutionError (not_member (revision X) b))).
  { unfold get_revision.
    rewrite (@resolve_branched _ st b (revision X) Hcb HbX). cbn [bind].
    cbn [_revision_for_ident given]. rewrite Htb, Hbr.
    cbn [bind]. rewrite HgX. cbn [bind]. unfold attr, deref.
    rewrite HX', HB'. cbn [bind]. rewrite Hv.
    cbn [bind]. rewrite RX. reflexivity. }
  rewrite Hrun. split.
  - intros H. now rewrite (proj2 Hiff H).
  - intros H. destruct v; [|reflexivity]. destruct H. now apply Hiff.
Qed.

Lemma branch_membership_witness :
  exists fuel0, forall fuel, (fuel0 <= fuel)%nat ->
    (ancestor (built 9 Examples.labelled_merge) 3 1
     \/ ancestor (built 9 Examples.labelled_merge) 1 3 ->
     get_revision fuel (built 9 Examples.labelled_merge) (Some "rel1@Z")
     = Ok (Some 3%nat))
    /\ (~ (ancestor (built 9 Examples.labelled_merge) 3 1
           \/ ancestor (built 9 Examples.labelled_merge) 1 3) ->
        get_revision fuel (built 9 Examples.labelled_merge) (Some "rel1@Z")
        = Err (ResolutionError
                 "Revision Z is not a member of branch 'rel1'")).
Proof.
  apply (@branch_membership Examples.labelled_merge 9 []
           (built 9 Examples.labelled_merge)
           (fun s => if String.eqb s "A" then 0
                     else if String.eqb s "B" then 1
                     else if String.eqb s "C" then 2
                     else if String.eqb s "D" then 3 else 0)%nat
           3 1 (Revision_init "Z" PNone PNone)
           (Revision_init "B" (PStr "A") (PStr "rel1")) "rel1").
  - repeat constructor; eexists _, _, _; reflexivity.
  - repeat constructor; simpl; intuition discriminate.
  - reflexivity.
  - intros c d [<-|[<-|[<-|[<-|[<-|[]]]]]]; simpl; intros Hd;
      repeat (destruct Hd as [<-|Hd]; [simpl; lia|]); destruct Hd.
  - reflexivity.
  - reflexivity.
  - reflexivity.
  - reflexivity.
  - reflexivity.
  - repeat split.
  - reflexivity.
Defined.

(* ================================================================== *)
(** * The warnings of a build *)

Lemma index_loop_warnings : forall generator r acc seen,
  (forall s, dict_mem (i_map acc) (KStr s) = str_mem s seen) ->
  i_warnings (index_loop r generator acc)
  = i_warnings acc
    ++ map WarnPresentTwice (again seen (map revision generator)).
Proof.
  induction generator as [|rv generator IH]; intros r acc seen Hmem.
  - simpl. now rewrite app_nil_r.
  - cbn [index_loop map again].
    rewrite (IH (S r) (index_step r rv acc) (revision rv :: seen)).
    + cbn [index_step i_warnings]. rewrite Hmem, map_app.
      destruct (str_mem (revision rv) seen); cbn [map app].
      * now rewrite <- app_assoc.
      * reflexivity.
    + intros s. cbn [index_step i_map]. unfold dict_mem.
      rewrite dict_get_set. unfold str_mem, mem. cbn [existsb].
      cbn [key_eqb]. rewrite (String.eqb_sym s (revision rv)).
      destruct (String.eqb (revision rv) s); [reflexivity|].
      specialize (Hmem s). unfold dict_mem, str_mem, mem in Hmem.
      exact Hmem.
Qed.

Lemma again_nil : forall l seen,
  again seen l = [] <-> NoDup l /\ forall x, In x l -> ~ In x seen.
Proof.
  induction l as [|x l IH]; intros seen.
  - simpl. split; [intros _; split; [constructor | intros ? []] | reflexivity].
  - cbn [again]. split.
    + intros H. apply app_eq_nil in H as [H1 H2].
      apply IH in H2 as [Hnd Hx].
      assert (Hns : ~ In x seen).
      { intros Hin. apply (mem_In String.eqb String.eqb_eq) in Hin.
        unfold str_mem in H1. rewrite Hin in H1. discriminate. }
      split.
      * constructor; [|assumption]. intros Hin.
        apply (Hx x Hin). now left.
      * intros y [<-|Hy]; [assumption|].
        intros Hin. apply (Hx y Hy). now right.
    + intros [Hnd Hx]. inversion Hnd as [|? ? Hnot Hnd']; subst.
      assert (E : str_mem x seen = false).
      { apply (mem_false String.eqb String.eqb_eq). apply Hx. now left. }
      rewrite E. cbn [app]. apply IH. split; [assumption|].
      intros y Hy [<-|Hin]; [contradiction|].
      apply (Hx y); [now right | assumption].
Qed.

(** The warnings of a build that goes through: one
    ["Revision %s is present more than once"] for every revision whose
    id an earlier one has, in the order of the generator, and nothing
    else; there is none exactly when the ids are all different. *)
Theorem build_warnings fuel generator w st :
  RevisionMap_build fuel generator = (w, Ok st) ->
  w = map WarnPresentTwice (again [] (map revision generator))
  /\ (w = [] <-> NoDup (map revision generator)).
Proof.
  intros H. apply RevisionMap_build_inv in H as (_ & _ & _ & _ & ->).
  assert (E : i_warnings (index_revisions generator)
              = map WarnPresentTwice (again [] (map revision generator))).
  { unfold index_revisions. now rewrite (index_loop_warnings _ _ _ []). }
  split; [exact E|]. rewrite E. split.
  - intros Hnil. apply map_eq_nil in Hnil. now apply again_nil in Hnil.
  - intros Hnd. replace (again [] (map revision generator)) with (@nil string);
      [reflexivity|].
    symmetry. apply again_nil. split; [assumption | intros ? _ []].
Qed.

Lemma build_warnings_witness :
  [WarnPresentTwice "A"]
  = map WarnPresentTwice
      (again [] (map revision [Revision_init "A" PNone PNone;
                               Revision_init "B" (PStr "A") PNone;
                               Revision_init "A" PNone PNone]))
  /\ ([WarnPresentTwice "A"] = [] <->
      NoDup (map revision [Revision_init "A" PNone PNone;
                           Revision_init "B" (PStr "A") PNone;
                           Revision_init "A" PNone PNone])).
Proof.
  exact (@build_warnings 0 [Revision_init "A" PNone PNone;
                            Revision_init "B" (PStr "A") PNone;
                            Revision_init "A" PNone PNone]
           [WarnPresentTwice "A"] _ eq_refl).
Defined.

(* ================================================================== *)
(** * Adding a revision whose label is taken *)

(** [add_revision] of a revision with branch labels, whose id is new to
    the map: when the first label it declares is a key of the dictionary
    already (the id or the label of another revision), [RevisionError]
    ["Branch name '%s' in revision %s already used by revision %s"] is
    raised with that revision, and with the added revision itself when
    the label is its own id. *)
Theorem add_revision_label_used fuel st rv l ls :
  constructed rv -> _orig_branch_labels rv = l :: ls ->
  dict_mem (_revision_map st) (KStr (revision rv)) = false ->
  (forall other oo,
     dict_get (_revision_map st) (KStr l) = Some (Some other) ->
     nth_error (objs st) other = Some oo ->
     add_revision fuel st rv false
     = AddRaised [] (RevisionError
                       (BranchNameUsed l (revision rv) (revision oo))))
  /\ (l = revision rv ->
      add_revision fuel st rv false
      = AddRaised [] (RevisionError (BranchNameUsed l l l))).
Proof.
  intros C Ho Hfresh.
  assert (Hne : branch_labels rv <> []).
  { intros N. assert (Hl : In l (branch_labels rv)).
    { apply (constructed_labels l C). rewrite Ho. now left. }
    now rewrite N in Hl. }
  assert (Hrv : nth_error (objs st ++ [rv]) (length (objs st)) = Some rv).
  { rewrite nth_error_app2 by lia. now rewrite Nat.sub_diag. }
  assert (Hrun : forall other oo,
            dict_get (dict_set (_revision_map st) (KStr (revision rv))
                        (Some (length (objs st)))) (KStr l)
            = Some (Some other) ->
            nth_error (objs st ++ [rv]) other = Some oo ->
            add_revision fuel st rv false
            = AddRaised [] (RevisionError
                              (BranchNameUsed l (revision rv) (revision oo)))).
  { intros other oo Hg Hoo. unfold add_revision. rewrite Hfresh.
    cbn [negb andb]. unfold add_revision_run, _add_branches.
    unfold deref at 1. rewrite Hrv. cbn [bind].
    destruct (branch_labels rv) as [|b bs]; [congruence|].
    rewrite Ho. cbn [register_labels]. rewrite Hg.
    unfold attr, deref. rewrite Hoo. reflexivity. }
  split.
  - intros other oo Hg Hoo. apply (Hrun other oo).
    + rewrite dict_get_set_other; [assumption|].
      intros [= E]. unfold dict_mem in Hfresh. rewrite E, Hg in Hfresh.
      discriminate.
    + rewrite nth_error_app1; [assumption|].
      apply nth_error_Some. congruence.
  - intros ->. apply (Hrun (length (objs st)) rv).
    + apply dict_get_set_same.
    + exact Hrv.
Qed.

Lemma add_revision_label_used_witness :
  add_revision 5 (built 5 Examples.labelled_chain)
    (Revision_init "D" (PStr "C") (PStr "rel1")) false
  = AddRaised [] (RevisionError (BranchNameUsed "rel1" "D" "B")).
Proof.
  refine (proj1 (@add_revision_label_used 5 (built 5 Examples.labelled_chain)
                   (Revision_init "D" (PStr "C") (PStr "rel1")) "rel1" []
                   _ eq_refl eq_refl) 1%nat _ eq_refl eq_refl).
  eexists _, _, _; reflexivity.
Defined.

(* ================================================================== *)
(** * The exclusive range *)

(** [iterate_revisions] with [inclusive=False], for bounds that are not
    relative: what the inclusive range yields, in the same order, less
    the revisions the lower identifier resolves to; and it raises what
    resolving the lower identifier or the inclusive range raises. *)
Theorem exclusive_range fuel st upper lower implicit_base :
  relative_of upper = None -> relative_of lower = None ->
  iterate_revisions fuel st upper lower implicit_base false
  = (requested_lowers <- get_revisions fuel st lower ;;
     out <- iterate_revisions fuel st upper lower implicit_base true ;;
     Ok (filter (not_requested requested_lowers) out)).
Proof.
  intros Hu Hl. rewrite !iterate_revisions_plain by assumption.
  apply _iterate_revisions_exclusive.
Qed.

Lemma exclusive_range_witness :
  names_of (built 20 Examples.chain5)
    (iterate_revisions 20 (built 20 Examples.chain5) (IStr "a4") (IStr "a2")
       false false)
  = Ok ["a4"; "a3"].
Proof.
  rewrite (@exclusive_range 20 (built 20 Examples.chain5) (IStr "a4")
             (IStr "a2") false eq_refl eq_refl).
  reflexivity.
Defined.

(* ================================================================== *)
(** * The constructor of [Revision] *)

(** What [Revision.__init__] makes of [down_revision]: the parents are
    the ids given, whether a single id comes as a string or as a tuple of
    one, and an empty string or an empty tuple gives no parent, as [None]
    does.  A new revision is a base exactly when it has no parent, a
    merge point exactly when it has two parents or more, a head, and no
    branch point; it has the labels it declares. *)
Theorem constructor_normalises r d l :
  let o := Revision_init r d l in
  _down_revision_tuple o
  = match d with PStr EmptyString => [] | _ => to_tuple d [] end
  /\ is_base o = match _down_revision_tuple o with [] => true | _ => false end
  /\ is_merge_point o = (2 <=? length (_down_revision_tuple o))%nat
  /\ is_head o = true /\ is_branch_point o = false
  /\ (forall x, In x (branch_labels o) <-> In x (to_tuple l [])).
Proof.
  cbv zeta. unfold _down_revision_tuple, is_base, is_merge_point.
  cbn [Revision_init down_revision].
  repeat split;
    try (destruct d as [|[|c s]|[|x [|y t]]]; reflexivity).
  - apply (proj1 (In_set_of String.eqb String.eqb_eq _ _)).
  - apply (proj2 (In_set_of String.eqb String.eqb_eq _ _)).
Qed.

(* ================================================================== *)
(** * The revisions of a lineage *)

Lemma filter_for_lineage_run generator st (rank : string -> nat) rb b
    targets fuel :
  NoDup (map revision generator) -> graph_of generator st ->
  (forall c d, In c generator -> In d (_down_revision_tuple c) ->
               (rank d < rank (revision c))%nat) ->
  dict_get (_revision_map st) (KStr b) = Some (Some rb) ->
  bare b -> str_truthy b = true ->
  (forall t, In t targets -> In t (map revision generator)) ->
  (S (width st) ^ top_rank st rank + 5 <= fuel)%nat ->
  exists q,
    filter_for_lineage fuel st targets b = Ok (filter q targets)
    /\ forall t, In t targets ->
         (q t = true <->
          ancestor st (ref_of st t) rb \/ ancestor st rb (ref_of st t)).
Proof.
  intros Hnd G Hrank Hb Hbare Htb Htg Hfuel.
  pose proof (graph_wf Hnd G) as Hwf.
  assert (Hrank' : forall r o d,
            nth_error (objs st) r = Some o -> In d (_down_revision_tuple o) ->
            (rank d < rank (revision o))%nat).
  { intros r o d Hn Hd. destruct (graph_obj _ G Hn) as (g & Hg & -> & Ed).
    rewrite Ed in Hd. eapply Hrank; [|eassumption].
    eapply nth_error_In; eassumption. }
  destruct fuel as [|[|fuel]]; try lia.
  set (p := fun tg => _shares_lineage (S fuel) st tg (LList [Some b])).
  exists (fun tg => match p tg with Ok v => v | Err _ => false end).
  assert (Hp : forall t, In t targets ->
            exists v, p t = Ok v
              /\ (v = true <->
                  ancestor st (ref_of st t) rb \/ ancestor st rb (ref_of st t))).
  { intros t Ht. apply Htg in Ht. apply in_map_iff in Ht as (g & <- & Hg).
    apply In_nth_error in Hg as (r & Hr).
    destruct (g_node G _ Hr) as (o & Ho & Ro & _ & _ & _ & _ & _ & Hk).
    unfold ref_of. rewrite Hk. rewrite <- Ro. unfold p.
    apply (@shares_lineage_key st rank r rb o (LList [Some b]) b (S fuel)
             Hwf Hrank' Ho eq_refl eq_refl Hb).
    lia. }
  split.
  - destruct Hbare as (Hat & Hhs & Hh & Hbase).
    cbn [filter_for_lineage _resolve_revision_number].
    rewrite Hat, Hhs, Hh, Hbase. cbn [bind given app].
    apply filterM_ok. intros t Ht.
    destruct (Hp t Ht) as (v & Hv & _). fold (p t). now rewrite Hv.
  - intros t Ht. destruct (Hp t Ht) as (v & Hv & Hiff). now rewrite Hv.
Qed.

(** [filter_for_lineage] in a map without cycles built from revisions
    with ids all different.  For a bare [b] that is a key of the
    dictionary (a label or an id) for the revision [B], and targets that
    are ids of the map: with enough fuel it returns the targets that are
    in one line with [B] (an ancestor of [B], a descendant, or [B]), in
    the order given. *)
Theorem lineage_filter generator fuelb w st (rank : string -> nat) rb b
    targets :
  Forall constructed generator ->
  NoDup (map revision generator) ->
  RevisionMap_build fuelb generator = (w, Ok st) ->
  (forall c d, In c generator -> In d (_down_revision_tuple c) ->
               (rank d < rank (revision c))%nat) ->
  dict_get (_revision_map st) (KStr b) = Some (Some rb) ->
  bare b -> str_truthy b = true ->
  (forall t, In t targets -> In t (map revision generator)) ->
  exists fuel0, forall fuel, (fuel0 <= fuel)%nat ->
    exists q,
      filter_for_lineage fuel st targets b = Ok (filter q targets)
      /\ forall t, In t targets ->
           (q t = true <->
            ancestor st (ref_of st t) rb \/ ancestor st rb (ref_of st t)).
Proof.
  intros Hcons Hnd Hbuild Hrank Hb Hbare Htb Htg.
  destruct (@build_graph _ Hcons Hnd _ _ _ Hbuild) as [_ G].
  exists (S (width st) ^ top_rank st rank + 5)%nat. intros fuel Hfuel.
  exact (@filter_for_lineage_run generator st rank rb b targets fuel
           Hnd G Hrank Hb Hbare Htb Htg Hfuel).
Qed.

Lemma lineage_filter_witness :
  exists fuel0, forall fuel, (fuel0 <= fuel)%nat ->
    exists q,
      filter_for_lineage fuel (built 9 Examples.labelled_merge)
        ["A"; "Z"; "D"] "rel1"
      = Ok (filter q ["A"; "Z"; "D"])
      /\ forall t, In t ["A"; "Z"; "D"] ->
           (q t = true <->
            ancestor (built 9 Examples.labelled_merge)
              (ref_of (built 9 Examples.labelled_merge) t) 1
            \/ ancestor (built 9 Examples.labelled_merge) 1
                 (ref_of (built 9 Examples.labelled_merge) t)).
Proof.
  apply (@lineage_filter Examples.labelled_merge 9 []
           (built 9 Examples.labelled_merge)
           (fun s => if String.eqb s "A" then 0
                     else if String.eqb s "B" then 1
                     else if String.eqb s "C" then 2
                     else if String.eqb s "D" then 3 else 0)%nat
           1 "rel1" ["A"; "Z"; "D"]).
  - repeat constructor; eexists _, _, _; reflexivity.
  - repeat constructor; simpl; intuition discriminate.
  - reflexivity.
  - intros c d [<-|[<-|[<-|[<-|[<-|[]]]]]]; simpl; intros Hd;
      repeat (destruct Hd as [<-|Hd]; [simpl; lia|]); destruct Hd.
  - reflexivity.
  - repeat split.
  - reflexivity.
  - intros t [<-|[<-|[<-|[]]]]; simpl; tauto.
Defined.

Lemma graph_heads_ids generator st h :
  graph_of generator st -> In h (heads st) -> In h (map revision generator).
Proof.
  intros G Hh. rewrite (g_heads G) in Hh.
  apply in_map_iff in Hh as (o & <- & Ho). apply filter_In in Ho as [Ho _].
  apply In_nth_error in Ho as (r & Hr).
  destruct (graph_obj _ G Hr) as (g & Hg & -> & _).
  apply in_map. eapply nth_error_In; eassumption.
Qed.

(* ================================================================== *)
(** * The current head *)

(** C7.  [get_current_head], and the requests ["head"] and
    ["<branch>@head"], which go through it.  Without a branch label, on
    every map, all the heads qualify: the one head is returned when
    there is exactly one, [None] when there is none, and [MultipleHeads]
    is raised with all the heads and the request ["head"] when there are
    more.  With a branch label [b], in a map without cycles built from
    revisions with ids all different, where [b] is a key of the
    dictionary for the revision [B]: with enough fuel, the heads that
    qualify are the heads in one line with [B] (a descendant of [B], an
    ancestor, or [B]), in the order of [heads], and no other; the one is
    returned, or [None], or [MultipleHeads] is raised with the
    qualifying heads and the request ["b@head"]. *)
Theorem current_head st :
  (forall fuel,
     get_current_head (S fuel) st None
     = match heads st with
       | [] => Ok None
       | [h] => Ok (Some h)
       | hs => Err (MultipleHeads hs "head")
       end
     /\ _resolve_revision_number (S (S fuel)) st (Some "head")
        = (h <- get_current_head (S fuel) st None ;; Ok ([h], None)))
  /\ (forall generator fuelb w (rank : string -> nat) b rb,
        Forall constructed generator ->
        NoDup (map revision generator) ->
        RevisionMap_build fuelb generator = (w, Ok st) ->
        (forall c d, In c generator -> In d (_down_revision_tuple c) ->
                     (rank d < rank (revision c))%nat) ->
        dict_get (_revision_map st) (KStr b) = Some (Some rb) ->
        bare b -> str_truthy b = true ->
        exists fuel0, forall fuel, (fuel0 <= fuel)%nat ->
          exists q,
            (forall h, In h (heads st) ->
               (q h = true <->
                ancestor st (ref_of st h) rb \/ ancestor st rb (ref_of st h)))
            /\ get_current_head (S fuel) st (Some b)
               = match filter q (heads st) with
                 | [] => Ok None
                 | [h] => Ok (Some h)
                 | hs => Err (MultipleHeads hs (b ++ "@head")%string)
                 end
            /\ _resolve_revision_number (S (S fuel)) st
                 (Some (b ++ "@head")%string)
               = (h <- get_current_head (S fuel) st (Some b) ;;
                  Ok ([h], Some b))).
Proof.
  split.
  - intros fuel.
    destruct (@get_current_head_cases fuel st None (heads st) eq_refl)
      as (Hrun & _ & _ & Hreq).
    split.
    + rewrite Hrun. destruct (heads st) as [|h [|h2 l]]; reflexivity.
    + apply Hreq. intros b E. discriminate E.
  - intros generator fuelb w rank b rb Hcons Hnd Hbuild Hrank Hb Hbare Htb.
    destruct (@build_graph _ Hcons Hnd _ _ _ Hbuild) as [_ G].
    exists (S (width st) ^ top_rank st rank + 5)%nat. intros fuel Hfuel.
    destruct (@filter_for_lineage_run generator st rank rb b (heads st) fuel
                Hnd G Hrank Hb Hbare Htb) as (q & Hq & Hiff);
      [intros t Ht; eapply graph_heads_ids; eassumption | assumption|].
    exists q. split; [exact Hiff|].
    assert (Hg : given (Some b) = Some b) by (simpl; now rewrite Htb).
    assert (Hqual : qualifying_heads fuel st (Some b)
                    = Ok (filter q (heads st))).
    { unfold qualifying_heads. now rewrite Hg. }
    destruct (@get_current_head_cases fuel st (Some b) _ Hqual)
      as (Hrun & _ & _ & Hreq).
    unfold head_request in *. rewrite Hg in *. split.
    + rewrite Hrun.
      destruct (filter q (heads st)) as [|h [|h2 l]]; reflexivity.
    + apply Hreq. intros b' [= <-]. apply Hbare.
Qed.

Lemma current_head_witness :
  (get_current_head 1 (built 9 Examples.labelled_fork) None
   = Err (MultipleHeads ["B"; "C"] "head"))
  /\ exists fuel0, forall fuel, (fuel0 <= fuel)%nat ->
       get_current_head (S fuel) (built 9 Examples.labelled_fork)
         (Some "rel1")
       = Ok (Some "B")
       /\ _resolve_revision_number (S (S fuel))
            (built 9 Examples.labelled_fork) (Some "rel1@head")
          = Ok ([Some "B"], Some "rel1").
Proof.
  destruct (current_head (built 9 Examples.labelled_fork)) as [H1 H2].
  split; [exact (proj1 (H1 0%nat))|].
  destruct (H2 Examples.labelled_fork 9%nat []
              (fun s => if String.eqb s "A" then 0 else 1)%nat "rel1" 1%nat)
    as (fuel0 & Hrun).
  - repeat constructor; eexists _, _, _; reflexivity.
  - repeat constructor; simpl; intuition discriminate.
  - reflexivity.
  - intros c d [<-|[<-|[<-|[]]]]; simpl; intros Hd;
      repeat (destruct Hd as [<-|Hd]; [simpl; lia|]); destruct Hd.
  - reflexivity.
  - repeat split.
  - reflexivity.
  - exists fuel0. intros fuel Hfuel.
    destruct (Hrun fuel Hfuel) as (q & Hq & Hhead & Hreq).
    assert (HB : q "B" = true).
    { apply (Hq "B"); [now left|]. left. constructor. }
    assert (HC : q "C" = false).
    { destruct (q "C") eqn:E; [|reflexivity]. exfalso.
      assert (Hbase : forall r,
                ~ edge _down_revision_tuple
                    (objs (built 9 Examples.labelled_fork))
                    (_revision_map (built 9 Examples.labelled_fork)) 0 r).
      { intros r (o & y & Ho & Hy & _). vm_compute in Ho.
        injection Ho as <-. destruct Hy. }
      assert (Hup : forall c r, (c = 1 \/ c = 2)%nat -> c <> r ->
                ~ ancestor (built 9 Examples.labelled_fork) c r \/ r = 0%nat).
      { intros c r Hc Hne. destruct (Nat.eq_dec r 0) as [->|Hr]; [now right|].
        left. intros Hanc.
        destruct (reach_inv_first Hanc) as [?|(m & He & Hm)]; [contradiction|].
        assert (m = 0%nat).
        { destruct He as (o & y & Ho & Hy & Hg).
          destruct Hc as [-> | ->]; vm_compute in Ho; injection Ho as <-;
            destruct Hy as [<-|[]]; vm_compute in Hg; congruence. }
        subst m. destruct (reach_inv_first Hm) as [?|(m' & He' & _)];
          [congruence | exact (Hbase _ He')]. }
      destruct (proj1 (Hq "C" (or_intror (or_introl eq_refl))) E) as [Ha|Ha].
      - destruct (Hup 2%nat 1%nat) as [N|N];
          [now right | discriminate | exact (N Ha) | discriminate].
      - destruct (Hup 1%nat 2%nat) as [N|N];
          [now left | discriminate | exact (N Ha) | discriminate]. }
    change (heads (built 9 Examples.labelled_fork)) with ["B"; "C"] in Hhead.
    cbn [filter] in Hhead. rewrite HB, HC in Hhead.
    split; [exact Hhead|].
    change ("rel1" ++ "@head")%string with "rel1@head" in Hreq.
    rewrite Hreq, Hhead. reflexivity.
Defined.
